(* ===== verification/_CoqProject ===== *)
-Q . S2P
Prelude.v
GoLib.v
Serializer.v
Config.v
Shard.v
ShardProofs.v
LRUSpec.v
ShardRefine.v
ShardTheorems.v
Store.v
MemoryStore.v
PebbleStore.v
PebbleProofs.v
Counters.v
LockEngine.v
LockProofs.v
Tags.v
HashRing.v
RingProofs.v
RingTheorems.v
Cluster.v
Transport.v
Pool.v
Goroutines.v
DiskRaces.v
Glob.v
GlobProofs.v
Broker.v
BrokerProofs.v
BrokerTheorems.v
Float64.v
Float64Proofs.v
RateLimit.v
RateProofs.v
RateTheorems.v
SlidingTheorems.v
Cache.v
CacheProofs.v
CacheLock.v
CacheTheorems.v
ClusterLocks.v
PoolProofs.v
Replication.v
Modes.v
Concurrent.v
Namespace.v
Events.v
GoStrings.v
Http.v
Server.v
ServerProofs.v
ServerTheorems.v
Middleware.v
MiddlewareProofs.v
Startup.v
Sessions.v
WebApi.v
Bookstore.v
Restart.v
Lifecycle.v
Examples.v
Main.v
