(* ===== verification/Prelude.v ===== *)
(** * CacheGrid: a verification of the cache, its cluster and its services

    CacheGrid is a cache library in Go: a node keeps serialized values in a
    store, in memory or on disk, and nodes can form a cluster that partitions or
    replicates the keys. On top of it are locks, rate limits, events for
    subscribers and an HTTP server; a command runs a node as a server, and example
    programs use the library. This development models the program part by part
    as executable definitions and proves what makes each part, and their
    composition, correct. Sources are named by their path under src/.

    ** The program and its model

    - A _shard_ (internal/cache: entry.go, eviction.go, shard.go) is a map of
      entries and a recency list of the same entries, with byte accounting and
      least-recently-used eviction. [Shard] has its state and one definition per
      method; [ShardProofs] the invariant [ShardWf]; [LRUSpec] an abstract
      recency list without map, list elements or counters; [ShardRefine] and
      [ShardTheorems] the simulation between the two.
    - The _stores_ implement the interface of store.go. [Store] is that interface
      as a class and its contract as a class of laws over an abstract view from
      keys to values with expiry. [MemoryStore] (store_memory.go) routes a key by
      hash to one of the shards; [PebbleStore] and [PebbleProofs]
      (store_pebble.go) keep values with an eight-byte expiry header in a
      database. Both satisfy the laws ([MemoryStore_Laws], [PebbleStore_Laws]).
      [Counters] says what Incr keeps, of which the contract is silent.
    - [Serializer] has errors.go and serializer.go, [Config] has config.go and
      the computation of the shard limit in cache.go.
    - [LockEngine] and [LockProofs] (internal/lock/lock.go): leases with secret
      tokens and fencing numbers.
    - [Tags] (tags.go): the index between tags and keys.
    - [HashRing], [RingProofs] and [RingTheorems] (internal/cluster/hashring.go):
      consistent hashing with virtual nodes and binary search.
    - [Cluster] (internal/cluster/state.go, member.go): the node table, and the
      membership events that change table and ring together.
    - [Transport] (internal/transport): the RPC messages, their dispatch to the
      handler interface, and the calls of a client, each one step over a network
      of hosts; [Pool] and [PoolProofs] the listener and the connections of
      rpc.go, the loop that serves one, and the steps of a call over them.
    - [Glob] and [GlobProofs]: path.Match, on bytes and runes; [Broker]
      (internal/pubsub) with channels, subscriptions, Publish and the hooks;
      [BrokerProofs] its invariant over runs, and [BrokerTheorems], where Publish
      also is a step relation; [Events] (pubsub.go) joins the broker to the
      effects that the cache logs.
    - [Float64] and [Float64Proofs]: float64 as rationals rounded to nearest even,
      with infinities and NaN; [RateLimit] (internal/ratelimit, ratelimit.go) the
      token bucket and the sliding window in that arithmetic; [RateProofs],
      [RateTheorems] and [SlidingTheorems].
    - [Cache], [CacheProofs] and [CacheTheorems] (cache.go, distributed.go, and
      the cache methods of tags.go): the operations of a node, in a state monad
      over the network and a log of effects, with the three distribution modes;
      [CacheLock] (lock.go) the locks taken through the cache, and [ClusterLocks]
      what they promise across a cluster; [Namespace] (namespace.go) the prefixed
      view. The cache's theorems are proved over any
      store that satisfies the laws of [Store]. [Replication] runs the goroutines
      that a replicated write starts, in any order; [Modes] has the near cache,
      counters in replicated mode, and tags across nodes.
    - [Goroutines] is about methods as programs of atomic actions: goroutines that
      call them at any time, histories of calls and returns, linearizations of a
      history, and two proofs that one exists, for methods that take effect in
      one action and for methods that hold a mutex. [Concurrent] cuts the methods
      of [Cache] into such programs, with the calls of the store, the tag index,
      the broker and the peers as actions; [DiskRaces] does so with the methods
      of the disk store, with the calls of the database as actions. That a
      program on its own is the method is proved for both ([program_alone],
      [diskProgram_alone]).
    - [GoStrings] and [Http]: what the HTTP code uses of strings, strconv, time
      and net/http, the response writer included; [Server] (internal/server) every
      handler, the routes and the middleware, as functions of a request, a clock,
      a writer and the node; [ServerProofs] and [ServerTheorems].
    - [Middleware] and [MiddlewareProofs] (middleware.go): rate limiting and
      response caching around any handler.
    - [Startup] (cache.go, internal/cluster/member.go, store.go): how New starts a
      cluster node. [Lifecycle] (cache.go, internal/cluster/member.go) has the
      instance with all its parts: the membership events with the callbacks of
      the cache, Shutdown as the steps of any number of callers, the sweeper.
      [Main] (cmd/cachegrid/main.go, internal/server/server.go) has the
      configuration from the environment and the process as steps of main and of
      its signal handler.
    - The examples: [Sessions] (examples/sessions) and [WebApi] (examples/webapi)
      are clients of the HTTP and cache models; [Restart] has the main of the
      former, [Bookstore] the main of the latter and its middleware. [Examples]
      (examples/basic, examples/pubsub) has two programs that are evaluated.
    - [GoLib] models what the sources use of Go: 64-bit integers with
      wrap-around, instants and durations, FNV-1a, big-endian integers. This file
      has the tactics, hint databases and lemmas on lists and maps that the
      others share.

    ** Conventions

    An int64 is a Z in range, and arithmetic that can leave the range wraps
    through [int64]. A time.Time is a number of nanoseconds since the zero Time.
    An operation takes a [Clock]: the reading of time.Now() at its i-th program
    point. Go leaves the iteration order of a map open: a definition that
    iterates takes the order of the run as an argument. A panic is None of an
    option type; an error is a value of [Error]. A mutex makes a method one
    step; where a method releases its lock in between (Exists and TTL of a
    shard), the model has two steps. Callbacks and goroutines an operation
    starts are part of its result: calls for the stores; for the cache, effects
    in the log and eviction callbacks that are still to run.

    Third-party code is a parameter with its documented behaviour as laws:
    msgpack ([Msgpack], [MsgpackLaws]), the Pebble database ([PebbleDB],
    [PebbleLaws]), the bytes of crypto/rand (an argument of Acquire), what gossip
    delivers (the events [MemberEvent], the fields of [Gossip]), the decoding
    of node metadata, the methods of memberlist ([Memberlist]). Of the standard
    library, encoding/json ([JsonCodec]), crypto/sha256, the format of dates and
    the figures of package runtime are parameters as well, since no theorem depends on what they compute, and so is
    the result of converting a float64 out of the range of int64, which Go leaves
    to the machine. Each class of laws has a concrete instance that the witnesses
    use.

    Loops that are not structural take fuel: the eviction loop the length of
    the recency list ([evict_loop_exit] shows it ends by itself), the binary
    search the length of the slice ([search_least]), the replica walk and the lock
    retries the bound of the loop in the source, the glob matcher and the parser
    of durations the length of the text ([path_Match_terminates],
    [parseLoop_fuel]).

    ** What the theorems show

    - Shard and memory: every run of operations answers, evicts and reports to its
      callbacks as the abstract recency list does; map, list and byte count stay consistent;
      memory stays within the limit; eviction takes no more than it must.
    - Stores: both implement the contract; sweeps remove exactly what has
      expired; the disk store's key count is exact, but for one case of Incr.
    - Locks: a lease excludes all others until it ends, on one engine and across a
      cluster; fencing numbers increase; stale tokens are refused; the cleanup
      goroutine cannot be observed.
    - Ring and cluster: lookup is the clockwise successor; joining or leaving moves
      only the keys of the node concerned; replicas are distinct members; the
      ring follows the live nodes, and nodes that see the same members agree on
      every owner. These assume that virtual nodes do not collide; a theorem
      shows what a collision does.
    - Cache: a value written at any node of a cluster is read at any other;
      tag invalidation is exact; guards change nothing; namespaces without a colon
      in their names are isolated. A replicated write reaches every live node,
      and the near cache reads what was written.
    - Goroutines: the cache of a node on its own is linearizable over stores whose
      methods are atomic, as those of the memory store are, and a Get returns
      what was written last. The disk store is linearizable for Get, Exists and
      Set while nothing expires, and loses no increments among calls of Incr.
    - Transport: a call that has its connection to itself is the one-step call
      the cluster theorems use; a connection's requests are answered in order;
      Stop releases the listener and the pool.
    - Lifecycle: concurrent calls of Shutdown close every part once, the broker and
      the membership included; a node that leaves is forgotten; a tick of the
      sweeper over a memory store clears and reports what has expired and nothing
      else; the exit status of the server process says why it ended.
    - Events: the broker never panics, Publish reaches exactly the open matching
      subscriptions with room, a subscriber reads the matching events in order,
      and patterns mean what they say; no interleaving of Publish with the other
      operations panics while subscribers do not close; a Set reaches the
      subscribers of its node.
    - Rate limits: bounds on the tokens, on the requests allowed in a time and in a
      burst, and the weight that the sliding window gives to the window before,
      with the rounding of float64 accounted for; with valid arguments nobody is
      locked out.
    - HTTP: every request is answered; what is PUT at one node is read by GET at
      another; the rate limit endpoint keeps the limiter in the states its
      theorems are about; the response cache replays what it recorded, of each
      header field the first value. A node that starts alone serves every key.
    - Examples: a session lasts while it is used, also over a restart that finds its
      entry on disk, and ends with logout; the bookstore never oversells, and, with
      its requests one at a time, its handlers never show a stale book, and its
      response cache none that is older than thirty seconds; the other two programs
      show what they announce.
    - Some theorems state behaviour that is surely not intended: counters that
      become permanent, a count that drifts, lifetimes that overflow, orphaned
      keys, limits that round to unlimited, colliding namespaces; responses that
      overlapping calls swap, a panic when a subscriber closes, buckets poisoned
      by a window of zero, windows that limit nothing, locks that cannot be
      released over HTTP, event streams that are always refused, clients that
      share a limit, a store left open; replicas that diverge, near copies that
      outlive their originals, counters and tags that other nodes do not see,
      tags dropped by a late callback, peers that write to a closed store, a
      signal that ends the process before the cache is shut down, expired
      sessions that are counted; on the disk store reads that delete what was
      just written, a count that goroutines get wrong, an Incr that undoes a Set;
      a Delete that drops the tags of a concurrent SetWithTags.

    ** What is not modelled

    Network and disk I/O (what listening, accepting, reading and writing return is
    an argument), the byte format of RPC messages, and gossip itself. Goroutines
    interleave within the methods of [Concurrent] and [DiskRaces], Publish,
    Shutdown, replicated writes, the signal handler and calls over a connection;
    elsewhere a method is one step. The calls of [Concurrent] leave out Exists
    and TTL, which release the lock of a shard in between, and the sweeper. Its
    theorems are about a node on its own: in a cluster a call is answered by the
    owner of the key, and the near cache and replication are not linearizable.
    The bookstore's theorems about what it shows have requests one after the other,
    with the eviction callbacks of each run before the next: overlapping requests
    can cache what has just been changed. What a process that ends without closing
    its disk store has written may be lost; [Restart] is about databases that have
    the entry it asks for. Of the HTTP server the timeouts and
    paths that are not clean are left out; of the examples serving, the lines
    that the servers log when they start, and the clean-up at the end of the tour
    and pub/sub programs. The node of [Server] holds the caches of the whole network
    and the limiters and the broker of one node: what the cache publishes while a
    request is served is in its log, which [Events] performs. *)
From stdpp Require Export base numbers gmap strings list fin_maps.
From Stdlib Require Export ZArith Lia.

Open Scope Z_scope.

(** ** Tactics *)

(** Turn boolean comparisons of integers in the context into propositions. *)
Ltac zbool :=
  repeat match goal with
  | H : (_ <? _) = true |- _ => apply Z.ltb_lt in H
  | H : (_ <? _) = false |- _ => apply Z.ltb_ge in H
  | H : (_ <=? _) = true |- _ => apply Z.leb_le in H
  | H : (_ <=? _) = false |- _ => apply Z.leb_gt in H
  | H : (_ >? _) = true |- _ => rewrite Z.gtb_ltb in H; apply Z.ltb_lt in H
  | H : (_ >? _) = false |- _ => rewrite Z.gtb_ltb in H; apply Z.ltb_ge in H
  | H : (_ =? _) = true |- _ => apply Z.eqb_eq in H
  | H : (_ =? _) = false |- _ => apply Z.eqb_neq in H
  | H : _ && _ = true |- _ => apply andb_true_iff in H; destruct H
  | H : _ || _ = false |- _ => apply orb_false_iff in H; destruct H
  | H : negb _ = true |- _ => apply negb_true_iff in H
  | H : negb _ = false |- _ => apply negb_false_iff in H
  end.

(** Split on the scrutinee of a match or conditional, wherever it is, keeping
    its equation. *)
Ltac split_match :=
  match goal with
  | |- context [match ?x with _ => _ end] =>
      lazymatch x with
      | context [match _ with _ => _ end] => fail
      | _ => destruct x eqn:?
      end
  | H : context [match ?x with _ => _ end] |- _ =>
      lazymatch x with
      | context [match _ with _ => _ end] => fail
      | _ => destruct x eqn:?
      end
  end.

Ltac split_matches := repeat (split_match; simplify_eq/=); zbool.

(** Prove a closed decidable proposition by evaluating its decision. *)
Ltac by_decide := apply (bool_decide_unpack _); vm_compute; exact I.

(** ** Hint databases *)

(** [cgwf]: invariant preservation; [cgz]: arithmetic rewriting. *)
Create HintDb cgwf discriminated.
Create Rewrite HintDb cgz.

(** ** Lists *)

(** Sum of a measure over a list, as the byte accounting uses it. *)
Definition sumZ {A} (f : A -> Z) (l : list A) : Z :=
  foldr (fun x acc => f x + acc) 0 l.

Section SumZ.
Context {A : Type} (f : A -> Z).
Implicit Types l : list A.

Lemma sumZ_app l1 l2 : sumZ f (l1 ++ l2) = sumZ f l1 + sumZ f l2.
Proof. induction l1 as [|x l1 IH]; simpl; [done|]. rewrite IH. lia. Qed.

Lemma sumZ_perm l1 l2 : l1 ≡ₚ l2 -> sumZ f l1 = sumZ f l2.
Proof. induction 1; simpl; lia. Qed.

Lemma sumZ_nonneg l : (forall x, x ∈ l -> 0 <= f x) -> 0 <= sumZ f l.
Proof.
  induction l as [|x l IH]; simpl; intros H; [lia|].
  specialize (H x) as Hx. specialize (Hx ltac:(set_solver)).
  assert (0 <= sumZ f l) by (apply IH; set_solver). lia.
Qed.
End SumZ.

Lemma sumZ_prefix_le {A} (f : A -> Z) (l1 l2 : list A) :
  (forall x, x ∈ l2 -> 0 <= f x) -> sumZ f l1 <= sumZ f (l1 ++ l2).
Proof. intros H. rewrite sumZ_app. pose proof (sumZ_nonneg f l2 H). lia. Qed.

(** The longest prefix whose total weight stays within a budget. *)
Fixpoint keep_fit {A} (w : A -> Z) (budget : Z) (l : list A) : list A :=
  match l with
  | [] => []
  | x :: l' => if w x <=? budget then x :: keep_fit w (budget - w x) l' else []
  end.

Section KeepFit.
Context {A : Type} (w : A -> Z) (w_nonneg : forall x, 0 <= w x).
Implicit Types l : list A.

Lemma keep_fit_all b l : sumZ w l <= b -> keep_fit w b l = l.
Proof using w_nonneg.
  revert b. induction l as [|x l IH]; simpl; intros b Hb; [done|].
  assert (0 <= sumZ w l) by (apply sumZ_nonneg; auto).
  destruct (Z.leb_spec (w x) b); [|lia]. f_equal. apply IH. lia.
Qed.

Lemma keep_fit_snoc b l x : b < sumZ w (l ++ [x]) -> keep_fit w b (l ++ [x]) = keep_fit w b l.
Proof.
  revert b. induction l as [|y l IH]; simpl; intros b Hb.
  - destruct (Z.leb_spec (w x) b); [lia|done].
  - destruct (w y <=? b); [|done]. f_equal. apply IH. lia.
Qed.

Lemma keep_fit_sum b l : 0 <= b -> sumZ w (keep_fit w b l) <= b.
Proof.
  revert b. induction l as [|x l IH]; simpl; intros b Hb; [done|].
  destruct (Z.leb_spec (w x) b); simpl; [|lia].
  specialize (IH (b - w x) ltac:(lia)). lia.
Qed.

(** No longer prefix fits. *)
Lemma keep_fit_maximal b l x rest :
  l = keep_fit w b l ++ x :: rest -> b < sumZ w (keep_fit w b l) + w x.
Proof.
  revert b. induction l as [|y l IH]; simpl; intros b Hl; [done|].
  destruct (Z.leb_spec (w y) b); simpl in *; simplify_eq; [|lia].
  specialize (IH (b - w y) ltac:(done)). lia.
Qed.

Lemma keep_fit_prefix b l : keep_fit w b l `prefix_of` l.
Proof.
  revert b. induction l as [|x l IH]; simpl; intros b; [done|].
  destruct (w x <=? b); [|by apply prefix_nil]. by apply prefix_cons.
Qed.
End KeepFit.

Lemma keep_fit_fmap {A B} (g : A -> B) (w : B -> Z) b (l : list A) :
  keep_fit w b (g <$> l) = g <$> keep_fit (w ∘ g) b l.
Proof.
  revert b. induction l as [|x l IH]; simpl; intros b; [done|].
  destruct (_ <=? _); simpl; [|done]. by rewrite IH.
Qed.

(** Every non-empty list is a prefix plus its last element. *)
Lemma list_snoc_inv {A} (l : list A) : l ≠ [] -> exists l' x, l = l' ++ [x].
Proof. destruct l using rev_ind; [done|eauto]. Qed.

Lemma list_filter_ext {A} (P Q : A -> Prop) `{!forall x, Decision (P x), !forall x, Decision (Q x)}
    (l : list A) :
  (forall x, x ∈ l -> P x <-> Q x) -> filter P l = filter Q l.
Proof.
  induction l as [|x l IH]; intros HPQ; [done|].
  rewrite !filter_cons. rewrite IH by (intros y Hy; apply HPQ; by constructor).
  pose proof (HPQ x ltac:(by constructor)). repeat case_decide; tauto.
Qed.

Lemma list_filter_all {A} (P : A -> Prop) `{!forall x, Decision (P x)} (l : list A) :
  (forall x, x ∈ l -> P x) -> filter P l = l.
Proof.
  induction l as [|x l IH]; intros HP; [done|]. rewrite filter_cons, decide_True.
  - f_equal. apply IH. intros y Hy. apply HP. by constructor.
  - apply HP. by constructor.
Qed.

Lemma list_filter_none {A} (P : A -> Prop) `{!forall x, Decision (P x)} (l : list A) :
  (forall x, x ∈ l -> ~ P x) -> filter P l = [].
Proof.
  induction l as [|x l IH]; intros HP; [done|]. rewrite filter_cons, decide_False.
  - apply IH. intros y Hy. apply HP. by constructor.
  - apply HP. by constructor.
Qed.

Lemma filter_split_length {A} (f : A -> bool) (l : list A) :
  (length (filter (fun x => f x = true) l) + length (filter (fun x => f x = false) l)
   = length l)%nat.
Proof.
  induction l as [|x l IH]; [done|]. rewrite !filter_cons.
  destruct (f x); simpl; lia.
Qed.

Lemma filter_fmap {A B} (g : A -> B) (P : B -> Prop) `{!forall x, Decision (P x)} (l : list A) :
  filter P (g <$> l) = g <$> filter (fun x => P (g x)) l.
Proof.
  induction l as [|x l IH]; [done|].
  rewrite fmap_cons, !filter_cons. case_decide; rewrite IH; done.
Qed.

Lemma omap_filter_fmap {A B} (f : A -> option B) (g : A -> B) (P : A -> bool) (l : list A) :
  (forall x, f x = if P x then Some (g x) else None) ->
  omap f l = g <$> filter (fun x => P x = true) l.
Proof.
  intros Hf. induction l as [|x l IH]; [done|]. rewrite filter_cons. csimpl.
  rewrite Hf, IH. by destruct (P x).
Qed.

(** Lists whose elements are told apart by a key. *)
Section Keyed.
Context {A B : Type} `{EqDecision B} (f : A -> B).
Implicit Types l : list A.

Lemma NoDup_fmap_filter (P : A -> Prop) `{!forall x, Decision (P x)} l :
  NoDup (f <$> l) -> NoDup (f <$> filter P l).
Proof.
  induction l as [|x l IH]; [done|]. rewrite fmap_cons, NoDup_cons, filter_cons.
  intros [Hn Hd]. case_decide; [|auto]. rewrite fmap_cons, NoDup_cons.
  split; [|auto]. intros (y & Hy & Hin)%list_elem_of_fmap.
  apply list_elem_of_filter in Hin as [_ Hin].
  apply Hn. rewrite Hy. by apply list_elem_of_fmap_2.
Qed.

Lemma keyed_inj l x y :
  NoDup (f <$> l) -> x ∈ l -> y ∈ l -> f x = f y -> x = y.
Proof.
  induction l as [|e l IH]; [set_solver|].
  rewrite fmap_cons, NoDup_cons. intros [Hn Hd] H1 H2 He.
  apply elem_of_cons in H1 as [->|H1], H2 as [->|H2]; auto.
  - destruct Hn. rewrite He. by apply list_elem_of_fmap_2.
  - destruct Hn. rewrite <- He. by apply list_elem_of_fmap_2.
Qed.

Lemma filter_key_none l k : (forall x, x ∈ l -> f x ≠ k) -> filter (fun x => f x ≠ k) l = l.
Proof.
  induction l as [|x l IH]; intros H; [done|]. rewrite filter_cons.
  rewrite decide_True by set_solver. f_equal. apply IH. set_solver.
Qed.

Lemma filter_key_one l x :
  NoDup (f <$> l) -> x ∈ l -> filter (fun y => f y = f x) l = [x].
Proof.
  induction l as [|e l IH]; [set_solver|].
  rewrite fmap_cons, NoDup_cons, filter_cons. intros [Hn Hd] Hx.
  apply elem_of_cons in Hx as [->|Hx].
  - rewrite decide_True by done. f_equal.
    destruct (filter _ l) as [|y l'] eqn:E; [done|].
    assert (y ∈ filter (fun y => f y = f e) l) as Hy by (rewrite E; set_solver).
    apply list_elem_of_filter in Hy as [Hy Hin]. destruct Hn.
    rewrite <- Hy. by apply list_elem_of_fmap_2.
  - rewrite decide_False; [auto|]. intros He. destruct Hn.
    rewrite He. by apply list_elem_of_fmap_2.
Qed.

Lemma keyed_perm l x :
  NoDup (f <$> l) -> x ∈ l -> l ≡ₚ x :: filter (fun y => f y ≠ f x) l.
Proof.
  induction l as [|e l IH]; [set_solver|].
  rewrite fmap_cons, NoDup_cons, filter_cons. intros [Hn Hd] Hx.
  destruct (decide (f e ≠ f x)) as [Hne|He]; [|apply dec_stable in He].
  - apply elem_of_cons in Hx as [->|Hx]; [done|].
    rewrite <- Permutation_swap. f_equiv. auto.
  - assert (x = e) as ->.
    { apply elem_of_cons in Hx as [->|Hx]; [done|].
      destruct Hn. rewrite He. by apply list_elem_of_fmap_2. }
    rewrite filter_key_none; [done|]. intros y Hy Heq. destruct Hn.
    rewrite <- Heq. by apply list_elem_of_fmap_2.
Qed.
End Keyed.

#[export] Instance byte_eq_dec : EqDecision Byte.byte := Byte.byte_eq_dec.

(** ** Finite maps *)

Lemma map_size_delete_Some {K A} `{Countable K} (m : gmap K A) k x :
  m !! k = Some x -> Z.of_nat (size (delete k m)) = Z.of_nat (size m) - 1.
Proof.
  intros Hk. rewrite <- (insert_delete_id m k x Hk) at 2.
  rewrite map_size_insert_None by apply lookup_delete_eq. lia.
Qed.

Lemma map_to_list_filter {K A} `{Countable K} (P : K * A -> Prop)
    `{!forall x, Decision (P x)} (m : gmap K A) :
  map_to_list (filter P m) ≡ₚ filter P (map_to_list m).
Proof.
  rewrite map_filter_alt, map_to_list_to_map; [done|].
  apply NoDup_fmap_filter, NoDup_fst_map_to_list.
Qed.

Lemma map_size_filter_list {K A} `{Countable K} (P : K * A -> Prop)
    `{!forall x, Decision (P x)} (m : gmap K A) :
  size (filter P m) = length (filter P (map_to_list m)).
Proof. by rewrite <- length_map_to_list, map_to_list_filter. Qed.
