(* ===== verification/GoLib.v ===== *)
(** What the sources use of Go itself: fixed-width integers, instants and
    durations of package time, FNV-1a of hash/fnv, and the big-endian codec of
    encoding/binary. *)
From S2P Require Import Prelude.

(** ** Machine integers

    An [int64] (also [int] and [time.Duration] on 64-bit targets) is a [Z] in
    [-2^63, 2^63); arithmetic wraps around through [int64]. *)

Definition int64 (z : Z) : Z := (z + 2 ^ 63) mod 2 ^ 64 - 2 ^ 63.
Definition uint64 (z : Z) : Z := z mod 2 ^ 64.
Definition uint32 (z : Z) : Z := z mod 2 ^ 32.

Definition is_int64 (z : Z) : Prop := - 2 ^ 63 <= z < 2 ^ 63.
Definition minDuration : Z := - 2 ^ 63.
Definition maxDuration : Z := 2 ^ 63 - 1.

Lemma int64_id z : is_int64 z -> int64 z = z.
Proof. unfold int64, is_int64. intros. rewrite Z.mod_small; lia. Qed.

Lemma int64_range z : is_int64 (int64 z).
Proof.
  unfold int64, is_int64.
  pose proof (Z.mod_pos_bound (z + 2 ^ 63) (2 ^ 64) ltac:(lia)). lia.
Qed.

Lemma int64_eq_mod a b : a mod 2 ^ 64 = b mod 2 ^ 64 -> int64 a = int64 b.
Proof.
  unfold int64. intros H. f_equal.
  rewrite Z.add_mod, H, <- Z.add_mod; lia.
Qed.

Lemma int64_mod z : int64 z mod 2 ^ 64 = z mod 2 ^ 64.
Proof.
  unfold int64. rewrite Zminus_mod, Zmod_mod, <- Zminus_mod.
  f_equal. lia.
Qed.

Lemma int64_add_l a b : int64 (int64 a + b) = int64 (a + b).
Proof.
  apply int64_eq_mod. rewrite Z.add_mod, int64_mod, <- Z.add_mod; lia.
Qed.

Lemma int64_add_r a b : int64 (a + int64 b) = int64 (a + b).
Proof. rewrite Z.add_comm, int64_add_l. f_equal. lia. Qed.

Lemma int64_sub_l a b : int64 (int64 a - b) = int64 (a - b).
Proof. rewrite <- !Z.add_opp_r. apply int64_add_l. Qed.

Lemma int64_sub_r a b : int64 (a - int64 b) = int64 (a - b).
Proof.
  apply int64_eq_mod. rewrite Zminus_mod, int64_mod, <- Zminus_mod. done.
Qed.

Lemma int64_idemp a : int64 (int64 a) = int64 a.
Proof. apply int64_id, int64_range. Qed.

#[export] Hint Rewrite int64_add_l int64_add_r int64_sub_l int64_sub_r int64_idemp : cgz.

(** ** Package time

    A [time.Time] is the number of nanoseconds since the zero Time (January 1,
    year 1, UTC), so that [IsZero] is a test against 0. A [time.Duration] is an
    int64 number of nanoseconds. [Sub] saturates, as the library documents. *)

Abbreviation Time := Z (only parsing).
Abbreviation Duration := Z (only parsing).

Definition Nanosecond : Duration := 1.
Definition Second : Duration := 1000000000.

Definition zeroTime : Time := 0.
Definition IsZero (t : Time) : bool := t =? 0.
Definition After (t u : Time) : bool := t >? u.
Definition Add (t : Time) (d : Duration) : Time := t + d.
Definition Sub (t u : Time) : Duration :=
  Z.max minDuration (Z.min maxDuration (t - u)).

(** [time.Until(t)] is [t.Sub(time.Now())]. *)
Definition Until (t now : Time) : Duration := Sub t now.

(** Seconds from the zero Time to the Unix epoch, in nanoseconds. *)
Definition unixEpoch : Time := 62135596800 * Second.

(** [UnixNano] is computed in int64 and wraps outside 1678..2262. *)
Definition UnixNano (t : Time) : Z := int64 (t - unixEpoch).
Definition Unix0 (nsec : Z) : Time := unixEpoch + nsec.

(** ** The clock

    [time.Now()] is called several times within one operation. An operation
    takes the readings as a [Clock]: the reading at its i-th program point that
    calls time.Now() is [clk i]. Go's monotonic clock never goes backwards, and
    the readings lie between 1970 and 2262, where UnixNano is exact. *)

Definition Clock := nat -> Time.

Definition advance (k : nat) (clk : Clock) : Clock := fun i => clk (k + i)%nat.

Record ClockOk (clk : Clock) : Prop := {
  clock_mono : forall i j, (i <= j)%nat -> clk i <= clk j;
  clock_range : forall i, unixEpoch < clk i < unixEpoch + 2 ^ 63;
}.

Lemma clock_pos_at clk i : ClockOk clk -> 0 < clk i.
Proof.
  intros [_ Hr]. specialize (Hr i). unfold unixEpoch, Second in Hr. lia.
Qed.

Lemma advance_ok k clk : ClockOk clk -> ClockOk (advance k clk).
Proof. intros [Hm Hr]. split; unfold advance; auto. intros i j Hij. apply Hm. lia. Qed.
#[export] Hint Resolve advance_ok clock_pos_at : cgwf.

(** A clock that shows the same instant at every reading. *)
Definition frozen (t : Time) : Clock := fun _ => t.

Lemma frozen_ok t : unixEpoch < t < unixEpoch + 2 ^ 63 -> ClockOk (frozen t).
Proof. split; unfold frozen; intros; lia. Qed.

(** ** Bytes and strings *)

Abbreviation bytes := (list Byte.byte).

Definition len (s : string) : Z := Z.of_nat (String.length s).
Definition lenb (b : bytes) : Z := Z.of_nat (length b).

Fixpoint string_bytes (s : string) : list Z :=
  match s with
  | EmptyString => []
  | String c s' => Z.of_N (Ascii.N_of_ascii c) :: string_bytes s'
  end.

(** ** hash/fnv: 32-bit FNV-1a

    [h.Write] folds the bytes: xor, then multiply modulo 2^32. *)

Definition fnv_offset32 : Z := 2166136261.
Definition fnv_prime32 : Z := 16777619.

Definition fnv32a_write (h : Z) (bs : list Z) : Z :=
  foldl (fun h b => uint32 (Z.lxor h b * fnv_prime32)) h bs.

Definition fnv32a (s : string) : Z := fnv32a_write fnv_offset32 (string_bytes s).

Lemma fnv32a_range s : 0 <= fnv32a s < 2 ^ 32.
Proof.
  unfold fnv32a. generalize (string_bytes s). intros l.
  induction l as [|b l IH] using rev_ind.
  - unfold fnv_offset32. simpl. lia.
  - unfold fnv32a_write, uint32. rewrite foldl_app. simpl.
    apply Z.mod_pos_bound. lia.
Qed.

(** The test vectors published with FNV. *)
Example fnv32a_empty : fnv32a "" = 2166136261.
Proof. reflexivity. Qed.
Example fnv32a_a : fnv32a "a" = 3826002220.
Proof. vm_compute. reflexivity. Qed.
Example fnv32a_foobar : fnv32a "foobar" = 3214735720.
Proof. vm_compute. reflexivity. Qed.

(** ** encoding/binary: BigEndian.PutUint64 and BigEndian.Uint64 *)

Definition byte_of_Z (z : Z) : Byte.byte :=
  match Byte.of_N (Z.to_N (z mod 256)) with
  | Some b => b
  | None => Byte.x00
  end.

Definition Z_of_byte (b : Byte.byte) : Z := Z.of_N (Byte.to_N b).

Fixpoint be_put (n : nat) (z : Z) : bytes :=
  match n with
  | O => []
  | S n' => byte_of_Z (Z.shiftr z (8 * Z.of_nat n')) :: be_put n' z
  end.

Definition be_get (bs : bytes) : Z :=
  foldl (fun acc b => Z.lor (Z.shiftl acc 8) (Z_of_byte b)) 0 bs.

Definition PutUint64 (v : Z) : bytes := be_put 8 v.
Definition Uint64 (bs : bytes) : Z := be_get bs.

Lemma Z_of_byte_range b : 0 <= Z_of_byte b < 256.
Proof.
  unfold Z_of_byte. pose proof (Byte.to_N_bounded b). lia.
Qed.

Lemma Z_of_byte_of_Z z : Z_of_byte (byte_of_Z z) = z mod 256.
Proof.
  unfold Z_of_byte, byte_of_Z.
  pose proof (Z.mod_pos_bound z 256 ltac:(lia)) as Hr.
  destruct (Byte.of_N _) as [b|] eqn:E.
  - apply Byte.to_of_N in E. rewrite E. lia.
  - apply Byte.of_N_None_iff in E. lia.
Qed.

Lemma length_be_put n z : length (be_put n z) = n.
Proof. induction n; simpl; auto. Qed.

Lemma lor_shift8 a b : 0 <= b < 256 -> Z.lor (Z.shiftl a 8) b = a * 256 + b.
Proof.
  intros Hb.
  assert (Hl : Z.land (Z.shiftl a 8) b = 0).
  { apply Z.bits_inj'. intros n Hn. rewrite Z.land_spec, Z.bits_0.
    destruct (Z.lt_ge_cases n 8).
    - by rewrite Z.shiftl_spec_low.
    - replace b with (b mod 2 ^ 8) by (apply Z.mod_small; lia).
      rewrite Z.mod_pow2_bits_high by lia. apply andb_false_r. }
  rewrite <- Z.lxor_lor, <- Z.add_nocarry_lxor, Z.shiftl_mul_pow2 by (done || lia).
  lia.
Qed.

Lemma be_get_put_from n z acc :
  foldl (fun acc b => Z.lor (Z.shiftl acc 8) (Z_of_byte b)) acc (be_put n z)
  = acc * 2 ^ (8 * Z.of_nat n) + z mod 2 ^ (8 * Z.of_nat n).
Proof.
  revert acc. induction n as [|n IH]; intros acc.
  - simpl. rewrite Z.mod_1_r. lia.
  - cbn [be_put foldl]. rewrite IH, lor_shift8 by apply Z_of_byte_range.
    rewrite Z_of_byte_of_Z, Z.shiftr_div_pow2 by lia.
    replace (8 * Z.of_nat (S n)) with (8 * Z.of_nat n + 8) by lia.
    rewrite Z.pow_add_r by lia. set (p := 2 ^ (8 * Z.of_nat n)).
    assert (0 < p) by (apply Z.pow_pos_nonneg; lia).
    change (2 ^ 8) with 256.
    rewrite Z.rem_mul_r by lia. lia.
Qed.

Lemma be_get_put n z : be_get (be_put n z) = z mod 2 ^ (8 * Z.of_nat n).
Proof. unfold be_get. rewrite be_get_put_from. lia. Qed.

Lemma Uint64_PutUint64 v : Uint64 (PutUint64 v) = uint64 v.
Proof. unfold Uint64, PutUint64. rewrite be_get_put. done. Qed.
