(* ===== verification/Serializer.v ===== *)
(** Errors (errors.go) and the serializer (internal/cache/serializer.go).

    msgpack is a third-party package: it is the class [Msgpack], with what the
    cache relies on as the class [MsgpackLaws]. *)
From S2P Require Import Prelude GoLib.

(** ** errors.go *)

(** The sentinel errors of errors.go, an error wrapped by
    [fmt.Errorf("%w: %v", ErrSerializationFailed, err)], and an error that a
    package outside the repository returned. *)
Inductive Error :=
  | ErrNotFound
  | ErrExpired
  | ErrKeyEmpty
  | ErrSerializationFailed
  | ErrShutdown
  | ErrNodeNotFound
  | ErrRemoteCall
  | ErrLockNotAcquired
  | ErrLockNotHeld
  | ErrRateLimited
  | ErrWrap (sentinel : Error) (cause : Error)
  | ErrText (msg : string)
  | ErrExternal (msg : string).

#[export] Instance Error_eq_dec : EqDecision Error.
Proof. solve_decision. Defined.

Inductive result (A : Type) :=
  | Ok (a : A)
  | Err (e : Error).
Arguments Ok {A} a.
Arguments Err {A} e.

(** ** Go values that reach the serializer

    An [interface{}] is a byte slice, an int64 (the counters), or any other Go
    value; a destination pointer is a [*[]byte] or a pointer to a type of the
    caller's choice. *)

Inductive GoValue (V : Type) :=
  | GBytes (b : bytes)
  | GInt64 (z : Z)
  | GOther (v : V).
Arguments GBytes {V} b.
Arguments GInt64 {V} z.
Arguments GOther {V} v.

Inductive Dest (T : Type) :=
  | DBytes
  | DInt64
  | DOther (t : T).
Arguments DBytes {T}.
Arguments DInt64 {T}.
Arguments DOther {T} t.

(** msgpack.Marshal and msgpack.Unmarshal, at int64 and at the other types. *)
Class Msgpack (V T : Type) := {
  MarshalInt64 : Z -> result bytes;
  UnmarshalInt64 : bytes -> result Z;
  MarshalOther : V -> result bytes;
  UnmarshalOther : bytes -> T -> result V;
}.

(** What the counters rely on: an int64 encodes, and decodes to itself; a
    decoded counter is an int64, and the encoding takes at most nine bytes. *)
Class MsgpackLaws (V T : Type) `{Msgpack V T} := {
  int64_codec : forall z, is_int64 z ->
    exists b, MarshalInt64 z = Ok b /\ UnmarshalInt64 b = Ok z;
  int64_decoded : forall b z, UnmarshalInt64 b = Ok z -> is_int64 z;
  int64_width : forall z b, MarshalInt64 z = Ok b -> lenb b <= 9;
}.

Section Serializer.
Context {V T : Type} `{Msgpack V T}.

(** Serialize: a []byte is returned as it is. *)
Definition Serialize (value : GoValue V) : result bytes :=
  match value with
  | GBytes b => Ok b
  | GInt64 z => MarshalInt64 z
  | GOther v => MarshalOther v
  end.

(** Deserialize: what is written through [dest], or the error. *)
Definition Deserialize (data : bytes) (dest : Dest T) : result (GoValue V) :=
  match dest with
  | DBytes => Ok (GBytes data)
  | DInt64 =>
      match UnmarshalInt64 data with
      | Ok z => Ok (GInt64 z)
      | Err e => Err e
      end
  | DOther t =>
      match UnmarshalOther data t with
      | Ok v => Ok (GOther v)
      | Err e => Err e
      end
  end.
End Serializer.

(** ** A concrete codec

    The int64 format of msgpack: tag 0xd3 and eight big-endian bytes. It shows
    that the laws can hold and lets concrete runs evaluate. *)

Definition tagged_msgpack : Msgpack Empty_set Empty_set := {|
  MarshalInt64 z := Ok (Byte.xd3 :: PutUint64 (uint64 z));
  UnmarshalInt64 b :=
    match b with
    | Byte.xd3 :: b' =>
        if (length b' =? 8)%nat then Ok (int64 (Uint64 b'))
        else Err (ErrExternal "msgpack: EOF")
    | _ => Err (ErrExternal "msgpack: invalid code decoding int64")
    end;
  MarshalOther (v : Empty_set) := match v with end;
  UnmarshalOther _ (t : Empty_set) := match t with end;
|}.

Lemma int64_uint64 z : int64 (uint64 z) = int64 z.
Proof. apply int64_eq_mod. unfold uint64. apply Zmod_mod. Qed.

Lemma tagged_msgpack_laws : @MsgpackLaws _ _ tagged_msgpack.
Proof.
  split.
  - intros z Hz. eexists. split; [reflexivity|].
    cbn [UnmarshalInt64 tagged_msgpack].
    replace (length (PutUint64 (uint64 z))) with 8%nat
      by (unfold PutUint64; by rewrite length_be_put).
    cbn [Nat.eqb]. by rewrite Uint64_PutUint64, !int64_uint64, int64_id.
  - intros b z. cbn [UnmarshalInt64 tagged_msgpack]. intros E.
    destruct b as [|[]]; try done. destruct (_ =? _)%nat; [|done].
    injection E as <-. apply int64_range.
  - intros z b [= <-]. unfold lenb. simpl. lia.
Qed.

(** The same for integers, with some encoding of the values of a countable type. *)

Fixpoint digits (p : positive) : bytes :=
  match p with
  | xI p => Byte.x01 :: digits p
  | xO p => Byte.x00 :: digits p
  | xH => []
  end.
Fixpoint undigits (b : bytes) : positive :=
  match b with
  | [] => 1
  | Byte.x01 :: b => xI (undigits b)
  | _ :: b => xO (undigits b)
  end.

Lemma undigits_digits p : undigits (digits p) = p.
Proof. induction p as [p IH|p IH|]; cbn; by rewrite ?IH. Qed.

Section CountableCodec.
Context {V : Type} `{Countable V}.

Definition digits_of (v : V) : bytes := digits (countable.encode v).

Definition countable_msgpack : Msgpack V unit := {|
  MarshalInt64 := MarshalInt64 (Msgpack := tagged_msgpack);
  UnmarshalInt64 := UnmarshalInt64 (Msgpack := tagged_msgpack);
  MarshalOther v := Ok (digits_of v);
  UnmarshalOther b _ :=
    match countable.decode (undigits b) with Some v => Ok v | None => Err (ErrExternal "msgpack: EOF") end;
|}.

Lemma countable_msgpack_laws : @MsgpackLaws _ _ countable_msgpack.
Proof. destruct tagged_msgpack_laws as [L1 L2 L3]. by split. Qed.

Lemma digits_of_decode v : UnmarshalOther (Msgpack := countable_msgpack) (digits_of v) tt = Ok v.
Proof. cbn. unfold digits_of. by rewrite undigits_digits, countable.decode_encode. Qed.

(** The same on a machine with a terabyte of memory. *)
Definition bounded_msgpack : Msgpack V unit := {|
  MarshalInt64 := MarshalInt64 (Msgpack := tagged_msgpack);
  UnmarshalInt64 := UnmarshalInt64 (Msgpack := tagged_msgpack);
  MarshalOther v :=
    if lenb (digits_of v) <? 2 ^ 40 then Ok (digits_of v) else Err (ErrExternal "out of memory");
  UnmarshalOther := UnmarshalOther (Msgpack := countable_msgpack);
|}.

Lemma bounded_marshal v data : MarshalOther (Msgpack := bounded_msgpack) v = Ok data -> lenb data < 2 ^ 40.
Proof. cbn. destruct (Z.ltb_spec (lenb (digits_of v)) (2 ^ 40)); intros [= <-]. done. Qed.

Lemma bounded_decode v data : MarshalOther (Msgpack := bounded_msgpack) v = Ok data ->
  UnmarshalOther (Msgpack := bounded_msgpack) data tt = Ok v.
Proof. cbn. destruct (Z.ltb_spec (lenb (digits_of v)) (2 ^ 40)); intros [= <-]. apply digits_of_decode. Qed.
End CountableCodec.
