(* ===== verification/Config.v ===== *)
(** config.go and the storage modes of store.go. *)
From stdpp Require Import pretty.
From S2P Require Import Prelude GoLib Serializer.

Inductive Mode := Partitioned | Replicated | NearCache.
Inductive StorageMode := Memory | Disk.

#[export] Instance Mode_eq_dec : EqDecision Mode.
Proof. solve_decision. Defined.
#[export] Instance StorageMode_eq_dec : EqDecision StorageMode.
Proof. solve_decision. Defined.

Record Config := MkConfig {
  NumShards : Z;
  MaxMemoryMB : Z;
  DefaultTTL : Duration;
  SweeperInterval : Duration;
  cStorageMode : StorageMode;
  DiskPath : string;
  ListenAddr : string;
  Peers : list string;
  cMode : Mode;
  NodeName : string;
  GRPCPort : Z;
  HTTPPort : Z;
  VirtualNodes : Z;
}.

Definition DefaultConfig : Config :=
  {| NumShards := 256;
     MaxMemoryMB := 0;
     DefaultTTL := 0;
     SweeperInterval := Second;
     cStorageMode := Memory;
     DiskPath := "";
     ListenAddr := "";
     Peers := [];
     cMode := Partitioned;
     NodeName := "";
     GRPCPort := 7947;
     HTTPPort := 6380;
     VirtualNodes := 150 |}.

Definition set_SweeperInterval (d : Duration) (c : Config) : Config :=
  MkConfig (NumShards c) (MaxMemoryMB c) (DefaultTTL c) d (cStorageMode c) (DiskPath c)
    (ListenAddr c) (Peers c) (cMode c) (NodeName c) (GRPCPort c) (HTTPPort c) (VirtualNodes c).

Definition set_NumShards (n : Z) (c : Config) : Config :=
  MkConfig n (MaxMemoryMB c) (DefaultTTL c) (SweeperInterval c) (cStorageMode c) (DiskPath c)
    (ListenAddr c) (Peers c) (cMode c) (NodeName c) (GRPCPort c) (HTTPPort c) (VirtualNodes c).

(** [validate] writes defaults through its receiver and returns an error or
    nil: the error, if any, and the configuration as it is left. *)
Definition validate (c : Config) : option Error * Config :=
  let c := if SweeperInterval c <=? 0 then set_SweeperInterval Second c else c in
  match cStorageMode c with
  | Disk =>
      if bool_decide (DiskPath c = "")
      then (Some (ErrText "cachegrid: DiskPath is required when StorageMode is Disk"), c)
      else (None, c)
  | Memory =>
      let c := if NumShards c <=? 0 then set_NumShards 256 c else c in
      if negb (Z.land (NumShards c) (int64 (NumShards c - 1)) =? 0) then
        (Some (ErrText ("cachegrid: NumShards must be a power of 2, got "
                        +:+ pretty (NumShards c))), c)
      else if MaxMemoryMB c <? 0 then
        (Some (ErrText ("cachegrid: MaxMemoryMB must be >= 0, got "
                        +:+ pretty (MaxMemoryMB c))), c)
      else (None, c)
  end.

(** The memory branch of New (cache.go): the limit of one shard. *)
Definition perShardMax (c : Config) : Z :=
  if MaxMemoryMB c >? 0
  then int64 (Z.quot (int64 (int64 (MaxMemoryMB c * 1024) * 1024)) (NumShards c))
  else 0.

(** ** Powers of two *)

Lemma land_pred_pow2 n :
  0 < n -> Z.land n (n - 1) = 0 <-> n = 2 ^ Z.log2 n.
Proof.
  intros Hn. pose proof (Z.log2_spec n Hn) as [Hlo Hhi]. set (k := Z.log2 n) in *.
  assert (Hk : 0 <= k) by apply Z.log2_nonneg. split.
  - intros Hl. destruct (Z.eq_dec n (2 ^ k)); [done|]. exfalso.
    assert (Hb : Z.testbit (Z.land n (n - 1)) k = true).
    { rewrite Z.land_spec. replace (Z.testbit n k) with true by (symmetry; by apply Z.bit_log2).
      simpl.
      assert (Hlog : Z.log2 (n - 1) = k) by (apply Z.log2_unique; lia).
      rewrite <- Hlog. apply Z.bit_log2. lia. }
    by rewrite Hl, Z.bits_0 in Hb.
  - clearbody k. intros ->. replace (2 ^ k - 1) with (Z.ones k) by (rewrite Z.ones_equiv; lia).
    rewrite Z.land_ones by done. apply Z.mod_same. lia.
Qed.

(** What validate leaves when it accepts a memory configuration. *)
Lemma validate_memory_accepts c c' :
  is_int64 (NumShards c) -> cStorageMode c = Memory -> validate c = (None, c') ->
  (exists k, 0 <= k < 63 /\ NumShards c' = 2 ^ k)
  /\ NumShards c' = (if NumShards c <=? 0 then 256 else NumShards c)
  /\ 0 <= MaxMemoryMB c' /\ 0 < SweeperInterval c'.
Proof.
  intros Hr Hm. unfold validate.
  set (c1 := if SweeperInterval c <=? 0 then set_SweeperInterval Second c else c).
  assert (H1 : 0 < SweeperInterval c1 /\ cStorageMode c1 = Memory /\ NumShards c1 = NumShards c).
  { unfold c1. destruct (Z.leb_spec (SweeperInterval c) 0); simpl; unfold Second; auto with lia. }
  destruct H1 as (Hs & Hm1 & Hn1). rewrite Hm1.
  set (c2 := if NumShards c1 <=? 0 then set_NumShards 256 c1 else c1).
  assert (H2 : 0 < NumShards c2 < 2 ^ 63 /\ SweeperInterval c2 = SweeperInterval c1
    /\ NumShards c2 = if NumShards c <=? 0 then 256 else NumShards c).
  { unfold c2. rewrite Hn1. unfold is_int64 in Hr.
    destruct (Z.leb_spec (NumShards c) 0); simpl; [|rewrite Hn1]; auto with lia. }
  destruct H2 as (Hp & Hs2 & Hn2).
  destruct (negb _) eqn:Hl; [done|]. destruct (MaxMemoryMB c2 <? 0) eqn:Hmm; [done|].
  intros [= <-]. zbool. rewrite int64_id in Hl by (unfold is_int64; lia).
  split_and!; [|done|done|lia]. apply land_pred_pow2 in Hl; [|lia].
  exists (Z.log2 (NumShards c2)). split; [|done]. split; [apply Z.log2_nonneg|].
  apply Z.log2_lt_pow2; lia.
Qed.

Lemma validate_memory_shards c c' :
  is_int64 (NumShards c) -> cStorageMode c = Memory -> validate c = (None, c') ->
  exists k, 0 <= k < 63 /\ NumShards c' = 2 ^ k.
Proof. intros. by edestruct validate_memory_accepts as (? & _). Qed.

(** The power-of-two test passes exactly the powers of two. *)
Lemma validate_rejects_non_power c :
  0 < NumShards c < 2 ^ 63 -> cStorageMode c = Memory ->
  (forall k, NumShards c ≠ 2 ^ k) -> exists e c', validate c = (Some e, c').
Proof.
  intros Hn Hm Hk. unfold validate.
  set (c1 := if SweeperInterval c <=? 0 then set_SweeperInterval Second c else c).
  assert (H1 : cStorageMode c1 = Memory /\ NumShards c1 = NumShards c)
    by (unfold c1; by destruct (_ <=? _)).
  destruct H1 as [-> Hn1]. rewrite Hn1, (proj2 (Z.leb_gt (NumShards c) 0)) by lia. rewrite Hn1.
  rewrite int64_id by (unfold is_int64; lia).
  destruct (Z.eqb_spec (Z.land (NumShards c) (NumShards c - 1)) 0) as [Hl|Hl]; simpl; [|eauto].
  apply land_pred_pow2 in Hl; [|lia]. by destruct (Hk (Z.log2 (NumShards c))).
Qed.

(** ** Properties *)

(** Validate decides usability in memory mode. What it accepts has a
    positive power-of-two shard count (the given one, or 256 when it was not
    positive), a memory limit that is not negative and a positive sweeper
    interval; a positive shard count that is no power of two is rejected. *)
Theorem validate_memory_sound c :
  is_int64 (NumShards c) -> cStorageMode c = Memory ->
  (forall c', validate c = (None, c') ->
     (exists k, 0 <= k < 63 /\ NumShards c' = 2 ^ k)
     /\ NumShards c' = (if NumShards c <=? 0 then 256 else NumShards c)
     /\ 0 <= MaxMemoryMB c' /\ 0 < SweeperInterval c')
  /\ (0 < NumShards c -> (forall k, NumShards c ≠ 2 ^ k) ->
      exists e c', validate c = (Some e, c')).
Proof.
  intros Hr Hm. split.
  - intros c'. by apply validate_memory_accepts.
  - unfold is_int64 in Hr. intros. apply validate_rejects_non_power; [lia|done..].
Qed.

Lemma perShardMax_div c : 0 < MaxMemoryMB c < 2 ^ 43 -> 0 < NumShards c ->
  perShardMax c = MaxMemoryMB c * 2 ^ 20 / NumShards c.
Proof.
  intros Hm Hn. unfold perShardMax. rewrite Z.gtb_ltb, (proj2 (Z.ltb_lt 0 _)) by lia.
  rewrite (int64_id (MaxMemoryMB c * 1024)) by (unfold is_int64; lia).
  rewrite (int64_id (MaxMemoryMB c * 1024 * 1024)) by (unfold is_int64; lia).
  replace (MaxMemoryMB c * 2 ^ 20) with (MaxMemoryMB c * 1024 * 1024) by lia.
  rewrite Z.quot_div_nonneg by lia. apply int64_id. unfold is_int64.
  split; [pose proof (Z.div_pos (MaxMemoryMB c * 1024 * 1024) (NumShards c)); lia|].
  apply Z.le_lt_trans with (MaxMemoryMB c * 1024 * 1024); [apply Z.div_le_upper_bound; nia|lia].
Qed.

(** The shards together respect the configured limit: the per-shard limits
    add up to at most MaxMemoryMB megabytes, losing less than one byte per shard
    to rounding. But the limit of a shard is 0, which the shard reads as
    unlimited, not only when no limit is configured: it also is when the
    configured limit has fewer bytes than there are shards. *)
Theorem perShardMax_sound c :
  0 <= MaxMemoryMB c < 2 ^ 43 -> 0 < NumShards c < 2 ^ 63 ->
  MaxMemoryMB c * 2 ^ 20 - NumShards c < NumShards c * perShardMax c <= MaxMemoryMB c * 2 ^ 20
  /\ (perShardMax c = 0 <-> MaxMemoryMB c = 0 \/ MaxMemoryMB c * 2 ^ 20 < NumShards c).
Proof.
  intros Hm Hn. destruct (Z.eq_dec (MaxMemoryMB c) 0) as [Hz|Hz].
  { assert (perShardMax c = 0) as -> by (unfold perShardMax; by rewrite Hz). lia. }
  rewrite perShardMax_div by lia. set (m := MaxMemoryMB c * 2 ^ 20).
  pose proof (Z.div_mod m (NumShards c) ltac:(lia)).
  pose proof (Z.mod_pos_bound m (NumShards c) ltac:(lia)).
  split; [lia|]. rewrite Z.div_small_iff by lia. lia.
Qed.

(** ** Witnesses *)

Lemma validate_memory_sound_witness :
  (exists k, 0 <= k < 63 /\ NumShards DefaultConfig = 2 ^ k)
  /\ NumShards DefaultConfig = 256
  /\ 0 <= MaxMemoryMB DefaultConfig /\ 0 < SweeperInterval DefaultConfig.
Proof.
  apply (proj1 (validate_memory_sound DefaultConfig ltac:(by vm_compute) ltac:(done)) DefaultConfig).
  by vm_compute.
Defined.

Definition w_config (mb shards : Z) : Config :=
  MkConfig shards mb 0 Second Memory "" "" [] Partitioned "" 7947 6380 150.

Lemma perShardMax_sound_witness :
  validate (w_config 1 (2 ^ 21)) = (None, w_config 1 (2 ^ 21))
  /\ perShardMax (w_config 1 (2 ^ 21)) = 0.
Proof.
  split; [by vm_compute|].
  apply (perShardMax_sound (w_config 1 (2 ^ 21))); [by vm_compute..|]. right. by vm_compute.
Defined.
