(* ===== verification/Shard.v ===== *)
(** internal/cache: entry.go, eviction.go and shard.go.

    A shard is a map of entries and a doubly linked recency list of the same
    entries, with byte accounting and least-recently-used eviction. The mutex
    makes every method atomic, except [Exists] and [TTL], which release the
    read lock before they take the write lock. *)
From S2P Require Import Prelude GoLib Serializer.

(** ** entry.go *)

(** [Element] is the identity of the entry's list.Element. *)
Record Entry := MkEntry {
  Key : string;
  Value : bytes;
  ExpiresAt : Time;
  Entry_Size : Z;
  Element : nat;
}.

#[export] Instance Entry_eq_dec : EqDecision Entry.
Proof. solve_decision. Defined.

Definition Entry_IsExpired (e : Entry) (now : Time) : bool :=
  if IsZero (ExpiresAt e) then false else After now (ExpiresAt e).

Definition Entry_TTL (e : Entry) (now : Time) : Duration :=
  if IsZero (ExpiresAt e) then -1
  else
    let remaining := Until (ExpiresAt e) now in
    if remaining <? 0 then 0 else remaining.

Definition EstimateSize (key : string) (value : bytes) : Z :=
  int64 (len key + lenb value + 184).

(** ** eviction.go

    [ll] is the list front to back. An entry is never written after it has been
    pushed, so the list holds the entries themselves; a list.Element is the
    number that [PushFront] hands out. *)

Record LRUList := MkLRUList {
  ll : list Entry;
  nextElement : nat;
}.

Definition NewLRUList : LRUList := MkLRUList [] 0.

Definition set_Element (e : Entry) (el : nat) : Entry :=
  MkEntry (Key e) (Value e) (ExpiresAt e) (Entry_Size e) el.

(** [e.Element = l.PushFront(e)]: the element is new, and the entry the list
    points to has its Element field set to it. *)
Definition LRUList_PushFront (l : LRUList) (e : Entry) : Entry * LRUList :=
  let e' := set_Element e (nextElement l) in
  (e', MkLRUList (e' :: ll l) (S (nextElement l))).

Definition LRUList_MoveToFront (l : LRUList) (el : nat) : LRUList :=
  MkLRUList (filter (fun e => Element e = el) (ll l)
             ++ filter (fun e => Element e ≠ el) (ll l))
            (nextElement l).

Definition LRUList_Remove (l : LRUList) (el : nat) : LRUList :=
  MkLRUList (filter (fun e => Element e ≠ el) (ll l)) (nextElement l).

Definition LRUList_RemoveOldest (l : LRUList) : option Entry * LRUList :=
  match rev (ll l) with
  | [] => (None, l)
  | e :: r => (Some e, MkLRUList (rev r) (nextElement l))
  end.

Definition LRUList_Len (l : LRUList) : Z := Z.of_nat (length (ll l)).

(** ** shard.go *)

(** [OnEvict] and [OnExpire] say whether a callback is installed; the calls an
    operation makes are part of its result. *)
Record Shard := MkShard {
  items : gmap string Entry;
  lru : LRUList;
  Size : Z;
  MaxSize : Z;
  OnEvict : bool;
  OnExpire : bool;
}.

(** Calls of a callback, in order: key and value. *)
Abbreviation calls := (list (string * bytes)).

Definition NewShard (maxSize : Z) : Shard :=
  MkShard ∅ NewLRUList 0 maxSize false false.

(** The shard with new contents, its limit and callbacks kept. *)
Definition with_contents (s : Shard) (it : gmap string Entry) (l : LRUList) (sz : Z) : Shard :=
  MkShard it l sz (MaxSize s) (OnEvict s) (OnExpire s).

Definition Shard_SetOnEvict (fn : bool) (s : Shard) : Shard :=
  MkShard (items s) (lru s) (Size s) (MaxSize s) fn (OnExpire s).
Definition Shard_SetOnExpire (fn : bool) (s : Shard) : Shard :=
  MkShard (items s) (lru s) (Size s) (MaxSize s) (OnEvict s) fn.

Definition removeLocked (key : string) (e : Entry) (s : Shard) : Shard :=
  with_contents s (delete key (items s)) (LRUList_Remove (lru s) (Element e))
    (int64 (Size s - Entry_Size e)).

(** The eviction loop; one iteration removes one element, so the length of the
    list is enough fuel ([evict_loop_exit] in ShardProofs). *)
Fixpoint evict_loop (fuel : nat) (s : Shard) : Shard * calls :=
  match fuel with
  | O => (s, [])
  | S fuel' =>
      if (Size s >? MaxSize s) && (LRUList_Len (lru s) >? 0) then
        match LRUList_RemoveOldest (lru s) with
        | (Some oldest, l) =>
            let s1 := with_contents s (delete (Key oldest) (items s)) l
                        (int64 (Size s - Entry_Size oldest)) in
            let '(s2, cs) := evict_loop fuel' s1 in
            (s2, if OnEvict s then (Key oldest, Value oldest) :: cs else cs)
        | (None, l) => evict_loop fuel' (with_contents s (items s) l (Size s))
        end
      else (s, [])
  end.

Definition evictLocked (s : Shard) : Shard * calls :=
  if MaxSize s <=? 0 then (s, [])
  else evict_loop (length (ll (lru s))) s.

(** The entry creation that ends both Set and Incr: a new entry at the front of
    the list and in the map, its size added, then eviction. *)
Definition storeEntry (key : string) (value : bytes) (expiresAt : Time) (s : Shard)
  : Shard * calls :=
  let sz := EstimateSize key value in
  let '(e, l) := LRUList_PushFront (lru s) (MkEntry key value expiresAt sz 0) in
  evictLocked (with_contents s (<[key := e]> (items s)) l (int64 (Size s + sz))).

Definition expiryOf (ttl : Duration) (now : Time) : Time :=
  if ttl >? 0 then Add now ttl else zeroTime.

Definition Shard_Get (key : string) (clk : Clock) (s : Shard) : option bytes * Shard :=
  match items s !! key with
  | None => (None, s)
  | Some e =>
      if Entry_IsExpired e (clk 0%nat) then (None, removeLocked key e s)
      else
        (Some (Value e),
         with_contents s (items s) (LRUList_MoveToFront (lru s) (Element e)) (Size s))
  end.

Definition Shard_Set (key : string) (value : bytes) (ttl : Duration) (clk : Clock) (s : Shard)
  : Shard * calls :=
  let expiresAt := expiryOf ttl (clk 0%nat) in
  let s1 :=
    match items s !! key with
    | Some existing =>
        with_contents s (items s) (LRUList_Remove (lru s) (Element existing))
          (int64 (Size s - Entry_Size existing))
    | None => s
    end in
  storeEntry key value expiresAt s1.

Definition Shard_Delete (key : string) (s : Shard) : bool * Shard :=
  match items s !! key with
  | Some e => (true, removeLocked key e s)
  | None => (false, s)
  end.

(** The critical section that Exists and TTL enter after they have dropped the
    read lock: the entry is looked up and tested again. *)
Definition removeIfExpired (key : string) (now : Time) (s : Shard) : Shard :=
  match items s !! key with
  | Some e2 => if Entry_IsExpired e2 now then removeLocked key e2 s else s
  | None => s
  end.

Definition Shard_Exists (key : string) (clk : Clock) (s : Shard) : bool * Shard :=
  match items s !! key with
  | Some e =>
      if Entry_IsExpired e (clk 0%nat) then (false, removeIfExpired key (clk 1%nat) s)
      else (true, s)
  | None => (false, s)
  end.

Definition Shard_TTL (key : string) (clk : Clock) (s : Shard) : Duration * Shard :=
  match items s !! key with
  | None => (0, s)
  | Some e =>
      if Entry_IsExpired e (clk 0%nat) then (0, removeIfExpired key (clk 1%nat) s)
      else (Entry_TTL e (clk 1%nat), s)
  end.

Section Incr.
Context {V T : Type} `{Msgpack V T}.

(** The part of Incr after the old entry has been dealt with. *)
Definition Incr_store (key : string) (current delta : Z) (ttl : Duration) (clk : Clock)
    (s : Shard) : result Z * Shard * calls :=
  let current := int64 (current + delta) in
  match Serialize (GInt64 current) with
  | Err err => (Err err, s, [])
  | Ok value =>
      let '(s', cs) := storeEntry key value (expiryOf ttl (clk 3%nat)) s in
      (Ok current, s', cs)
  end.

Definition Shard_Incr (key : string) (delta : Z) (ttl : Duration) (clk : Clock) (s : Shard)
  : result Z * Shard * calls :=
  match items s !! key with
  | Some e =>
      if negb (Entry_IsExpired e (clk 0%nat)) then
        match Deserialize (Value e) DInt64 with
        | Ok (GInt64 current) =>
            let ttl :=
              if negb (IsZero (ExpiresAt e)) then
                let remaining := Until (ExpiresAt e) (clk 2%nat) in
                if remaining >? 0 then remaining else 0
              else 0 in
            Incr_store key current delta ttl clk
              (with_contents s (delete key (items s)) (LRUList_Remove (lru s) (Element e))
                 (int64 (Size s - Entry_Size e)))
        | Ok _ => (Err (ErrExternal "unreachable: the destination is an int64"), s, [])
        | Err err => (Err err, s, [])
        end
      else if Entry_IsExpired e (clk 1%nat) then
        Incr_store key 0 delta ttl clk (removeLocked key e s)
      else Incr_store key 0 delta ttl clk s
  | None => Incr_store key 0 delta ttl clk s
  end.
End Incr.

(** The sweep. Go iterates a map in an unspecified order: [order] is the order
    of this run, a permutation of the map's bindings. *)
Definition expired_at (now : Time) (e : Entry) : bool :=
  negb (IsZero (ExpiresAt e)) && After now (ExpiresAt e).

Definition sweep_step (now : Time) (acc : Shard * calls * Z) (ke : string * Entry)
  : Shard * calls * Z :=
  let '(s, expiredEntries, count) := acc in
  let '(key, e) := ke in
  if expired_at now e then
    (removeLocked key e s,
     if OnExpire s then expiredEntries ++ [(key, Value e)] else expiredEntries,
     count + 1)
  else (s, expiredEntries, count).

Definition Shard_DeleteExpired (order : list (string * Entry)) (clk : Clock) (s : Shard)
  : Z * Shard * calls :=
  let now := clk 0%nat in
  let '(s', expiredEntries, count) := foldl (sweep_step now) (s, [], 0) order in
  (count, s', expiredEntries).

Definition Shard_Len (s : Shard) : Z := Z.of_nat (size (items s)).
