(* ===== verification/ShardProofs.v ===== *)
(** The shard invariant, its preservation by every operation of shard.go, and
    the refinement of a shard by an abstract recency list. *)
From S2P Require Import Prelude GoLib Serializer Shard.

Abbreviation entries s := (ll (lru s)).

(** ** The invariant *)

(** The map and the recency list hold the same entries, one per key and one per
    list element; the byte count is the sum of the entries' sizes. *)
Record ShardWf (s : Shard) : Prop := {
  wf_items : forall k e, items s !! k = Some e <-> e ∈ entries s /\ Key e = k;
  wf_keys : NoDup (Key <$> entries s);
  wf_elems : NoDup (Element <$> entries s);
  wf_fresh : forall e, e ∈ entries s -> (Element e < nextElement (lru s))%nat;
  wf_esize : forall e, e ∈ entries s -> Entry_Size e = EstimateSize (Key e) (Value e);
  wf_size : Size s = int64 (sumZ Entry_Size (entries s));
}.

(** The true footprint, before int64 wraps it. *)
Definition footprint (e : Entry) : Z := len (Key e) + lenb (Value e) + 184.

(** The accounting cannot overflow: the entries together take less than 2^63
    bytes. *)
Definition InBounds (l : list Entry) : Prop := sumZ footprint l < 2 ^ 63.

Lemma footprint_pos e : 184 <= footprint e.
Proof. unfold footprint, len, lenb. lia. Qed.

Lemma InBounds_app l1 l2 : InBounds (l1 ++ l2) -> InBounds l1.
Proof.
  unfold InBounds. intros H. eapply Z.le_lt_trans; [|exact H].
  apply sumZ_prefix_le. intros x _. pose proof (footprint_pos x). lia.
Qed.

Section Wf.
Implicit Types s : Shard.

Lemma wf_lookup s k e : ShardWf s -> items s !! k = Some e -> e ∈ entries s /\ Key e = k.
Proof. intros H. apply H. Qed.

Lemma wf_Element_Key s e e' :
  ShardWf s -> e ∈ entries s -> e' ∈ entries s ->
  (Element e' = Element e <-> Key e' = Key e).
Proof.
  intros Hwf He He'. split; intros Heq.
  - by rewrite (keyed_inj Element _ _ _ (wf_elems s Hwf) He' He Heq).
  - assert (items s !! Key e = Some e) as E1 by (apply Hwf; auto).
    assert (items s !! Key e = Some e') as E2 by (apply Hwf; auto).
    congruence.
Qed.

(** Removing an entry's element removes its key. *)
Lemma wf_filter_Element s k e :
  ShardWf s -> items s !! k = Some e ->
  filter (fun x => Element x ≠ Element e) (entries s)
  = filter (fun x => Key x ≠ k) (entries s).
Proof.
  intros Hwf Hk. apply wf_lookup in Hk as [He <-]; [|done].
  apply list_filter_ext. intros x Hx. by rewrite (wf_Element_Key s e x Hwf).
Qed.

Lemma NewShard_wf m : ShardWf (NewShard m).
Proof.
  split; simpl.
  1: { intros k e. rewrite lookup_empty. split; [done|]. by intros [?%not_elem_of_nil _]. }
  1, 2: constructor.
  1, 2: by intros ? ?%not_elem_of_nil.
  done.
Qed.

Lemma wf_absent s k : ShardWf s -> items s !! k = None -> k ∉ Key <$> entries s.
Proof.
  intros Hwf Hk (e & -> & He)%list_elem_of_fmap.
  assert (items s !! Key e = Some e) by (apply Hwf; auto). congruence.
Qed.

(** The entries left when key [k] is taken out. *)
Definition without (k : string) (l : list Entry) : list Entry :=
  filter (fun e => Key e ≠ k) l.

Lemma elem_of_without k l e : e ∈ without k l <-> e ∈ l /\ Key e ≠ k.
Proof. unfold without. rewrite list_elem_of_filter. tauto. Qed.

Lemma without_absent k l : k ∉ Key <$> l -> without k l = l.
Proof.
  intros H. apply filter_key_none. intros e He <-. apply H. by apply list_elem_of_fmap_2.
Qed.

Lemma removeLocked_entries s k e :
  ShardWf s -> items s !! k = Some e ->
  entries (removeLocked k e s) = without k (entries s).
Proof. intros Hwf Hk. simpl. by apply wf_filter_Element. Qed.

Lemma sum_without s k e (g : Entry -> Z) :
  ShardWf s -> items s !! k = Some e ->
  sumZ g (entries s) = g e + sumZ g (without k (entries s)).
Proof.
  intros Hwf [He <-]%wf_lookup; [|done].
  by rewrite (sumZ_perm g _ _ (keyed_perm Key _ e (wf_keys s Hwf) He)).
Qed.

Lemma removeLocked_wf s k e :
  ShardWf s -> items s !! k = Some e -> ShardWf (removeLocked k e s).
Proof.
  intros Hwf Hk. pose proof (removeLocked_entries s k e Hwf Hk) as He.
  split; rewrite ?He.
  - intros k' e'. simpl. rewrite lookup_delete_Some, elem_of_without, (wf_items s Hwf).
    split; [intros (Hne & H1 & H2)|intros ((H1 & Hne) & H2)]; split_and!; congruence || auto.
  - apply NoDup_fmap_filter, Hwf.
  - apply NoDup_fmap_filter, Hwf.
  - intros e' [He' _]%elem_of_without. by apply Hwf.
  - intros e' [He' _]%elem_of_without. by apply Hwf.
  - simpl. rewrite (wf_size s Hwf), (sum_without s k e _ Hwf Hk), int64_sub_l.
    f_equal. lia.
Qed.

(** Get moves the entry to the front. *)
Lemma MoveToFront_entries s k e :
  ShardWf s -> items s !! k = Some e ->
  ll (LRUList_MoveToFront (lru s) (Element e)) = e :: without k (entries s).
Proof.
  intros Hwf Hk. simpl. rewrite (wf_filter_Element s k e Hwf Hk).
  apply wf_lookup in Hk as [He _]; [|done].
  by rewrite (filter_key_one Element _ e (wf_elems s Hwf) He).
Qed.

Lemma moved_wf s k e :
  ShardWf s -> items s !! k = Some e ->
  ShardWf (with_contents s (items s) (LRUList_MoveToFront (lru s) (Element e)) (Size s)).
Proof.
  intros Hwf Hk. pose proof (MoveToFront_entries s k e Hwf Hk) as Hm.
  pose proof (wf_lookup s k e Hwf Hk) as [He Hke].
  assert (Hp : entries s ≡ₚ e :: without k (entries s)).
  { rewrite <- Hke. apply keyed_perm, He. apply Hwf. }
  split; cbn [with_contents lru items Size]; rewrite ?Hm, <- ?Hp; try apply Hwf.
  - intros k' e'. rewrite (wf_items s Hwf k' e'). by rewrite Hp at 1.
  - intros e'. rewrite <- Hp. simpl. apply Hwf.
  - intros e'. rewrite <- Hp. apply Hwf.
  - rewrite (wf_size s Hwf). by rewrite (sumZ_perm _ _ _ Hp).
Qed.

(** ** Eviction *)

Lemma sum_sizes s : ShardWf s -> InBounds (entries s) ->
  sumZ Entry_Size (entries s) = sumZ footprint (entries s).
Proof.
  intros Hwf. pose proof (wf_esize s Hwf) as He. clear Hwf. revert He.
  generalize (entries s). intros l. unfold InBounds.
  induction l as [|e l IH]; simpl; intros He Hb; [done|].
  assert (0 <= sumZ footprint l)
    by (apply sumZ_nonneg; intros x _; pose proof (footprint_pos x); lia).
  pose proof (footprint_pos e).
  rewrite IH by (try lia; intros; apply He; by constructor).
  rewrite (He e) by constructor. unfold EstimateSize. fold (footprint e).
  rewrite int64_id; [done|]. unfold is_int64. lia.
Qed.

Lemma wf_Size_exact s : ShardWf s -> InBounds (entries s) ->
  Size s = sumZ footprint (entries s).
Proof.
  intros Hwf Hb. rewrite (wf_size s Hwf), sum_sizes by done.
  apply int64_id. unfold is_int64. unfold InBounds in Hb.
  assert (0 <= sumZ footprint (entries s)); [|lia].
  apply sumZ_nonneg. intros x _. pose proof (footprint_pos x). lia.
Qed.

(** One iteration of the loop, on a list [l ++ [e]]. *)
Definition evicted_one (s : Shard) (l : list Entry) (e : Entry) : Shard :=
  with_contents s (delete (Key e) (items s)) (MkLRUList l (nextElement (lru s)))
    (int64 (Size s - Entry_Size e)).

Lemma evicted_one_wf s l e :
  ShardWf s -> entries s = l ++ [e] -> ShardWf (evicted_one s l e).
Proof.
  intros Hwf Hl.
  assert (He : items s !! Key e = Some e) by (apply Hwf; rewrite Hl; set_solver).
  enough (Hr : removeLocked (Key e) e s = evicted_one s l e)
    by (rewrite <- Hr; by apply removeLocked_wf).
  unfold removeLocked, evicted_one, LRUList_Remove. do 2 f_equal.
  pose proof (wf_elems s Hwf) as Hd. rewrite Hl, fmap_app in Hd.
  apply NoDup_app in Hd as (_ & Hd & _).
  rewrite Hl, filter_app, filter_cons, decide_False by tauto.
  rewrite filter_nil, app_nil_r. apply filter_key_none.
  intros x Hx Heq. apply (Hd (Element x)); [by apply list_elem_of_fmap_2|].
  rewrite Heq. set_solver.
Qed.

Lemma RemoveOldest_snoc l n e :
  LRUList_RemoveOldest (MkLRUList (l ++ [e]) n) = (Some e, MkLRUList l n).
Proof. unfold LRUList_RemoveOldest. simpl. rewrite rev_unit. by rewrite rev_involutive. Qed.

(** What the eviction loop leaves and what it reports. *)
Record Evicted (s s' : Shard) (cs : calls) : Prop := {
  ev_wf : ShardWf s';
  ev_kept : entries s' = keep_fit footprint (MaxSize s) (entries s);
  ev_gone : exists gone, entries s = entries s' ++ gone /\
    cs = (if OnEvict s then (fun e => (Key e, Value e)) <$> reverse gone else []);
  ev_max : MaxSize s' = MaxSize s;
  ev_onEvict : OnEvict s' = OnEvict s;
  ev_onExpire : OnExpire s' = OnExpire s;
}.

Lemma evict_loop_exit fuel s :
  ShardWf s -> InBounds (entries s) -> (length (entries s) <= fuel)%nat ->
  exists s' cs, evict_loop fuel s = (s', cs) /\ Evicted s s' cs.
Proof.
  assert (Hw : forall x, 0 <= footprint x) by (intros x; pose proof (footprint_pos x); lia).
  assert (Hstop : forall s, ShardWf s ->
    entries s = keep_fit footprint (MaxSize s) (entries s) -> Evicted s s []).
  { intros s0 Hwf0 Hk. split; try done. exists []. rewrite app_nil_r. by destruct (OnEvict s0). }
  revert s. induction fuel as [|fuel IH]; intros s Hwf Hb Hf.
  { exists s, []. split; [done|]. apply Hstop; [done|]. by destruct (entries s); simpl in Hf; [|lia]. }
  pose proof (wf_Size_exact s Hwf Hb) as Hs. cbn [evict_loop].
  destruct (decide (entries s = [])) as [Hn|Hne].
  { replace (LRUList_Len (lru s)) with 0 by (unfold LRUList_Len; by rewrite Hn).
    rewrite andb_false_r. exists s, []. split; [done|]. apply Hstop; [done|]. by rewrite Hn. }
  destruct (Z.gtb_spec (Size s) (MaxSize s)) as [Hgt|Hle]; simpl.
  2: { exists s, []. split; [done|]. apply Hstop; [done|]. rewrite keep_fit_all; [done|done|lia]. }
  destruct (list_snoc_inv _ Hne) as (l & e & Hl).
  replace (LRUList_Len (lru s) >? 0) with true
    by (unfold LRUList_Len; rewrite Hl, length_app; simpl; symmetry; apply Z.gtb_lt; lia).
  replace (lru s) with (MkLRUList (l ++ [e]) (nextElement (lru s)))
    by (rewrite <- Hl; by destruct (lru s)).
  rewrite RemoveOldest_snoc. cbn [nextElement]. fold (evicted_one s l e).
  rewrite Hl in Hb, Hf. rewrite length_app in Hf. simpl in Hf.
  destruct (IH (evicted_one s l e)) as (s' & cs & -> & [Hw' Hk' (gone & Hg & Hc) Hm' He' Hx']);
    [by apply evicted_one_wf|by eapply InBounds_app|simpl; lia|].
  do 2 eexists. split; [reflexivity|]. simpl in *. split; try done.
  - rewrite Hk', Hl. symmetry. apply keep_fit_snoc. rewrite <- Hl. lia.
  - exists (gone ++ [e]). rewrite app_assoc, <- Hg. split; [done|].
    rewrite Hc, reverse_snoc. by destruct (OnEvict s).
Qed.

Lemma evict_loop_wf fuel s : ShardWf s -> ShardWf (evict_loop fuel s).1.
Proof.
  revert s. induction fuel as [|fuel IH]; intros s Hwf; [done|]. cbn [evict_loop].
  destruct (_ && _); [|done].
  destruct (decide (entries s = [])) as [Hn|Hne].
  { unfold LRUList_RemoveOldest. rewrite Hn. simpl. apply IH. by destruct s. }
  destruct (list_snoc_inv _ Hne) as (l & e & Hl).
  replace (lru s) with (MkLRUList (l ++ [e]) (nextElement (lru s)))
    by (rewrite <- Hl; by destruct (lru s)).
  rewrite RemoveOldest_snoc. cbn [nextElement]. fold (evicted_one s l e).
  specialize (IH _ (evicted_one_wf s l e Hwf Hl)).
  by destruct (evict_loop fuel (evicted_one s l e)).
Qed.

Lemma evictLocked_wf s : ShardWf s -> ShardWf (evictLocked s).1.
Proof. intros Hwf. unfold evictLocked. destruct (_ <=? _); [done|]. by apply evict_loop_wf. Qed.

(** ** Insertion *)

(** The shard right before the eviction that ends [storeEntry]. *)
Definition pushed (k : string) (v : bytes) (x : Time) (s : Shard) : Shard :=
  let e := MkEntry k v x (EstimateSize k v) (nextElement (lru s)) in
  with_contents s (<[k := e]> (items s))
    (MkLRUList (e :: entries s) (S (nextElement (lru s))))
    (int64 (Size s + EstimateSize k v)).

Lemma storeEntry_pushed k v x s : storeEntry k v x s = evictLocked (pushed k v x s).
Proof. done. Qed.

Lemma pushed_wf k v x s : ShardWf s -> items s !! k = None -> ShardWf (pushed k v x s).
Proof.
  intros Hwf Hk. pose proof (wf_absent s k Hwf Hk) as Ha. split; simpl.
  - intros k' e'. rewrite lookup_insert_Some, (wf_items s Hwf), elem_of_cons.
    split; [|intros [[->|He'] Hke]; [by left|right]].
    + intros [[<- <-]|[Hne [He' Hke]]]; auto.
    + split; [|done]. intros ->. apply Ha. rewrite <- Hke. by apply list_elem_of_fmap_2.
  - apply NoDup_cons. split; [done|apply Hwf].
  - apply NoDup_cons. split; [|apply Hwf].
    intros (e' & He & Hin)%list_elem_of_fmap. apply (wf_fresh s Hwf) in Hin. lia.
  - intros e' [->|Hin]%elem_of_cons; simpl; [lia|]. apply (wf_fresh s Hwf) in Hin. lia.
  - intros e' [->|Hin]%elem_of_cons; [done|]. by apply Hwf.
  - rewrite (wf_size s Hwf), int64_add_l. f_equal. lia.
Qed.

Lemma storeEntry_wf k v x s :
  ShardWf s -> items s !! k = None -> ShardWf (storeEntry k v x s).1.
Proof. intros. rewrite storeEntry_pushed. by apply evictLocked_wf, pushed_wf. Qed.

(** Set first takes the old entry out; so does Delete. *)
Definition dropKey (k : string) (s : Shard) : Shard :=
  match items s !! k with
  | Some e => removeLocked k e s
  | None => s
  end.

Lemma Shard_Set_store k v ttl clk s :
  Shard_Set k v ttl clk s = storeEntry k v (expiryOf ttl (clk 0%nat)) (dropKey k s).
Proof.
  unfold Shard_Set, dropKey. destruct (items s !! k) as [e|]; [|done].
  rewrite !storeEntry_pushed. unfold pushed, removeLocked. simpl. do 2 f_equal.
  by rewrite insert_delete_eq.
Qed.

Lemma dropKey_items k s : items (dropKey k s) = delete k (items s).
Proof.
  unfold dropKey. destruct (items s !! k) eqn:E; [done|]. by rewrite delete_id.
Qed.

Lemma dropKey_wf k s : ShardWf s -> ShardWf (dropKey k s).
Proof. intros. unfold dropKey. destruct (items s !! k) eqn:E; auto using removeLocked_wf. Qed.

Lemma dropKey_entries k s : ShardWf s -> entries (dropKey k s) = without k (entries s).
Proof.
  intros Hwf. unfold dropKey. destruct (items s !! k) eqn:E.
  - by apply removeLocked_entries.
  - symmetry. apply without_absent. by apply wf_absent.
Qed.

Lemma dropKey_rest k s :
  MaxSize (dropKey k s) = MaxSize s /\ OnEvict (dropKey k s) = OnEvict s
  /\ OnExpire (dropKey k s) = OnExpire s.
Proof. unfold dropKey. by destruct (items s !! k). Qed.

Lemma dropKey_absent k s : items (dropKey k s) !! k = None.
Proof. rewrite dropKey_items. apply lookup_delete_eq. Qed.

Lemma dropKey_Some k e s : items s !! k = Some e -> removeLocked k e s = dropKey k s.
Proof. unfold dropKey. by intros ->. Qed.

Lemma dropKey_None k s : items s !! k = None -> dropKey k s = s.
Proof. unfold dropKey. by intros ->. Qed.
End Wf.

#[export] Hint Resolve NewShard_wf removeLocked_wf moved_wf evictLocked_wf storeEntry_wf
  dropKey_wf dropKey_absent : cgwf.
