(* ===== verification/LRUSpec.v ===== *)
(** The abstract cache that a shard of internal/cache/shard.go implements: a
    list of items, most recently used first, at most one per key, trimmed to
    the longest prefix that fits the byte budget. Time enters only as the
    readings of the clock. *)
From S2P Require Import Prelude GoLib Serializer Shard.

Record Item := MkItem {
  iKey : string;
  iValue : bytes;
  iExpiry : Time;
}.

Definition item_size (i : Item) : Z := len (iKey i) + lenb (iValue i) + 184.

(** Not expired at [now]: no expiry, or an expiry that [now] has not passed. *)
Definition item_live (now : Time) (i : Item) : bool :=
  (iExpiry i =? 0) || (now <=? iExpiry i).

Definition spec_lookup (k : string) (l : list Item) : option Item :=
  head (filter (fun i => iKey i = k) l).

Definition spec_drop (k : string) (l : list Item) : list Item :=
  filter (fun i => iKey i ≠ k) l.

(** The items of [l] that survive a budget of [max] bytes (none: no budget). *)
Definition spec_trim (max : Z) (l : list Item) : list Item :=
  if max <=? 0 then l else keep_fit item_size max l.

(** The eviction callbacks: the items trimmed off, oldest first. *)
Definition spec_evictions (max : Z) (l : list Item) : calls :=
  (fun i => (iKey i, iValue i)) <$> reverse (drop (length (spec_trim max l)) l).

(** The operations on a shard. The sweep carries the order in which the run
    iterated over the map. *)
Inductive Op :=
  | OpGet (key : string)
  | OpSet (key : string) (value : bytes) (ttl : Duration)
  | OpDelete (key : string)
  | OpExists (key : string)
  | OpTTL (key : string)
  | OpIncr (key : string) (delta : Z) (ttl : Duration)
  | OpSweep (order : list (string * Entry))
  | OpLen.

Inductive Outcome :=
  | OutValue (v : option bytes)
  | OutUnit
  | OutBool (b : bool)
  | OutTTL (d : Duration)
  | OutIncr (r : result Z)
  | OutCount (n : Z).

Section Spec.
Context {V T : Type} `{Msgpack V T}.

(** A counter written back: the outcome and the items before trimming. *)
Definition spec_incr_store (k : string) (current delta : Z) (ttl : Duration) (clk : Clock)
    (l : list Item) : Outcome * option (list Item) :=
  let current := int64 (current + delta) in
  match MarshalInt64 current with
  | Err err => (OutIncr (Err err), None)
  | Ok v => (OutIncr (Ok current), Some (MkItem k v (expiryOf ttl (clk 3%nat)) :: l))
  end.

(** The counter's items trimmed; nothing written when encoding failed. *)
Definition spec_stored (max : Z) (base : list Item) (p : Outcome * option (list Item))
  : Outcome * list Item * calls :=
  match p with
  | (o, None) => (o, base, [])
  | (o, Some l) => (o, spec_trim max l, spec_evictions max l)
  end.

(** [spec_op max op clk l]: the outcome, the new items, and the eviction or
    expiry callbacks. *)
Definition spec_op (max : Z) (op : Op) (clk : Clock) (l : list Item)
  : Outcome * list Item * calls :=
  match op with
  | OpGet k =>
      match spec_lookup k l with
      | None => (OutValue None, l, [])
      | Some i =>
          if item_live (clk 0%nat) i
          then (OutValue (Some (iValue i)), i :: spec_drop k l, [])
          else (OutValue None, spec_drop k l, [])
      end
  | OpSet k v ttl =>
      let l' := MkItem k v (expiryOf ttl (clk 0%nat)) :: spec_drop k l in
      (OutUnit, spec_trim max l', spec_evictions max l')
  | OpDelete k =>
      (OutBool (bool_decide (is_Some (spec_lookup k l))), spec_drop k l, [])
  | OpExists k =>
      match spec_lookup k l with
      | None => (OutBool false, l, [])
      | Some i =>
          if item_live (clk 0%nat) i then (OutBool true, l, [])
          else (OutBool false, spec_drop k l, [])
      end
  | OpTTL k =>
      match spec_lookup k l with
      | None => (OutTTL 0, l, [])
      | Some i =>
          if item_live (clk 0%nat) i then
            (OutTTL (if iExpiry i =? 0 then -1
                     else Z.max 0 (Until (iExpiry i) (clk 1%nat))), l, [])
          else (OutTTL 0, spec_drop k l, [])
      end
  | OpIncr k delta ttl =>
      match spec_lookup k l with
      | Some i =>
          if item_live (clk 0%nat) i then
            match UnmarshalInt64 (iValue i) with
            | Err err => (OutIncr (Err err), l, [])
            | Ok current =>
                let ttl := if iExpiry i =? 0 then 0
                           else Z.max 0 (Until (iExpiry i) (clk 2%nat)) in
                spec_stored max (spec_drop k l)
                  (spec_incr_store k current delta ttl clk (spec_drop k l))
            end
          else
            spec_stored max (spec_drop k l)
              (spec_incr_store k 0 delta ttl clk (spec_drop k l))
      | None => spec_stored max l (spec_incr_store k 0 delta ttl clk l)
      end
  | OpSweep _ =>
      let dead := filter (fun i => item_live (clk 0%nat) i = false) l in
      (OutCount (Z.of_nat (length dead)),
       filter (fun i => item_live (clk 0%nat) i = true) l,
       (fun i => (iKey i, iValue i)) <$> dead)
  | OpLen => (OutCount (Z.of_nat (length l)), l, [])
  end.
End Spec.
