(* ===== verification/ShardRefine.v ===== *)
(** A shard refines the abstract recency list of LRUSpec, and keeps its
    invariant under any interleaving of its operations. *)
From S2P Require Import Prelude GoLib Serializer Shard ShardProofs LRUSpec.

(** ** The labelled transition system of a shard *)

Section Step.
Context {V T : Type} `{Msgpack V T}.

(** One operation of a shard with its outcome and callbacks. [cleanup] is the
    second critical section of Exists and TTL on its own: between the two
    sections of those methods any other operation may run. *)
Inductive shard_step : Shard -> Op -> Clock -> Outcome -> Shard -> calls -> Prop :=
  | step_get s k clk r s' : Shard_Get k clk s = (r, s') ->
      shard_step s (OpGet k) clk (OutValue r) s' []
  | step_set s k v ttl clk s' cs : Shard_Set k v ttl clk s = (s', cs) ->
      shard_step s (OpSet k v ttl) clk OutUnit s' cs
  | step_delete s k clk r s' : Shard_Delete k s = (r, s') ->
      shard_step s (OpDelete k) clk (OutBool r) s' []
  | step_exists s k clk r s' : Shard_Exists k clk s = (r, s') ->
      shard_step s (OpExists k) clk (OutBool r) s' []
  | step_ttl s k clk r s' : Shard_TTL k clk s = (r, s') ->
      shard_step s (OpTTL k) clk (OutTTL r) s' []
  | step_incr s k delta ttl clk r s' cs : Shard_Incr k delta ttl clk s = (r, s', cs) ->
      shard_step s (OpIncr k delta ttl) clk (OutIncr r) s' cs
  | step_sweep s order clk n s' cs :
      order ≡ₚ map_to_list (items s) -> Shard_DeleteExpired order clk s = (n, s', cs) ->
      shard_step s (OpSweep order) clk (OutCount n) s' cs
  | step_len s clk : shard_step s OpLen clk (OutCount (Shard_Len s)) s [].

Inductive shard_reachable (max : Z) : Shard -> Prop :=
  | reach_new : shard_reachable max (NewShard max)
  | reach_step s op clk o s' cs : shard_reachable max s -> ClockOk clk ->
      shard_step s op clk o s' cs -> shard_reachable max s'
  | reach_cleanup s k now : shard_reachable max s ->
      shard_reachable max (removeIfExpired k now s)
  | reach_onEvict s fn : shard_reachable max s -> shard_reachable max (Shard_SetOnEvict fn s)
  | reach_onExpire s fn : shard_reachable max s -> shard_reachable max (Shard_SetOnExpire fn s).
End Step.

(** ** The abstraction function *)

Definition item_of (e : Entry) : Item := MkItem (Key e) (Value e) (ExpiresAt e).
Definition abs (s : Shard) : list Item := item_of <$> entries s.

Lemma live_expired e now : item_live now (item_of e) = negb (Entry_IsExpired e now).
Proof.
  unfold item_live, Entry_IsExpired, IsZero, After, item_of. simpl.
  destruct (Z.eqb_spec (ExpiresAt e) 0); [done|]. simpl.
  rewrite Z.gtb_ltb, Z.leb_antisym. done.
Qed.

Lemma live_expired_at e now : item_live now (item_of e) = negb (expired_at now e).
Proof.
  rewrite live_expired. unfold expired_at, Entry_IsExpired. by destruct (IsZero _).
Qed.

Lemma abs_without k l : item_of <$> without k l = spec_drop k (item_of <$> l).
Proof.
  unfold without, spec_drop. by rewrite filter_fmap.
Qed.

Section Abs.
Context {V T : Type} `{Msgpack V T}.
Implicit Types s : Shard.

Lemma abs_lookup s k : ShardWf s -> spec_lookup k (abs s) = item_of <$> items s !! k.
Proof.
  intros Hwf. unfold spec_lookup, abs.
  assert (Hf : filter (fun i => iKey i = k) (item_of <$> entries s)
               = item_of <$> filter (fun e => Key e = k) (entries s)).
  { by rewrite filter_fmap. }
  rewrite Hf. destruct (items s !! k) as [e|] eqn:E.
  - apply wf_lookup in E as [He <-]; [|done].
    by rewrite (filter_key_one Key _ e (wf_keys s Hwf) He).
  - destruct (filter _ (entries s)) as [|e l] eqn:El; [done|].
    assert (He : e ∈ filter (fun e => Key e = k) (entries s)) by (rewrite El; by constructor).
    apply list_elem_of_filter in He as [Hk He].
    destruct (wf_absent s k Hwf E). rewrite <- Hk. by apply list_elem_of_fmap_2.
Qed.

Lemma abs_dropKey s k : ShardWf s -> abs (dropKey k s) = spec_drop k (abs s).
Proof. intros Hwf. unfold abs. by rewrite dropKey_entries, abs_without. Qed.

Lemma items_to_list s : ShardWf s ->
  map_to_list (items s) ≡ₚ (fun e => (Key e, e)) <$> entries s.
Proof.
  intros Hwf.
  assert (Hd : NoDup ((fun e => (Key e, e)) <$> entries s).*1)
    by (rewrite <- list_fmap_compose; apply Hwf).
  etrans; [|apply (map_to_list_to_map (M := gmap string)), Hd]. f_equiv.
  apply map_eq. intros k. destruct (items s !! k) as [e|] eqn:E; symmetry.
  - apply wf_lookup in E as [He <-]; [|done]. apply elem_of_list_to_map_1; [done|].
    apply list_elem_of_fmap. by exists e.
  - apply not_elem_of_list_to_map_1. rewrite <- list_fmap_compose. by apply wf_absent.
Qed.

Lemma abs_length s : ShardWf s -> Z.of_nat (length (abs s)) = Shard_Len s.
Proof.
  intros Hwf. unfold Shard_Len, abs. rewrite length_fmap. f_equal.
  by rewrite <- length_map_to_list, items_to_list, length_fmap.
Qed.

(** Entries and items weigh the same. *)
Lemma abs_fit b l : keep_fit item_size b (item_of <$> l) = item_of <$> keep_fit footprint b l.
Proof. by rewrite keep_fit_fmap. Qed.

(** Eviction trims the items. Without a limit it does nothing, so the bound
    on the accounting matters only with one. *)
Lemma evictLocked_refines s :
  ShardWf s -> (0 < MaxSize s -> InBounds (entries s)) ->
  abs (evictLocked s).1 = spec_trim (MaxSize s) (abs s)
  /\ (evictLocked s).2 = (if OnEvict s then spec_evictions (MaxSize s) (abs s) else [])
  /\ MaxSize (evictLocked s).1 = MaxSize s
  /\ OnEvict (evictLocked s).1 = OnEvict s /\ OnExpire (evictLocked s).1 = OnExpire s.
Proof.
  intros Hwf Hb. unfold evictLocked, spec_evictions, spec_trim.
  destruct (Z.leb_spec (MaxSize s) 0) as [Hm|Hm].
  - rewrite drop_all. simpl. by destruct (OnEvict s).
  - destruct (evict_loop_exit _ s Hwf (Hb Hm) ltac:(done))
      as (s' & cs & -> & [_ Hk (gone & Hg & ->) Hmax He Hx]). simpl.
    unfold abs. rewrite abs_fit, <- Hk, length_fmap, Hg, fmap_app.
    rewrite drop_app_length', <- fmap_reverse by (by rewrite length_fmap).
    rewrite <- list_fmap_compose. done.
Qed.

(** ** Insertion *)

Lemma storeEntry_refines k v x s :
  ShardWf s -> items s !! k = None ->
  (0 < MaxSize s -> sumZ footprint (entries s) + (len k + lenb v + 184) < 2 ^ 63) ->
  let l := MkItem k v x :: abs s in
  abs (storeEntry k v x s).1 = spec_trim (MaxSize s) l
  /\ (storeEntry k v x s).2 = (if OnEvict s then spec_evictions (MaxSize s) l else [])
  /\ MaxSize (storeEntry k v x s).1 = MaxSize s.
Proof.
  intros Hwf Hk Hb l. rewrite storeEntry_pushed.
  destruct (evictLocked_refines (pushed k v x s)) as (Ha & Hc & Hm & _).
  - by apply pushed_wf.
  - intros Hpos. specialize (Hb Hpos). unfold InBounds. simpl.
    unfold footprint at 1. simpl. lia.
  - done.
Qed.

(** ** The sweep *)

(** The bindings of an iteration order that the sweep removes. *)
Definition dead (now : Time) (order : list (string * Entry)) : list (string * Entry) :=
  filter (fun ke => expired_at now ke.2 = true) order.

Lemma sweep_fold now order s acc n :
  ShardWf s -> NoDup order.*1 -> (forall k e, (k, e) ∈ order -> items s !! k = Some e) ->
  exists s', foldl (sweep_step now) (s, acc, n) order =
      (s', acc ++ (if OnExpire s then (fun ke => (ke.1, Value ke.2)) <$> dead now order else []),
       n + Z.of_nat (length (dead now order)))
    /\ ShardWf s' /\ MaxSize s' = MaxSize s
    /\ entries s' = filter (fun e => Key e ∉ (dead now order).*1) (entries s).
Proof.
  revert s acc n. induction order as [|[k e] order IH]; intros s acc n Hwf Hd Hin.
  { exists s. simpl. rewrite Z.add_0_r.
    replace (if OnExpire s then [] else []) with (@nil (string * bytes)) by (by destruct (OnExpire s)).
    rewrite app_nil_r. split_and!; try done. symmetry. apply list_filter_all. by intros x _ ?%not_elem_of_nil. }
  rewrite fmap_cons, NoDup_cons in Hd. destruct Hd as [Hn Hd].
  assert (Hk : items s !! k = Some e) by (apply Hin; by constructor).
  cbn [foldl sweep_step]. unfold dead. rewrite filter_cons. cbn [snd].
  fold (dead now order). destruct (expired_at now e) eqn:Ex.
  - rewrite decide_True by done.
    destruct (IH (removeLocked k e s)
      (if OnExpire s then acc ++ [(k, Value e)] else acc) (n + 1)) as (s' & -> & Hw & Hm & He).
    + by apply removeLocked_wf.
    + done.
    + intros k' e' Hin'. simpl. rewrite lookup_delete_ne.
      * apply Hin. by constructor.
      * intros <-. apply Hn. apply list_elem_of_fmap. by exists (k, e').
    + exists s'. split; [|split_and!; [done..|]].
      * cbn [OnExpire removeLocked with_contents]. f_equal; [f_equal|simpl; lia].
        destruct (OnExpire s); [by rewrite <- app_assoc|done].
      * rewrite He, removeLocked_entries by done. unfold without.
        rewrite list_filter_filter. apply list_filter_ext. intros x _.
        rewrite fmap_cons, not_elem_of_cons. tauto.
  - rewrite decide_False by done.
    destruct (IH s acc n) as (s' & -> & Hw & Hm & He); try done.
    { intros k' e' Hin'. apply Hin. by constructor. }
    by exists s'.
Qed.

Lemma sweep_refines order clk s n s' cs :
  ShardWf s -> order ≡ₚ map_to_list (items s) ->
  Shard_DeleteExpired order clk s = (n, s', cs) ->
  let '(o, l, cs') := spec_op (MaxSize s) (OpSweep order) clk (abs s) in
  OutCount n = o /\ abs s' = l /\ cs ≡ₚ (if OnExpire s then cs' else []) /\ ShardWf s'
  /\ MaxSize s' = MaxSize s.
Proof.
  intros Hwf Hp Hs. unfold Shard_DeleteExpired in Hs.
  destruct (sweep_fold (clk 0%nat) order s [] 0) as (s1 & Heq & Hw & Hm & He); [done|..].
  { rewrite Hp. apply NoDup_fst_map_to_list. }
  { intros k e. rewrite Hp. by rewrite elem_of_map_to_list. }
  rewrite Heq in Hs. injection Hs as <- <- <-. simpl app.
  assert (Hdead : dead (clk 0%nat) order ≡ₚ
    (fun e => (Key e, e)) <$> filter (fun e => expired_at (clk 0%nat) e = true) (entries s)).
  { unfold dead. rewrite Hp, items_to_list by done. by rewrite filter_fmap. }
  assert (Hi : filter (fun i => item_live (clk 0%nat) i = false) (abs s) =
    item_of <$> filter (fun e => expired_at (clk 0%nat) e = true) (entries s)).
  { unfold abs. rewrite filter_fmap. f_equal. apply list_filter_ext. intros e _.
    rewrite live_expired_at. by destruct (expired_at _ _). }
  cbn [spec_op]. rewrite Hi. split_and!; try done.
  - by rewrite Hdead, !length_fmap.
  - unfold abs. rewrite He, filter_fmap. f_equal. apply list_filter_ext. intros e Hin.
    rewrite live_expired_at, Hdead, <- list_fmap_compose. split.
    + intros Hno. destruct (expired_at _ e) eqn:Ex; [|done]. destruct Hno.
      apply list_elem_of_fmap. exists e. split; [done|]. by apply list_elem_of_filter.
    + intros Hl (e' & Hke & [Hx Hin']%list_elem_of_filter)%list_elem_of_fmap. simpl in Hke.
      apply (keyed_inj Key _ _ _ (wf_keys s Hwf) Hin Hin') in Hke. subst.
      by rewrite Hx in Hl.
  - destruct (OnExpire s); [|done]. rewrite Hdead, <- !list_fmap_compose. done.
Qed.
End Abs.
