(* ===== verification/ShardTheorems.v ===== *)
(** The properties of a cache shard (internal/cache/shard.go). *)
From S2P Require Import Prelude GoLib Serializer Shard ShardProofs LRUSpec ShardRefine.

(** ** Lemmas on single operations *)

Lemma IsExpired_mono e t t' : Entry_IsExpired e t = true -> t <= t' -> Entry_IsExpired e t' = true.
Proof.
  unfold Entry_IsExpired, After. destruct (IsZero _); [done|].
  rewrite !Z.gtb_ltb, !Z.ltb_lt. lia.
Qed.

Lemma removeIfExpired_twice k clk e s :
  ClockOk clk -> items s !! k = Some e -> Entry_IsExpired e (clk 0%nat) = true ->
  removeIfExpired k (clk 1%nat) s = dropKey k s.
Proof.
  intros Hc Hk Hx. unfold removeIfExpired, dropKey. rewrite Hk.
  rewrite (IsExpired_mono e _ (clk 1%nat) Hx); [done|]. apply Hc; lia.
Qed.

Lemma Entry_TTL_max e now :
  Entry_TTL e now = if ExpiresAt e =? 0 then -1 else Z.max 0 (Until (ExpiresAt e) now).
Proof.
  unfold Entry_TTL, IsZero. destruct (_ =? _); [done|].
  destruct (Z.ltb_spec (Until (ExpiresAt e) now) 0); lia.
Qed.

(** How many bytes an operation can add to the accounting. *)
Definition op_weight (op : Op) : Z :=
  match op with
  | OpSet k v _ => len k + lenb v + 184
  | OpIncr k _ _ => len k + 9 + 184
  | _ => 0
  end.

(** With a limit, the limit and the operation's bytes together stay in int64. *)
Definition op_small (max : Z) (op : Op) : Prop := 0 < max -> max + op_weight op < 2 ^ 63.

(** The invariant with the memory limit. *)
Record ShardOk (max : Z) (s : Shard) : Prop := {
  ok_wf : ShardWf s;
  ok_max : MaxSize s = max;
  ok_bound : 0 < max -> sumZ footprint (entries s) <= max;
}.

Lemma sumZ_without_le k l : sumZ footprint (without k l) <= sumZ footprint l.
Proof.
  induction l as [|e l IH]; simpl; [done|]. pose proof (footprint_pos e).
  unfold without in *. rewrite filter_cons. case_decide; simpl; lia.
Qed.

(** What the spec says of callbacks that are not installed is not reported. *)
Definition reported (onEvict onExpire : bool) (op : Op) (cs : calls) : calls :=
  match op with
  | OpSweep _ => if onExpire then cs else []
  | _ => if onEvict then cs else []
  end.

(** Close the goals of a step that makes no callback. *)
Ltac quiet :=
  split_and!; try done; try (cbn [reported]; by match goal with |- context [OnEvict ?s] => destruct (OnEvict s) end).

Section Refinement.
Context {V T : Type} `{MsgpackLaws V T}.
Implicit Types s : Shard.

Lemma Shard_Incr_drop k d ttl clk s :
  ClockOk clk ->
  Shard_Incr k d ttl clk s =
  match items s !! k with
  | Some e =>
      if Entry_IsExpired e (clk 0%nat) then Incr_store k 0 d ttl clk (dropKey k s)
      else
        match UnmarshalInt64 (Value e) with
        | Ok current =>
            Incr_store k current d
              (if ExpiresAt e =? 0 then 0 else Z.max 0 (Until (ExpiresAt e) (clk 2%nat)))
              clk (dropKey k s)
        | Err err => (Err err, s, [])
        end
  | None => Incr_store k 0 d ttl clk (dropKey k s)
  end.
Proof.
  intros Hc. unfold Shard_Incr. destruct (items s !! k) as [e|] eqn:Hk.
  - destruct (Entry_IsExpired e (clk 0%nat)) eqn:Hx; simpl.
    + rewrite (IsExpired_mono e _ (clk 1%nat) Hx) by (apply Hc; lia).
      by rewrite dropKey_Some.
    + destruct (UnmarshalInt64 (Value e)) as [c|]; [|done].
      unfold IsZero. rewrite <- (dropKey_Some k e s Hk). unfold removeLocked.
      destruct (ExpiresAt e =? 0); simpl; [done|].
      rewrite Z.gtb_ltb. destruct (Z.ltb_spec 0 (Until (ExpiresAt e) (clk 2%nat))).
      * by rewrite Z.max_r by lia.
      * by rewrite Z.max_l by lia.
  - by rewrite dropKey_None.
Qed.

Lemma sum_abs l : sumZ item_size (item_of <$> l) = sumZ footprint l.
Proof. induction l as [|e l IH]; [done|]. simpl. f_equal. exact IH. Qed.

(** Two ways in which an operation keeps the memory limit: it trims, or it
    does not make the shard larger. *)
Lemma ShardOk_of_trim max s l :
  ShardWf s -> MaxSize s = max -> abs s = spec_trim max l -> ShardOk max s.
Proof.
  intros Hw Hm Ha. split; [done..|]. intros Hpos. rewrite <- sum_abs. fold (abs s).
  rewrite Ha. unfold spec_trim. destruct (Z.leb_spec max 0); [lia|].
  apply keep_fit_sum. lia.
Qed.

Lemma ShardOk_of_le max s s' :
  ShardOk max s -> ShardWf s' -> MaxSize s' = MaxSize s ->
  sumZ item_size (abs s') <= sumZ item_size (abs s) -> ShardOk max s'.
Proof.
  intros [Hw Hm Hb] Hw' Hm'. unfold abs. rewrite !sum_abs. intros Hle.
  split; [done|congruence|]. intros Hpos. specialize (Hb Hpos). lia.
Qed.

Lemma dropKey_ok max k s : ShardOk max s -> ShardOk max (dropKey k s).
Proof.
  intros Hok. pose proof (ok_wf max s Hok) as Hwf.
  apply (ShardOk_of_le max s); [done|by apply dropKey_wf|apply dropKey_rest|].
  unfold abs. rewrite !sum_abs, dropKey_entries by done. apply sumZ_without_le.
Qed.

Lemma Incr_store_sim max k c d ttl clk s r s' cs :
  ShardOk max s -> items s !! k = None -> op_small max (OpIncr k d ttl) ->
  Incr_store k c d ttl clk s = (r, s', cs) ->
  ShardOk max s' /\
  let '(o, l, cs') := spec_stored max (abs s) (spec_incr_store k c d ttl clk (abs s)) in
  OutIncr r = o /\ abs s' = l /\ cs = if OnEvict s then cs' else [].
Proof.
  intros [Hwf Hm Hb] Hk Hsm. unfold Incr_store, spec_incr_store. cbn [Serialize].
  destruct (MarshalInt64 _) as [v|err] eqn:Hv; simpl.
  2: { intros [= <- <- <-]. split_and!; try done. by destruct (OnEvict s). }
  apply int64_width in Hv.
  destruct (storeEntry k v (expiryOf ttl (clk 3%nat)) s) as [s1 cs1] eqn:Hst.
  intros [= <- <- <-].
  destruct (storeEntry_refines k v (expiryOf ttl (clk 3%nat)) s Hwf Hk) as (Ha & Hc & Hm1).
  { rewrite Hm. intros Hpos. specialize (Hsm Hpos). specialize (Hb Hpos). simpl in Hsm. lia. }
  pose proof (storeEntry_wf k v (expiryOf ttl (clk 3%nat)) s Hwf Hk) as Hw.
  rewrite Hst, Hm in *. split; [|done]. by eapply ShardOk_of_trim.
Qed.

(** ** One step of a shard is one step of the abstract cache *)

Definition step_simulated (max : Z) (s : Shard) (op : Op) (clk : Clock) (o : Outcome)
    (s' : Shard) (cs : calls) : Prop :=
  let '(o', l', cs') := spec_op max op clk (abs s) in
  o = o' /\ abs s' = l' /\ cs ≡ₚ reported (OnEvict s) (OnExpire s) op cs'.

Lemma incr_sim max k d ttl clk s r s' cs :
  ShardOk max s -> ClockOk clk -> op_small max (OpIncr k d ttl) ->
  Shard_Incr k d ttl clk s = (r, s', cs) ->
  ShardOk max s' /\ step_simulated max s (OpIncr k d ttl) clk (OutIncr r) s' cs.
Proof.
  intros Hok Hc Hsm. rewrite Shard_Incr_drop by done.
  pose proof (ok_wf max s Hok) as Hwf. destruct (dropKey_rest k s) as (_ & He & _).
  assert (Hgo : forall c ttl0, Incr_store k c d ttl0 clk (dropKey k s) = (r, s', cs) ->
    ShardOk max s' /\
    let '(o, l, cs') := spec_stored max (spec_drop k (abs s))
                          (spec_incr_store k c d ttl0 clk (spec_drop k (abs s))) in
    OutIncr r = o /\ abs s' = l /\ cs ≡ₚ if OnEvict s then cs' else []).
  { intros c ttl0 Hi. apply (Incr_store_sim max) in Hi;
      [|by apply dropKey_ok|apply dropKey_absent|exact Hsm].
    rewrite abs_dropKey, He in Hi by done. destruct Hi as [Hk' Hi]. split; [done|].
    destruct (spec_stored _ _ _) as [[o l] cs']. by destruct Hi as (-> & -> & ->). }
  unfold step_simulated. cbn [spec_op reported]. rewrite abs_lookup by done.
  destruct (items s !! k) as [e|] eqn:Hk; simpl.
  - rewrite live_expired. destruct (Entry_IsExpired e _); simpl; [apply Hgo|].
    destruct (UnmarshalInt64 (Value e)) as [c|err]; [apply Hgo|].
    intros [= <- <- <-]. split_and!; try done. by destruct (OnEvict s).
  - replace (abs s) with (spec_drop k (abs s)) by (by rewrite <- abs_dropKey, dropKey_None).
    apply Hgo.
Qed.

Lemma set_sim max k v ttl clk s s' cs :
  ShardOk max s -> op_small max (OpSet k v ttl) -> Shard_Set k v ttl clk s = (s', cs) ->
  ShardOk max s' /\ step_simulated max s (OpSet k v ttl) clk OutUnit s' cs.
Proof.
  intros Hok Hsm Hs. pose proof (ok_wf max s Hok) as Hwf.
  rewrite Shard_Set_store in Hs. set (x := expiryOf ttl (clk 0%nat)) in Hs.
  pose proof (dropKey_ok max k s Hok) as [Hw Hm Hb]. destruct (dropKey_rest k s) as (_ & He & _).
  destruct (storeEntry_refines k v x (dropKey k s)) as (Ha & Hc & Hm');
    [done|apply dropKey_absent|..].
  { rewrite Hm. intros Hpos. specialize (Hsm Hpos). specialize (Hb Hpos). simpl in Hsm. lia. }
  pose proof (storeEntry_wf k v x (dropKey k s) Hw (dropKey_absent k s)) as Hw'.
  rewrite Hs, abs_dropKey, Hm, ?He in * by done. simpl in *.
  split; [by eapply ShardOk_of_trim|]. unfold step_simulated. simpl.
  rewrite Hc. done.
Qed.

Lemma get_sim max k clk s r s' :
  ShardOk max s -> Shard_Get k clk s = (r, s') ->
  ShardOk max s' /\ step_simulated max s (OpGet k) clk (OutValue r) s' [].
Proof.
  intros Hok. pose proof (ok_wf max s Hok) as Hwf. unfold Shard_Get, step_simulated.
  cbn [spec_op]. rewrite abs_lookup by done.
  destruct (items s !! k) as [e|] eqn:Hk; simpl.
  2: { intros [= <- <-]. quiet. }
  rewrite live_expired. destruct (Entry_IsExpired e _); simpl; intros [= <- <-].
  - rewrite (dropKey_Some k e s Hk). split; [by apply dropKey_ok|].
    rewrite abs_dropKey by done. quiet.
  - assert (Ha : abs (with_contents s (items s) (LRUList_MoveToFront (lru s) (Element e)) (Size s))
                 = item_of e :: spec_drop k (abs s)).
    { unfold abs. cbn [with_contents lru].
      by rewrite (MoveToFront_entries s k e Hwf Hk), fmap_cons, abs_without. }
    split; [|split_and!; [done..|by destruct (OnEvict s)]].
    apply (ShardOk_of_le max s); [done|by eapply moved_wf|done|].
    rewrite Ha. simpl. rewrite <- abs_dropKey by done. unfold abs. rewrite !sum_abs, dropKey_entries by done.
    rewrite (sum_without s k e footprint Hwf Hk). done.
Qed.

Lemma shard_step_sim max s op clk o s' cs :
  ShardOk max s -> ClockOk clk -> op_small max op -> shard_step s op clk o s' cs ->
  ShardOk max s' /\ step_simulated max s op clk o s' cs.
Proof.
  intros Hok Hc Hsm Hst. pose proof (ok_wf max s Hok) as Hwf.
  destruct Hst as [s k clk r s' Hs|s k v ttl clk s' cs Hs|s k clk r s' Hs|s k clk r s' Hs
                  |s k clk r s' Hs|s k d ttl clk r s' cs Hs|s order clk n s' cs Hp Hs|s clk].
  - by apply get_sim.
  - by apply set_sim.
  - unfold Shard_Delete in Hs. unfold step_simulated. cbn [spec_op].
    rewrite <- abs_dropKey, abs_lookup by done.
    destruct (items s !! k) as [e|] eqn:Hk; injection Hs as <- <-.
    + rewrite (dropKey_Some k e s Hk). split; [by apply dropKey_ok|].
      rewrite bool_decide_true by (simpl; eauto). quiet.
    + rewrite (dropKey_None k s Hk). split; [done|].
      rewrite bool_decide_false by (by intros [? ?]). quiet.
  - unfold Shard_Exists in Hs. unfold step_simulated. cbn [spec_op]. rewrite abs_lookup by done.
    destruct (items s !! k) as [e|] eqn:Hk; simpl.
    2: { injection Hs as <- <-. quiet. }
    rewrite live_expired. destruct (Entry_IsExpired e (clk 0%nat)) eqn:Hx; simpl; injection Hs as <- <-.
    + rewrite (removeIfExpired_twice k clk e s Hc Hk Hx), abs_dropKey by done.
      split; [by apply dropKey_ok|]. quiet.
    + quiet.
  - unfold Shard_TTL in Hs. unfold step_simulated. cbn [spec_op]. rewrite abs_lookup by done.
    destruct (items s !! k) as [e|] eqn:Hk; simpl.
    2: { injection Hs as <- <-. quiet. }
    rewrite live_expired. destruct (Entry_IsExpired e (clk 0%nat)) eqn:Hx; simpl; injection Hs as <- <-.
    + rewrite (removeIfExpired_twice k clk e s Hc Hk Hx), abs_dropKey by done.
      split; [by apply dropKey_ok|]. quiet.
    + rewrite Entry_TTL_max. quiet.
  - by apply incr_sim.
  - pose proof (sweep_refines order clk s n s' cs Hwf Hp Hs) as Hr. unfold step_simulated.
    rewrite (ok_max max s Hok) in Hr. cbn [spec_op reported] in *.
    destruct Hr as (-> & Ha & Hcs & Hw & Hm). split_and!; try done.
    apply (ShardOk_of_le max s); [done|done|by rewrite (ok_max max s Hok)|]. rewrite Ha. clear.
    generalize (abs s). intros l. induction l as [|i l IH]; [done|].
    rewrite filter_cons. case_decide; simpl; unfold item_size, len, lenb in *; lia.
  - unfold step_simulated. simpl. rewrite abs_length by done. quiet.
Qed.

(** The invariant needs no bound on the accounting. *)
Lemma shard_step_wf s op clk o s' cs :
  ShardWf s -> ClockOk clk -> shard_step s op clk o s' cs -> ShardWf s'.
Proof.
  intros Hwf Hc Hst.
  destruct Hst as [s k clk r s' Hs|s k v ttl clk s' cs Hs|s k clk r s' Hs|s k clk r s' Hs
                  |s k clk r s' Hs|s k d ttl clk r s' cs Hs|s order clk n s' cs Hp Hs|s clk];
    try done.
  - unfold Shard_Get in Hs. split_matches; eauto with cgwf.
  - rewrite Shard_Set_store in Hs. apply (f_equal fst) in Hs. simpl in Hs. subst s'.
    auto with cgwf.
  - unfold Shard_Delete in Hs. split_matches; eauto with cgwf.
  - unfold Shard_Exists, removeIfExpired in Hs. split_matches; eauto with cgwf.
  - unfold Shard_TTL, removeIfExpired in Hs. split_matches; eauto with cgwf.
  - rewrite Shard_Incr_drop in Hs by done. unfold Incr_store in Hs.
    repeat (split_match; simplify_eq/=); auto with cgwf;
      match goal with E : storeEntry ?k ?v ?x ?s = (?s', _) |- ShardWf ?s' =>
        replace s' with (storeEntry k v x s).1 by (by rewrite E); auto with cgwf end.
  - by destruct (sweep_refines order clk s n s' cs Hwf Hp Hs) as (_ & _ & _ & Hw & _).
Qed.

(** ** The callbacks stay installed *)

Definition hooks (s : Shard) : bool * bool := (OnEvict s, OnExpire s).

Lemma evict_loop_hooks fuel s : hooks (evict_loop fuel s).1 = hooks s.
Proof.
  revert s. induction fuel as [|fuel IH]; intros s; [done|]. cbn [evict_loop]. destruct (_ && _); [|done].
  destruct (LRUList_RemoveOldest (lru s)) as [[e|] l]; [|by rewrite IH].
  set (s1 := with_contents _ _ _ _). specialize (IH s1). destruct (evict_loop fuel s1). exact IH.
Qed.

Lemma storeEntry_hooks k v x s : hooks (storeEntry k v x s).1 = hooks s.
Proof.
  unfold storeEntry, evictLocked. destruct (LRUList_PushFront _ _) as [e l]. destruct (_ <=? _); [done|].
  by rewrite evict_loop_hooks.
Qed.

Lemma Incr_store_hooks k c d ttl clk s : hooks (Incr_store k c d ttl clk s).1.2 = hooks s.
Proof.
  unfold Incr_store. destruct (Serialize _) as [v|]; [|done]. pose proof (storeEntry_hooks k v (expiryOf ttl (clk 3%nat)) s) as Hh.
  by destruct (storeEntry _ _ _ _).
Qed.

Lemma sweep_hooks now order acc : hooks (foldl (sweep_step now) acc order).1.1 = hooks acc.1.1.
Proof.
  revert acc. induction order as [|[k e] order IH]; intros [[s cs] n]; [done|]. cbn [foldl]. rewrite IH. cbn [sweep_step].
  by destruct (expired_at now e).
Qed.

Lemma shard_step_hooks s op clk o s' cs : shard_step s op clk o s' cs -> hooks s' = hooks s.
Proof.
  intros Hst. destruct Hst as [s k clk r s' Hs|s k v ttl clk s' cs Hs|s k clk r s' Hs|s k clk r s' Hs
                  |s k clk r s' Hs|s k d ttl clk r s' cs Hs|s order clk n s' cs Hp Hs|s clk]; [| | | | | | |done].
  - unfold Shard_Get in Hs. by split_matches.
  - unfold Shard_Set in Hs. apply (f_equal fst) in Hs. cbn [fst] in Hs. subst s'. rewrite storeEntry_hooks. by destruct (items s !! k).
  - unfold Shard_Delete in Hs. by split_matches.
  - unfold Shard_Exists, removeIfExpired in Hs. by split_matches.
  - unfold Shard_TTL, removeIfExpired in Hs. by split_matches.
  - unfold Shard_Incr in Hs. apply (f_equal (fun x => x.1.2)) in Hs. cbn [fst snd] in Hs. subst s'.
    destruct (items s !! k) as [e|]; [|apply Incr_store_hooks]. destruct (negb _).
    + destruct (Deserialize _ _) as [[]|]; try done. by rewrite Incr_store_hooks.
    + destruct (Entry_IsExpired e (clk 1%nat)); by rewrite Incr_store_hooks.
  - unfold Shard_DeleteExpired in Hs. pose proof (sweep_hooks (clk 0%nat) order (s, [], 0)) as Hh.
    destruct (foldl _ _ _) as [[s1 cs1] n1]. by injection Hs as _ <- _.
Qed.
End Refinement.

(** ** Runs *)

Section Runs.
Context {V T : Type} `{MsgpackLaws V T}.
Implicit Types s : Shard.

(** What an operation shows: its outcome, and the callbacks it makes. *)
Abbreviation Shows := (Outcome * calls)%type.

(** A run of a shard: operations with their clocks, and what they show. *)
Inductive shard_run : Shard -> list (Op * Clock) -> list Shows -> Shard -> Prop :=
  | run_nil s : shard_run s [] [] s
  | run_cons s op clk o s1 cs tr os s2 :
      shard_step s op clk o s1 cs -> shard_run s1 tr os s2 ->
      shard_run s ((op, clk) :: tr) ((o, cs) :: os) s2.

(** The same operations on the abstract cache, with the two callbacks installed
    or not. *)
Fixpoint spec_run (onEvict onExpire : bool) (max : Z) (tr : list (Op * Clock)) (l : list Item)
  : list Shows * list Item :=
  match tr with
  | [] => ([], l)
  | (op, clk) :: tr' =>
      let '(o, l1, cs) := spec_op max op clk l in
      let '(os, l2) := spec_run onEvict onExpire max tr' l1 in
      ((o, reported onEvict onExpire op cs) :: os, l2)
  end.

(** The same outcome and the same callbacks, each as often, in whatever order
    their goroutines or the iteration over the map bring them. *)
Definition shows_same (x y : Shows) : Prop := x.1 = y.1 /\ x.2 ≡ₚ y.2.

Definition run_ok (max : Z) (tr : list (Op * Clock)) : Prop :=
  forall op clk, (op, clk) ∈ tr -> ClockOk clk /\ op_small max op.

Lemma run_sim max s tr os s' :
  ShardOk max s -> run_ok max tr -> shard_run s tr os s' ->
  ShardOk max s' /\ exists os', spec_run (OnEvict s) (OnExpire s) max tr (abs s) = (os', abs s') /\ Forall2 shows_same os os'.
Proof.
  intros Hok Htr Hrun. induction Hrun as [s|s op clk o s1 cs tr os s2 Hst Hrun IH]; [by eauto|].
  destruct (Htr op clk) as [Hc Hsm]; [by constructor|].
  destruct (shard_step_sim max s op clk o s1 cs Hok Hc Hsm Hst) as [Hok1 Hsim].
  destruct IH as (Hok2 & os' & Heq & Hos); [done|intros ???; apply Htr; by constructor|].
  split; [done|]. cbn [spec_run]. unfold step_simulated in Hsim.
  pose proof (shard_step_hooks _ _ _ _ _ _ Hst) as Hh. injection Hh as Hh1 Hh2. rewrite Hh1, Hh2 in Heq.
  destruct (spec_op max op clk (abs s)) as [[o' l'] cs']. destruct Hsim as (-> & <- & Hcs).
  rewrite Heq. eexists. split; [reflexivity|]. by constructor.
Qed.

Lemma NewShard_ok max : ShardOk max (NewShard max).
Proof. split; [apply NewShard_wf|done|]. simpl. lia. Qed.

Lemma hooked_ok max fe fx s : ShardOk max s -> ShardOk max (Shard_SetOnExpire fx (Shard_SetOnEvict fe s)).
Proof. intros [Hw Hm Hb]. split; [|done|done]. by destruct Hw; split. Qed.

(** C28: every shard that the operations of shard.go can produce, in any
    order and with Exists and TTL split at their lock hand-over, is
    well formed: the map and the LRU list hold exactly the same entries, one
    per key and per list element, every entry carries its estimated size, and
    Size is the sum of those sizes in int64. *)
Theorem shard_reachable_wf max s : shard_reachable max s -> ShardWf s.
Proof.
  induction 1 as [|s op clk o s' cs _ IH Hc Hst|s k now _ IH|s fn _ IH|s fn _ IH].
  - apply NewShard_wf.
  - by eapply shard_step_wf.
  - unfold removeIfExpired. split_matches; eauto with cgwf.
  - by destruct IH; split.
  - by destruct IH; split.
Qed.

(** C4: a shard refines the abstract recency list: from a new shard, on which the
    callbacks for eviction and expiry are installed or not, every sequence of
    Get, Set, Delete, Exists, TTL, Incr, DeleteExpired (in any map iteration
    order) and Len has the outcomes of the abstract cache, makes its eviction
    and expiry callbacks, each with the key and the value of the item and as
    often, and leaves its items, most recently used first. *)
Theorem shard_trace_refines onEvict onExpire max tr os s :
  run_ok max tr -> shard_run (Shard_SetOnExpire onExpire (Shard_SetOnEvict onEvict (NewShard max))) tr os s ->
  exists os', spec_run onEvict onExpire max tr [] = (os', abs s) /\ Forall2 shows_same os os'.
Proof. intros Htr Hrun. apply (run_sim max) in Hrun as [_ ?]; [done|apply hooked_ok, NewShard_ok|done]. Qed.

(** C8: with a memory limit, after any sequence of operations the byte count
    is the exact total footprint of the entries and is within the limit. *)
Theorem shard_memory_bounded max tr os s :
  0 < max < 2 ^ 63 -> run_ok max tr -> shard_run (NewShard max) tr os s ->
  Size s = sumZ footprint (entries s) /\ 0 <= Size s <= max.
Proof.
  intros Hmax Htr Hrun. apply (run_sim max) in Hrun as [[Hw Hm Hb] _]; [|apply NewShard_ok|done].
  specialize (Hb ltac:(lia)).
  assert (Hex : Size s = sumZ footprint (entries s))
    by (apply wf_Size_exact; [done|unfold InBounds; lia]).
  split; [done|]. rewrite Hex. split; [|done].
  apply sumZ_nonneg. intros e _. pose proof (footprint_pos e). lia.
Qed.
End Runs.

(** ** Set and Get *)

Lemma spec_lookup_head i l : spec_lookup (iKey i) (i :: l) = Some i.
Proof. unfold spec_lookup. by rewrite filter_cons, decide_True. Qed.

(** What Set stored, Get returns, as long as the entry fits the limit and
    its TTL has not passed; a TTL that is not positive never expires. *)
Theorem set_get_roundtrip max s k v ttl clk clk' s1 cs :
  ShardOk max s -> op_small max (OpSet k v ttl) ->
  Shard_Set k v ttl clk s = (s1, cs) ->
  (0 < max -> len k + lenb v + 184 <= max) ->
  (0 < ttl -> clk' 0%nat <= clk 0%nat + ttl) ->
  (Shard_Get k clk' s1).1 = Some v.
Proof.
  intros Hok Hsm Hset Hfit Hlive.
  destruct (@set_sim _ _ tagged_msgpack max k v ttl clk s s1 cs Hok Hsm Hset) as [Hok1 (_ & Ha & _)].
  destruct (Shard_Get k clk' s1) as [r s2] eqn:Hg.
  destruct (@get_sim _ _ tagged_msgpack max k clk' s1 r s2 Hok1 Hg) as [_ Hsim].
  unfold step_simulated in Hsim. cbn [spec_op] in Hsim. rewrite Ha in Hsim.
  set (i := MkItem k v (expiryOf ttl (clk 0%nat))) in *.
  assert (Ht : exists l, spec_trim max (i :: spec_drop k (abs s)) = i :: l).
  { unfold spec_trim. destruct (Z.leb_spec max 0); [eauto|]. simpl.
    destruct (Z.leb_spec (item_size i) max); [eauto|]. unfold item_size in *. simpl in *. lia. }
  destruct Ht as [l Hl]. rewrite Hl, (spec_lookup_head i) in Hsim.
  assert (Hli : item_live (clk' 0%nat) i = true).
  { unfold item_live, i, expiryOf, Add, zeroTime. simpl. rewrite Z.gtb_ltb.
    destruct (Z.ltb_spec 0 ttl); [|done]. specialize (Hlive ltac:(lia)).
    apply orb_true_iff. right. by apply Z.leb_le. }
  rewrite Hli in Hsim. destruct Hsim as ([= ->] & _). done.
Qed.

(** A value whose footprint exceeds the shard's whole limit is not
    stored, and storing it evicts every entry of the shard. *)
Theorem oversized_set_flushes max s k v ttl clk s1 cs :
  ShardOk max s -> op_small max (OpSet k v ttl) ->
  Shard_Set k v ttl clk s = (s1, cs) ->
  0 < max -> max < len k + lenb v + 184 ->
  items s1 = ∅ /\ entries s1 = [] /\ Size s1 = 0.
Proof.
  intros Hok Hsm Hset Hpos Hbig.
  destruct (@set_sim _ _ tagged_msgpack max k v ttl clk s s1 cs Hok Hsm Hset) as [[Hw Hm _] (_ & Ha & _)].
  assert (He : entries s1 = []).
  { unfold abs, spec_trim in Ha. destruct (Z.leb_spec max 0); [lia|]. simpl in Ha.
    unfold item_size at 1 in Ha. simpl in Ha.
    destruct (Z.leb_spec (len k + lenb v + 184) max); [lia|]. by apply fmap_nil_inv in Ha. }
  split_and!; [|done|].
  - apply map_eq. intros k'. rewrite lookup_empty.
    destruct (items s1 !! k') as [e|] eqn:E; [|done].
    apply (wf_items s1 Hw) in E as [E _]. rewrite He in E. by apply not_elem_of_nil in E.
  - by rewrite (wf_size s1 Hw), He.
Qed.

(** ** Eviction, lock hand-over and counters *)


Section Counters.
Context {V T : Type} `{MsgpackLaws V T}.
Implicit Types s : Shard.

(** Incr on a live counter that fits: the result and the entry it leaves. *)
Lemma incr_live max s k e c d ttl clk r s' cs :
  ShardOk max s -> ClockOk clk -> op_small max (OpIncr k d ttl) ->
  (0 < max -> len k + 9 + 184 <= max) ->
  items s !! k = Some e -> Entry_IsExpired e (clk 0%nat) = false ->
  UnmarshalInt64 (Value e) = Ok c ->
  Shard_Incr k d ttl clk s = (r, s', cs) ->
  r = Ok (int64 (c + d)) /\ exists e', items s' !! k = Some e'
    /\ UnmarshalInt64 (Value e') = Ok (int64 (c + d))
    /\ ExpiresAt e' = expiryOf (if ExpiresAt e =? 0 then 0
                                else Z.max 0 (Until (ExpiresAt e) (clk 2%nat))) (clk 3%nat).
Proof.
  intros Hok Hc Hsm Hfit Hk Hx Hdec Hi.
  destruct (incr_sim max k d ttl clk s r s' cs Hok Hc Hsm Hi) as [Hok' Hsim].
  unfold step_simulated in Hsim. cbn [spec_op] in Hsim.
  rewrite (abs_lookup s) , Hk in Hsim by apply Hok. simpl in Hsim.
  rewrite live_expired, Hx, Hdec in Hsim. unfold spec_incr_store in Hsim. simpl in Hsim.
  destruct (int64_codec (int64 (c + d)) (int64_range _)) as (b & Hb & Hu).
  rewrite Hb in Hsim. simpl in Hsim. destruct Hsim as ([= ->] & Ha & _). split; [done|].
  set (x := expiryOf _ _) in *. pose proof (abs_lookup s' k ltac:(apply Hok')) as Hl.
  rewrite Ha in Hl. unfold spec_trim in Hl. simpl in Hl.
  destruct (Z.leb_spec max 0) as [Hm|Hm].
  2: rewrite (proj2 (Z.leb_le (item_size (MkItem k b x)) max)) in Hl
       by (unfold item_size; simpl; apply int64_width in Hb; lia).
  all: pose proof (spec_lookup_head (MkItem k b x)) as Hh; simpl in Hh; rewrite Hh in Hl;
    destruct (items s' !! k) as [e'|]; [|done]; injection Hl as Hk' Hv He; simpl in *.
  all: exists e'; split_and!; [done|by rewrite <- Hv|by rewrite <- He].
Qed.

(** Incr on a live counter returns the sum in int64, stores exactly that
    number, and keeps the expiry: the new one is the old one, later by at
    most the time between the two clock readings of the call. *)
Theorem incr_preserves_ttl max s k e c d ttl clk r s' cs :
  ShardOk max s -> ClockOk clk -> op_small max (OpIncr k d ttl) ->
  (0 < max -> len k + 9 + 184 <= max) ->
  items s !! k = Some e -> UnmarshalInt64 (Value e) = Ok c ->
  clk 2%nat < ExpiresAt e -> is_int64 (ExpiresAt e - clk 2%nat) ->
  Shard_Incr k d ttl clk s = (r, s', cs) ->
  r = Ok (int64 (c + d)) /\ exists e', items s' !! k = Some e'
    /\ UnmarshalInt64 (Value e') = Ok (int64 (c + d))
    /\ ExpiresAt e <= ExpiresAt e' <= ExpiresAt e + (clk 3%nat - clk 2%nat).
Proof.
  intros Hok Hc Hsm Hfit Hk Hdec Hlt Hrep Hi.
  pose proof (clock_pos_at clk 2 Hc) as Hp.
  assert (Hx : Entry_IsExpired e (clk 0%nat) = false).
  { unfold Entry_IsExpired, After. destruct (IsZero _); [done|].
    rewrite Z.gtb_ltb. apply Z.ltb_ge. pose proof (clock_mono clk Hc 0 2 ltac:(lia)). lia. }
  destruct (incr_live max s k e c d ttl clk r s' cs) as (Hr & e' & Hk' & Hv & He); try done.
  split; [done|]. exists e'. split_and!; try done; rewrite He.
  all: destruct (Z.eqb_spec (ExpiresAt e) 0); [lia|].
  all: pose proof (clock_mono clk Hc 2 3 ltac:(lia)).
  all: unfold expiryOf, Until, Sub, Add, is_int64, minDuration, maxDuration in *.
  all: rewrite Z.min_r, !Z.max_r, Z.gtb_ltb by lia.
  all: rewrite (proj2 (Z.ltb_lt 0 (ExpiresAt e - clk 2%nat))) by lia; lia.
Qed.

(** At the exact instant of its expiry a counter is still live for Incr,
    but no time remains, and the counter that Incr writes back has no expiry
    at all. *)
Theorem incr_at_expiry_is_permanent max s k e c d ttl r s' cs :
  ShardOk max s -> op_small max (OpIncr k d ttl) -> (0 < max -> len k + 9 + 184 <= max) ->
  items s !! k = Some e -> UnmarshalInt64 (Value e) = Ok c ->
  ClockOk (frozen (ExpiresAt e)) ->
  Shard_Incr k d ttl (frozen (ExpiresAt e)) s = (r, s', cs) ->
  r = Ok (int64 (c + d)) /\ exists e', items s' !! k = Some e' /\ ExpiresAt e' = zeroTime.
Proof.
  intros Hok Hsm Hfit Hk Hdec Hpos Hi.
  destruct (incr_live max s k e c d ttl (frozen (ExpiresAt e)) r s' cs)
    as (Hr & e' & Hk' & Hv & He); try done.
  - unfold Entry_IsExpired, After, frozen. destruct (IsZero _); [done|].
    rewrite Z.gtb_ltb. apply Z.ltb_irrefl.
  - split; [done|]. exists e'. split; [done|]. rewrite He. unfold frozen, Until, Sub.
    rewrite Z.sub_diag. by destruct (_ =? _).
Qed.
End Counters.

(** ** Witnesses *)

(** An instant in 2023. *)
Definition t0 : Time := unixEpoch + 1700000000 * Second.
Definition w_clock : Clock := frozen t0.
Definition w_shard : Shard := (Shard_Set "a" [Byte.x01] 50 w_clock (NewShard 1000)).1.

Lemma w_clock_ok : ClockOk w_clock.
Proof. apply frozen_ok. by vm_compute. Qed.

Lemma w_shard_run :
  @shard_run _ _ tagged_msgpack (NewShard 1000) [(OpSet "a" [Byte.x01] 50, w_clock)]
    [(OutUnit, [])] w_shard.
Proof.
  eapply run_cons; [|apply run_nil]. apply step_set. vm_compute. reflexivity.
Qed.

Lemma w_run_ok : run_ok 1000 [(OpSet "a" [Byte.x01] 50, w_clock)].
Proof.
  intros op clk Hin. apply list_elem_of_singleton in Hin. injection Hin as -> ->.
  split; [apply w_clock_ok|]. unfold op_small. simpl. unfold len, lenb. simpl. lia.
Qed.

Lemma w_shard_ok : ShardOk 1000 w_shard.
Proof.
  apply (@run_sim _ _ tagged_msgpack tagged_msgpack_laws 1000 (NewShard 1000) _ _ _
    (NewShard_ok 1000) w_run_ok w_shard_run).
Qed.

Lemma shard_reachable_wf_witness : ShardWf w_shard.
Proof.
  apply (@shard_reachable_wf _ _ tagged_msgpack 1000).
  eapply reach_step; [apply reach_new|apply w_clock_ok|].
  apply (step_set (NewShard 1000) "a" [Byte.x01] 50). apply surjective_pairing.
Defined.

(** Room for one entry: the second Set evicts the first, and says so. *)
Definition w_tight : Shard := Shard_SetOnExpire true (Shard_SetOnEvict true (NewShard 200)).
Definition w_trace : list (Op * Clock) := [(OpSet "a" [Byte.x01] 50, w_clock); (OpSet "b" [Byte.x02] 50, w_clock)].
Definition w_end : Shard := (Shard_Set "b" [Byte.x02] 50 w_clock (Shard_Set "a" [Byte.x01] 50 w_clock w_tight).1).1.

Lemma w_trace_run : @shard_run _ _ tagged_msgpack w_tight w_trace [(OutUnit, []); (OutUnit, [("a", [Byte.x01])])] w_end.
Proof.
  eapply run_cons; [apply step_set; vm_compute; reflexivity|]. eapply run_cons; [|apply run_nil].
  apply step_set. vm_compute. reflexivity.
Qed.

Lemma shard_trace_refines_witness :
  exists os', @spec_run _ _ tagged_msgpack true true 200 w_trace [] = (os', abs w_end)
    /\ Forall2 shows_same [(OutUnit, []); (OutUnit, [("a", [Byte.x01])])] os'.
Proof.
  apply (@shard_trace_refines _ _ tagged_msgpack tagged_msgpack_laws true true 200); [|exact w_trace_run].
  intros op clk Hin. unfold w_trace in Hin. rewrite !elem_of_cons, elem_of_nil in Hin.
  destruct Hin as [[= -> ->]|[[= -> ->]|[]]]; (split; [apply w_clock_ok|]); intros _; by vm_compute.
Defined.

Lemma shard_memory_bounded_witness :
  Size w_shard = sumZ footprint (entries w_shard) /\ 0 <= Size w_shard <= 1000.
Proof.
  apply (@shard_memory_bounded _ _ tagged_msgpack tagged_msgpack_laws 1000 _ _ _ ltac:(lia)
    w_run_ok w_shard_run).
Defined.

Lemma set_get_roundtrip_witness :
  (Shard_Get "b" (frozen (t0 + 50)) (Shard_Set "b" [Byte.x02] 50 w_clock w_shard).1).1
  = Some [Byte.x02].
Proof.
  apply (set_get_roundtrip 1000 w_shard "b" [Byte.x02] 50 w_clock (frozen (t0 + 50)) _ _ w_shard_ok
    ltac:(by unfold op_small; vm_compute) (surjective_pairing _)).
  - intros _. vm_compute. discriminate.
  - intros _. vm_compute. discriminate.
Defined.

Definition w_small : Shard := NewShard 190.

Lemma oversized_set_flushes_witness :
  let s1 := (Shard_Set "long key" [Byte.x01] 0 w_clock w_small).1 in
  items s1 = ∅ /\ entries s1 = [] /\ Size s1 = 0.
Proof.
  apply (oversized_set_flushes 190 w_small "long key" [Byte.x01] 0 w_clock _ _
    (NewShard_ok 190) ltac:(by unfold op_small; vm_compute) (surjective_pairing _)); by vm_compute.
Defined.




(** A counter with value 7 that expires 50ns after [t0]. *)
Definition w_seven : bytes := Byte.xd3 :: PutUint64 7.
Definition w_counter : Shard := (Shard_Set "n" w_seven 50 w_clock (NewShard 0)).1.
Definition w_counter_entry : Entry := MkEntry "n" w_seven (t0 + 50) 194 0.

Lemma w_counter_ok : ShardOk 0 w_counter.
Proof.
  eapply (@set_sim _ _ tagged_msgpack 0 "n" w_seven 50 w_clock (NewShard 0));
    [apply NewShard_ok|by unfold op_small; lia|apply surjective_pairing].
Qed.

Lemma incr_preserves_ttl_witness :
  let '(r, s', _) := @Shard_Incr _ _ tagged_msgpack "n" 5 0 w_clock w_counter in
  r = Ok 12 /\ exists e', items s' !! "n" = Some e'
    /\ UnmarshalInt64 (Msgpack := tagged_msgpack) (Value e') = Ok 12
    /\ t0 + 50 <= ExpiresAt e' <= t0 + 50 + (t0 - t0).
Proof.
  destruct (@Shard_Incr _ _ tagged_msgpack "n" 5 0 w_clock w_counter) as [[r s'] cs] eqn:E.
  apply (@incr_preserves_ttl _ _ tagged_msgpack tagged_msgpack_laws 0 w_counter "n"
    w_counter_entry 7 5 0 w_clock r s' cs w_counter_ok w_clock_ok);
    [unfold op_small; lia|lia|by vm_compute|by vm_compute|by vm_compute|
     unfold is_int64; vm_compute; by split|exact E].
Defined.

Lemma incr_at_expiry_is_permanent_witness :
  let '(r, s', _) := @Shard_Incr _ _ tagged_msgpack "n" 5 0 (frozen (t0 + 50)) w_counter in
  r = Ok 12 /\ exists e', items s' !! "n" = Some e' /\ ExpiresAt e' = zeroTime.
Proof.
  destruct (@Shard_Incr _ _ tagged_msgpack "n" 5 0 (frozen (t0 + 50)) w_counter) as [[r s'] cs] eqn:E.
  apply (@incr_at_expiry_is_permanent _ _ tagged_msgpack tagged_msgpack_laws 0 w_counter "n"
    w_counter_entry 7 5 0 r s' cs w_counter_ok);
    [unfold op_small; lia|lia|by vm_compute|by vm_compute|apply frozen_ok; by vm_compute|exact E].
Defined.
