(* ===== verification/Store.v ===== *)
(** The Store interface of store.go, as a class of operations, and the contract
    the cache relies on, as a class of laws over an abstract view of the
    stored items. *)
From S2P Require Import Prelude GoLib Serializer Shard.

(** An operation of a store returns [None] where the Go code would panic. The
    [calls] are the callbacks it makes: evictions for Set and Incr (each in its
    own goroutine), expirations for DeleteExpired; whether a callback is installed
    is a flag of the store. [Order] is what the store's
    iteration order depends on. *)
Class Store (S : Type) {V T : Type} `{Msgpack V T} := {
  Order : Type;
  Store_Get : string -> Clock -> S -> option (option bytes * S);
  Store_Set : string -> bytes -> Duration -> Clock -> S -> option (calls * S);
  Store_Delete : string -> S -> option (bool * S);
  Store_Exists : string -> Clock -> S -> option (bool * S);
  Store_TTL : string -> Clock -> S -> option (Duration * S);
  Store_Incr : string -> Z -> Duration -> Clock -> S -> option (result Z * calls * S);
  Store_DeleteExpired : Order -> Clock -> S -> option (Z * calls * S);
  Store_Len : S -> Z;
  Store_SetOnEvict : bool -> S -> S;
  Store_SetOnExpire : bool -> S -> S;
}.

(** What a store shows under a key: the value and its expiry (0: none). *)
Abbreviation Binding := (bytes * Time)%type.

(** The binding as a reader at [now] sees it: gone once its expiry has passed. *)
Definition live_at (now : Time) (b : option Binding) : option Binding :=
  match b with
  | Some (v, x) => if (x =? 0) || (now <=? x) then Some (v, x) else None
  | None => None
  end.

(** [view'] is [view] with key [k] rebound to [b]. *)
Definition rebound (k : string) (b : option Binding) (view view' : string -> option Binding) : Prop :=
  view' k = b /\ forall k', k' ≠ k -> view' k' = view k'.

(** [view'] is [view] with key [k] rebound to [b], and possibly some bindings
    dropped: a bounded store may forget. *)
Definition rebound_lossy (k : string) (b : option Binding)
    (view view' : string -> option Binding) : Prop :=
  (view' k = b \/ view' k = None) /\
  forall k', k' ≠ k -> view' k' = view k' \/ view' k' = None.

(** The remaining lifetime, read at [now]: -1 without expiry, 0 when missing. *)
Definition ttl_of (now : Time) (b : option Binding) : Duration :=
  match b with
  | Some (_, x) => if x =? 0 then -1 else Z.max 0 (Until x now)
  | None => 0
  end.

(** The contract. [store_ok] is the store's invariant, [view] its contents;
    [admits] says when a write is within the store's arithmetic range, and
    [retains] when a write is certain to be kept. *)
Class StoreLaws (S : Type) {V T : Type} `{Store S V T} := {
  store_ok : S -> Prop;
  view : S -> string -> option Binding;
  admits : S -> string -> bytes -> Duration -> Clock -> Prop;
  retains : S -> string -> bytes -> Prop;

  law_Get : forall s k clk, store_ok s -> ClockOk clk ->
    exists s', Store_Get k clk s = Some (fst <$> live_at (clk 0%nat) (view s k), s')
      /\ store_ok s' /\ rebound k (live_at (clk 0%nat) (view s k)) (view s) (view s');

  law_Set : forall s k v ttl clk, store_ok s -> ClockOk clk -> admits s k v ttl clk ->
    exists cs s', Store_Set k v ttl clk s = Some (cs, s') /\ store_ok s'
      /\ rebound_lossy k (Some (v, expiryOf ttl (clk 0%nat))) (view s) (view s')
      /\ (retains s k v -> view s' k = Some (v, expiryOf ttl (clk 0%nat)));

  (** What is reported as evicted is gone. *)
  law_evicted : forall s k v ttl clk cs s', store_ok s -> ClockOk clk -> admits s k v ttl clk ->
    Store_Set k v ttl clk s = Some (cs, s') -> forall k', k' ∈ cs.*1 -> view s' k' = None;

  law_Delete : forall s k, store_ok s ->
    exists s', Store_Delete k s = Some (bool_decide (is_Some (view s k)), s')
      /\ store_ok s' /\ rebound k None (view s) (view s');

  law_Exists : forall s k clk, store_ok s -> ClockOk clk ->
    exists s', Store_Exists k clk s
        = Some (bool_decide (is_Some (live_at (clk 0%nat) (view s k))), s')
      /\ store_ok s' /\ rebound k (live_at (clk 0%nat) (view s k)) (view s) (view s');

  law_TTL : forall s k clk, store_ok s -> ClockOk clk ->
    exists s', Store_TTL k clk s
        = Some (ttl_of (clk 1%nat) (live_at (clk 0%nat) (view s k)), s')
      /\ store_ok s' /\ rebound_lossy k (view s k) (view s) (view s')
      /\ forall k' v x, view s k' = Some (v, x) -> (x = 0 \/ clk 1%nat < x) ->
           view s' k' = Some (v, x);
}.

Lemma live_at_None now : live_at now None = None.
Proof. done. Qed.

Lemma live_at_expiryOf v ttl now now' : (0 < ttl -> now' <= now + ttl) ->
  live_at now' (Some (v, expiryOf ttl now)) = Some (v, expiryOf ttl now).
Proof.
  intros Hl. cbn [live_at]. unfold expiryOf, zeroTime, Add. rewrite Z.gtb_ltb.
  destruct (Z.ltb_spec 0 ttl) as [Hp|Hp]; [|done].
  rewrite (proj2 (Z.leb_le now' _)) by auto. by rewrite orb_true_r.
Qed.

Lemma rebound_lossless k b v1 v2 : rebound k b v1 v2 -> rebound_lossy k b v1 v2.
Proof. intros [H1 H2]. split; [by left|]. intros. left. auto. Qed.
