(* ===== verification/MemoryStore.v ===== *)
(** store_memory.go: the in-memory store, a power-of-two array of shards
    selected by the FNV-1a hash of the key. *)
From S2P Require Import Prelude GoLib Serializer Shard ShardProofs LRUSpec ShardRefine.
From S2P Require Import ShardTheorems Store.
From S2P Require Config.

Record MemoryStore := MkMemoryStore {
  shards : list Shard;
  mask : Z;
}.

Definition NewMemoryStore (numShards perShardMaxBytes : Z) : MemoryStore :=
  MkMemoryStore (replicate (Z.to_nat numShards) (NewShard perShardMaxBytes))
    (uint32 (numShards - 1)).

Definition shardIndex (m : MemoryStore) (key : string) : nat :=
  Z.to_nat (Z.land (fnv32a key) (mask m)).

(** [m.shards[h.Sum32() & m.mask]]; [None] is an index out of range. *)
Definition getShard (m : MemoryStore) (key : string) : option Shard :=
  shards m !! shardIndex m key.

(** Run a method on the key's shard: shards are shared by reference, so the
    method's effect is written back. *)
Definition onShard {A} (m : MemoryStore) (key : string) (f : Shard -> A * Shard)
  : option (A * MemoryStore) :=
  match getShard m key with
  | None => None
  | Some s =>
      let '(r, s') := f s in
      Some (r, MkMemoryStore (<[shardIndex m key := s']> (shards m)) (mask m))
  end.

Definition MemoryStore_Get (key : string) (clk : Clock) (m : MemoryStore) :=
  onShard m key (Shard_Get key clk).

Definition MemoryStore_Set (key : string) (value : bytes) (ttl : Duration) (clk : Clock)
    (m : MemoryStore) : option (calls * MemoryStore) :=
  onShard m key (fun s => let '(s', cs) := Shard_Set key value ttl clk s in (cs, s')).

Definition MemoryStore_Delete (key : string) (m : MemoryStore) :=
  onShard m key (Shard_Delete key).

Definition MemoryStore_Exists (key : string) (clk : Clock) (m : MemoryStore) :=
  onShard m key (Shard_Exists key clk).

Definition MemoryStore_TTL (key : string) (clk : Clock) (m : MemoryStore) :=
  onShard m key (Shard_TTL key clk).

Definition MemoryStore_Incr {V T} `{Msgpack V T} (key : string) (delta : Z)
    (defaultTTL : Duration) (clk : Clock) (m : MemoryStore)
  : option (result Z * calls * MemoryStore) :=
  onShard m key (fun s =>
    let '(r, s', cs) := Shard_Incr key delta defaultTTL clk s in ((r, cs), s')).

(** The sweep visits the shards in turn; [orders] holds the map iteration order
    in each, and shard [i] reads the clock at point [i]. *)
Fixpoint sweepShards (orders : list (list (string * Entry))) (clk : Clock) (ss : list Shard)
  : Z * calls * list Shard :=
  match ss with
  | [] => (0, [], [])
  | s :: ss' =>
      let '(n, s1, cs) := Shard_DeleteExpired (hd [] orders) clk s in
      let '(total, cs', ss1) := sweepShards (tl orders) (advance 1 clk) ss' in
      (n + total, cs ++ cs', s1 :: ss1)
  end.

Definition MemoryStore_DeleteExpired (orders : list (list (string * Entry))) (clk : Clock)
    (m : MemoryStore) : Z * calls * MemoryStore :=
  let '(total, cs, ss) := sweepShards orders clk (shards m) in
  (total, cs, MkMemoryStore ss (mask m)).

Definition MemoryStore_Len (m : MemoryStore) : Z := sumZ Shard_Len (shards m).

Definition MemoryStore_SetOnEvict (fn : bool) (m : MemoryStore) : MemoryStore :=
  MkMemoryStore (Shard_SetOnEvict fn <$> shards m) (mask m).

Definition MemoryStore_SetOnExpire (fn : bool) (m : MemoryStore) : MemoryStore :=
  MkMemoryStore (Shard_SetOnExpire fn <$> shards m) (mask m).

#[export] Instance MemoryStore_Store {V T} `{Msgpack V T} : Store MemoryStore := {
  Order := list (list (string * Entry));
  Store_Get := MemoryStore_Get;
  Store_Set := MemoryStore_Set;
  Store_Delete := MemoryStore_Delete;
  Store_Exists := MemoryStore_Exists;
  Store_TTL := MemoryStore_TTL;
  Store_Incr := MemoryStore_Incr;
  Store_DeleteExpired orders clk m := Some (MemoryStore_DeleteExpired orders clk m);
  Store_Len := MemoryStore_Len;
  Store_SetOnEvict := MemoryStore_SetOnEvict;
  Store_SetOnExpire := MemoryStore_SetOnExpire;
}.

(** ** The invariant *)

(** A power-of-two number of well-formed shards with the same limit; a key is
    only ever stored in the shard its hash selects. *)
Record MemoryStoreOk (max : Z) (m : MemoryStore) : Prop := {
  ms_pow2 : exists k, 0 <= k < 63 /\ Z.of_nat (length (shards m)) = 2 ^ k
                      /\ mask m = uint32 (2 ^ k - 1);
  ms_shard : forall i s, shards m !! i = Some s -> ShardOk max s;
  ms_routed : forall i s k e, shards m !! i = Some s -> items s !! k = Some e ->
    shardIndex m k = i;
}.

Lemma uint32_mask_bound n : 0 <= n -> 0 <= uint32 n <= n.
Proof.
  intros Hn. unfold uint32. pose proof (Z.mod_pos_bound n (2 ^ 32) ltac:(lia)).
  pose proof (Z.mod_le n (2 ^ 32) Hn ltac:(lia)). lia.
Qed.

Lemma land_le_r a b : 0 <= a -> 0 <= b -> 0 <= Z.land a b <= b.
Proof.
  intros Ha Hb. split; [by apply Z.land_nonneg; left|].
  apply Z.le_trans with (Z.lor (Z.land a b) (Z.ldiff b a)).
  - rewrite Z.lor_comm. rewrite <- Z.lxor_lor.
    + rewrite <- Z.add_nocarry_lxor.
      * assert (0 <= Z.ldiff b a) by (by apply Z.ldiff_nonneg; left). lia.
      * apply Z.bits_inj'. intros n Hn. rewrite !Z.land_spec, Z.ldiff_spec, Z.bits_0.
        by destruct (Z.testbit a n), (Z.testbit b n).
    + apply Z.bits_inj'. intros n Hn. rewrite !Z.land_spec, Z.ldiff_spec, Z.bits_0.
      by destruct (Z.testbit a n), (Z.testbit b n).
  - apply Z.eq_le_incl, Z.bits_inj'. intros n Hn.
    rewrite Z.lor_spec, Z.land_spec, Z.ldiff_spec.
    by destruct (Z.testbit a n), (Z.testbit b n).
Qed.

Lemma getShard_total max m key : MemoryStoreOk max m -> exists s, getShard m key = Some s.
Proof.
  intros [(k & Hk & Hlen & Hmask) _ _]. unfold getShard. apply lookup_lt_is_Some_2.
  unfold shardIndex. pose proof (fnv32a_range key) as [Hf _].
  assert (H2 : 0 < 2 ^ k) by (apply Z.pow_pos_nonneg; lia).
  pose proof (uint32_mask_bound (2 ^ k - 1) ltac:(lia)).
  pose proof (land_le_r (fnv32a key) (mask m) Hf ltac:(lia)). lia.
Qed.

Lemma NewMemoryStore_ok n max k :
  0 <= k < 63 -> n = 2 ^ k -> MemoryStoreOk max (NewMemoryStore n max).
Proof.
  intros Hk ->. assert (H2 : 0 < 2 ^ k) by (apply Z.pow_pos_nonneg; lia). split.
  - exists k. split_and!; try done; try lia. simpl. rewrite length_replicate. lia.
  - intros i s [-> _]%lookup_replicate. apply NewShard_ok.
  - intros i s key e [-> _]%lookup_replicate. simpl. by rewrite lookup_empty.
Qed.

(** ** The view of a shard *)

Definition binding_of (e : Entry) : Binding := (Value e, ExpiresAt e).
Definition sview (s : Shard) (k : string) : option Binding := binding_of <$> items s !! k.

Lemma live_at_entry now e :
  live_at now (Some (binding_of e)) = if Entry_IsExpired e now then None else Some (binding_of e).
Proof.
  unfold live_at, binding_of, Entry_IsExpired, IsZero, After.
  destruct (ExpiresAt e =? 0); simpl; [done|].
  rewrite Z.gtb_ltb, Z.leb_antisym. by destruct (_ <? _).
Qed.

Lemma sview_items s s' : items s' = items s -> forall k, sview s' k = sview s k.
Proof. intros He k. unfold sview. by rewrite He. Qed.

Lemma sview_delete s s' k :
  items s' = delete k (items s) -> rebound k None (sview s) (sview s').
Proof.
  intros He. unfold rebound, sview. rewrite He. split; [by rewrite lookup_delete_eq|].
  intros k' Hne. by rewrite lookup_delete_ne.
Qed.

Lemma sview_same k b s s' :
  items s' = items s -> sview s k = b -> rebound k b (sview s) (sview s').
Proof. intros He <-. split; auto using sview_items. Qed.

Lemma sview_Some s k e : items s !! k = Some e -> sview s k = Some (binding_of e).
Proof. unfold sview. by intros ->. Qed.

Lemma sview_None s k : items s !! k = None -> sview s k = None.
Proof. unfold sview. by intros ->. Qed.

Lemma removeIfExpired_items k clk e s :
  ClockOk clk -> items s !! k = Some e -> Entry_IsExpired e (clk 0%nat) = true ->
  items (removeIfExpired k (clk 1%nat) s) = delete k (items s).
Proof. intros. erewrite removeIfExpired_twice by done. apply dropKey_items. Qed.

(** The three shapes of a read: the key is missing, expired (and deleted) or
    live. *)
Ltac read_cases s k clk Hk Hx :=
  destruct (items s !! k) as [?e|] eqn:Hk;
    [rewrite (sview_Some s k _ Hk), live_at_entry;
     match goal with |- context [Entry_IsExpired ?e (clk 0%nat)] =>
       destruct (Entry_IsExpired e (clk 0%nat)) eqn:Hx end
    |rewrite (sview_None s k Hk)]; cbn [fst snd live_at];
  rewrite ?bool_decide_true by eauto; rewrite ?bool_decide_false by (by intros [? ?]).

Section ShardView.
Implicit Types s : Shard.

Lemma Get_view k clk s :
  (Shard_Get k clk s).1 = fst <$> live_at (clk 0%nat) (sview s k)
  /\ rebound k (live_at (clk 0%nat) (sview s k)) (sview s) (sview (Shard_Get k clk s).2).
Proof.
  unfold Shard_Get. read_cases s k clk Hk Hx; (split; [done|]).
  - by apply sview_delete.
  - apply sview_same; [done|]. by apply sview_Some.
  - apply sview_same; [done|]. by apply sview_None.
Qed.

Lemma Exists_view k clk s : ClockOk clk ->
  (Shard_Exists k clk s).1 = bool_decide (is_Some (live_at (clk 0%nat) (sview s k)))
  /\ rebound k (live_at (clk 0%nat) (sview s k)) (sview s) (sview (Shard_Exists k clk s).2).
Proof.
  intros Hc. unfold Shard_Exists. read_cases s k clk Hk Hx; (split; [done|]).
  - apply sview_delete. by eapply removeIfExpired_items.
  - apply sview_same; [done|]. by apply sview_Some.
  - apply sview_same; [done|]. by apply sview_None.
Qed.

Lemma TTL_view k clk s : ClockOk clk ->
  (Shard_TTL k clk s).1 = ttl_of (clk 1%nat) (live_at (clk 0%nat) (sview s k))
  /\ rebound k (live_at (clk 0%nat) (sview s k)) (sview s) (sview (Shard_TTL k clk s).2).
Proof.
  intros Hc. unfold Shard_TTL. read_cases s k clk Hk Hx.
  - split; [done|]. apply sview_delete. by eapply removeIfExpired_items.
  - split; [apply Entry_TTL_max|]. apply sview_same; [done|]. by apply sview_Some.
  - split; [done|]. apply sview_same; [done|]. by apply sview_None.
Qed.

Lemma Delete_view k s :
  (Shard_Delete k s).1 = bool_decide (is_Some (sview s k))
  /\ rebound k None (sview s) (sview (Shard_Delete k s).2).
Proof.
  unfold Shard_Delete. destruct (items s !! k) as [e|] eqn:Hk.
  - rewrite (sview_Some s k e Hk), bool_decide_true by eauto.
    split; [done|]. by apply sview_delete.
  - rewrite (sview_None s k Hk), bool_decide_false by (by intros [? ?]).
    split; [done|]. apply sview_same; [done|]. by apply sview_None.
Qed.
End ShardView.

(** ** Lookups in recency lists *)

Definition ibinding (i : Item) : Binding := (iValue i, iExpiry i).

Lemma sview_abs s k : ShardWf s -> sview s k = ibinding <$> spec_lookup k (abs s).
Proof. intros Hwf. rewrite abs_lookup by done. unfold sview. by destruct (items s !! k). Qed.

Lemma spec_lookup_cons k i l :
  spec_lookup k (i :: l) = if decide (iKey i = k) then Some i else spec_lookup k l.
Proof. unfold spec_lookup. rewrite filter_cons. by case_decide. Qed.

Lemma spec_lookup_drop k k' l : k' ≠ k -> spec_lookup k' (spec_drop k l) = spec_lookup k' l.
Proof.
  intros Hne. induction l as [|i l IH]; [done|].
  unfold spec_drop. rewrite filter_cons. fold (spec_drop k l).
  destruct (decide (iKey i ≠ k)) as [H|H].
  - rewrite !spec_lookup_cons. by case_decide.
  - rewrite spec_lookup_cons, decide_False; [done|]. apply dec_stable in H. congruence.
Qed.

Lemma spec_lookup_prefix k l1 l2 :
  l1 `prefix_of` l2 -> spec_lookup k l1 = spec_lookup k l2 \/ spec_lookup k l1 = None.
Proof.
  intros [l3 ->]. unfold spec_lookup. rewrite filter_app.
  destruct (filter _ l1); [by right|by left].
Qed.

Lemma spec_trim_prefix max l : spec_trim max l `prefix_of` l.
Proof. unfold spec_trim. destruct (_ <=? _); [done|]. apply keep_fit_prefix. Qed.

Lemma Set_view max k v ttl clk s :
  ShardOk max s -> op_small max (OpSet k v ttl) ->
  rebound_lossy k (Some (v, expiryOf ttl (clk 0%nat))) (sview s) (sview (Shard_Set k v ttl clk s).1)
  /\ ((0 < max -> len k + lenb v + 184 <= max) ->
      sview (Shard_Set k v ttl clk s).1 k = Some (v, expiryOf ttl (clk 0%nat))).
Proof.
  intros Hok Hsm. destruct (Shard_Set k v ttl clk s) as [s' cs] eqn:Hs. simpl.
  destruct (@set_sim _ _ tagged_msgpack max k v ttl clk s s' cs Hok Hsm Hs) as [Hok' (_ & Ha & _)].
  set (i := MkItem k v (expiryOf ttl (clk 0%nat))) in *.
  pose proof (spec_trim_prefix max (i :: spec_drop k (abs s))) as Hp. rewrite <- Ha in Hp.
  assert (Hv : forall k', sview s' k' = (if decide (k = k') then Some (ibinding i) else sview s k')
                          \/ sview s' k' = None).
  { intros k'. rewrite !sview_abs by (apply Hok || apply Hok').
    destruct (spec_lookup_prefix k' _ _ Hp) as [->| ->]; [left|by right].
    rewrite spec_lookup_cons. simpl. case_decide; [done|]. by rewrite spec_lookup_drop. }
  split; [split|].
  - destruct (Hv k) as [->| ->]; [left|by right]. by rewrite decide_True.
  - intros k' Hne. destruct (Hv k') as [->| ->]; [left|by right]. by rewrite decide_False.
  - intros Hfit. rewrite sview_abs, Ha by apply Hok'. unfold spec_trim.
    destruct (Z.leb_spec max 0) as [Hm|Hm]; simpl.
    + by rewrite spec_lookup_cons, decide_True.
    + rewrite (proj2 (Z.leb_le (item_size i) max)).
      * by rewrite spec_lookup_cons, decide_True.
      * unfold item_size. simpl. apply Hfit. lia.
Qed.

Lemma spec_lookup_absent k l : k ∉ iKey <$> l -> spec_lookup k l = None.
Proof.
  induction l as [|i l IH]; [done|]. rewrite fmap_cons, not_elem_of_cons. intros [Hne Hn].
  rewrite spec_lookup_cons, decide_False by congruence. auto.
Qed.

(** An evicted key is nowhere among those that stay. *)
Lemma evictions_absent max k l : NoDup (iKey <$> l) -> k ∈ (spec_evictions max l).*1 ->
  k ∈ iKey <$> l /\ spec_lookup k (spec_trim max l) = None.
Proof.
  unfold spec_evictions. intros Hd Hk. destruct (spec_trim_prefix max l) as [l2 Hl].
  revert Hl Hk. generalize (spec_trim max l). intros kept Hl Hk.
  assert (k ∈ iKey <$> l2) as Hk2.
  { rewrite Hl, drop_app_length, !fmap_reverse, elem_of_reverse, <- list_fmap_compose in Hk. exact Hk. }
  split; [rewrite Hl, fmap_app; apply elem_of_app; by right|].
  apply spec_lookup_absent. intros Hin. rewrite Hl, fmap_app, NoDup_app in Hd. destruct Hd as (_ & Hd & _). by apply (Hd k).
Qed.

Lemma abs_NoDup s : ShardWf s -> NoDup (iKey <$> abs s).
Proof. intros Hwf. unfold abs. rewrite <- list_fmap_compose. apply Hwf. Qed.

Lemma drop_NoDup i l : NoDup (iKey <$> l) -> NoDup (iKey <$> i :: spec_drop (iKey i) l).
Proof.
  intros Hd. rewrite fmap_cons. apply NoDup_cons. split.
  - intros (j & E & Hj)%list_elem_of_fmap. unfold spec_drop in Hj. apply list_elem_of_filter in Hj as [Hne _]. congruence.
  - unfold spec_drop. induction l as [|j l IH]; [done|]. rewrite fmap_cons, NoDup_cons in Hd. destruct Hd as [Hn Hd].
    rewrite filter_cons. case_decide; [|auto]. rewrite fmap_cons. apply NoDup_cons. split; [|auto].
    intros (x & E & [_ Hx]%list_elem_of_filter)%list_elem_of_fmap. apply Hn. rewrite E. by apply list_elem_of_fmap_2.
Qed.

(** What a Set evicts was in the shard, or is the entry itself, and is gone. *)
Lemma Set_evicted max k v ttl clk s k' :
  ShardOk max s -> op_small max (OpSet k v ttl) -> k' ∈ ((Shard_Set k v ttl clk s).2).*1 ->
  (k' = k \/ is_Some (items s !! k')) /\ sview (Shard_Set k v ttl clk s).1 k' = None.
Proof.
  intros Hok Hsm. destruct (Shard_Set k v ttl clk s) as [s' cs] eqn:Hs. cbn [fst snd]. intros Hk.
  destruct (@set_sim _ _ tagged_msgpack max k v ttl clk s s' cs Hok Hsm Hs) as [Hok' (_ & Ha & Hcs)].
  rewrite sview_abs, Ha by apply Hok'. cbn [reported] in Hcs. rewrite Hcs in Hk.
  destruct (OnEvict s); [|by apply elem_of_nil in Hk]. pose proof (ok_wf max s Hok) as Hwf.
  destruct (evictions_absent _ _ _ (drop_NoDup (MkItem k v (expiryOf ttl (clk 0%nat))) (abs s) (abs_NoDup s Hwf)) Hk) as [Hin Hgone].
  cbn [iKey] in Hgone. split; [|by rewrite Hgone]. rewrite fmap_cons, elem_of_cons in Hin. destruct Hin as [->|(i & -> & Hi)%list_elem_of_fmap]; [by left|right].
  unfold spec_drop, abs in Hi. apply list_elem_of_filter in Hi as [_ (e & -> & He)%list_elem_of_fmap].
  exists e. by apply (wf_items s Hwf).
Qed.

(** ** The view of the store *)

Definition mview (m : MemoryStore) (k : string) : option Binding :=
  match getShard m k with
  | Some s => sview s k
  | None => None
  end.

Definition put_shard (m : MemoryStore) (key : string) (s' : Shard) : MemoryStore :=
  MkMemoryStore (<[shardIndex m key := s']> (shards m)) (mask m).

Section OnShard.
Context (max : Z).
Implicit Types m : MemoryStore.

Lemma getShard_put m key s s' k :
  getShard m key = Some s ->
  getShard (put_shard m key s') k =
    if decide (shardIndex m k = shardIndex m key) then Some s' else getShard m k.
Proof.
  intros Hg. unfold getShard, put_shard, shardIndex in *. simpl. case_decide as Heq.
  - rewrite Heq, list_lookup_insert_eq; [done|]. by eapply lookup_lt_Some.
  - by rewrite list_lookup_insert_ne.
Qed.

Lemma mview_put_lossy m key s s' b :
  getShard m key = Some s -> rebound_lossy key b (sview s) (sview s') ->
  rebound_lossy key b (mview m) (mview (put_shard m key s')).
Proof.
  intros Hg [H1 H2]. unfold rebound_lossy, mview.
  rewrite (getShard_put m key s s' key Hg), decide_True by done. split; [done|].
  intros k' Hne. rewrite (getShard_put m key s s' k' Hg). case_decide as Heq; [|by left].
  assert (Hg' : getShard m k' = Some s) by (unfold getShard in *; by rewrite Heq).
  rewrite Hg'. auto.
Qed.

Lemma mview_put m key s s' b :
  getShard m key = Some s -> rebound key b (sview s) (sview s') ->
  rebound key b (mview m) (mview (put_shard m key s')).
Proof.
  intros Hg [H1 H2]. unfold rebound, mview.
  rewrite (getShard_put m key s s' key Hg), decide_True by done. split; [done|].
  intros k' Hne. rewrite (getShard_put m key s s' k' Hg). case_decide as Heq; [|done].
  assert (Hg' : getShard m k' = Some s) by (unfold getShard in *; by rewrite Heq).
  rewrite Hg'. auto.
Qed.

Lemma put_shard_ok m key s s' b :
  MemoryStoreOk max m -> getShard m key = Some s -> ShardOk max s' ->
  rebound_lossy key b (sview s) (sview s') -> MemoryStoreOk max (put_shard m key s').
Proof.
  intros [Hp Hs Hr] Hg Hok [H1 H2]. split.
  - simpl. by rewrite length_insert.
  - intros i s0 Hi. simpl in Hi. apply list_lookup_insert_Some in Hi as [(_ & <- & _)|[_ Hi]]; eauto.
  - intros i s0 k e Hi Hk. simpl in Hi. change (shardIndex (put_shard m key s') k) with (shardIndex m k).
    apply list_lookup_insert_Some in Hi as [(<- & <- & _)|[_ Hi]]; [|eauto].
    destruct (decide (k = key)) as [->|Hne]; [done|].
    destruct (H2 k Hne) as [Hv|Hv]; rewrite (sview_Some s' k e Hk) in Hv; [|done].
    unfold sview in Hv. destruct (items s !! k) as [e0|] eqn:E; [|done].
    apply (Hr _ s k e0); [exact Hg|done].
Qed.

(** A method that keeps its shard in order and touches only its own key runs
    on the store, and does there what it does on the shard. *)
Lemma onShard_rebound {A} m key (f : Shard -> A * Shard) (P : Shard -> A -> Prop)
    (b : Shard -> option Binding) :
  MemoryStoreOk max m ->
  (forall s, ShardOk max s -> ShardOk max (f s).2 /\ P s (f s).1
     /\ rebound key (b s) (sview s) (sview (f s).2)) ->
  exists s m', getShard m key = Some s /\ ShardOk max s
    /\ onShard m key f = Some ((f s).1, m') /\ P s (f s).1
    /\ MemoryStoreOk max m' /\ rebound key (b s) (mview m) (mview m').
Proof.
  intros Hm Hf. destruct (getShard_total max m key Hm) as [s Hg].
  assert (Hs : ShardOk max s) by (eapply ms_shard; [exact Hm|exact Hg]).
  destruct (Hf s Hs) as (Hok & HP & Hb).
  exists s, (put_shard m key (f s).2). split_and!; try done.
  - unfold onShard. rewrite Hg. by destruct (f s).
  - eapply put_shard_ok; eauto using rebound_lossless.
  - by apply mview_put with s.
Qed.
End OnShard.

Lemma mview_getShard m k s : getShard m k = Some s -> mview m k = sview s k.
Proof. unfold mview. by intros ->. Qed.

(** ** The laws of the Store interface *)

(** Single operations keep the shard invariant. *)
Section KeepOk.
Context (max : Z).

Lemma removeLocked_ok k e s :
  ShardOk max s -> items s !! k = Some e -> ShardOk max (removeLocked k e s).
Proof. intros Hok Hk. rewrite (dropKey_Some k e s Hk). by apply dropKey_ok. Qed.

Lemma removeIfExpired_ok k now s : ShardOk max s -> ShardOk max (removeIfExpired k now s).
Proof. intros Hok. unfold removeIfExpired. split_matches; auto using removeLocked_ok. Qed.

Lemma Get_ok k clk s : ShardOk max s -> ShardOk max (Shard_Get k clk s).2.
Proof.
  intros Hok. destruct (Shard_Get k clk s) as [r s'] eqn:E.
  by destruct (@get_sim _ _ tagged_msgpack max k clk s r s' Hok E).
Qed.

Lemma Exists_ok k clk s : ShardOk max s -> ShardOk max (Shard_Exists k clk s).2.
Proof. intros Hok. unfold Shard_Exists. split_matches; auto using removeIfExpired_ok. Qed.

Lemma TTL_ok k clk s : ShardOk max s -> ShardOk max (Shard_TTL k clk s).2.
Proof. intros Hok. unfold Shard_TTL. split_matches; auto using removeIfExpired_ok. Qed.

Lemma Delete_ok k s : ShardOk max s -> ShardOk max (Shard_Delete k s).2.
Proof. intros Hok. unfold Shard_Delete. split_matches; auto using removeLocked_ok. Qed.

Lemma Set_ok k v ttl clk s :
  ShardOk max s -> op_small max (OpSet k v ttl) -> ShardOk max (Shard_Set k v ttl clk s).1.
Proof.
  intros Hok Hsm. destruct (Shard_Set k v ttl clk s) as [s' cs] eqn:E.
  by destruct (@set_sim _ _ tagged_msgpack max k v ttl clk s s' cs Hok Hsm E).
Qed.
End KeepOk.

Section Laws.
Context (max : Z).

Lemma memory_Get m k clk : MemoryStoreOk max m ->
  exists m', MemoryStore_Get k clk m = Some (fst <$> live_at (clk 0%nat) (mview m k), m')
    /\ MemoryStoreOk max m'
    /\ rebound k (live_at (clk 0%nat) (mview m k)) (mview m) (mview m').
Proof.
  intros Hm. destruct (onShard_rebound max m k (Shard_Get k clk)
    (fun s r => r = fst <$> live_at (clk 0%nat) (sview s k))
    (fun s => live_at (clk 0%nat) (sview s k)) Hm) as (s & m' & Hg & _ & He & HP & Hok & Hb).
  { intros s Hs. destruct (Get_view k clk s). auto using Get_ok. }
  exists m'. rewrite (mview_getShard m k s Hg). unfold MemoryStore_Get. by rewrite He, HP.
Qed.

Lemma memory_Delete m k : MemoryStoreOk max m ->
  exists m', MemoryStore_Delete k m = Some (bool_decide (is_Some (mview m k)), m')
    /\ MemoryStoreOk max m' /\ rebound k None (mview m) (mview m').
Proof.
  intros Hm. destruct (onShard_rebound max m k (Shard_Delete k)
    (fun s r => r = bool_decide (is_Some (sview s k))) (fun _ => None) Hm)
    as (s & m' & Hg & _ & He & HP & Hok & Hb).
  { intros s Hs. destruct (Delete_view k s). auto using Delete_ok. }
  exists m'. rewrite (mview_getShard m k s Hg). unfold MemoryStore_Delete. by rewrite He, HP.
Qed.

Lemma memory_Exists m k clk : MemoryStoreOk max m -> ClockOk clk ->
  exists m', MemoryStore_Exists k clk m
      = Some (bool_decide (is_Some (live_at (clk 0%nat) (mview m k))), m')
    /\ MemoryStoreOk max m'
    /\ rebound k (live_at (clk 0%nat) (mview m k)) (mview m) (mview m').
Proof.
  intros Hm Hc. destruct (onShard_rebound max m k (Shard_Exists k clk)
    (fun s r => r = bool_decide (is_Some (live_at (clk 0%nat) (sview s k))))
    (fun s => live_at (clk 0%nat) (sview s k)) Hm) as (s & m' & Hg & _ & He & HP & Hok & Hb).
  { intros s Hs. destruct (Exists_view k clk s Hc). auto using Exists_ok. }
  exists m'. rewrite (mview_getShard m k s Hg). unfold MemoryStore_Exists. by rewrite He, HP.
Qed.

Lemma memory_TTL m k clk : MemoryStoreOk max m -> ClockOk clk ->
  exists m', MemoryStore_TTL k clk m
      = Some (ttl_of (clk 1%nat) (live_at (clk 0%nat) (mview m k)), m')
    /\ MemoryStoreOk max m'
    /\ rebound k (live_at (clk 0%nat) (mview m k)) (mview m) (mview m').
Proof.
  intros Hm Hc. destruct (onShard_rebound max m k (Shard_TTL k clk)
    (fun s r => r = ttl_of (clk 1%nat) (live_at (clk 0%nat) (sview s k)))
    (fun s => live_at (clk 0%nat) (sview s k)) Hm) as (s & m' & Hg & _ & He & HP & Hok & Hb).
  { intros s Hs. destruct (TTL_view k clk s Hc). auto using TTL_ok. }
  exists m'. rewrite (mview_getShard m k s Hg). unfold MemoryStore_TTL. by rewrite He, HP.
Qed.

Lemma memory_Set m k v ttl clk : MemoryStoreOk max m -> op_small max (OpSet k v ttl) ->
  exists cs m', MemoryStore_Set k v ttl clk m = Some (cs, m') /\ MemoryStoreOk max m'
    /\ rebound_lossy k (Some (v, expiryOf ttl (clk 0%nat))) (mview m) (mview m')
    /\ ((0 < max -> len k + lenb v + 184 <= max) ->
         mview m' k = Some (v, expiryOf ttl (clk 0%nat))).
Proof.
  intros Hm Hsm. destruct (getShard_total max m k Hm) as [s Hg].
  assert (Hs : ShardOk max s) by (eapply ms_shard; [exact Hm|exact Hg]).
  destruct (Set_view max k v ttl clk s Hs Hsm) as [Hl Hfit].
  pose proof (Set_ok max k v ttl clk s Hs Hsm) as Hok.
  destruct (Shard_Set k v ttl clk s) as [s' cs] eqn:E. simpl in *.
  exists cs, (put_shard m k s'). split_and!.
  - unfold MemoryStore_Set, onShard. by rewrite Hg, E.
  - by eapply put_shard_ok.
  - by eapply mview_put_lossy.
  - intros Hf. rewrite (mview_getShard _ k s'); [auto|].
    by rewrite (getShard_put m k s s' k Hg), decide_True.
Qed.

Lemma memory_evicted m k v ttl clk cs m' k' : MemoryStoreOk max m -> op_small max (OpSet k v ttl) ->
  MemoryStore_Set k v ttl clk m = Some (cs, m') -> k' ∈ cs.*1 -> mview m' k' = None.
Proof.
  intros Hm Hsm Hset Hk'. destruct (getShard_total max m k Hm) as [s Hg].
  assert (Hs : ShardOk max s) by (eapply ms_shard; [exact Hm|exact Hg]).
  unfold MemoryStore_Set, onShard in Hset. rewrite Hg in Hset.
  pose proof (Set_evicted max k v ttl clk s k' Hs Hsm) as He.
  destruct (Shard_Set k v ttl clk s) as [s' cs']. injection Hset as <- <-. cbn [fst snd] in He.
  destruct (He Hk') as [Hin Hv]. unfold mview. change (MkMemoryStore _ _) with (put_shard m k s').
  rewrite (getShard_put m k s s' k' Hg), decide_True; [exact Hv|].
  destruct Hin as [->|[e Hin]]; [done|]. by eapply ms_routed.
Qed.
End Laws.

(** The memory store implements the Store contract. A write is admitted when
    limit and entry together are within int64; it is kept when the entry fits
    one shard. *)
Lemma MemoryStore_Laws (max : Z) {V T} `{Msgpack V T} : StoreLaws MemoryStore.
Proof.
  refine {| store_ok := MemoryStoreOk max; view := mview;
            admits _ k v ttl _ := op_small max (OpSet k v ttl);
            retains _ k v := 0 < max -> len k + lenb v + 184 <= max |}.
  - intros s k clk Hs _. by apply memory_Get.
  - intros s k v ttl clk Hs _ Hsm.
    destruct (memory_Set max s k v ttl clk Hs Hsm) as (cs & s' & ? & ? & ? & ?). eauto 7.
  - intros s k v ttl clk cs s' Hs _ Hsm Hset k' Hk'. by eapply memory_evicted.
  - intros s k Hs. by apply memory_Delete.
  - intros s k clk Hs Hc. by apply memory_Exists.
  - intros s k clk Hs Hc. destruct (memory_TTL max s k clk Hs Hc) as (s' & He & Hok & Hb1 & Hb2).
    exists s'. split_and!; [done|done|split|].
    + rewrite Hb1. destruct (mview s k) as [[v x]|]; simpl; [|by left].
      destruct (_ || _); auto.
    + intros k' Hne. left. auto.
    + intros k' v x Hv Hx. destruct (decide (k' = k)) as [->|Hne]; [|by rewrite Hb2].
      rewrite Hb1, Hv. simpl. pose proof (clock_mono clk Hc 0 1 ltac:(lia)).
      destruct Hx as [->|Hx]; [done|]. rewrite (proj2 (Z.leb_le (clk 0%nat) x)) by lia.
      by rewrite orb_true_r.
Defined.

(** Installing the callbacks changes nothing else of a memory store. *)
Lemma callbacks_ok max m : MemoryStoreOk max m ->
  let m' := MemoryStore_SetOnExpire true (MemoryStore_SetOnEvict true m) in
  MemoryStoreOk max m' /\ forall k, mview m' k = mview m k.
Proof.
  intros [Hp Hs Hr]. cbv zeta.
  assert (forall i s, shards (MemoryStore_SetOnExpire true (MemoryStore_SetOnEvict true m)) !! i = Some s ->
    exists s0, shards m !! i = Some s0 /\ s = Shard_SetOnExpire true (Shard_SetOnEvict true s0)) as Hof.
  { intros i s. cbn [shards MemoryStore_SetOnExpire MemoryStore_SetOnEvict]. rewrite !list_lookup_fmap.
    destruct (shards m !! i) as [s0|]; [|done]. intros [= <-]. eauto. }
  split; [split|].
  - destruct Hp as (k & Hk & Hlen & Hmask). exists k. cbn. by rewrite !length_fmap.
  - intros i s (s0 & Hi & ->)%Hof. destruct (Hs i s0 Hi) as [[] ? ?]. by split; [split|..].
  - intros i s k e (s0 & Hi & ->)%Hof He. exact (Hr i s0 k e Hi He).
  - intros k. unfold mview, getShard. cbn [shards MemoryStore_SetOnExpire MemoryStore_SetOnEvict]. rewrite !list_lookup_fmap.
    change (shardIndex _ k) with (shardIndex m k) at 1. by destruct (shards m !! shardIndex m k).
Qed.

(** ** The sweep *)

(** The orders are iteration orders of the shards' maps, one each. *)
Definition orders_ok (orders : list (list (string * Entry))) (ss : list Shard) : Prop :=
  Forall2 (fun order s => order ≡ₚ map_to_list (items s)) orders ss.

Lemma spec_lookup_live now k l :
  NoDup (iKey <$> l) ->
  ibinding <$> spec_lookup k (filter (fun i => item_live now i = true) l)
  = live_at now (ibinding <$> spec_lookup k l).
Proof.
  induction l as [|i l IH]; [done|]. rewrite fmap_cons, NoDup_cons. intros [Hn Hd].
  rewrite spec_lookup_cons, filter_cons. specialize (IH Hd).
  destruct (item_live now i) eqn:Hl; unfold item_live in Hl.
  - rewrite decide_True, spec_lookup_cons by done. case_decide; [|done]. simpl. by rewrite Hl.
  - rewrite decide_False by done. rewrite IH. case_decide as Hk; [|done]. simpl. rewrite Hl.
    rewrite spec_lookup_absent; [done|]. by rewrite <- Hk.
Qed.

Lemma sweep_sview order clk s n s' cs :
  ShardWf s -> order ≡ₚ map_to_list (items s) -> Shard_DeleteExpired order clk s = (n, s', cs) ->
  (forall k, sview s' k = live_at (clk 0%nat) (sview s k)) /\ n = Shard_Len s - Shard_Len s'.
Proof.
  intros Hwf Hp Hs.
  destruct (@sweep_refines _ _ tagged_msgpack order clk s n s' cs Hwf Hp Hs)
    as ([= ->] & Ha & _ & Hwf' & _).
  split.
  - intros k. rewrite !sview_abs, Ha by done. apply spec_lookup_live. unfold abs.
    rewrite <- list_fmap_compose. apply Hwf.
  - rewrite <- !abs_length, Ha by done.
    pose proof (filter_split_length (item_live (clk 0%nat)) (abs s)). lia.
Qed.

Lemma sweepShards_spec orders clk ss total cs ss' :
  orders_ok orders ss -> (forall s, s ∈ ss -> ShardWf s) ->
  sweepShards orders clk ss = (total, cs, ss') ->
  length ss' = length ss /\ total = sumZ Shard_Len ss - sumZ Shard_Len ss'
  /\ forall i s, ss !! i = Some s ->
       exists s', ss' !! i = Some s' /\ forall k, sview s' k = live_at (clk i) (sview s k).
Proof.
  intros Ho. revert clk total cs ss'.
  induction Ho as [|order s orders ss Hp Ho IH]; intros clk total cs ss' Hwf Hs; simpl in Hs.
  { injection Hs as <- <- <-. split_and!; try done. }
  destruct (Shard_DeleteExpired order clk s) as [[n s1] cs1] eqn:E1.
  destruct (sweepShards orders (advance 1 clk) ss) as [[t cs2] ss1] eqn:E2.
  injection Hs as <- <- <-.
  destruct (sweep_sview order clk s n s1 cs1) as [Hv Hn]; [apply Hwf; by constructor|done..|].
  destruct (IH (advance 1 clk) t cs2 ss1) as (Hl & Ht & Hi); [|done|].
  { intros s0 Hs0. apply Hwf. by constructor. }
  split_and!; simpl; [lia|lia|]. intros [|i] s0 Hs0; simpl in Hs0.
  - injection Hs0 as <-. by exists s1.
  - destruct (Hi i s0 Hs0) as (s' & Hs' & Hv'). by exists s'.
Qed.

(** ** What a sweep reports *)

(** The value under a key that has expired at [now]. *)
Definition expired_at_time (now : Time) (b : option Binding) (v : bytes) : Prop :=
  exists x, b = Some (v, x) /\ live_at now b = None.

(** Every shard has the callback that reports expired entries. *)
Definition reporting (m : MemoryStore) : Prop := Forall (fun s => OnExpire s = true) (shards m).

Lemma spec_lookup_elem i l : NoDup (iKey <$> l) -> i ∈ l <-> spec_lookup (iKey i) l = Some i.
Proof.
  induction l as [|j l IH]; intros Hd; [split; [by intros ?%elem_of_nil|done]|].
  rewrite fmap_cons, NoDup_cons in Hd. destruct Hd as [Hn Hd]. rewrite elem_of_cons, spec_lookup_cons, (IH Hd). case_decide as Hk.
  - split; [|intros [= <-]; by left]. intros [->|Hi]; [done|]. destruct Hn. rewrite Hk. apply list_elem_of_fmap_2. by apply IH.
  - split; [|by right]. intros [->|Hi]; [done|exact Hi].
Qed.

Lemma spec_lookup_key k l i : spec_lookup k l = Some i -> iKey i = k.
Proof.
  induction l as [|j l IH]; [done|]. rewrite spec_lookup_cons. case_decide as Hk; [by intros [= <-]|exact IH].
Qed.

Lemma sweep_sreports order clk s n s' cs :
  ShardWf s -> OnExpire s = true -> order ≡ₚ map_to_list (items s) -> Shard_DeleteExpired order clk s = (n, s', cs) ->
  NoDup cs.*1 /\ forall k v, (k, v) ∈ cs <-> expired_at_time (clk 0%nat) (sview s k) v.
Proof.
  intros Hwf Hon Hp Hs.
  destruct (@sweep_refines _ _ tagged_msgpack order clk s n s' cs Hwf Hp Hs) as (_ & _ & Hcs & _).
  rewrite Hon in Hcs. pose proof (abs_NoDup s Hwf) as Hd. split.
  - rewrite Hcs, <- list_fmap_compose. change (fst ∘ _) with iKey. revert Hd. generalize (abs s). intros l Hd.
    induction l as [|i l IH]; [constructor|]. rewrite fmap_cons, NoDup_cons in Hd. destruct Hd as [Hn Hd].
    rewrite filter_cons. case_decide; [|auto]. rewrite fmap_cons. apply NoDup_cons. split; [|auto].
    intros (x & E & [_ Hx]%list_elem_of_filter)%list_elem_of_fmap. apply Hn. rewrite E. by apply list_elem_of_fmap_2.
  - intros k v. rewrite Hcs. unfold expired_at_time. rewrite sview_abs by done. split.
    + intros (i & [= -> ->] & [Hl Hi]%list_elem_of_filter)%list_elem_of_fmap. apply (spec_lookup_elem i _ Hd) in Hi.
      exists (iExpiry i). rewrite Hi. cbn [fmap option_fmap option_map]. split; [done|]. unfold item_live in Hl. cbn. by rewrite Hl.
    + intros (x & Hb & Hl). destruct (spec_lookup k (abs s)) as [i|] eqn:Ei; [|done]. cbn in Hb. injection Hb as <- <-.
      pose proof (spec_lookup_key k _ i Ei) as <-. apply list_elem_of_fmap. exists i. split; [done|]. apply list_elem_of_filter.
      split; [|by apply spec_lookup_elem]. unfold item_live. cbn in Hl. by destruct (_ || _).
Qed.

Lemma sweepShards_reports orders clk ss total cs ss' :
  orders_ok orders ss -> (forall s, s ∈ ss -> ShardWf s) -> Forall (fun s => OnExpire s = true) ss ->
  (forall i j s s' k, ss !! i = Some s -> ss !! j = Some s' -> is_Some (sview s k) -> is_Some (sview s' k) -> i = j) ->
  sweepShards orders clk ss = (total, cs, ss') ->
  NoDup cs.*1 /\ forall k v, (k, v) ∈ cs <-> exists i s, ss !! i = Some s /\ expired_at_time (clk i) (sview s k) v.
Proof.
  intros Ho. revert clk total cs ss'.
  induction Ho as [|order s orders ss Hp Ho IH]; intros clk total cs ss' Hwf Hon Hdis Hs; simpl in Hs.
  { injection Hs as <- <- <-. split; [constructor|]. intros k v. split; [by intros ?%elem_of_nil|]. by intros (i & s & Hi & _). }
  destruct (Shard_DeleteExpired order clk s) as [[n s1] cs1] eqn:E1.
  destruct (sweepShards orders (advance 1 clk) ss) as [[t cs2] ss1] eqn:E2.
  injection Hs as <- <- <-. apply Forall_cons in Hon as [Hon1 Hon2].
  destruct (sweep_sreports order clk s n s1 cs1) as [Hd1 Hr1]; [apply Hwf; by constructor|done..|].
  destruct (IH (advance 1 clk) t cs2 ss1) as [Hd2 Hr2]; [intros s0 Hs0; apply Hwf; by constructor|done| |done|].
  { intros i j x y k Hi Hj. intros Hx Hy. assert (Datatypes.S i = Datatypes.S j) as [= E]; [|exact E]. by eapply (Hdis (Datatypes.S i) (Datatypes.S j) x y k). }
  split.
  - rewrite fmap_app, NoDup_app. split_and!; [done| |done].
    intros k ([k1 v1] & -> & H1)%list_elem_of_fmap ([k2 v2] & E & H2)%list_elem_of_fmap. cbn in E. subst k2.
    apply Hr1 in H1 as (x & Hx & _). apply Hr2 in H2 as (i & s' & Hi & y & Hy & _).
    assert (0 = Datatypes.S i)%nat as E0; [|discriminate E0]. eapply (Hdis 0%nat (Datatypes.S i) s s' k1); [done|exact Hi|by rewrite Hx|by rewrite Hy].
  - intros k v. rewrite elem_of_app, Hr1, Hr2. split.
    + intros [He|(i & s' & Hi & He)]; [by exists 0%nat, s|by exists (Datatypes.S i), s'].
    + intros ([|i] & s' & Hi & He); [cbn in Hi; injection Hi as <-; by left|right; by exists i, s'].
Qed.

(** A sweep reports the entries that have expired, each once, with its value. *)
Lemma memory_sweep_reports max m orders clk total cs m' :
  MemoryStoreOk max m -> reporting m -> orders_ok orders (shards m) ->
  MemoryStore_DeleteExpired orders clk m = (total, cs, m') ->
  NoDup cs.*1 /\ forall k v, (k, v) ∈ cs <-> expired_at_time (clk (shardIndex m k)) (mview m k) v.
Proof.
  intros Hm Hon Ho. unfold MemoryStore_DeleteExpired.
  destruct (sweepShards orders clk (shards m)) as [[t cs'] ss'] eqn:E. intros [= <- <- <-].
  assert (forall i s k, shards m !! i = Some s -> is_Some (sview s k) -> shardIndex m k = i) as Hroute.
  { intros i s k Hi [b Hb]. unfold sview in Hb. destruct (items s !! k) as [e|] eqn:Ee; [|done]. by eapply ms_routed. }
  apply sweepShards_reports in E as [Hd Hr]; [|done| |done|].
  - split; [done|]. intros k v. rewrite Hr. split.
    + intros (i & s & Hi & x & Hx & Hl). assert (shardIndex m k = i) as <- by (apply (Hroute i s k Hi); by rewrite Hx).
      exists x. by rewrite (mview_getShard m k s Hi).
    + intros (x & Hx & Hl). destruct (getShard_total max m k Hm) as [s Hg]. exists (shardIndex m k), s. split; [exact Hg|].
      exists x. by rewrite <- (mview_getShard m k s Hg).
  - intros s [i Hs]%list_elem_of_lookup. by destruct (ms_shard max m Hm i s Hs).
  - intros i j s s' k Hi Hj Hs Hs'. rewrite <- (Hroute i s k Hi Hs). by apply (Hroute j s' k).
Qed.

(** ** Properties *)

(** A store built from a validated configuration satisfies its invariant,
    and under the invariant the hash of any key selects an existing shard, so
    that no operation indexes out of range. *)
Theorem validated_store_total c c' :
  is_int64 (Config.NumShards c) -> Config.cStorageMode c = Config.Memory ->
  Config.validate c = (None, c') ->
  MemoryStoreOk (Config.perShardMax c')
    (NewMemoryStore (Config.NumShards c') (Config.perShardMax c'))
  /\ forall max m key, MemoryStoreOk max m -> (shardIndex m key < length (shards m))%nat.
Proof.
  intros Hr Hm Hv. split.
  - destruct (Config.validate_memory_shards c c' Hr Hm Hv) as (k & Hk & Hn).
    by apply NewMemoryStore_ok with k.
  - intros max m key Hok. destruct (getShard_total max m key Hok) as [s Hs].
    by eapply lookup_lt_Some.
Qed.

(** C20: the memory store implements the Store contract: Get, Set, Delete,
    Exists and TTL on a sharded store return what the abstract view of the
    store says, change the view only at their key (Set may evict others, and
    keeps what fits), and preserve the invariant. *)
Theorem memory_store_contract max m k v ttl clk :
  MemoryStoreOk max m -> ClockOk clk -> op_small max (OpSet k v ttl) ->
  (exists m', MemoryStore_Get k clk m = Some (fst <$> live_at (clk 0%nat) (mview m k), m')
     /\ MemoryStoreOk max m' /\ rebound k (live_at (clk 0%nat) (mview m k)) (mview m) (mview m'))
  /\ (exists cs m', MemoryStore_Set k v ttl clk m = Some (cs, m') /\ MemoryStoreOk max m'
     /\ rebound_lossy k (Some (v, expiryOf ttl (clk 0%nat))) (mview m) (mview m')
     /\ ((0 < max -> len k + lenb v + 184 <= max) ->
          mview m' k = Some (v, expiryOf ttl (clk 0%nat))))
  /\ (exists m', MemoryStore_Delete k m = Some (bool_decide (is_Some (mview m k)), m')
     /\ MemoryStoreOk max m' /\ rebound k None (mview m) (mview m'))
  /\ (exists m', MemoryStore_Exists k clk m
        = Some (bool_decide (is_Some (live_at (clk 0%nat) (mview m k))), m')
     /\ MemoryStoreOk max m' /\ rebound k (live_at (clk 0%nat) (mview m k)) (mview m) (mview m'))
  /\ (exists m', MemoryStore_TTL k clk m
        = Some (ttl_of (clk 1%nat) (live_at (clk 0%nat) (mview m k)), m')
     /\ MemoryStoreOk max m' /\ rebound k (live_at (clk 0%nat) (mview m k)) (mview m) (mview m')).
Proof.
  intros Hm Hc Hsm. split_and!.
  - by apply memory_Get.
  - by apply memory_Set.
  - by apply memory_Delete.
  - by apply memory_Exists.
  - by apply memory_TTL.
Qed.

(** The sweep over all shards, whatever the map iteration orders, removes
    exactly the bindings that have expired at the shard's clock reading, and
    returns by how much Len has dropped. *)
Theorem memory_sweep_exact max m orders clk total cs m' :
  MemoryStoreOk max m -> orders_ok orders (shards m) ->
  MemoryStore_DeleteExpired orders clk m = (total, cs, m') ->
  (forall k, mview m' k = live_at (clk (shardIndex m k)) (mview m k))
  /\ total = MemoryStore_Len m - MemoryStore_Len m'.
Proof.
  intros Hm Ho. unfold MemoryStore_DeleteExpired.
  destruct (sweepShards orders clk (shards m)) as [[t cs'] ss'] eqn:E. intros [= <- <- <-].
  apply sweepShards_spec in E as (Hl & Ht & Hi); [|done|].
  2: { intros s [i Hs]%list_elem_of_lookup. by destruct (ms_shard max m Hm i s Hs). }
  split; [|done]. intros k. destruct (getShard_total max m k Hm) as [s Hg].
  rewrite (mview_getShard m k s Hg). destruct (Hi _ s Hg) as (s' & Hs' & Hv).
  rewrite (mview_getShard _ k s'); [apply Hv|exact Hs'].
Qed.

(** ** Witnesses *)

Definition w_store : MemoryStore := NewMemoryStore 4 1000.

Lemma w_store_ok : MemoryStoreOk 1000 w_store.
Proof. by apply NewMemoryStore_ok with 2. Qed.

Lemma validated_store_total_witness :
  MemoryStoreOk 0 (NewMemoryStore 256 0)
  /\ forall max m key, MemoryStoreOk max m -> (shardIndex m key < length (shards m))%nat.
Proof.
  apply (validated_store_total Config.DefaultConfig Config.DefaultConfig); by vm_compute.
Defined.

Lemma memory_store_contract_witness :
  exists cs m', MemoryStore_Set "k" [Byte.x01] 0 w_clock w_store = Some (cs, m')
    /\ mview m' "k" = Some ([Byte.x01], 0).
Proof.
  destruct (memory_store_contract 1000 w_store "k" [Byte.x01] 0 w_clock w_store_ok w_clock_ok)
    as (_ & (cs & m' & Hs & _ & _ & Hf) & _).
  { unfold op_small. by vm_compute. }
  exists cs, m'. split; [exact Hs|]. apply Hf. by vm_compute.
Defined.

Lemma memory_sweep_exact_witness :
  let r := MemoryStore_DeleteExpired [[]; []; []; []] w_clock w_store in
  (forall k, mview r.2 k = live_at (w_clock (shardIndex w_store k)) (mview w_store k))
  /\ r.1.1 = MemoryStore_Len w_store - MemoryStore_Len r.2.
Proof.
  intros r.
  apply (memory_sweep_exact 1000 w_store [[]; []; []; []] w_clock r.1.1 r.1.2 r.2 w_store_ok);
    [|reflexivity].
  repeat (constructor; [by vm_compute|]). constructor.
Defined.
