(* ===== verification/PebbleStore.v ===== *)
(** store_pebble.go: the disk store.

    pebble.DB is a third-party engine: it is the class [PebbleDB], with its
    documented behaviour as the class [PebbleLaws]. *)
From S2P Require Import Prelude GoLib Serializer Shard Store.

(** The calls of pebble the store makes. [db_Get] is [None] on ErrNotFound or
    any other error; [db_Iter] lists the pairs an iterator over the whole
    database visits; [db_DeleteBatch] deletes keys in one committed batch. *)
Class PebbleDB (DB : Type) := {
  db_Get : DB -> string -> option bytes;
  db_Set : DB -> string -> bytes -> result DB;
  db_Delete : DB -> string -> result DB;
  db_Iter : DB -> option (list (string * bytes));
  db_DeleteBatch : DB -> list string -> DB;
}.

(** A database that is open and has no I/O errors is a map from keys to values. *)
Class PebbleLaws (DB : Type) `{PebbleDB DB} := {
  db_ok : DB -> Prop;
  pairs : DB -> gmap string bytes;
  db_Get_spec : forall d k, db_ok d -> db_Get d k = pairs d !! k;
  db_Set_spec : forall d k v, db_ok d ->
    exists d', db_Set d k v = Ok d' /\ db_ok d' /\ pairs d' = <[k := v]> (pairs d);
  db_Delete_spec : forall d k, db_ok d ->
    exists d', db_Delete d k = Ok d' /\ db_ok d' /\ pairs d' = delete k (pairs d);
  db_Iter_spec : forall d, db_ok d ->
    exists l, db_Iter d = Some l /\ l ≡ₚ map_to_list (pairs d);
  db_DeleteBatch_spec : forall d ks, db_ok d ->
    db_ok (db_DeleteBatch d ks)
    /\ pairs (db_DeleteBatch d ks) = filter (fun kv => kv.1 ∉ ks) (pairs d);
}.

(** ** The codec of stored values *)

Definition encode (value : bytes) (ttl : Duration) (now : Time) : bytes :=
  let expiresAtNano := if ttl >? 0 then UnixNano (Add now ttl) else 0 in
  PutUint64 (uint64 expiresAtNano) ++ value.

Definition decode (raw : bytes) : bytes * Z :=
  if lenb raw <? 8 then ([], 0)
  else (drop 8 raw, int64 (Uint64 (take 8 raw))).

Definition isExpired (expiresAtNano : Z) (now : Time) : bool :=
  negb (expiresAtNano =? 0) && (UnixNano now >? expiresAtNano).

(** ** The store *)

Record PebbleStore (DB : Type) := MkPebbleStore {
  db : DB;
  count : Z;
  onEvict : bool;
  onExpire : bool;
}.
Arguments MkPebbleStore {DB} db count onEvict onExpire.
Arguments db {DB} p : rename.
Arguments count {DB} p : rename.
Arguments onEvict {DB} p : rename.
Arguments onExpire {DB} p : rename.

Section Pebble.
Context {DB : Type} `{PebbleDB DB}.
Implicit Types p : PebbleStore DB.

Definition addCount (n : Z) (d : DB) p : PebbleStore DB :=
  MkPebbleStore d (int64 (count p + n)) (onEvict p) (onExpire p).

Definition countKeys (d : DB) : Z :=
  match db_Iter d with
  | None => 0
  | Some l => Z.of_nat (length l)
  end.

(** NewPebbleStore, after pebble.Open has returned the database. *)
Definition NewPebbleStore (d : DB) : PebbleStore DB :=
  MkPebbleStore d (countKeys d) false false.

(** [p.db.Delete] with its error ignored, and the count decremented. *)
Definition deleteAndCount (key : string) p : PebbleStore DB :=
  let d := match db_Delete (db p) key with Ok d => d | Err _ => db p end in
  addCount (-1) d p.

Definition PebbleStore_Get (key : string) (clk : Clock) p : option bytes * PebbleStore DB :=
  match db_Get (db p) key with
  | None => (None, p)
  | Some raw =>
      let '(value, expiresAt) := decode raw in
      if isExpired expiresAt (clk 0%nat) then (None, deleteAndCount key p)
      else (Some value, p)
  end.

Definition PebbleStore_Set (key : string) (value : bytes) (ttl : Duration) (clk : Clock) p
  : PebbleStore DB :=
  let exists_ := match db_Get (db p) key with Some _ => true | None => false end in
  let encoded := encode value ttl (clk 0%nat) in
  match db_Set (db p) key encoded with
  | Err _ => p
  | Ok d => if exists_ then MkPebbleStore d (count p) (onEvict p) (onExpire p) else addCount 1 d p
  end.

Definition PebbleStore_Delete (key : string) p : bool * PebbleStore DB :=
  match db_Get (db p) key with
  | None => (false, p)
  | Some _ =>
      match db_Delete (db p) key with
      | Err _ => (false, p)
      | Ok d => (true, addCount (-1) d p)
      end
  end.

Definition PebbleStore_Exists (key : string) (clk : Clock) p : bool * PebbleStore DB :=
  match db_Get (db p) key with
  | None => (false, p)
  | Some raw =>
      let '(_, expiresAt) := decode raw in
      if isExpired expiresAt (clk 0%nat) then (false, deleteAndCount key p)
      else (true, p)
  end.

(** The only clock reading of TTL is at point 1. *)
Definition PebbleStore_TTL (key : string) (clk : Clock) p : Duration * PebbleStore DB :=
  match db_Get (db p) key with
  | None => (0, p)
  | Some raw =>
      let '(_, expiresAtNano) := decode raw in
      if expiresAtNano =? 0 then (-1, p)
      else
        let remaining := Until (Unix0 expiresAtNano) (clk 1%nat) in
        if remaining <=? 0 then (0, deleteAndCount key p)
        else (remaining, p)
  end.

Context {V T : Type} `{Msgpack V T}.

(** The end of Incr: encode the counter and write it; the count goes up if
    the key is not in the database at that point. *)
Definition Incr_write (key : string) (current delta : Z) (ttl : Duration) (clk : Clock) p
  : result Z * PebbleStore DB :=
  let current := int64 (current + delta) in
  match Serialize (GInt64 current) with
  | Err err => (Err err, p)
  | Ok newValue =>
      let encoded := encode newValue ttl (clk 3%nat) in
      let existed := match db_Get (db p) key with Some _ => true | None => false end in
      match db_Set (db p) key encoded with
      | Err err => (Err err, p)
      | Ok d =>
          (Ok current,
           if existed then MkPebbleStore d (count p) (onEvict p) (onExpire p) else addCount 1 d p)
      end
  end.

Definition PebbleStore_Incr (key : string) (delta : Z) (defaultTTL : Duration) (clk : Clock) p
  : result Z * PebbleStore DB :=
  match db_Get (db p) key with
  | Some raw =>
      let '(value, expiresAtNano) := decode raw in
      if negb (isExpired expiresAtNano (clk 0%nat)) then
        match Deserialize value DInt64 with
        | Ok (GInt64 current) =>
            let ttl :=
              if negb (expiresAtNano =? 0) then
                let remaining := Until (Unix0 expiresAtNano) (clk 2%nat) in
                if remaining >? 0 then remaining else 0
              else 0 in
            Incr_write key current delta ttl clk p
        | Ok _ => (Err (ErrExternal "unreachable: the destination is an int64"), p)
        | Err err => (Err err, p)
        end
      else Incr_write key 0 delta defaultTTL clk (addCount (-1) (db p) p)
  | None => Incr_write key 0 delta defaultTTL clk p
  end.

(** The pairs that have expired, in iteration order. *)
Definition expiredPairs (now : Z) (l : list (string * bytes)) : list (string * bytes) :=
  omap (fun kv =>
    let '(key, raw) := kv in
    if lenb raw <? 8 then None
    else
      let expiresAtNano := int64 (Uint64 (take 8 raw)) in
      if negb (expiresAtNano =? 0) && (now >? expiresAtNano)
      then Some (key, drop 8 raw) else None) l.

Definition PebbleStore_DeleteExpired (clk : Clock) p : Z * calls * PebbleStore DB :=
  let now := UnixNano (clk 0%nat) in
  match db_Iter (db p) with
  | None => (0, [], p)
  | Some l =>
      let expired := expiredPairs now l in
      let n := Z.of_nat (length expired) in
      if (n =? 0) then (0, [], p)
      else
        (n, if onExpire p then expired else [],
         addCount (- n) (db_DeleteBatch (db p) expired.*1) p)
  end.

Definition PebbleStore_Len p : Z := count p.

Definition PebbleStore_SetOnExpire (fn : bool) p : PebbleStore DB :=
  MkPebbleStore (db p) (count p) (onEvict p) fn.

Definition PebbleStore_SetOnEvict (fn : bool) p : PebbleStore DB :=
  MkPebbleStore (db p) (count p) fn (onExpire p).

#[export] Instance PebbleStore_Store : Store (PebbleStore DB) := {
  Order := unit;
  Store_Get key clk p := Some (PebbleStore_Get key clk p);
  Store_Set key value ttl clk p := Some ([], PebbleStore_Set key value ttl clk p);
  Store_Delete key p := Some (PebbleStore_Delete key p);
  Store_Exists key clk p := Some (PebbleStore_Exists key clk p);
  Store_TTL key clk p := Some (PebbleStore_TTL key clk p);
  Store_Incr key delta ttl clk p :=
    let '(r, p') := PebbleStore_Incr key delta ttl clk p in Some (r, [], p');
  Store_DeleteExpired _ clk p := Some (PebbleStore_DeleteExpired clk p);
  Store_Len := PebbleStore_Len;
  Store_SetOnEvict := PebbleStore_SetOnEvict;
  Store_SetOnExpire := PebbleStore_SetOnExpire;
}.
End Pebble.
