(* ===== verification/PebbleProofs.v ===== *)
(** The properties of the disk store (store_pebble.go). *)
From S2P Require Import Prelude GoLib Serializer Shard Store PebbleStore.

(** ** The codec *)

Lemma take_PutUint64 z v : take 8 (PutUint64 z ++ v) = PutUint64 z.
Proof. apply take_app_length'. unfold PutUint64. by rewrite length_be_put. Qed.

Lemma drop_PutUint64 z v : drop 8 (PutUint64 z ++ v) = v.
Proof. apply drop_app_length'. unfold PutUint64. by rewrite length_be_put. Qed.

Lemma lenb_encode v ttl now : lenb (encode v ttl now) = 8 + lenb v.
Proof. unfold encode, lenb, PutUint64. rewrite length_app, length_be_put. lia. Qed.

Definition expiryNano (ttl : Duration) (now : Time) : Z :=
  if ttl >? 0 then UnixNano (Add now ttl) else 0.

Lemma decode_encode v ttl now : decode (encode v ttl now) = (v, expiryNano ttl now).
Proof.
  unfold decode. rewrite lenb_encode.
  destruct (Z.ltb_spec (8 + lenb v) 8); [unfold lenb in *; lia|].
  unfold encode. rewrite take_PutUint64, drop_PutUint64, Uint64_PutUint64.
  rewrite !int64_uint64. f_equal. unfold expiryNano.
  destruct (ttl >? 0); [|done]. unfold UnixNano. apply int64_idemp.
Qed.

(** A stored value decodes to exactly the bytes that were stored, with
    expiry 0 when the TTL is not positive, and otherwise the int64 of the
    Unix time of its end. *)
Theorem encode_decode_roundtrip value ttl now :
  decode (encode value ttl now)
  = (value, if ttl >? 0 then int64 (now + ttl - unixEpoch) else 0).
Proof. apply decode_encode. Qed.

(** ** The view of the store *)

Definition nano_time (nano : Z) : Time := if nano =? 0 then 0 else Unix0 nano.

Definition raw_binding (raw : bytes) : Binding :=
  let '(v, nano) := decode raw in (v, nano_time nano).

Lemma decode_range raw : is_int64 (decode raw).2.
Proof. unfold decode. destruct (_ <? _); [by vm_compute|apply int64_range]. Qed.

Lemma live_at_raw clk i raw : ClockOk clk ->
  live_at (clk i) (Some (raw_binding raw))
  = if isExpired (decode raw).2 (clk i) then None else Some (raw_binding raw).
Proof.
  intros Hc. unfold raw_binding, isExpired, nano_time. pose proof (decode_range raw) as Hr.
  destruct (decode raw) as [v nano]. simpl in *. pose proof (clock_range clk Hc i) as Hcr.
  destruct (Z.eqb_spec nano 0) as [->|Hne]; [done|]. simpl.
  unfold Unix0, UnixNano, is_int64 in *. rewrite int64_id by (unfold is_int64; lia).
  rewrite (proj2 (Z.eqb_neq (unixEpoch + nano) 0)) by (unfold unixEpoch, Second; lia).
  rewrite Z.gtb_ltb. simpl.
  destruct (Z.leb_spec (clk i) (unixEpoch + nano)), (Z.ltb_spec nano (clk i - unixEpoch)); done || lia.
Qed.

Lemma raw_binding_encode v ttl clk : ClockOk clk ->
  (0 < ttl -> clk 0%nat + ttl < unixEpoch + 2 ^ 63) ->
  raw_binding (encode v ttl (clk 0%nat)) = (v, expiryOf ttl (clk 0%nat)).
Proof.
  intros Hc Hr. unfold raw_binding. rewrite decode_encode. f_equal.
  unfold expiryNano, expiryOf, nano_time, zeroTime, Add. rewrite Z.gtb_ltb.
  destruct (Z.ltb_spec 0 ttl) as [Hp|Hp]; [|done].
  pose proof (clock_range clk Hc 0). specialize (Hr Hp).
  unfold UnixNano, Unix0. rewrite int64_id by (unfold is_int64; lia).
  destruct (Z.eqb_spec (clk 0%nat + ttl - unixEpoch) 0); lia.
Qed.

(** The sweep's test is the one the lookups use: raw values shorter than the
    header have no expiry for either. *)
Definition pair_expired (now : Time) (kv : string * bytes) : bool :=
  isExpired (decode kv.2).2 now.

Lemma expiredPairs_filter now l :
  expiredPairs (UnixNano now) l
  = (fun kv => (kv.1, (decode kv.2).1)) <$> filter (fun kv => pair_expired now kv = true) l.
Proof.
  apply omap_filter_fmap. intros [k raw]. unfold pair_expired, isExpired, decode. simpl.
  by destruct (lenb raw <? 8); simpl.
Qed.

Section Laws.
Context {DB : Type} `{PebbleLaws DB}.
Implicit Types p : PebbleStore DB.

Definition pview p (k : string) : option Binding := raw_binding <$> pairs (db p) !! k.

Definition PebbleOk p : Prop := db_ok (db p).

(** The count is the number of keys, as an int64. *)
Definition CountOk p : Prop := count p = int64 (Z.of_nat (size (pairs (db p)))).

Lemma pview_same p p' k b :
  pairs (db p') = pairs (db p) -> pview p k = b -> rebound k b (pview p) (pview p').
Proof. intros He <-. unfold rebound, pview. by rewrite He. Qed.

Lemma pview_delete p p' k :
  pairs (db p') = delete k (pairs (db p)) -> rebound k None (pview p) (pview p').
Proof.
  intros He. unfold rebound, pview. rewrite He, lookup_delete_eq. split; [done|].
  intros k' Hne. by rewrite lookup_delete_ne.
Qed.

Lemma pview_insert p p' k raw :
  pairs (db p') = <[k := raw]> (pairs (db p)) ->
  rebound k (Some (raw_binding raw)) (pview p) (pview p').
Proof.
  intros He. unfold rebound, pview. rewrite He, lookup_insert_eq. split; [done|].
  intros k' Hne. by rewrite lookup_insert_ne.
Qed.

Lemma pview_Some p k raw : pairs (db p) !! k = Some raw -> pview p k = Some (raw_binding raw).
Proof. unfold pview. by intros ->. Qed.

Lemma pview_None p k : pairs (db p) !! k = None -> pview p k = None.
Proof. unfold pview. by intros ->. Qed.

Lemma deleteAndCount_spec p k : PebbleOk p ->
  PebbleOk (deleteAndCount k p) /\ pairs (db (deleteAndCount k p)) = delete k (pairs (db p))
  /\ count (deleteAndCount k p) = int64 (count p - 1).
Proof.
  intros Hp. unfold deleteAndCount, PebbleOk.
  destruct (db_Delete_spec (db p) k Hp) as (d & -> & Hd & He). done.
Qed.

(** An exact adjustment of the count keeps it exact. *)
Lemma addCount_ok p d n : CountOk p ->
  Z.of_nat (size (pairs d)) = Z.of_nat (size (pairs (db p))) + n -> CountOk (addCount n d p).
Proof.
  intros Hc Hd. unfold CountOk, addCount in *. simpl. rewrite Hd, Hc.
  by autorewrite with cgz.
Qed.

Lemma count_delete p k raw d : CountOk p -> pairs (db p) !! k = Some raw ->
  pairs d = delete k (pairs (db p)) -> CountOk (addCount (-1) d p).
Proof.
  intros Hc Hk Hd. apply addCount_ok; [done|]. rewrite Hd.
  rewrite (map_size_delete_Some _ k raw Hk). lia.
Qed.

(** A write of a new key adds one, a write of an existing key nothing. *)
Lemma count_insert p k raw d : CountOk p -> pairs d = <[k := raw]> (pairs (db p)) ->
  CountOk (match pairs (db p) !! k with
           | Some _ => MkPebbleStore d (count p) (onEvict p) (onExpire p)
           | None => addCount 1 d p
           end).
Proof.
  intros Hc Hd. destruct (pairs (db p) !! k) as [raw'|] eqn:Hk.
  - unfold CountOk. simpl. rewrite Hd, map_size_insert_Some by eauto. exact Hc.
  - apply addCount_ok; [done|]. rewrite Hd, map_size_insert_None by done. lia.
Qed.

Lemma deleteAndCount_count p k raw : PebbleOk p -> CountOk p ->
  pairs (db p) !! k = Some raw -> CountOk (deleteAndCount k p).
Proof.
  intros Hp Hc Hk. unfold deleteAndCount.
  destruct (db_Delete_spec (db p) k Hp) as (d & -> & Hd & He).
  by apply count_delete with k raw.
Qed.

(** The two outcomes of a lookup that drops an expired key. *)
Lemma drop_expired p k raw clk i : PebbleOk p -> ClockOk clk ->
  pairs (db p) !! k = Some raw ->
  isExpired (decode raw).2 (clk i) = true ->
  live_at (clk i) (pview p k) = None
  /\ PebbleOk (deleteAndCount k p) /\ rebound k None (pview p) (pview (deleteAndCount k p)).
Proof.
  intros Hp Hc Hk He. rewrite (pview_Some p k raw Hk), live_at_raw, He by done.
  destruct (deleteAndCount_spec p k Hp) as (Hp' & Hd & _).
  split_and!; auto using pview_delete.
Qed.

Lemma keep_live p k raw clk i : ClockOk clk ->
  pairs (db p) !! k = Some raw -> isExpired (decode raw).2 (clk i) = false ->
  live_at (clk i) (pview p k) = Some (raw_binding raw)
  /\ rebound k (live_at (clk i) (pview p k)) (pview p) (pview p).
Proof.
  intros Hc Hk He. rewrite (pview_Some p k raw Hk), live_at_raw, He by done.
  split; [done|]. apply pview_same; [done|]. by apply pview_Some.
Qed.

Lemma pebble_Get p k clk : PebbleOk p -> ClockOk clk ->
  let r := PebbleStore_Get k clk p in
  r.1 = fst <$> live_at (clk 0%nat) (pview p k) /\ PebbleOk r.2
  /\ rebound k (live_at (clk 0%nat) (pview p k)) (pview p) (pview r.2).
Proof.
  intros Hp Hc. unfold PebbleStore_Get. rewrite db_Get_spec by done.
  destruct (pairs (db p) !! k) as [raw|] eqn:Hk.
  - destruct (decode raw) as [v x] eqn:Hd.
    destruct (isExpired x (clk 0%nat)) eqn:He; simpl.
    + destruct (drop_expired p k raw clk 0) as (-> & ? & ?); rewrite ?Hd; done.
    + destruct (keep_live p k raw clk 0) as [Hl Hr]; [done|done|by rewrite Hd|].
      rewrite Hl in *. split_and!; [|done|done]. unfold raw_binding. by rewrite Hd.
  - simpl. rewrite pview_None by done. split_and!; [done|done|].
    apply pview_same; [done|by apply pview_None].
Qed.

Lemma pebble_Exists p k clk : PebbleOk p -> ClockOk clk ->
  let r := PebbleStore_Exists k clk p in
  r.1 = bool_decide (is_Some (live_at (clk 0%nat) (pview p k))) /\ PebbleOk r.2
  /\ rebound k (live_at (clk 0%nat) (pview p k)) (pview p) (pview r.2).
Proof.
  intros Hp Hc. unfold PebbleStore_Exists. rewrite db_Get_spec by done.
  destruct (pairs (db p) !! k) as [raw|] eqn:Hk.
  - destruct (decode raw) as [v x] eqn:Hd.
    destruct (isExpired x (clk 0%nat)) eqn:He; simpl.
    + destruct (drop_expired p k raw clk 0) as (-> & ? & ?); rewrite ?Hd; done.
    + destruct (keep_live p k raw clk 0) as [Hl Hr]; [done|done|by rewrite Hd|].
      rewrite Hl in *. done.
  - simpl. rewrite pview_None by done. split_and!; [done|done|].
    apply pview_same; [done|by apply pview_None].
Qed.

Lemma pebble_Delete p k : PebbleOk p ->
  let r := PebbleStore_Delete k p in
  r.1 = bool_decide (is_Some (pview p k)) /\ PebbleOk r.2
  /\ rebound k None (pview p) (pview r.2).
Proof.
  intros Hp. unfold PebbleStore_Delete. rewrite db_Get_spec by done.
  destruct (pairs (db p) !! k) as [raw|] eqn:Hk.
  - destruct (db_Delete_spec (db p) k Hp) as (d & -> & Hd & He). simpl.
    rewrite (pview_Some p k raw Hk). split_and!; [done|done|by apply pview_delete].
  - simpl. rewrite pview_None by done. split_and!; [done|done|].
    apply pview_same; [done|by apply pview_None].
Qed.

Lemma pebble_Set p k v ttl clk : PebbleOk p -> ClockOk clk ->
  (0 < ttl -> clk 0%nat + ttl < unixEpoch + 2 ^ 63) ->
  let p' := PebbleStore_Set k v ttl clk p in
  PebbleOk p' /\ rebound k (Some (v, expiryOf ttl (clk 0%nat))) (pview p) (pview p').
Proof.
  intros Hp Hc Hr. unfold PebbleStore_Set.
  destruct (db_Set_spec (db p) k (encode v ttl (clk 0%nat)) Hp) as (d & -> & Hd & He).
  rewrite <- (raw_binding_encode v ttl clk) by done.
  destruct (db_Get _ _); (split; [done|by apply pview_insert]).
Qed.

(** TTL reads the clock once, so at the very instant of expiry it already
    reports 0 and drops the key, which Get still shows. *)
Lemma pebble_TTL p k clk : PebbleOk p -> ClockOk clk ->
  let r := PebbleStore_TTL k clk p in
  r.1 = ttl_of (clk 1%nat) (live_at (clk 0%nat) (pview p k)) /\ PebbleOk r.2
  /\ rebound_lossy k (pview p k) (pview p) (pview r.2)
  /\ forall k' v x, pview p k' = Some (v, x) -> (x = 0 \/ clk 1%nat < x) ->
       pview r.2 k' = Some (v, x).
Proof.
  intros Hp Hc. pose proof (clock_mono clk Hc 0 1 ltac:(lia)) as Hm.
  unfold PebbleStore_TTL. rewrite db_Get_spec by done.
  assert (Hsame : rebound_lossy k (pview p k) (pview p) (pview p)).
  { apply rebound_lossless. by apply pview_same. }
  destruct (pairs (db p) !! k) as [raw|] eqn:Hk.
  2: { simpl. rewrite (pview_None p k Hk) in *. done. }
  pose proof (pview_Some p k raw Hk) as Hv. unfold raw_binding in Hv.
  pose proof (decode_range raw) as Hr. destruct (decode raw) as [v x] eqn:Hd. simpl in Hr.
  unfold nano_time in Hv. destruct (Z.eqb_spec x 0) as [->|Hne]; simpl.
  { rewrite Hv in *. done. }
  set (t := Unix0 x) in *.
  assert (Ht : t ≠ 0).
  { unfold t, Unix0, is_int64, unixEpoch, Second in *. lia. }
  assert (Hv1 : ttl_of (clk 1%nat) (live_at (clk 0%nat) (pview p k)) = Z.max 0 (Until t (clk 1%nat))).
  { rewrite Hv. simpl. rewrite (proj2 (Z.eqb_neq t 0) Ht). simpl.
    destruct (Z.leb_spec (clk 0%nat) t); simpl; [by rewrite (proj2 (Z.eqb_neq t 0) Ht)|].
    unfold Until, Sub, minDuration, maxDuration. lia. }
  rewrite Hv1. destruct (Z.leb_spec (Until t (clk 1%nat)) 0) as [Hle|Hgt]; simpl.
  - destruct (deleteAndCount_spec p k Hp) as (Hp' & Hdel & _).
    destruct (pview_delete p (deleteAndCount k p) k Hdel) as [H1 H2].
    split_and!; [lia|done|split; [by right|by left; auto]|].
    intros k' v' x' Hk' Hx'. destruct (decide (k' = k)) as [->|Hn]; [|by rewrite H2].
    rewrite Hv in Hk'. injection Hk' as <- <-.
    unfold Until, Sub, minDuration, maxDuration in Hle. lia.
  - split_and!; [lia|done|done|]. done.
Qed.

(** ** The count *)

Lemma pebble_Set_count p k v ttl clk :
  PebbleOk p -> CountOk p -> CountOk (PebbleStore_Set k v ttl clk p).
Proof.
  intros Hp Hc. unfold PebbleStore_Set.
  destruct (db_Set_spec (db p) k (encode v ttl (clk 0%nat)) Hp) as (d & -> & Hd & He).
  rewrite db_Get_spec by done. pose proof (count_insert p k _ d Hc He) as Hi.
  by destruct (pairs (db p) !! k).
Qed.

Lemma pebble_Delete_count p k :
  PebbleOk p -> CountOk p -> CountOk (PebbleStore_Delete k p).2.
Proof.
  intros Hp Hc. unfold PebbleStore_Delete. rewrite db_Get_spec by done.
  destruct (pairs (db p) !! k) as [raw|] eqn:Hk; [|done].
  destruct (db_Delete_spec (db p) k Hp) as (d & -> & Hd & He). by eapply count_delete.
Qed.

(** Get, Exists and TTL drop a key only through [deleteAndCount]. *)
Lemma pebble_lookups_count p k clk : PebbleOk p -> CountOk p ->
  CountOk (PebbleStore_Get k clk p).2 /\ CountOk (PebbleStore_Exists k clk p).2
  /\ CountOk (PebbleStore_TTL k clk p).2.
Proof.
  intros Hp Hc. unfold PebbleStore_Get, PebbleStore_Exists, PebbleStore_TTL.
  rewrite db_Get_spec by done. destruct (pairs (db p) !! k) as [raw|] eqn:Hk; [|done].
  destruct (decode raw) as [v x].
  split_and!; split_matches; simpl; eauto using deleteAndCount_count.
Qed.

(** The sweep, on the map of the database. *)
Lemma pebble_sweep_pairs p clk n cs p' : PebbleOk p ->
  PebbleStore_DeleteExpired clk p = (n, cs, p') ->
  PebbleOk p'
  /\ pairs (db p') = filter (fun kv => pair_expired (clk 0%nat) kv = false) (pairs (db p))
  /\ n = Z.of_nat (size (pairs (db p))) - Z.of_nat (size (pairs (db p')))
  /\ (CountOk p -> CountOk p').
Proof.
  intros Hp. unfold PebbleStore_DeleteExpired.
  destruct (db_Iter_spec (db p) Hp) as (l & -> & Hl). rewrite expiredPairs_filter.
  set (E := filter (fun kv => pair_expired (clk 0%nat) kv = true) l). rewrite length_fmap.
  set (m := pairs (db p)) in *. set (live := filter (fun kv => pair_expired (clk 0%nat) kv = false) m).
  assert (Hlen : Z.of_nat (length E) = Z.of_nat (size m) - Z.of_nat (size live)).
  { unfold E, live. rewrite map_size_filter_list, Hl, <- (length_map_to_list m).
    pose proof (filter_split_length (pair_expired (clk 0%nat)) (map_to_list m)). lia. }
  assert (Hks : filter (fun kv => kv.1 ∉ ((fun kv => (kv.1, (decode kv.2).1)) <$> E).*1) m = live).
  { apply map_filter_ext. intros k raw Hk. cbn [fst snd].
    rewrite <- list_fmap_compose, list_elem_of_fmap, <- not_true_iff_false. f_equiv. split.
    - intros ([k' raw'] & -> & [He Hin]%list_elem_of_filter). simpl in *.
      rewrite Hl, elem_of_map_to_list in Hin. rewrite Hk in Hin. by injection Hin as <-.
    - intros He. exists (k, raw). split; [done|]. apply list_elem_of_filter.
      rewrite Hl, elem_of_map_to_list. done. }
  destruct (Z.eqb_spec (Z.of_nat (length E)) 0) as [Hz|Hz]; intros [= <- <- <-].
  - assert (E = []) as HE by (destruct E; simpl in *; [done|lia]).
    split_and!; [done| |unfold m; lia|done]. fold m live. rewrite <- Hks, HE. simpl.
    symmetry. apply map_filter_id. set_solver.
  - destruct (db_DeleteBatch_spec (db p) ((fun kv => (kv.1, (decode kv.2).1)) <$> E).*1 Hp)
      as [Hok Hd]. fold m in Hd. rewrite Hks in Hd. simpl. rewrite Hd. split_and!; [done|done|done|].
    intros Hc. apply addCount_ok; [done|]. rewrite Hd. fold m. lia.
Qed.

Lemma pebble_sweep p clk n cs p' : PebbleOk p -> ClockOk clk ->
  PebbleStore_DeleteExpired clk p = (n, cs, p') ->
  PebbleOk p' /\ (CountOk p -> CountOk p')
  /\ n = Z.of_nat (size (pairs (db p))) - Z.of_nat (size (pairs (db p')))
  /\ forall k, pview p' k = live_at (clk 0%nat) (pview p k).
Proof.
  intros Hp Hc Hs. destruct (pebble_sweep_pairs p clk n cs p' Hp Hs) as (Hp' & Hm & Hn & Hcnt).
  split_and!; [done..|]. intros k. unfold pview. rewrite Hm.
  rewrite map_lookup_filter. destruct (pairs (db p) !! k) as [raw|]; [|done].
  change (raw_binding <$> Some raw) with (Some (raw_binding raw)).
  rewrite live_at_raw by done. unfold pair_expired. cbn [mbind option_bind snd].
  by destruct (isExpired _ _).
Qed.

(** ** Incr *)

Context {V T : Type} `{MsgpackLaws V T}.

Lemma Incr_write_spec p k current delta ttl clk : PebbleOk p ->
  exists b d, MarshalInt64 (int64 (current + delta)) = Ok b
    /\ UnmarshalInt64 b = Ok (int64 (current + delta))
    /\ db_ok d /\ pairs d = <[k := encode b ttl (clk 3%nat)]> (pairs (db p))
    /\ Incr_write k current delta ttl clk p
       = (Ok (int64 (current + delta)),
          match pairs (db p) !! k with
          | Some _ => MkPebbleStore d (count p) (onEvict p) (onExpire p)
          | None => addCount 1 d p
          end).
Proof.
  intros Hp. destruct (int64_codec (int64 (current + delta))) as (b & Hb & Hu).
  { apply int64_range. }
  destruct (db_Set_spec (db p) k (encode b ttl (clk 3%nat)) Hp) as (d & Hd & Hok & He).
  exists b, d. unfold Incr_write. simpl. rewrite Hb, Hd, db_Get_spec by done.
  split_and!; try done. by destruct (pairs (db p) !! k).
Qed.

Lemma Incr_write_count p k current delta ttl clk : PebbleOk p -> CountOk p ->
  CountOk (Incr_write k current delta ttl clk p).2.
Proof.
  intros Hp Hc. destruct (Incr_write_spec p k current delta ttl clk Hp)
    as (b & d & _ & _ & _ & Hd & ->). eapply count_insert; [done|exact Hd].
Qed.

Lemma pebble_Incr_count p k delta ttl clk : PebbleOk p -> CountOk p ->
  (forall raw, pairs (db p) !! k = Some raw -> isExpired (decode raw).2 (clk 0%nat) = false) ->
  CountOk (PebbleStore_Incr k delta ttl clk p).2.
Proof.
  intros Hp Hc Hl. unfold PebbleStore_Incr. rewrite db_Get_spec by done.
  destruct (pairs (db p) !! k) as [raw|] eqn:Hk; [|by apply Incr_write_count].
  specialize (Hl raw eq_refl). destruct (decode raw) as [v x]. simpl in Hl. rewrite Hl. simpl.
  split_matches; simpl; auto using Incr_write_count.
Qed.

(** On an expired key the count goes down, and does not come up again. *)
Lemma pebble_Incr_drift p k raw delta ttl clk : PebbleOk p -> CountOk p ->
  pairs (db p) !! k = Some raw -> isExpired (decode raw).2 (clk 0%nat) = true ->
  let r := PebbleStore_Incr k delta ttl clk p in
  r.1 = Ok (int64 delta) /\ size (pairs (db r.2)) = size (pairs (db p))
  /\ count r.2 = int64 (Z.of_nat (size (pairs (db r.2))) - 1).
Proof.
  intros Hp Hc Hk He. unfold PebbleStore_Incr. rewrite db_Get_spec, Hk by done.
  destruct (decode raw) as [v x]. simpl in He. rewrite He. cbn [negb].
  destruct (Incr_write_spec (addCount (-1) (db p) p) k 0 delta ttl clk Hp)
    as (b & d & _ & _ & Hok & Hd & ->). simpl in *. rewrite Hk. simpl.
  rewrite Hd, map_size_insert_Some by eauto. rewrite Hc.
  autorewrite with cgz. done.
Qed.

(** The disk store implements the Store contract, for lifetimes that end
    before the year 2262. *)
Lemma PebbleStore_Laws : StoreLaws (PebbleStore DB).
Proof.
  refine {| store_ok := PebbleOk; view := pview;
            admits _ _ _ ttl clk := 0 < ttl -> clk 0%nat + ttl < unixEpoch + 2 ^ 63;
            retains _ _ _ := True |}.
  - intros p k clk Hp Hc. destruct (pebble_Get p k clk Hp Hc) as (<- & ? & ?).
    exists (PebbleStore_Get k clk p).2. simpl. by destruct (PebbleStore_Get k clk p).
  - intros p k v ttl clk Hp Hc Ha. destruct (pebble_Set p k v ttl clk Hp Hc Ha) as [? [? ?]].
    exists [], (PebbleStore_Set k v ttl clk p). split_and!; try done.
    by apply rebound_lossless.
  - intros p k v ttl clk cs p' _ _ _ [= <- <-] k' Hk'. by apply elem_of_nil in Hk'.
  - intros p k Hp. destruct (pebble_Delete p k Hp) as (<- & ? & ?).
    exists (PebbleStore_Delete k p).2. simpl. by destruct (PebbleStore_Delete k p).
  - intros p k clk Hp Hc. destruct (pebble_Exists p k clk Hp Hc) as (<- & ? & ?).
    exists (PebbleStore_Exists k clk p).2. simpl. by destruct (PebbleStore_Exists k clk p).
  - intros p k clk Hp Hc. destruct (pebble_TTL p k clk Hp Hc) as (<- & ? & ? & ?).
    exists (PebbleStore_TTL k clk p).2. simpl. by destruct (PebbleStore_TTL k clk p).
Defined.
End Laws.

(** A lifetime that ends after the year 2262 wraps to an instant before 1970. *)
Lemma encode_overflow v ttl clk clk' i : ClockOk clk -> ClockOk clk' -> is_int64 ttl ->
  unixEpoch + 2 ^ 63 <= clk 0%nat + ttl ->
  isExpired (decode (encode v ttl (clk 0%nat))).2 (clk' i) = true.
Proof.
  intros Hc Hc' Ht Ho. rewrite decode_encode. simpl.
  pose proof (clock_range clk Hc 0). pose proof (clock_range clk' Hc' i).
  unfold is_int64 in *. unfold expiryNano. rewrite (proj2 (Z.gtb_gt ttl 0)) by lia.
  assert (UnixNano (Add (clk 0%nat) ttl) = clk 0%nat + ttl - unixEpoch - 2 ^ 64) as Hu.
  { unfold UnixNano, Add, int64.
    rewrite (Z.mod_eq _ (2 ^ 64)) by lia.
    replace ((clk 0%nat + ttl - unixEpoch + 2 ^ 63) / 2 ^ 64) with 1; [lia|].
    apply Z.div_unique with (clk 0%nat + ttl - unixEpoch - 2 ^ 63); lia. }
  unfold isExpired. rewrite Hu. unfold UnixNano. rewrite int64_id by (unfold is_int64; lia).
  rewrite (proj2 (Z.eqb_neq _ _)) by lia. rewrite (proj2 (Z.gtb_gt _ _)) by lia. done.
Qed.

(** ** Properties *)

Section Properties.
Context {DB : Type} `{PebbleLaws DB} {V T : Type} `{MsgpackLaws V T}.
Implicit Types p : PebbleStore DB.

(** C21: over a database without I/O errors the disk store implements the
    Store contract: Get, Set, Delete, Exists and TTL answer from the abstract
    view of the database, change it only at their key, and preserve the
    invariant, for lifetimes that end before the year 2262. *)
Theorem pebble_store_contract p k v ttl clk :
  PebbleOk p -> ClockOk clk -> (0 < ttl -> clk 0%nat + ttl < unixEpoch + 2 ^ 63) ->
  (exists p', PebbleStore_Get k clk p = (fst <$> live_at (clk 0%nat) (pview p k), p')
     /\ PebbleOk p' /\ rebound k (live_at (clk 0%nat) (pview p k)) (pview p) (pview p'))
  /\ (PebbleOk (PebbleStore_Set k v ttl clk p)
     /\ rebound k (Some (v, expiryOf ttl (clk 0%nat))) (pview p)
          (pview (PebbleStore_Set k v ttl clk p)))
  /\ (exists p', PebbleStore_Delete k p = (bool_decide (is_Some (pview p k)), p')
     /\ PebbleOk p' /\ rebound k None (pview p) (pview p'))
  /\ (exists p', PebbleStore_Exists k clk p
        = (bool_decide (is_Some (live_at (clk 0%nat) (pview p k))), p')
     /\ PebbleOk p' /\ rebound k (live_at (clk 0%nat) (pview p k)) (pview p) (pview p'))
  /\ (exists p', PebbleStore_TTL k clk p
        = (ttl_of (clk 1%nat) (live_at (clk 0%nat) (pview p k)), p')
     /\ PebbleOk p' /\ rebound_lossy k (pview p k) (pview p) (pview p')
     /\ forall k' v x, pview p k' = Some (v, x) -> (x = 0 \/ clk 1%nat < x) ->
          pview p' k' = Some (v, x)).
Proof.
  intros Hp Hc Ha.
  destruct (pebble_Get p k clk Hp Hc) as (<- & ? & ?).
  destruct (pebble_Delete p k Hp) as (<- & ? & ?).
  destruct (pebble_Exists p k clk Hp Hc) as (<- & ? & ?).
  destruct (pebble_TTL p k clk Hp Hc) as (<- & ? & ? & ?).
  split_and!; [|by apply pebble_Set..| | |];
    eexists; (split; [apply surjective_pairing|]); auto.
Qed.

(** The sweep removes exactly the bindings that have expired, returns how
    many keys the database lost, and keeps the key count exact. *)
Theorem pebble_sweep_exact p clk n cs p' :
  PebbleOk p -> ClockOk clk -> PebbleStore_DeleteExpired clk p = (n, cs, p') ->
  PebbleOk p' /\ (CountOk p -> CountOk p')
  /\ n = Z.of_nat (size (pairs (db p))) - Z.of_nat (size (pairs (db p')))
  /\ forall k, pview p' k = live_at (clk 0%nat) (pview p k).
Proof. apply pebble_sweep. Qed.

(** A store opened on a database counts its keys, and Get, Set, Delete,
    Exists, TTL, and Incr of a key that is missing or has not expired, keep
    the count equal to the number of keys. *)
Theorem pebble_count_exact d p k v delta ttl clk :
  db_ok d -> PebbleOk p -> CountOk p -> Z.of_nat (size (pairs d)) < 2 ^ 63 ->
  (forall raw, pairs (db p) !! k = Some raw -> isExpired (decode raw).2 (clk 0%nat) = false) ->
  CountOk (NewPebbleStore d)
  /\ CountOk (PebbleStore_Get k clk p).2
  /\ CountOk (PebbleStore_Set k v ttl clk p)
  /\ CountOk (PebbleStore_Delete k p).2
  /\ CountOk (PebbleStore_Exists k clk p).2
  /\ CountOk (PebbleStore_TTL k clk p).2
  /\ CountOk (PebbleStore_Incr k delta ttl clk p).2.
Proof.
  intros Hd Hp Hc Hs Hl. destruct (pebble_lookups_count p k clk Hp Hc) as (? & ? & ?).
  split_and!; auto using pebble_Set_count, pebble_Delete_count, pebble_Incr_count.
  unfold CountOk, NewPebbleStore, countKeys. simpl.
  destruct (db_Iter_spec d Hd) as (l & -> & ->). rewrite length_map_to_list.
  rewrite int64_id; [done|]. unfold is_int64. lia.
Qed.

(** Incr of an expired key that the database still holds restarts the
    counter at delta, but leaves the count one below the number of keys: the
    decrement is not undone, because the key still exists when it is written. *)
Theorem pebble_incr_expired_undercounts p k raw delta ttl clk :
  PebbleOk p -> CountOk p ->
  pairs (db p) !! k = Some raw -> isExpired (decode raw).2 (clk 0%nat) = true ->
  let r := PebbleStore_Incr k delta ttl clk p in
  r.1 = Ok (int64 delta) /\ size (pairs (db r.2)) = size (pairs (db p))
  /\ PebbleStore_Len r.2 = int64 (Z.of_nat (size (pairs (db r.2))) - 1).
Proof. apply pebble_Incr_drift. Qed.

(** A value stored with a lifetime that ends after the year 2262 is
    already expired for every later Get. *)
Theorem pebble_long_ttl_lost p k v ttl clk clk' :
  PebbleOk p -> ClockOk clk -> ClockOk clk' -> is_int64 ttl ->
  unixEpoch + 2 ^ 63 <= clk 0%nat + ttl ->
  (PebbleStore_Get k clk' (PebbleStore_Set k v ttl clk p)).1 = None.
Proof.
  intros Hp Hc Hc' Ht Ho. unfold PebbleStore_Set.
  destruct (db_Set_spec (db p) k (encode v ttl (clk 0%nat)) Hp) as (d & -> & Hd & He).
  pose proof (encode_overflow v ttl clk clk' 0 Hc Hc' Ht Ho) as Hx.
  set (p' := match db_Get _ _ with Some _ => true | None => false end).
  assert (db (if p' then MkPebbleStore d (count p) (onEvict p) (onExpire p) else addCount 1 d p) = d)
    as Hdb by (by destruct p').
  unfold PebbleStore_Get. rewrite Hdb, db_Get_spec, He, lookup_insert_eq by done.
  destruct (decode _) as [v' x]. simpl in Hx. by rewrite Hx.
Qed.
End Properties.

(** ** A database in memory

    A gmap satisfies the laws: it shows that the hypotheses can hold and lets
    concrete runs evaluate. *)

Definition map_db : PebbleDB (gmap string bytes) := {|
  db_Get m k := m !! k;
  db_Set m k v := Ok (<[k := v]> m);
  db_Delete m k := Ok (delete k m);
  db_Iter m := Some (map_to_list m);
  db_DeleteBatch m ks := filter (fun kv => kv.1 ∉ ks) m;
|}.

Lemma map_db_laws : @PebbleLaws _ map_db.
Proof.
  refine {| db_ok _ := True; pairs m := m |}; simpl; eauto.
Defined.

(** ** Witnesses *)

#[local] Existing Instance map_db.
#[local] Existing Instance map_db_laws.
#[local] Existing Instance tagged_msgpack.
#[local] Existing Instance tagged_msgpack_laws.

Definition w_now : Time := unixEpoch + 1700000000 * Second.
Definition w_clk : Clock := frozen w_now.
Definition w_later : Clock := frozen (w_now + 60 * Second).

Lemma w_clk_ok : ClockOk w_clk.
Proof. apply frozen_ok. unfold w_now, unixEpoch, Second. lia. Qed.
Lemma w_later_ok : ClockOk w_later.
Proof. apply frozen_ok. unfold w_now, unixEpoch, Second. lia. Qed.

(** An empty store, and one that holds a counter of 7 for thirty seconds. *)
Definition w_pebble : PebbleStore (gmap string bytes) := NewPebbleStore ∅.
Definition w_pebble1 : PebbleStore (gmap string bytes) :=
  (PebbleStore_Incr "hits" 7 (30 * Second) w_clk w_pebble).2.

Lemma w_pebble_ok : PebbleOk w_pebble.
Proof. exact I. Qed.
Lemma w_pebble1_ok : PebbleOk w_pebble1.
Proof. exact I. Qed.

Lemma pebble_store_contract_witness :
  pview (PebbleStore_Set "k" [Byte.x01] Second w_clk w_pebble) "k"
  = Some ([Byte.x01], w_now + Second).
Proof.
  destruct (pebble_store_contract w_pebble "k" [Byte.x01] Second w_clk w_pebble_ok w_clk_ok)
    as (_ & (_ & Hv & _) & _); [|exact Hv].
  intros _. vm_compute. done.
Defined.

Lemma pebble_sweep_exact_witness :
  let r := PebbleStore_DeleteExpired w_later w_pebble1 in
  r.1.1 = 1 /\ pview r.2 "hits" = live_at (w_later 0%nat) (pview w_pebble1 "hits").
Proof.
  intros r. split; [by vm_compute|].
  by apply (pebble_sweep_exact w_pebble1 w_later r.1.1 r.1.2 r.2 w_pebble1_ok w_later_ok).
Defined.

Lemma pebble_count_exact_witness :
  CountOk (PebbleStore_Set "k" [] 0 w_clk w_pebble1)
  /\ CountOk (PebbleStore_Incr "k" 3 0 w_clk w_pebble1).2.
Proof.
  destruct (pebble_count_exact (∅ : gmap string bytes) w_pebble1 "k" [] 3 0 w_clk)
    as (_ & _ & Hs & _ & _ & _ & Hi).
  - exact w_pebble_ok.
  - exact w_pebble1_ok.
  - vm_compute. reflexivity.
  - vm_compute. reflexivity.
  - intros raw. replace (pairs (db w_pebble1) !! "k") with (@None bytes) by (vm_compute; reflexivity).
    discriminate.
  - exact (conj Hs Hi).
Defined.

Lemma pebble_incr_expired_undercounts_witness :
  let r := PebbleStore_Incr "hits" 5 0 w_later w_pebble1 in
  r.1 = Ok 5 /\ size (pairs (db r.2)) = 1%nat /\ PebbleStore_Len r.2 = 0.
Proof.
  destruct (pebble_incr_expired_undercounts w_pebble1 "hits"
    (encode (Byte.xd3 :: PutUint64 7) (30 * Second) w_now) 5 0 w_later)
    as (H1 & H2 & H3); [exact w_pebble1_ok|vm_compute; reflexivity..|].
  split; [exact H1|split; vm_compute; reflexivity].
Defined.

Lemma pebble_long_ttl_lost_witness :
  (PebbleStore_Get "k" w_clk (PebbleStore_Set "k" [Byte.x01] maxDuration w_clk w_pebble)).1 = None.
Proof.
  apply (pebble_long_ttl_lost w_pebble "k" [Byte.x01] maxDuration w_clk w_clk w_pebble_ok w_clk_ok w_clk_ok);
    unfold is_int64, maxDuration, w_clk, frozen, w_now, unixEpoch, Second; lia.
Defined.
