(* ===== verification/Counters.v ===== *)
(** Stores that keep counters and forget nothing, and the disk store as one:
    what Incr does to a counter without expiry. *)
From S2P Require Import Prelude GoLib Serializer Shard Store PebbleStore PebbleProofs.

(** [key] is a counter without expiry, with the value [z]. *)
Definition counter {S V T : Type} `{StoreLaws S V T} (s : S) (key : string) (z : Z) : Prop :=
  exists b, view s key = Some (b, 0) /\ UnmarshalInt64 b = Ok z.

(** Beyond the Store contract: writes and counters leave the other keys alone. *)
Class PersistentLaws (S : Type) {V T : Type} `{StoreLaws S V T} := {
  law_Set_frame : forall s k v ttl clk cs s', store_ok s -> ClockOk clk -> admits s k v ttl clk ->
    Store_Set k v ttl clk s = Some (cs, s') -> forall k', k' ≠ k -> view s' k' = view s k';
  law_retains : forall s k v, retains s k v;
  law_Incr : forall s k d ttl clk, store_ok s -> ClockOk clk ->
    exists r cs s', Store_Incr k d ttl clk s = Some (r, cs, s') /\ store_ok s'
      /\ (forall k', k' ≠ k -> view s' k' = view s k')
      /\ (forall z, counter s k z -> r = Ok (int64 (z + d)) /\ counter s' k (int64 (z + d)))
      /\ (view s k = None -> ttl = 0 -> r = Ok (int64 d) /\ counter s' k (int64 d));
}.

Section Disk.
Context {DB : Type} `{PebbleLaws DB} {V T : Type} `{MsgpackLaws V T}.

#[local] Instance disk_laws : StoreLaws (PebbleStore DB) := PebbleStore_Laws.

(** The end of Incr, which may have changed the count. *)
Lemma write_counter p p' k z d ttl clk : PebbleOk p -> db p' = db p ->
  let r := Incr_write k z d ttl clk p' in
  PebbleOk r.2 /\ (forall k', k' ≠ k -> pview r.2 k' = pview p k')
  /\ (ttl = 0 -> r.1 = Ok (int64 (z + d)) /\ counter r.2 k (int64 (z + d))).
Proof.
  intros Hp Hdb. assert (PebbleOk p') as Hp' by (unfold PebbleOk; by rewrite Hdb).
  destruct (Incr_write_spec p' k z d ttl clk Hp') as (b & dd & _ & Hu & Hok & Hd & ->). cbn [fst snd].
  set (q := match pairs (db p') !! k with Some _ => _ | None => _ end).
  assert (db q = dd) as Hq by (unfold q; by destruct (pairs (db p') !! k)).
  destruct (pview_insert p q k (encode b ttl (clk 3%nat))) as [Hk Hne].
  { by rewrite Hq, Hd, Hdb. }
  split_and!; [unfold PebbleOk; by rewrite Hq|exact Hne|]. intros ->. split; [done|].
  exists b. split; [|done]. change (view q k) with (pview q k). rewrite Hk. unfold raw_binding. by rewrite decode_encode.
Qed.

Lemma disk_counter p k z : PebbleOk p -> counter p k z ->
  exists raw b, pairs (db p) !! k = Some raw /\ decode raw = (b, 0) /\ UnmarshalInt64 b = Ok z.
Proof.
  intros Hp (b & Hv & Hu). change (view p k) with (pview p k) in Hv. unfold pview in Hv.
  destruct (pairs (db p) !! k) as [raw|]; [|done]. injection Hv as Hv. exists raw, b. split; [done|].
  unfold raw_binding in Hv. pose proof (decode_range raw) as Hr. destruct (decode raw) as [v nano].
  injection Hv as -> Hn. split; [|done]. cbn [snd] in Hr. f_equal. unfold nano_time in Hn.
  destruct (Z.eqb_spec nano 0) as [|Hne]; [done|]. unfold Unix0, is_int64, unixEpoch, Second in *. lia.
Qed.

Lemma disk_Incr p k d ttl clk : PebbleOk p ->
  let r := PebbleStore_Incr k d ttl clk p in
  PebbleOk r.2 /\ (forall k', k' ≠ k -> pview r.2 k' = pview p k')
  /\ (forall z, counter p k z -> r.1 = Ok (int64 (z + d)) /\ counter r.2 k (int64 (z + d)))
  /\ (pview p k = None -> ttl = 0 -> r.1 = Ok (int64 d) /\ counter r.2 k (int64 d)).
Proof.
  intros Hp. split; [|split; [|split]].
  1, 2: unfold PebbleStore_Incr; destruct (db_Get (db p) k) as [raw|]; [|by eapply write_counter];
    destruct (decode raw) as [b x]; destruct (isExpired _ _); cbn [negb]; [by eapply write_counter|];
    destruct (Deserialize b DInt64) as [[]|]; try done; by eapply write_counter.
  - intros z Hc. destruct (disk_counter p k z Hp Hc) as (raw & b & Hk & Hd & Hu).
    unfold PebbleStore_Incr. rewrite db_Get_spec, Hk, Hd by done. cbn. rewrite Hu. by eapply write_counter.
  - intros Hv ->. unfold PebbleStore_Incr. unfold pview in Hv. rewrite db_Get_spec by done.
    destruct (pairs (db p) !! k); [done|]. by eapply (write_counter p p k 0).
Qed.

Lemma disk_persistent : PersistentLaws (PebbleStore DB).
Proof.
  split.
  - intros p k v ttl clk cs p' Hp Hclk Ha Hs. injection Hs as _ <-.
    by apply (pebble_Set p k v ttl clk Hp Hclk Ha).
  - done.
  - intros p k d ttl clk Hp _. destruct (disk_Incr p k d ttl clk Hp) as (H1' & H2' & H3' & H4').
    exists (PebbleStore_Incr k d ttl clk p).1, [], (PebbleStore_Incr k d ttl clk p).2.
    split; [|done]. cbn. by destruct (PebbleStore_Incr k d ttl clk p).
Qed.
End Disk.
