(* ===== verification/LockEngine.v ===== *)
(** internal/lock/lock.go: the lock engine.

    The engine's mutex makes every method atomic, and one pass of the cleanup
    goroutine as well. *)
From S2P Require Import Prelude GoLib Serializer.

(** ** encoding/hex *)

Definition hextable (n : N) : Ascii.ascii :=
  match String.get (N.to_nat n) "0123456789abcdef" with
  | Some c => c
  | None => Ascii.zero
  end.

Fixpoint EncodeToString (b : bytes) : string :=
  match b with
  | [] => EmptyString
  | x :: b' =>
      String (hextable (N.shiftr (Byte.to_N x) 4))
        (String (hextable (N.land (Byte.to_N x) 15)) (EncodeToString b'))
  end.

(** The inverse on one byte, for injectivity. *)
Definition hexvalue (c : Ascii.ascii) : N :=
  let n := Ascii.N_of_ascii c in if (n <? 97)%N then (n - 48)%N else (n - 87)%N.

Lemma hextable_inverse x :
  Byte.of_N (16 * hexvalue (hextable (N.shiftr (Byte.to_N x) 4))
             + hexvalue (hextable (N.land (Byte.to_N x) 15))) = Some x.
Proof. destruct x; vm_compute; reflexivity. Qed.

Lemma EncodeToString_inj : Inj (=) (=) EncodeToString.
Proof.
  intros a. induction a as [|x a IH]; intros [|y b] H; cbn [EncodeToString] in H; try done.
  injection H as H1 H2 H3. f_equal; [|auto].
  apply (inj Some). rewrite <- (hextable_inverse x), <- (hextable_inverse y).
  by rewrite H1, H2.
Qed.

Module Lock.

Record Entry := MkEntry {
  Key : string;
  Token : string;
  FencingToken : Z;
  ExpiresAt : Time;
  Owner : string;
}.

Definition IsExpired (e : Entry) (now : Time) : bool := After now (ExpiresAt e).

(** [done] says whether the channel of that name is closed. *)
Record Engine := MkEngine {
  locks : gmap string Entry;
  fencingSeq : Z;
  done : bool;
}.

Definition NewEngine : Engine := MkEngine ∅ 0 false.

Definition with_locks (m : gmap string Entry) (e : Engine) : Engine :=
  MkEngine m (fencingSeq e) (done e).

(** [random] is what crypto/rand put into the 16-byte buffer. *)
Definition generateToken (random : bytes) : string := EncodeToString random.

(** The part of Acquire that grants the lock. *)
Definition grant (key : string) (ttl : Duration) (owner : string) (random : bytes) (clk : Clock)
    (e : Engine) : (string * Z * bool) * Engine :=
  let token := generateToken random in
  let fencing := uint64 (fencingSeq e + 1) in
  ((token, fencing, true),
   MkEngine (<[key := MkEntry key token fencing (Add (clk 1%nat) ttl) owner]> (locks e))
     fencing (done e)).

Definition Acquire (key : string) (ttl : Duration) (owner : string) (random : bytes) (clk : Clock)
    (e : Engine) : (string * Z * bool) * Engine :=
  match locks e !! key with
  | Some existing =>
      if negb (IsExpired existing (clk 0%nat)) then (("", 0, false), e)
      else grant key ttl owner random clk e
  | None => grant key ttl owner random clk e
  end.

Definition Release (key token : string) (e : Engine) : bool * Engine :=
  match locks e !! key with
  | None => (false, e)
  | Some entry =>
      if negb (String.eqb (Token entry) token) then (false, e)
      else (true, with_locks (delete key (locks e)) e)
  end.

Definition Extend (key token : string) (ttl : Duration) (clk : Clock) (e : Engine) : bool * Engine :=
  match locks e !! key with
  | None => (false, e)
  | Some entry =>
      if IsExpired entry (clk 0%nat) then (false, e)
      else if negb (String.eqb (Token entry) token) then (false, e)
      else
        (true,
         with_locks
           (<[key := MkEntry (Key entry) (Token entry) (FencingToken entry)
                       (Add (clk 1%nat) ttl) (Owner entry)]> (locks e)) e)
  end.

Definition IsHeld (key : string) (clk : Clock) (e : Engine) : bool :=
  match locks e !! key with
  | Some entry => negb (IsExpired entry (clk 0%nat))
  | None => false
  end.

(** The loops over the map: [order] is the iteration order of this run, and
    every iteration reads the clock. *)
Fixpoint active_loop (order : list (string * Entry)) (clk : Clock) : list Entry :=
  match order with
  | [] => []
  | (_, entry) :: order' =>
      let rest := active_loop order' (advance 1 clk) in
      if negb (IsExpired entry (clk 0%nat)) then entry :: rest else rest
  end.

Definition ActiveLocks (order : list (string * Entry)) (clk : Clock) : list Entry :=
  active_loop order clk.

Fixpoint cleanup_loop (order : list (string * Entry)) (clk : Clock) (m : gmap string Entry)
  : gmap string Entry :=
  match order with
  | [] => m
  | (key, entry) :: order' =>
      cleanup_loop order' (advance 1 clk)
        (if IsExpired entry (clk 0%nat) then delete key m else m)
  end.

(** One tick of startCleanup. *)
Definition cleanup (order : list (string * Entry)) (clk : Clock) (e : Engine) : Engine :=
  with_locks (cleanup_loop order clk (locks e)) e.

(** Closing a closed channel panics. *)
Definition Shutdown (e : Engine) : option Engine :=
  if done e then None else Some (MkEngine (locks e) (fencingSeq e) true).

(** ** Runs of the engine *)

Inductive Op :=
  | OpAcquire (key : string) (ttl : Duration) (owner : string) (random : bytes)
  | OpRelease (key token : string)
  | OpExtend (key token : string) (ttl : Duration)
  | OpCleanup (order : list (string * Entry)).

(** What the caller sees: the grant (token, fencing token, flag) or a flag. *)
Inductive Outcome :=
  | RAcquire (r : string * Z * bool)
  | RFlag (ok : bool).

Definition run_op (op : Op) (clk : Clock) (e : Engine) : Outcome * Engine :=
  match op with
  | OpAcquire key ttl owner random =>
      let '(r, e') := Acquire key ttl owner random clk e in (RAcquire r, e')
  | OpRelease key token => let '(b, e') := Release key token e in (RFlag b, e')
  | OpExtend key token ttl => let '(b, e') := Extend key token ttl clk e in (RFlag b, e')
  | OpCleanup order => (RFlag true, cleanup order clk e)
  end.

(** A cleanup pass visits the bindings of the map it runs on. *)
Definition op_fits (op : Op) (e : Engine) : Prop :=
  match op with
  | OpCleanup order => order ≡ₚ map_to_list (locks e)
  | _ => True
  end.

(** [run e tr rs e']: the operations of the trace [tr], one after another. *)
Inductive run : Engine -> list (Op * Clock) -> list Outcome -> Engine -> Prop :=
  | run_nil e : run e [] [] e
  | run_cons e op clk r e1 tr rs e2 :
      ClockOk clk -> op_fits op e -> run_op op clk e = (r, e1) ->
      run e1 tr rs e2 -> run e ((op, clk) :: tr) (r :: rs) e2.

(** The fencing tokens a run has handed out, in order. *)
Definition granted (r : Outcome) : option Z :=
  match r with
  | RAcquire (_, f, true) => Some f
  | _ => None
  end.

(** Does the operation, or its outcome, end or move the lease of [key] held
    under [token]? *)
Definition disturbs (key token : string) (op : Op) : bool :=
  match op with
  | OpRelease k t | OpExtend k t _ => String.eqb k key && String.eqb t token
  | _ => false
  end.

(** An outcome that grants [key]. *)
Definition grants (key : string) (op : Op) (r : Outcome) : bool :=
  match op, r with
  | OpAcquire k _ _ _, RAcquire (_, _, b) => String.eqb k key && b
  | _, _ => false
  end.

End Lock.
