(* ===== verification/LockProofs.v ===== *)
(** The properties of the lock engine: exclusion, fencing, ownership. *)
From S2P Require Import Prelude GoLib Serializer LockEngine.
Import Lock.

(** ** The cleanup pass *)

Lemma cleanup_loop_sub order clk m k en :
  cleanup_loop order clk m !! k = Some en -> m !! k = Some en.
Proof.
  revert clk m. induction order as [|[k' en'] order IH]; intros clk m H; simpl in H; [done|].
  apply IH in H. destruct (IsExpired en' (clk 0%nat)); [|done].
  by apply lookup_delete_Some in H as [_ H].
Qed.

(** A binding whose entries have not expired at any reading stays. *)
Lemma cleanup_loop_keeps order clk m k :
  (forall en, (k, en) ∈ order -> forall i, IsExpired en (clk i) = false) ->
  cleanup_loop order clk m !! k = m !! k.
Proof.
  revert clk m. induction order as [|[k' en'] order IH]; intros clk m Hk; simpl; [done|].
  rewrite IH by (intros en Hin i; apply (Hk en); by constructor).
  destruct (IsExpired en' (clk 0%nat)) eqn:E; [|done].
  destruct (decide (k' = k)) as [->|Hne]; [|by rewrite lookup_delete_ne].
  rewrite (Hk en' ltac:(by constructor)) in E. done.
Qed.

Lemma cleanup_keeps order clk e k en : order ≡ₚ map_to_list (locks e) ->
  locks e !! k = Some en -> (forall i, clk i <= ExpiresAt en) ->
  locks (cleanup order clk e) !! k = Some en.
Proof.
  intros Ho Hk Hi. simpl. rewrite cleanup_loop_keeps; [done|].
  intros en' Hin i. rewrite Ho, elem_of_map_to_list in Hin. rewrite Hk in Hin.
  injection Hin as <-. unfold IsExpired, After. rewrite Z.gtb_ltb. apply Z.ltb_ge. apply Hi.
Qed.

(** What the pass drops has expired, and is expired at any later instant. *)
Lemma cleanup_dropped order clk e k en now : order ≡ₚ map_to_list (locks e) ->
  (forall i, clk i <= now) -> locks e !! k = Some en ->
  locks (cleanup order clk e) !! k = Some en
  \/ locks (cleanup order clk e) !! k = None /\ IsExpired en now = true.
Proof.
  intros Ho Hn Hk. destruct (locks (cleanup order clk e) !! k) as [en'|] eqn:E.
  - left. apply cleanup_loop_sub in E. congruence.
  - right. split; [done|]. destruct (IsExpired en now) eqn:Ex; [done|].
    unfold IsExpired, After in Ex. zbool. rewrite (cleanup_keeps order clk e k en) in E; try done.
    intros i. specialize (Hn i). lia.
Qed.

(** ** One step *)

Lemma grant_lookup key ttl owner random clk e r e' :
  grant key ttl owner random clk e = (r, e') ->
  r = (generateToken random, uint64 (fencingSeq e + 1), true)
  /\ locks e' = <[key := MkEntry key (generateToken random) (uint64 (fencingSeq e + 1))
                           (clk 1%nat + ttl) owner]> (locks e)
  /\ fencingSeq e' = uint64 (fencingSeq e + 1).
Proof. unfold grant. by intros [= <- <-]. Qed.

Lemma Acquire_cases key ttl owner random clk e r e' :
  Acquire key ttl owner random clk e = (r, e') ->
  (r = ("", 0, false) /\ e' = e
   /\ exists en, locks e !! key = Some en /\ IsExpired en (clk 0%nat) = false)
  \/ (grant key ttl owner random clk e = (r, e')
      /\ forall en, locks e !! key = Some en -> IsExpired en (clk 0%nat) = true).
Proof.
  unfold Acquire. destruct (locks e !! key) as [en|] eqn:Hk; [|by right].
  destruct (IsExpired en (clk 0%nat)) eqn:Hx; simpl; intros H.
  - right. split; [done|]. by intros en' [= <-].
  - left. injection H as <- <-. eauto.
Qed.

Lemma Acquire_granted key ttl owner random clk e tok f e' :
  Acquire key ttl owner random clk e = ((tok, f, true), e') ->
  tok = generateToken random /\ f = uint64 (fencingSeq e + 1)
  /\ locks e' !! key = Some (MkEntry key tok f (clk 1%nat + ttl) owner).
Proof.
  intros [[H _]|[H _]]%Acquire_cases; [done|].
  apply grant_lookup in H as ([= -> ->] & Hl & _). rewrite Hl, lookup_insert_eq. done.
Qed.

(** The lease under [token] survives every step that is not its holder's, as
    long as the clock has not passed its end, and no step grants the key. *)
Lemma step_keeps_lease op clk e r e1 key en :
  op_fits op e -> run_op op clk e = (r, e1) -> locks e !! key = Some en ->
  disturbs key (Token en) op = false -> (forall i, clk i <= ExpiresAt en) ->
  locks e1 !! key = Some en /\ grants key op r = false.
Proof.
  intros Hf Hr Hk Hd Hi. destruct op as [k ttl owner rnd|k t|k t ttl|order]; simpl in *.
  - destruct (Acquire k ttl owner rnd clk e) as [r' e'] eqn:E. injection Hr as <- <-.
    apply Acquire_cases in E as [(-> & -> & _)|[E Hx]]; [by rewrite andb_false_r|].
    destruct (String.eqb_spec k key) as [->|Hne].
    + specialize (Hx en Hk). unfold IsExpired, After in Hx. zbool. specialize (Hi 0%nat). lia.
    + apply grant_lookup in E as (-> & -> & _). rewrite lookup_insert_ne by done.
      split; [done|]. done.
  - unfold Release in Hr. destruct (locks e !! k) as [en'|] eqn:Hk'; [|by simplify_eq].
    destruct (String.eqb_spec (Token en') t) as [<-|?]; simplify_eq/=; [|done].
    destruct (String.eqb_spec k key) as [->|Hne]; simpl in Hd.
    + rewrite Hk in Hk'. simplify_eq. by rewrite String.eqb_refl in Hd.
    + by rewrite lookup_delete_ne.
  - unfold Extend in Hr. destruct (locks e !! k) as [en'|] eqn:Hk'; [|by simplify_eq].
    destruct (IsExpired en' (clk 0%nat)); [by simplify_eq|].
    destruct (String.eqb_spec (Token en') t) as [<-|?]; simplify_eq/=; [|done].
    destruct (String.eqb_spec k key) as [->|Hne]; simpl in Hd.
    + rewrite Hk in Hk'. simplify_eq. by rewrite String.eqb_refl in Hd.
    + by rewrite lookup_insert_ne.
  - injection Hr as <- <-. split; [|done]. by apply (cleanup_keeps order clk e key en).
Qed.

Lemma run_keeps_lease e tr rs e' key en :
  run e tr rs e' -> locks e !! key = Some en ->
  Forall (fun oc => disturbs key (Token en) oc.1 = false /\ forall i, oc.2 i <= ExpiresAt en) tr ->
  Forall2 (fun oc r => grants key oc.1 r = false) tr rs /\ locks e' !! key = Some en.
Proof.
  induction 1 as [|e op clk r e1 tr rs e2 Hc Hf Hr _ IH]; intros Hk Ht; [done|].
  apply Forall_cons in Ht as [[Hd Hi] Ht].
  destruct (step_keeps_lease op clk e r e1 key en Hf Hr Hk Hd Hi) as [Hk1 Hg].
  destruct (IH Hk1 Ht). split; [by constructor|done].
Qed.

(** A step moves the sequence by one exactly when it grants. *)
Lemma step_fencing op clk e r e1 :
  run_op op clk e = (r, e1) ->
  (granted r = None /\ fencingSeq e1 = fencingSeq e)
  \/ (granted r = Some (uint64 (fencingSeq e + 1)) /\ fencingSeq e1 = uint64 (fencingSeq e + 1)).
Proof.
  destruct op as [k ttl owner rnd|k t|k t ttl|order]; simpl; intros Hr.
  - destruct (Acquire k ttl owner rnd clk e) as [r' e'] eqn:E. injection Hr as <- <-.
    apply Acquire_cases in E as [(-> & -> & _)|[E _]]; [by left|].
    apply grant_lookup in E as (-> & _ & ->). by right.
  - left. unfold Release in Hr. split_matches; done.
  - left. unfold Extend in Hr. split_matches; done.
  - left. by simplify_eq.
Qed.

Lemma run_fencing e tr rs e' :
  run e tr rs e' -> 0 <= fencingSeq e -> fencingSeq e + Z.of_nat (length tr) < 2 ^ 64 ->
  omap granted rs = seqZ (fencingSeq e + 1) (fencingSeq e' - fencingSeq e)
  /\ fencingSeq e <= fencingSeq e' <= fencingSeq e + Z.of_nat (length tr).
Proof.
  induction 1 as [e|e op clk r e1 tr rs e2 _ _ Hr _ IH]; intros H0 Hb; simpl in Hb.
  { rewrite Z.sub_diag. simpl. split; [done|lia]. }
  assert (uint64 (fencingSeq e + 1) = fencingSeq e + 1) as Hu.
  { unfold uint64. apply Z.mod_small. lia. }
  cbn [length omap list_omap].
  destruct (step_fencing op clk e r e1 Hr) as [[Hg Hs]|[Hg Hs]]; rewrite ?Hu in *.
  - destruct IH as [IH1 IH2]; [lia..|]. rewrite Hs in *. cbn. rewrite Hg.
    split; [exact IH1|lia].
  - destruct IH as [IH1 IH2]; [lia..|]. rewrite Hs in *. cbn. rewrite Hg.
    split; [|lia]. rewrite (seqZ_cons (fencingSeq e + 1)) by lia. f_equal.
    etransitivity; [exact IH1|]. f_equal; lia.
Qed.

(** ** The invariant *)

Record EngineOk (e : Engine) : Prop := {
  ok_key : forall k en, locks e !! k = Some en -> Key en = k;
  ok_fencing : forall k en, locks e !! k = Some en -> 1 <= FencingToken en <= fencingSeq e;
  ok_distinct : forall k1 k2 en1 en2, locks e !! k1 = Some en1 -> locks e !! k2 = Some en2 ->
    FencingToken en1 = FencingToken en2 -> k1 = k2;
  ok_seq : 0 <= fencingSeq e;
}.

Lemma NewEngine_ok : EngineOk NewEngine.
Proof. split; simpl; intros; by simplify_map_eq. Qed.

(** Dropping entries, or changing one without touching its key and fencing
    token, keeps the invariant. *)
Lemma shrink_ok e m : EngineOk e ->
  (forall k en, m !! k = Some en ->
     exists en', locks e !! k = Some en' /\ Key en = Key en' /\ FencingToken en = FencingToken en') ->
  EngineOk (with_locks m e).
Proof.
  intros [Hk Hf Hd Hs] Hsub. split; simpl.
  - intros k en (en' & H & -> & _)%Hsub. auto.
  - intros k en (en' & H & _ & ->)%Hsub. eauto.
  - intros k1 k2 en1 en2 (en1' & H1 & _ & ->)%Hsub (en2' & H2 & _ & ->)%Hsub. eauto.
  - done.
Qed.

Lemma grant_ok key ttl owner random clk e r e' : EngineOk e -> fencingSeq e + 1 < 2 ^ 64 ->
  grant key ttl owner random clk e = (r, e') -> EngineOk e'.
Proof.
  intros [Hk Hf Hd Hs] Hb (_ & Hl & Hq)%grant_lookup.
  assert (Hu : uint64 (fencingSeq e + 1) = fencingSeq e + 1).
  { unfold uint64. apply Z.mod_small. lia. }
  rewrite Hu in *. split; rewrite ?Hl, ?Hq.
  - intros k en [[<- <-]|[_ H]]%lookup_insert_Some; [done|auto].
  - intros k en [[<- <-]|[_ H]]%lookup_insert_Some; simpl; [lia|]. apply Hf in H. lia.
  - intros k1 k2 en1 en2 [[<- <-]|[_ H1]]%lookup_insert_Some [[<- <-]|[_ H2]]%lookup_insert_Some;
      simpl; intros He; [done| | |eauto].
    + apply Hf in H2. lia.
    + apply Hf in H1. lia.
  - lia.
Qed.
#[export] Hint Resolve NewEngine_ok : cgwf.

Lemma step_ok op clk e r e1 : EngineOk e -> fencingSeq e + 1 < 2 ^ 64 ->
  run_op op clk e = (r, e1) -> EngineOk e1.
Proof.
  intros Hok Hb. destruct op as [k ttl owner rnd|k t|k t ttl|order]; simpl; intros Hr.
  - destruct (Acquire k ttl owner rnd clk e) as [r' e'] eqn:E. injection Hr as _ <-.
    apply Acquire_cases in E as [(_ & -> & _)|[E _]]; [done|]. by eapply grant_ok.
  - unfold Release in Hr. split_matches; try done. apply shrink_ok; [done|].
    intros k' en [_ H]%lookup_delete_Some. eauto.
  - unfold Extend in Hr. split_matches; try done. apply shrink_ok; [done|].
    intros k' en [[<- <-]|[_ H]]%lookup_insert_Some; simpl; eauto.
  - injection Hr as _ <-. apply shrink_ok; [done|]. intros k en H%cleanup_loop_sub. eauto.
Qed.

Lemma run_ok e tr rs e' : run e tr rs e' -> EngineOk e ->
  fencingSeq e + Z.of_nat (length tr) < 2 ^ 64 -> EngineOk e'.
Proof.
  induction 1 as [|e op clk r e1 tr rs e2 _ _ Hr _ IH]; intros Hok Hb; simpl in Hb; [done|].
  apply IH; [eapply step_ok; [exact Hok|lia|exact Hr]|].
  destruct (step_fencing op clk e r e1 Hr) as [[_ ->]|[_ ->]]; [lia|].
  pose proof (ok_seq e Hok). unfold uint64. rewrite Z.mod_small; lia.
Qed.

(** ** Properties *)

(** C5: mutual exclusion. After a successful Acquire, as long as the clock has
    not passed the end of the lease and the holder's token has not been used to
    release or extend it, no sequence of other operations (acquisitions,
    releases and extensions with other tokens, cleanup passes) grants the key
    to anybody, and the holder can still release it. *)
Theorem lock_mutual_exclusion key ttl owner random clk e tok f e1 tr rs e2 :
  Acquire key ttl owner random clk e = ((tok, f, true), e1) ->
  run e1 tr rs e2 ->
  Forall (fun oc => disturbs key tok oc.1 = false /\ forall i, oc.2 i <= clk 1%nat + ttl) tr ->
  Forall2 (fun oc r => grants key oc.1 r = false) tr rs
  /\ locks e2 !! key = Some (MkEntry key tok f (clk 1%nat + ttl) owner)
  /\ Release key tok e2 = (true, with_locks (delete key (locks e2)) e2).
Proof.
  intros (_ & _ & Hk)%Acquire_granted Hrun Ht.
  destruct (run_keeps_lease e1 tr rs e2 key _ Hrun Hk Ht) as [Hg Hk2].
  split_and!; [done|done|]. unfold Release. rewrite Hk2. simpl. by rewrite String.eqb_refl.
Qed.

(** C16: fencing tokens. In any run of the engine, whatever keys are acquired,
    the fencing tokens handed out are consecutive numbers, so each is strictly
    greater than all earlier ones, until the uint64 sequence is exhausted. *)
Theorem fencing_tokens_increase e tr rs e' :
  run e tr rs e' -> 0 <= fencingSeq e -> fencingSeq e + Z.of_nat (length tr) < 2 ^ 64 ->
  omap granted rs = seqZ (fencingSeq e + 1) (fencingSeq e' - fencingSeq e)
  /\ forall i j fi fj, (i < j)%nat ->
       omap granted rs !! i = Some fi -> omap granted rs !! j = Some fj -> fi < fj.
Proof.
  intros Hr H0 Hb. destruct (run_fencing e tr rs e' Hr H0 Hb) as [-> _]. split; [done|].
  intros i j fi fj Hij Hi Hj. apply lookup_seqZ in Hi as [-> _], Hj as [-> _]. lia.
Qed.

(** Every engine reachable from a new one stores each entry under its own
    key, and the locks in its table carry distinct fencing tokens, none of them
    beyond the sequence. *)
Theorem engine_reachable_ok tr rs e :
  run NewEngine tr rs e -> Z.of_nat (length tr) < 2 ^ 64 -> EngineOk e.
Proof. intros Hr Hb. eapply run_ok; [done|auto with cgwf|simpl; lia]. Qed.

(** Ownership. Once a key has been granted to a new holder, Release and
    Extend of that key change nothing and report failure for every other token;
    in particular for the token of any earlier holder, whose random bytes
    differ. *)
Theorem stale_holder_refused key ttl owner random clk e tok f e1 old ttl' clk' :
  Acquire key ttl owner random clk e = ((tok, f, true), e1) -> old ≠ random ->
  Release key (generateToken old) e1 = (false, e1)
  /\ Extend key (generateToken old) ttl' clk' e1 = (false, e1).
Proof.
  intros (-> & _ & Hk)%Acquire_granted Hne.
  assert (Ht : String.eqb (generateToken random) (generateToken old) = false).
  { apply String.eqb_neq. intros H%EncodeToString_inj. congruence. }
  unfold Release, Extend. rewrite Hk. simpl. rewrite Ht. by destruct (IsExpired _ _).
Qed.

(** The background cleanup is invisible: whatever order it visits the
    table in, at any later instant IsHeld, Acquire and Extend answer as if it
    had not run. *)
Theorem cleanup_transparent order clk e key token ttl owner random later :
  order ≡ₚ map_to_list (locks e) -> ClockOk later -> (forall i, clk i <= later 0%nat) ->
  IsHeld key later (cleanup order clk e) = IsHeld key later e
  /\ (Acquire key ttl owner random later (cleanup order clk e)).1
     = (Acquire key ttl owner random later e).1
  /\ (Extend key token ttl later (cleanup order clk e)).1 = (Extend key token ttl later e).1.
Proof.
  intros Ho _ Hi. unfold IsHeld, Acquire, Extend.
  destruct (locks e !! key) as [en|] eqn:Hk.
  - destruct (cleanup_dropped order clk e key en (later 0%nat) Ho Hi Hk) as [->|[-> ->]]; [|done].
    by destruct (IsExpired en (later 0%nat)), (String.eqb (Token en) token).
  - destruct (locks (cleanup order clk e) !! key) as [en|] eqn:E; [|done].
    apply cleanup_loop_sub in E. congruence.
Qed.

(** ** Witnesses *)

Definition l_now : Time := unixEpoch + 1700000000 * Second.
Definition l_clk : Clock := frozen l_now.

Lemma l_clk_ok : ClockOk l_clk.
Proof. apply frozen_ok. unfold l_now, unixEpoch, Second. lia. Qed.

Definition l_rnd (b : Byte.byte) : bytes := replicate 16 b.
Definition l_held : Engine :=
  (Acquire "job" (30 * Second) "n1" (l_rnd Byte.x0a) l_clk NewEngine).2.

(** A second acquisition, a release with a wrong token, a cleanup pass. *)
Definition l_trace : list (Op * Clock) :=
  [(OpAcquire "job" Second "n2" (l_rnd Byte.x0b), l_clk);
   (OpRelease "job" "0b", l_clk);
   (OpAcquire "other" Second "n2" (l_rnd Byte.x0c), l_clk)].

Definition l_outcomes : list Outcome :=
  [RAcquire ("", 0, false); RFlag false;
   RAcquire (generateToken (l_rnd Byte.x0c), 2, true)].

Definition l_final : Engine :=
  (Acquire "other" Second "n2" (l_rnd Byte.x0c) l_clk l_held).2.

Lemma l_run : run l_held l_trace l_outcomes l_final.
Proof.
  repeat (econstructor; [apply l_clk_ok|exact I|vm_compute; reflexivity|]). constructor.
Qed.

Lemma lock_mutual_exclusion_witness :
  Forall2 (fun oc r => grants "job" oc.1 r = false) l_trace l_outcomes
  /\ Release "job" "0a0a0a0a0a0a0a0a0a0a0a0a0a0a0a0a" l_final
     = (true, with_locks (delete "job" (locks l_final)) l_final).
Proof.
  destruct (lock_mutual_exclusion "job" (30 * Second) "n1" (l_rnd Byte.x0a) l_clk NewEngine
    "0a0a0a0a0a0a0a0a0a0a0a0a0a0a0a0a" 1 l_held l_trace l_outcomes l_final)
    as (Hg & _ & Hr); [reflexivity|exact l_run| |exact (conj Hg Hr)].
  repeat (apply Forall_cons; split; [split; [reflexivity|]|]); [..|constructor];
    intros i; unfold l_clk, frozen, Second; simpl; lia.
Defined.

Lemma fencing_tokens_increase_witness :
  omap granted l_outcomes = seqZ 2 1.
Proof.
  by destruct (fencing_tokens_increase l_held l_trace l_outcomes l_final l_run) as [H _];
    [vm_compute; discriminate|vm_compute; reflexivity|].
Defined.

Lemma engine_reachable_ok_witness : EngineOk l_held.
Proof.
  apply (engine_reachable_ok [(OpAcquire "job" (30 * Second) "n1" (l_rnd Byte.x0a), l_clk)]
    [RAcquire (generateToken (l_rnd Byte.x0a), 1, true)] l_held); [|vm_compute; reflexivity].
  econstructor; [apply l_clk_ok|exact I|vm_compute; reflexivity|]. constructor.
Defined.

Lemma stale_holder_refused_witness :
  let e1 := (Acquire "job" Second "n2" (l_rnd Byte.x0b) (frozen (l_now + 60 * Second)) l_held).2 in
  Release "job" "0a0a0a0a0a0a0a0a0a0a0a0a0a0a0a0a" e1 = (false, e1).
Proof.
  intros e1. apply (stale_holder_refused "job" Second "n2" (l_rnd Byte.x0b)
    (frozen (l_now + 60 * Second)) l_held (generateToken (l_rnd Byte.x0b)) 2 e1
    (l_rnd Byte.x0a) Second l_clk); [vm_compute; reflexivity|done].
Defined.

Lemma cleanup_transparent_witness :
  IsHeld "job" l_clk (cleanup (map_to_list (locks l_held)) l_clk l_held) = true.
Proof.
  destruct (cleanup_transparent (map_to_list (locks l_held)) l_clk l_held "job" "" 0 ""
    [] l_clk) as [-> _]; [done|apply l_clk_ok| |vm_compute; reflexivity].
  intros i. unfold l_clk, frozen. lia.
Defined.
