(* ===== verification/Tags.v ===== *)
(** tags.go: the index between tags and keys. Its two maps mirror each other. *)
From S2P Require Import Prelude.

(** A Go [map\[string\]struct{}] is a set of strings. *)
Record tagIndex := MkTagIndex {
  tagToKeys : gmap string (gset string);
  keyToTags : gmap string (list string);
}.

Definition newTagIndex : tagIndex := MkTagIndex ∅ ∅.

(** The loop that takes [key] out of the sets of its old tags; an empty set is
    dropped. It is the same code in Add and in Remove. *)
Definition untag (key : string) (m : gmap string (gset string)) (tag : string)
  : gmap string (gset string) :=
  match m !! tag with
  | Some keys =>
      let keys' := keys ∖ {[key]} in
      if (size keys' =? 0)%nat then delete tag m else <[tag := keys']> m
  | None => m
  end.

(** One iteration of the loop that puts [key] under its new tags. *)
Definition entag (key : string) (m : gmap string (gset string)) (tag : string)
  : gmap string (gset string) :=
  let m1 := match m !! tag with None => <[tag := ∅]> m | Some _ => m end in
  match m1 !! tag with
  | Some keys => <[tag := keys ∪ {[key]}]> m1
  | None => m1
  end.

Definition tagIndex_Add (key : string) (tags : list string) (ti : tagIndex) : tagIndex :=
  let m1 :=
    match keyToTags ti !! key with
    | Some oldTags => foldl (untag key) (tagToKeys ti) oldTags
    | None => tagToKeys ti
    end in
  MkTagIndex (foldl (entag key) m1 tags) (<[key := tags]> (keyToTags ti)).

Definition tagIndex_Remove (key : string) (ti : tagIndex) : tagIndex :=
  match keyToTags ti !! key with
  | None => ti
  | Some tags =>
      MkTagIndex (foldl (untag key) (tagToKeys ti) tags) (delete key (keyToTags ti))
  end.

(** [order] is the order in which Go iterates the set. *)
Definition tagIndex_GetKeysByTag (order : gset string -> list string) (tag : string) (ti : tagIndex)
  : list string :=
  match tagToKeys ti !! tag with
  | None => []
  | Some keys => order keys
  end.

(** An iteration visits every element once. *)
Definition iterates (order : gset string -> list string) : Prop :=
  forall s, order s ≡ₚ elements s.

(** ** Membership *)

Definition tagged (m : gmap string (gset string)) (tag key : string) : Prop :=
  exists keys, m !! tag = Some keys /\ key ∈ keys.

Definition no_empty (m : gmap string (gset string)) : Prop :=
  forall tag keys, m !! tag = Some keys -> keys ≠ ∅.

Lemma untag_lookup key m tag t :
  untag key m tag !! t
  = if decide (t = tag)
    then match m !! t with
         | Some keys => if (size (keys ∖ {[key]}) =? 0)%nat then None else Some (keys ∖ {[key]})
         | None => None
         end
    else m !! t.
Proof.
  unfold untag. case_decide as Ht.
  - subst t. destruct (m !! tag) as [keys|] eqn:E; [|done].
    destruct (_ =? _)%nat; by rewrite ?lookup_delete_eq, ?lookup_insert_eq.
  - destruct (m !! tag) as [keys|]; [|done].
    destruct (_ =? _)%nat; by rewrite ?lookup_delete_ne, ?lookup_insert_ne.
Qed.

Lemma untag_tagged key m tag t k :
  tagged (untag key m tag) t k <-> tagged m t k /\ ~ (k = key /\ t = tag).
Proof.
  unfold tagged. rewrite untag_lookup. case_decide as Ht; [|naive_solver].
  destruct (m !! t) as [keys|]; [|naive_solver].
  destruct (Nat.eqb_spec (size (keys ∖ {[key]})) 0) as [Hz|Hz].
  - split; [naive_solver|]. intros [(ks & [= <-] & Hk) Hn].
    apply size_empty_inv in Hz. set_solver.
  - split.
    + intros (ks & [= <-] & Hk). set_solver.
    + intros [(ks & [= <-] & Hk) Hn]. exists (keys ∖ {[key]}). set_solver.
Qed.

Lemma untag_no_empty key m tag : no_empty m -> no_empty (untag key m tag).
Proof.
  intros Hm t keys. rewrite untag_lookup. case_decide; [|apply Hm].
  destruct (m !! t) as [ks|]; [|done].
  destruct (Nat.eqb_spec (size (ks ∖ {[key]})) 0) as [|Hz]; [done|].
  intros [= <-] He. rewrite He in Hz. by rewrite size_empty in Hz.
Qed.

Lemma untags_tagged key tags m t k :
  tagged (foldl (untag key) m tags) t k <-> tagged m t k /\ ~ (k = key /\ t ∈ tags).
Proof.
  revert m. induction tags as [|tag tags IH]; intros m; simpl; [set_solver|].
  rewrite IH, untag_tagged. set_solver.
Qed.

Lemma untags_no_empty key tags m : no_empty m -> no_empty (foldl (untag key) m tags).
Proof. revert m. induction tags as [|tag tags IH]; simpl; auto using untag_no_empty. Qed.

Lemma entag_lookup key m tag t :
  entag key m tag !! t
  = if decide (t = tag) then Some (default ∅ (m !! t) ∪ {[key]}) else m !! t.
Proof.
  unfold entag. case_decide as Ht.
  - subst t. destruct (m !! tag) as [keys|] eqn:E; simpl.
    + by rewrite E, lookup_insert_eq.
    + by rewrite !lookup_insert_eq.
  - destruct (m !! tag) as [keys|] eqn:E.
    + by rewrite E, lookup_insert_ne.
    + by rewrite lookup_insert_eq, !lookup_insert_ne.
Qed.

Lemma entag_tagged key m tag t k :
  tagged (entag key m tag) t k <-> tagged m t k \/ (k = key /\ t = tag).
Proof.
  unfold tagged. rewrite entag_lookup. case_decide as Ht; [|naive_solver].
  destruct (m !! t) as [keys|]; simpl; split; naive_solver set_solver.
Qed.

Lemma entag_no_empty key m tag : no_empty m -> no_empty (entag key m tag).
Proof.
  intros Hm t keys. rewrite entag_lookup. case_decide; [|apply Hm].
  intros [= <-]. set_solver.
Qed.

Lemma entags_tagged key tags m t k :
  tagged (foldl (entag key) m tags) t k <-> tagged m t k \/ (k = key /\ t ∈ tags).
Proof.
  revert m. induction tags as [|tag tags IH]; intros m; simpl; [set_solver|].
  rewrite IH, entag_tagged. set_solver.
Qed.

Lemma entags_no_empty key tags m : no_empty m -> no_empty (foldl (entag key) m tags).
Proof. revert m. induction tags as [|tag tags IH]; simpl; auto using entag_no_empty. Qed.

(** ** The invariant *)

(** The index is the relation "key has tag", held twice. *)
Definition has_tag (ti : tagIndex) (key tag : string) : Prop :=
  exists tags, keyToTags ti !! key = Some tags /\ tag ∈ tags.

Record TagsOk (ti : tagIndex) : Prop := {
  tags_mirror : forall tag key, tagged (tagToKeys ti) tag key <-> has_tag ti key tag;
  tags_no_empty : no_empty (tagToKeys ti);
}.

Lemma newTagIndex_ok : TagsOk newTagIndex.
Proof.
  split; [|intros tag keys; simpl; by rewrite lookup_empty].
  intros tag key. split; intros (x & H & _); simpl in H; by rewrite lookup_empty in H.
Qed.

(** What Add and Remove do to the relation. *)
Lemma has_tag_Add key tags ti k t :
  has_tag (tagIndex_Add key tags ti) k t <-> if decide (k = key) then t ∈ tags else has_tag ti k t.
Proof.
  unfold has_tag. simpl. case_decide as Hk.
  - subst k. rewrite lookup_insert_eq. naive_solver.
  - rewrite lookup_insert_ne by done. done.
Qed.

Lemma has_tag_Remove key ti k t :
  has_tag (tagIndex_Remove key ti) k t <-> k ≠ key /\ has_tag ti k t.
Proof.
  unfold has_tag, tagIndex_Remove. destruct (keyToTags ti !! key) as [tags|] eqn:E; simpl.
  - destruct (decide (k = key)) as [->|Hne].
    + rewrite lookup_delete_eq. naive_solver.
    + rewrite lookup_delete_ne by done. naive_solver.
  - naive_solver.
Qed.

Lemma Add_ok key tags ti : TagsOk ti -> TagsOk (tagIndex_Add key tags ti).
Proof.
  intros [Hm He]. split.
  - intros t k. rewrite has_tag_Add. simpl. rewrite entags_tagged.
    destruct (keyToTags ti !! key) as [old|] eqn:E.
    + rewrite untags_tagged, Hm. case_decide as Hk; [subst k|naive_solver].
      assert (has_tag ti key t <-> t ∈ old) by (unfold has_tag; naive_solver). tauto.
    + rewrite Hm. case_decide as Hk; [subst k|naive_solver].
      assert (~ has_tag ti key t) by (unfold has_tag; naive_solver). tauto.
  - simpl. apply entags_no_empty. destruct (keyToTags ti !! key); auto using untags_no_empty.
Qed.

Lemma Remove_ok key ti : TagsOk ti -> TagsOk (tagIndex_Remove key ti).
Proof.
  intros [Hm He]. split.
  - intros t k. rewrite has_tag_Remove. unfold tagIndex_Remove.
    destruct (keyToTags ti !! key) as [old|] eqn:E; simpl.
    + rewrite untags_tagged, Hm. destruct (decide (k = key)) as [->|Hk]; [|tauto].
      assert (has_tag ti key t <-> t ∈ old) by (unfold has_tag; naive_solver). tauto.
    + rewrite Hm. split; [|tauto]. intros H. split; [|done]. intros ->.
      unfold has_tag in H. naive_solver.
  - unfold tagIndex_Remove. destruct (keyToTags ti !! key); [|done].
    simpl. by apply untags_no_empty.
Qed.
#[export] Hint Resolve newTagIndex_ok Add_ok Remove_ok : cgwf.

(** The indices a cache can have. *)
Inductive tags_reachable : tagIndex -> Prop :=
  | tags_new : tags_reachable newTagIndex
  | tags_add key tags ti : tags_reachable ti -> tags_reachable (tagIndex_Add key tags ti)
  | tags_remove key ti : tags_reachable ti -> tags_reachable (tagIndex_Remove key ti).

Lemma tags_reachable_TagsOk ti : tags_reachable ti -> TagsOk ti.
Proof. induction 1; auto with cgwf. Qed.

Lemma GetKeysByTag_elem order tag ti key : iterates order -> TagsOk ti ->
  key ∈ tagIndex_GetKeysByTag order tag ti <-> has_tag ti key tag.
Proof.
  intros Ho [Hm _]. rewrite <- Hm. unfold tagIndex_GetKeysByTag, tagged.
  destruct (tagToKeys ti !! tag) as [keys|].
  - unfold iterates in Ho. rewrite Ho, elem_of_elements. naive_solver.
  - rewrite elem_of_nil. naive_solver.
Qed.

(** ** Properties *)

(** C39: in every reachable index the two maps mirror each other, no empty tag
    set is kept, and GetKeysByTag returns, without repetition, exactly the keys
    whose tag list holds the tag. *)
Theorem tag_index_consistent order ti tag :
  tags_reachable ti -> iterates order ->
  TagsOk ti /\ NoDup (tagIndex_GetKeysByTag order tag ti)
  /\ forall key, key ∈ tagIndex_GetKeysByTag order tag ti <-> has_tag ti key tag.
Proof.
  intros Hr%tags_reachable_TagsOk Ho. split_and!; [done| |].
  - unfold tagIndex_GetKeysByTag. destruct (tagToKeys ti !! tag); [|constructor].
    unfold iterates in Ho. rewrite Ho. apply NoDup_elements.
  - intros key. by apply GetKeysByTag_elem.
Qed.

(** Add replaces the tags of its key (a key tagged twice keeps only the new
    tags), Remove takes the key out of every tag, and neither changes what
    GetKeysByTag says about other keys. *)
Theorem tag_update_exact order ti key tags tag k :
  tags_reachable ti -> iterates order ->
  (k ∈ tagIndex_GetKeysByTag order tag (tagIndex_Add key tags ti)
   <-> (k = key /\ tag ∈ tags) \/ (k ≠ key /\ k ∈ tagIndex_GetKeysByTag order tag ti))
  /\ (k ∈ tagIndex_GetKeysByTag order tag (tagIndex_Remove key ti)
      <-> k ≠ key /\ k ∈ tagIndex_GetKeysByTag order tag ti).
Proof.
  intros Hr%tags_reachable_TagsOk Ho.
  rewrite !GetKeysByTag_elem, has_tag_Add, has_tag_Remove by auto with cgwf.
  split; [|done]. case_decide; naive_solver.
Qed.

(** ** Witnesses *)

Definition w_tags : tagIndex :=
  tagIndex_Add "u1" ["admin"] (tagIndex_Add "u2" ["user"] (tagIndex_Add "u1" ["user"] newTagIndex)).

Lemma w_tags_reachable : tags_reachable w_tags.
Proof. repeat constructor. Qed.

Lemma elements_iterates : iterates elements.
Proof. by intros s. Qed.

Lemma tag_index_consistent_witness :
  tagIndex_GetKeysByTag elements "user" w_tags = ["u2"]
  /\ forall key, key ∈ tagIndex_GetKeysByTag elements "user" w_tags <-> has_tag w_tags key "user".
Proof.
  split; [vm_compute; reflexivity|].
  by destruct (tag_index_consistent elements w_tags "user" w_tags_reachable elements_iterates)
    as (_ & _ & H).
Defined.

Lemma tag_update_exact_witness :
  ~ "u2" ∈ tagIndex_GetKeysByTag elements "user" (tagIndex_Remove "u2" w_tags).
Proof.
  destruct (tag_update_exact elements w_tags "u2" [] "user" "u2" w_tags_reachable elements_iterates)
    as [_ ->]. intros [H _]. by apply H.
Defined.
