(* ===== verification/HashRing.v ===== *)
(** internal/cluster/hashring.go: the consistent hash ring.

    [sort.Slice] and [sort.Search] are the Standard Library's: the first is a
    sort of integers, of which every correct one gives the same list; the second
    is modelled by its loop. *)
From stdpp Require Import sorting pretty.
From S2P Require Import Prelude GoLib.

Definition DefaultVirtualNodes : Z := 150.

(** A Go [map\[string\]bool] that only ever holds true is a set. *)
Record Ring := MkRing {
  vnodes : Z;
  sortedHashes : list Z;
  hashMap : gmap Z string;
  members : gset string;
}.

Definition NewRing (vnodes : Z) : Ring :=
  let vnodes := if vnodes <=? 0 then DefaultVirtualNodes else vnodes in
  MkRing vnodes [] ∅ ∅.

Definition hashKey (key : string) : Z := fnv32a key.

(** [fmt.Sprintf("%s-%d", name, i)] *)
Definition vnodeName (name : string) (i : Z) : string := (name +:+ "-" +:+ pretty i)%string.

(** One iteration of AddNode's loop. *)
Definition add_vnode (name : string) (acc : list Z * gmap Z string) (i : Z)
  : list Z * gmap Z string :=
  let '(hs, hm) := acc in
  let h := hashKey (vnodeName name i) in
  (hs ++ [h], <[h := name]> hm).

Definition AddNode (name : string) (r : Ring) : Ring :=
  if bool_decide (name ∈ members r) then r
  else
    let '(hs, hm) :=
      foldl (add_vnode name) (sortedHashes r, hashMap r) (seqZ 0 (vnodes r)) in
    MkRing (vnodes r) (merge_sort Z.le hs) hm (members r ∪ {[name]}).

(** [r.hashMap\[h\]]: a missing key reads as the empty string. *)
Definition nodeAt (hm : gmap Z string) (h : Z) : string := default "" (hm !! h).

(** One iteration of RemoveNode's loop. *)
Definition remove_vnode (name : string) (acc : list Z * gmap Z string) (h : Z)
  : list Z * gmap Z string :=
  let '(newHashes, hm) := acc in
  if negb (String.eqb (nodeAt hm h) name) then (newHashes ++ [h], hm)
  else (newHashes, delete h hm).

(** RemoveNode panics if the capacity of the new slice would be negative. *)
Definition RemoveNode (name : string) (r : Ring) : option Ring :=
  if negb (bool_decide (name ∈ members r)) then Some r
  else if Z.of_nat (length (sortedHashes r)) - vnodes r <? 0 then None
  else
    let '(newHashes, hm) := foldl (remove_vnode name) ([], hashMap r) (sortedHashes r) in
    Some (MkRing (vnodes r) newHashes hm (members r ∖ {[name]})).

(** ** sort.Search *)

Fixpoint search_loop (fuel : nat) (f : nat -> bool) (i j : nat) : nat :=
  match fuel with
  | O => i
  | S fuel' =>
      if (i <? j)%nat then
        let h := Nat.div2 (i + j) in
        if negb (f h) then search_loop fuel' f (S h) j
        else search_loop fuel' f i h
      else i
  end.

(** The interval shrinks at every iteration: [n] is enough fuel
    ([search_least] in RingProofs). *)
Definition Search (n : nat) (f : nat -> bool) : nat := search_loop n f 0 n.

(** The index GetNode and GetNodes start from: the first hash at or after [h],
    or 0 past the end. *)
Definition ringIndex (r : Ring) (h : Z) : nat :=
  let hs := sortedHashes r in
  let idx := Search (length hs) (fun i => match hs !! i with Some x => x >=? h | None => false end) in
  if (length hs <=? idx)%nat then 0%nat else idx.

(** [r.hashMap\[r.sortedHashes\[pos\]\]], for a position within the slice. *)
Definition nodeAtPos (r : Ring) (pos : nat) : string :=
  match sortedHashes r !! pos with
  | Some h => nodeAt (hashMap r) h
  | None => ""
  end.

Definition GetNode (key : string) (r : Ring) : string :=
  if (length (sortedHashes r) =? 0)%nat then ""
  else nodeAtPos r (ringIndex r (hashKey key)).

(** The loop of GetNodes; [fuel] counts down from the number of hashes as [i]
    counts up. *)
Fixpoint walk (r : Ring) (idx : nat) (n : Z) (fuel i : nat) (seen : gset string)
    (result : list string) : list string :=
  match fuel with
  | O => result
  | S fuel' =>
      if Z.of_nat (length result) <? n then
        let pos := ((idx + i) mod length (sortedHashes r))%nat in
        let name := nodeAtPos r pos in
        if negb (bool_decide (name ∈ seen))
        then walk r idx n fuel' (S i) (seen ∪ {[name]}) (result ++ [name])
        else walk r idx n fuel' (S i) seen result
      else result
  end.

(** [None]: the make of a slice with a negative capacity panics. *)
Definition GetNodes (key : string) (n : Z) (r : Ring) : option (list string) :=
  if (length (sortedHashes r) =? 0)%nat then Some []
  else
    let memberCount := Z.of_nat (size (members r)) in
    let n := if n >? memberCount then memberCount else n in
    let idx := ringIndex r (hashKey key) in
    if n <? 0 then None
    else Some (walk r idx n (length (sortedHashes r)) 0 ∅ []).

(** [order] is the order in which Go iterates the map. *)
Definition Members (order : gset string -> list string) (r : Ring) : list string :=
  order (members r).

Definition IsEmpty (r : Ring) : bool := (size (members r) =? 0)%nat.

Definition HasNode (name : string) (r : Ring) : bool := bool_decide (name ∈ members r).
