(* ===== verification/RingProofs.v ===== *)
(** The properties of the consistent hash ring. *)
From stdpp Require Import sorting pretty.
From S2P Require Import Prelude GoLib HashRing.

(** ** sort.Search *)

(** The loop invariant: everything below [i] fails, everything from [j] on
    holds. *)
Lemma search_loop_least fuel f i j n :
  (j - i <= fuel)%nat -> (i <= j <= n)%nat ->
  (forall a b, (a <= b)%nat -> (b < n)%nat -> f a = true -> f b = true) ->
  (forall a, (a < i)%nat -> f a = false) -> (forall a, (j <= a < n)%nat -> f a = true) ->
  let k := search_loop fuel f i j in
  (k <= n)%nat /\ (forall a, (a < k)%nat -> f a = false) /\ (forall a, (k <= a < n)%nat -> f a = true).
Proof.
  revert i j. induction fuel as [|fuel IH]; intros i j Hf Hij Hmono Hlo Hhi; simpl.
  { assert (i = j) by lia. subst. split_and!; auto; lia. }
  destruct (Nat.ltb_spec i j) as [Hlt|Hge].
  2: { assert (i = j) by lia. subst. split_and!; auto; lia. }
  pose proof (Nat.div2_div (i + j)) as Hd.
  assert (i <= Nat.div2 (i + j) < j)%nat as Hh.
  { rewrite Hd. split; [apply Nat.div_le_lower_bound; lia|apply Nat.Div0.div_lt_upper_bound; lia]. }
  destruct (f (Nat.div2 (i + j))) eqn:E; simpl.
  - apply IH; [lia|lia|done|done|]. intros a Ha.
    destruct (decide (j <= a)%nat); [apply Hhi; lia|]. eapply Hmono; [|lia|exact E]. lia.
  - apply IH; [lia|lia|done| |done]. intros a Ha. destruct (f a) eqn:Ea; [|done].
    rewrite (Hmono a (Nat.div2 (i + j))) in E; [done|lia|lia|done].
Qed.

(** On a monotone predicate Search returns the least index where it holds. *)
Lemma search_least n f :
  (forall a b, (a <= b)%nat -> (b < n)%nat -> f a = true -> f b = true) ->
  (Search n f <= n)%nat /\ (forall a, (a < Search n f)%nat -> f a = false)
  /\ (forall a, (Search n f <= a < n)%nat -> f a = true).
Proof. intros Hm. apply search_loop_least; [lia|lia|done|lia|lia]. Qed.

(** ** The clockwise successor *)

(** [x] is the first hash of [hs] at or after [h], or the first of all. *)
Definition succeeds (hs : list Z) (h x : Z) : Prop :=
  x ∈ hs
  /\ ((h <= x /\ forall y, y ∈ hs -> h <= y -> x <= y)
      \/ ((forall y, y ∈ hs -> y < h) /\ forall y, y ∈ hs -> x <= y)).

Lemma succeeds_unique hs h x y : succeeds hs h x -> succeeds hs h y -> x = y.
Proof.
  intros [Hx [[Hx1 Hx2]|[Hx1 Hx2]]] [Hy [[Hy1 Hy2]|[Hy1 Hy2]]].
  - specialize (Hx2 y Hy Hy1). specialize (Hy2 x Hx Hx1). lia.
  - specialize (Hy1 x Hx). lia.
  - specialize (Hx1 y Hy). lia.
  - specialize (Hx2 y Hy). specialize (Hy2 x Hx). lia.
Qed.

(** Removing other hashes does not change the successor. *)
Lemma succeeds_sub hs hs' h x :
  (forall y, y ∈ hs' -> y ∈ hs) -> x ∈ hs' -> succeeds hs h x -> succeeds hs' h x.
Proof. intros Hs Hx [_ [[H1 H2]|[H1 H2]]]; split; try done; [left|right]; split; auto. Qed.

Definition ordered (hs : list Z) : Prop := StronglySorted Z.le hs.

Lemma ordered_lookup hs i j x y : ordered hs -> (i <= j)%nat ->
  hs !! i = Some x -> hs !! j = Some y -> x <= y.
Proof.
  intros Ho. revert i j. induction Ho as [|z hs Ho IH Hz]; intros i j Hij Hi Hj; [done|].
  destruct i as [|i], j as [|j]; simpl in *; simplify_eq; [lia| |lia|].
  - rewrite Forall_forall in Hz. apply Hz. by eapply list_elem_of_lookup_2.
  - apply (IH i j); auto. lia.
Qed.

Lemma ordered_merge_sort l : ordered (merge_sort Z.le l).
Proof. apply StronglySorted_merge_sort; apply _. Qed.
#[export] Hint Resolve ordered_merge_sort : cgwf.

(** The index both lookups start from is the position of the successor. *)
Lemma ringIndex_succeeds r h : ordered (sortedHashes r) -> sortedHashes r ≠ [] ->
  exists x, sortedHashes r !! ringIndex r h = Some x /\ succeeds (sortedHashes r) h x.
Proof.
  intros Ho Hne. unfold ringIndex. set (hs := sortedHashes r) in *.
  set (f := fun i => match hs !! i with Some x => x >=? h | None => false end).
  assert (Hlen : (0 < length hs)%nat) by (destruct hs; simpl; [done|lia]).
  destruct (search_least (length hs) f) as (Hk & Hlo & Hhi).
  { intros a b Hab Hb. unfold f.
    destruct (lookup_lt_is_Some_2 hs b Hb) as [y Hy]. rewrite Hy.
    destruct (hs !! a) as [x|] eqn:Hx; [|done].
    pose proof (ordered_lookup hs a b x y Ho Hab Hx Hy). rewrite !Z.geb_leb, !Z.leb_le. lia. }
  fold f. set (k := Search (length hs) f) in *.
  assert (Hbelow : forall i y, hs !! i = Some y -> (i < k)%nat -> y < h).
  { intros i y Hi Hik. specialize (Hlo i Hik). unfold f in Hlo. rewrite Hi in Hlo.
    rewrite Z.geb_leb in Hlo. by apply Z.leb_gt in Hlo. }
  destruct (Nat.leb_spec (length hs) k) as [Hge|Hlt].
  - destruct (lookup_lt_is_Some_2 hs 0 Hlen) as [x Hx]. exists x. split; [done|].
    split; [by eapply list_elem_of_lookup_2|]. right. split.
    + intros y [i Hi]%list_elem_of_lookup. apply (Hbelow i y Hi).
      apply lookup_lt_Some in Hi. lia.
    + intros y [i Hi]%list_elem_of_lookup. eapply ordered_lookup; [done| |done|done]. lia.
  - destruct (lookup_lt_is_Some_2 hs k Hlt) as [x Hx]. exists x. split; [done|].
    split; [by eapply list_elem_of_lookup_2|]. left. split.
    + specialize (Hhi k ltac:(lia)). unfold f in Hhi. rewrite Hx, Z.geb_leb in Hhi.
      by apply Z.leb_le.
    + intros y [i Hi]%list_elem_of_lookup Hy. eapply ordered_lookup; [done| |done|done].
      destruct (decide (k <= i)%nat); [done|]. specialize (Hbelow i y Hi). lia.
Qed.

Lemma GetNode_succeeds key r : ordered (sortedHashes r) -> sortedHashes r ≠ [] ->
  exists x, succeeds (sortedHashes r) (hashKey key) x /\ GetNode key r = nodeAt (hashMap r) x.
Proof.
  intros Ho Hne. destruct (ringIndex_succeeds r (hashKey key) Ho Hne) as (x & Hx & Hs).
  exists x. split; [done|]. unfold GetNode, nodeAtPos. rewrite Hx.
  by destruct (sortedHashes r).
Qed.

(** ** The loops of AddNode and RemoveNode *)

(** The hashes of a node's virtual nodes. *)
Definition vhashes (n : Z) (name : string) : list Z :=
  (fun i => hashKey (vnodeName name i)) <$> seqZ 0 n.

Lemma add_loop name hs hm is_ :
  foldl (add_vnode name) (hs, hm) is_
  = (hs ++ ((fun i => hashKey (vnodeName name i)) <$> is_),
     foldl (fun m i => <[hashKey (vnodeName name i) := name]> m) hm is_).
Proof.
  revert hs hm. induction is_ as [|i is_ IH]; intros hs hm; simpl; [by rewrite app_nil_r|].
  rewrite IH. by rewrite <- app_assoc.
Qed.

Lemma add_loop_lookup name (hm : gmap Z string) is_ h :
  foldl (fun m i => <[hashKey (vnodeName name i) := name]> m) hm is_ !! h
  = if decide (h ∈ (fun i => hashKey (vnodeName name i)) <$> is_) then Some name else hm !! h.
Proof.
  revert hm. induction is_ as [|i is_ IH]; intros hm; simpl; [done|].
  rewrite IH. destruct (decide (h = hashKey (vnodeName name i))) as [->|Hne].
  - rewrite lookup_insert_eq. repeat case_decide; set_solver.
  - rewrite lookup_insert_ne by done. repeat case_decide; set_solver.
Qed.

Lemma AddNode_new name r : name ∉ members r ->
  vnodes (AddNode name r) = vnodes r
  /\ sortedHashes (AddNode name r) = merge_sort Z.le (sortedHashes r ++ vhashes (vnodes r) name)
  /\ (forall h, hashMap (AddNode name r) !! h
        = if decide (h ∈ vhashes (vnodes r) name) then Some name else hashMap r !! h)
  /\ members (AddNode name r) = members r ∪ {[name]}.
Proof.
  intros Hn. unfold AddNode. rewrite bool_decide_false by done.
  rewrite add_loop. simpl. split_and!; try done. intros h. apply add_loop_lookup.
Qed.

(** Removal without repeated hashes: both results are filters. *)
Lemma remove_loop name acc hm hs : NoDup hs ->
  foldl (remove_vnode name) (acc, hm) hs
  = (acc ++ filter (fun h => nodeAt hm h ≠ name) hs,
     foldl (fun m h => if decide (nodeAt hm h = name) then delete h m else m) hm hs).
Proof.
  assert (Hgen : forall hs acc m, NoDup hs -> (forall h, h ∈ hs -> m !! h = hm !! h) ->
    foldl (remove_vnode name) (acc, m) hs
    = (acc ++ filter (fun h => nodeAt hm h ≠ name) hs,
       foldl (fun m h => if decide (nodeAt hm h = name) then delete h m else m) m hs)).
  { clear. intros hs. induction hs as [|h hs IH]; intros acc m Hd Hm; simpl.
    { by rewrite app_nil_r. }
    apply NoDup_cons in Hd as [Hh Hd]. rewrite filter_cons.
    assert (Hnode : nodeAt m h = nodeAt hm h) by (unfold nodeAt; by rewrite (Hm h) by set_solver).
    rewrite Hnode. destruct (String.eqb_spec (nodeAt hm h) name) as [He|He]; simpl.
    - rewrite IH; [|done|].
      + rewrite (decide_True (P := nodeAt hm h = name)) by done. by rewrite decide_False by naive_solver.
      + intros h' Hin. rewrite lookup_delete_ne by set_solver. apply Hm. by constructor.
    - rewrite IH; [|done|].
      + rewrite (decide_False (P := nodeAt hm h = name)) by done. rewrite <- app_assoc.
        by destruct (decide (nodeAt hm h ≠ name)).
      + intros h' Hin. apply Hm. by constructor. }
  intros Hd. by apply Hgen.
Qed.

Lemma remove_loop_lookup name (hm0 hm : gmap Z string) hs h :
  foldl (fun m h => if decide (nodeAt hm0 h = name) then delete h m else m) hm hs !! h
  = if decide (h ∈ hs /\ nodeAt hm0 h = name) then None else hm !! h.
Proof.
  revert hm. induction hs as [|x hs IH]; intros hm; cbn [foldl].
  { case_decide; [set_solver|done]. }
  rewrite IH. destruct (decide (x = h)) as [->|Hne].
  - repeat case_decide; rewrite ?lookup_delete_eq; try done; set_solver.
  - destruct (decide (nodeAt hm0 x = name)); rewrite ?lookup_delete_ne by done;
      repeat case_decide; try done; set_solver.
Qed.

(** ** The invariant of a ring without hash collisions *)

Record RingOk (r : Ring) : Prop := {
  ring_vnodes : 0 < vnodes r;
  ring_ordered : ordered (sortedHashes r);
  ring_nodup : NoDup (sortedHashes r);
  ring_dom : forall h, h ∈ sortedHashes r <-> is_Some (hashMap r !! h);
  ring_own : forall h n, hashMap r !! h = Some n <-> n ∈ members r /\ h ∈ vhashes (vnodes r) n;
  ring_vnodup : forall n, n ∈ members r -> NoDup (vhashes (vnodes r) n);
}.

(** The hashes of a new node are distinct, and not on the ring yet. *)
Definition collision_free (name : string) (r : Ring) : Prop :=
  NoDup (vhashes (vnodes r) name) /\ Forall (fun h => h ∉ sortedHashes r) (vhashes (vnodes r) name).

#[export] Instance collision_free_dec name r : Decision (collision_free name r).
Proof. unfold collision_free. apply _. Defined.

Lemma NewRing_ok n : RingOk (NewRing n).
Proof.
  unfold NewRing. split; simpl.
  - destruct (Z.leb_spec n 0); [done|lia].
  - constructor.
  - constructor.
  - intros h. rewrite lookup_empty. split; [set_solver|by intros [? ?]].
  - intros h m. rewrite lookup_empty. set_solver.
  - set_solver.
Qed.

Lemma AddNode_hashes name r : name ∉ members r ->
  sortedHashes (AddNode name r) ≡ₚ sortedHashes r ++ vhashes (vnodes r) name.
Proof. intros (_ & -> & _)%AddNode_new. apply merge_sort_Permutation. Qed.

Lemma AddNode_ok name r :
  RingOk r -> name ∉ members r -> collision_free name r -> RingOk (AddNode name r).
Proof.
  intros [Hv Ho Hd Hdom Hown Hvn] Hn [Hnd Hfree]. rewrite Forall_forall in Hfree.
  pose proof (AddNode_hashes name r Hn) as Hp.
  destruct (AddNode_new name r Hn) as (Hv' & Hs' & Hm' & Hmem').
  split.
  - by rewrite Hv'.
  - rewrite Hs'. auto with cgwf.
  - rewrite Hp, NoDup_app. split_and!; [done| |done]. intros h H1 H2. by apply (Hfree h).
  - intros h. rewrite Hp, elem_of_app, Hm'. case_decide; [naive_solver|].
    rewrite Hdom. naive_solver.
  - intros h n. rewrite Hm', Hv', Hmem'. case_decide as Hh.
    + split; [intros [= <-]; set_solver|]. intros [[Hin|Hin]%elem_of_union Hh'].
      * destruct (Hfree h Hh). apply Hdom. exists n. by apply Hown.
      * by apply elem_of_singleton in Hin as ->.
    + rewrite Hown. split; [set_solver|]. intros [[Hin|Hin]%elem_of_union Hh']; [done|].
      apply elem_of_singleton in Hin as ->. done.
  - intros n. rewrite Hv', Hmem'. intros [Hin|Hin]%elem_of_union; [auto|].
    by apply elem_of_singleton in Hin as ->.
Qed.

(** On a hash of the ring, [nodeAt] is the owner. *)
Lemma nodeAt_owner r h : RingOk r -> h ∈ sortedHashes r ->
  hashMap r !! h = Some (nodeAt (hashMap r) h).
Proof. intros Hok Hh. apply Hok in Hh as [n Hn]. unfold nodeAt. by rewrite Hn. Qed.

Lemma vhashes_on_ring r n h : RingOk r -> n ∈ members r -> h ∈ vhashes (vnodes r) n ->
  h ∈ sortedHashes r /\ nodeAt (hashMap r) h = n.
Proof.
  intros Hok Hn Hh. assert (hashMap r !! h = Some n) as E by (by apply Hok).
  split; [apply Hok; by exists n|]. unfold nodeAt. by rewrite E.
Qed.

Lemma length_vhashes n name : 0 < n -> Z.of_nat (length (vhashes n name)) = n.
Proof. intros. unfold vhashes. rewrite length_fmap, length_seqZ. lia. Qed.

Lemma ring_length r n : RingOk r -> n ∈ members r ->
  vnodes r <= Z.of_nat (length (sortedHashes r)).
Proof.
  intros Hok Hn. rewrite <- (length_vhashes (vnodes r) n) by apply Hok.
  apply inj_le, submseteq_length, NoDup_submseteq; [by apply Hok|].
  intros h Hh. by apply (vhashes_on_ring r n h).
Qed.

Lemma ordered_filter (P : Z -> Prop) `{!forall x, Decision (P x)} hs :
  ordered hs -> ordered (filter P hs).
Proof.
  unfold ordered. induction 1 as [|x hs Hs IH Hx]; [constructor|].
  rewrite filter_cons. case_decide; [|done]. constructor; [done|].
  rewrite Forall_forall in *. intros y [_ Hy]%list_elem_of_filter. auto.
Qed.

(** RemoveNode does not panic, and leaves the other nodes' hashes. *)
Lemma RemoveNode_spec name r : RingOk r -> name ∈ members r ->
  exists r', RemoveNode name r = Some r' /\ vnodes r' = vnodes r
    /\ sortedHashes r' = filter (fun h => nodeAt (hashMap r) h ≠ name) (sortedHashes r)
    /\ (forall h, hashMap r' !! h
          = if decide (h ∈ sortedHashes r /\ nodeAt (hashMap r) h = name)
            then None else hashMap r !! h)
    /\ members r' = members r ∖ {[name]}.
Proof.
  intros Hok Hn. unfold RemoveNode. rewrite bool_decide_true by done. simpl.
  pose proof (ring_length r name Hok Hn).
  destruct (Z.ltb_spec (Z.of_nat (length (sortedHashes r)) - vnodes r) 0); [lia|].
  rewrite remove_loop by apply Hok. eexists. split; [reflexivity|]. simpl.
  split_and!; try done. intros h. apply remove_loop_lookup.
Qed.

Lemma RemoveNode_ok name r : RingOk r -> name ∈ members r ->
  exists r', RemoveNode name r = Some r' /\ RingOk r'.
Proof.
  intros Hok Hn. destruct (RemoveNode_spec name r Hok Hn) as (r' & -> & Hv & Hs & Hm & Hmem).
  exists r'. split; [done|]. pose proof (nodeAt_owner r) as Hat.
  split; rewrite ?Hv, ?Hs.
  - apply Hok.
  - by apply ordered_filter, Hok.
  - apply NoDup_filter, Hok.
  - intros h. rewrite list_elem_of_filter, Hm. case_decide as Hc.
    + split; [tauto|by intros [? ?]].
    + rewrite (ring_dom r Hok). split; [tauto|]. intros Hh. split; [|done].
      intros He. apply Hc. split; [|done]. by apply Hok.
  - intros h n. rewrite Hm, Hmem, elem_of_difference, elem_of_singleton. case_decide as Hc.
    + destruct Hc as [Hin He]. split; [done|]. intros [[Hn1 Hn2] Hh].
      destruct (vhashes_on_ring r n h Hok Hn1 Hh) as [_ He']. congruence.
    + rewrite (ring_own r Hok). split; [|tauto]. intros [Hn1 Hh]. split; [|done].
      split; [done|]. intros ->. apply Hc. by apply vhashes_on_ring.
  - intros n. rewrite Hmem. intros [Hn1 _]%elem_of_difference. by apply Hok.
Qed.

(** The rings a cluster builds from membership events. *)
Inductive ring_reachable : Ring -> Prop :=
  | ring_new n : ring_reachable (NewRing n)
  | ring_add name r : ring_reachable r -> collision_free name r -> ring_reachable (AddNode name r)
  | ring_remove name r r' : ring_reachable r -> RemoveNode name r = Some r' -> ring_reachable r'.

Lemma AddNode_old name r : name ∈ members r -> AddNode name r = r.
Proof. intros Hn. unfold AddNode. by rewrite bool_decide_true. Qed.

Lemma RemoveNode_old name r : name ∉ members r -> RemoveNode name r = Some r.
Proof. intros Hn. unfold RemoveNode. by rewrite bool_decide_false. Qed.

Lemma ring_reachable_RingOk r : ring_reachable r -> RingOk r.
Proof.
  induction 1 as [n|name r _ IH Hc|name r r' _ IH Hr].
  - apply NewRing_ok.
  - destruct (decide (name ∈ members r)); [by rewrite AddNode_old|by apply AddNode_ok].
  - destruct (decide (name ∈ members r)) as [Hn|Hn].
    + destruct (RemoveNode_ok name r IH Hn) as (r'' & Hr' & Hok). congruence.
    + rewrite RemoveNode_old in Hr by done. congruence.
Qed.

(** A ring with members has hashes. *)
Lemma ring_nonempty r n : RingOk r -> n ∈ members r -> sortedHashes r ≠ [].
Proof.
  intros Hok Hn He. pose proof (ring_length r n Hok Hn). pose proof (ring_vnodes r Hok).
  rewrite He in *. simpl in *. lia.
Qed.

(** The owner of a key is the member whose virtual node is the successor. *)
Lemma GetNode_owner key r : RingOk r -> sortedHashes r ≠ [] ->
  exists x, succeeds (sortedHashes r) (hashKey key) x
    /\ hashMap r !! x = Some (GetNode key r).
Proof.
  intros Hok Hne. destruct (GetNode_succeeds key r) as (x & Hs & ->); [apply Hok|done|].
  exists x. split; [done|]. apply nodeAt_owner; [done|]. apply Hs.
Qed.

Lemma GetNode_eq key r x n : RingOk r ->
  succeeds (sortedHashes r) (hashKey key) x -> hashMap r !! x = Some n -> GetNode key r = n.
Proof.
  intros Hok Hs Hx. destruct (GetNode_owner key r Hok) as (y & Hy & Hn).
  { destruct Hs as [Hin _]. intros He. rewrite He in Hin. by apply not_elem_of_nil in Hin. }
  rewrite (succeeds_unique _ _ _ _ Hs Hy) in Hx. congruence.
Qed.
