(* ===== verification/RingTheorems.v ===== *)
(** Ownership, minimal disruption and replica selection on the hash ring. *)
From stdpp Require Import sorting pretty.
From S2P Require Import Prelude GoLib HashRing RingProofs.

(** ** GetNodes *)

(** The loop of GetNodes on the list of names it meets. *)
Fixpoint pick (n : Z) (names : list string) (seen : gset string) (result : list string)
  : list string :=
  match names with
  | [] => result
  | name :: names' =>
      if Z.of_nat (length result) <? n then
        if negb (bool_decide (name ∈ seen))
        then pick n names' (seen ∪ {[name]}) (result ++ [name])
        else pick n names' seen result
      else result
  end.

(** The names clockwise from position [idx]. *)
Definition clockwise (r : Ring) (idx : nat) (is_ : list nat) : list string :=
  (fun i => nodeAtPos r ((idx + i) mod length (sortedHashes r))%nat) <$> is_.

Lemma walk_pick r idx n fuel i seen result :
  walk r idx n fuel i seen result = pick n (clockwise r idx (seq i fuel)) seen result.
Proof.
  revert i seen result. induction fuel as [|fuel IH]; intros i seen result; simpl; [done|].
  by rewrite !IH.
Qed.

Lemma pick_spec n names seen result :
  NoDup result -> (forall x, x ∈ seen <-> x ∈ result) ->
  Z.of_nat (length result) <= n ->
  let res := pick n names seen result in
  NoDup res /\ result `prefix_of` res /\ (forall x, x ∈ res -> x ∈ result \/ x ∈ names)
  /\ Z.of_nat (length res) <= n
  /\ (Z.of_nat (length res) = n \/ forall x, x ∈ names -> x ∈ res).
Proof.
  revert seen result. induction names as [|y names IH]; intros seen result Hd Hs Hn; simpl.
  { split_and!; try done; [by left|right; set_solver]. }
  destruct (Z.ltb_spec (Z.of_nat (length result)) n) as [Hlt|Hge].
  2: { split_and!; try done; [by left|left; lia]. }
  case_bool_decide as Hy; simpl.
  - destruct (IH seen result Hd Hs Hn) as (H1 & H2 & H3 & H4 & H5).
    split_and!; try done; [set_solver|]. destruct H5 as [?|H5]; [by left|right].
    intros x [->|Hx]%elem_of_cons; [|auto]. apply Hs in Hy. destruct H2 as [l ->]. set_solver.
  - destruct (IH (seen ∪ {[y]}) (result ++ [y])) as (H1 & H2 & H3 & H4 & H5).
    + apply NoDup_app. split_and!; [done|set_solver|apply NoDup_singleton].
    + set_solver.
    + rewrite length_app. simpl. lia.
    + split_and!; try done.
      * etransitivity; [|exact H2]. by apply prefix_app_r.
      * set_solver.
      * destruct H5 as [?|H5]; [by left|right].
        intros x [->|Hx]%elem_of_cons; [|auto]. destruct H2 as [l ->]. set_solver.
Qed.

Lemma pick_head n y names : 0 < n ->
  exists rest, pick n (y :: names) ∅ [] = y :: rest.
Proof.
  intros Hn. cbn [pick length app]. rewrite (proj2 (Z.ltb_lt (Z.of_nat 0) n)) by lia.
  rewrite bool_decide_false by set_solver. cbn [negb].
  destruct (pick_spec n names ({[y]}) [y]) as (_ & [rest Hr] & _).
  - apply NoDup_singleton.
  - set_solver.
  - simpl. lia.
  - exists rest. rewrite union_empty_l_L. exact Hr.
Qed.

(** A walk over the whole ring meets every position. *)
Lemma clockwise_elem r idx x : sortedHashes r ≠ [] -> (idx < length (sortedHashes r))%nat ->
  x ∈ clockwise r idx (seq 0 (length (sortedHashes r)))
  <-> exists pos, (pos < length (sortedHashes r))%nat /\ x = nodeAtPos r pos.
Proof.
  intros Hne Hidx. set (len := length (sortedHashes r)) in *.
  unfold clockwise. rewrite list_elem_of_fmap. fold len. split.
  - intros (i & -> & Hi). eexists. split; [|done]. apply Nat.mod_upper_bound. lia.
  - intros (pos & Hpos & ->). exists ((pos + len - idx) mod len)%nat. split.
    + f_equal. rewrite Nat.Div0.add_mod_idemp_r.
      replace (idx + (pos + len - idx))%nat with (pos + 1 * len)%nat by lia.
      rewrite Nat.Div0.mod_add. by rewrite Nat.mod_small.
    + apply elem_of_seq. split; [lia|]. apply Nat.mod_upper_bound. lia.
Qed.

Lemma clockwise_head r idx : (idx < length (sortedHashes r))%nat ->
  exists tl, clockwise r idx (seq 0 (length (sortedHashes r))) = nodeAtPos r idx :: tl.
Proof.
  intros Hidx. unfold clockwise. set (len := length (sortedHashes r)) in *.
  exists ((fun i => nodeAtPos r ((idx + i) mod len)%nat) <$> seq 1 (len - 1)).
  replace (seq 0 len) with (0%nat :: seq 1 (len - 1)) by (destruct len; [lia|simpl; f_equal; f_equal; lia]).
  rewrite fmap_cons, Nat.add_0_r, Nat.mod_small by done. done.
Qed.

Lemma nodeAtPos_member r pos : RingOk r -> (pos < length (sortedHashes r))%nat ->
  nodeAtPos r pos ∈ members r.
Proof.
  intros Hok Hpos. destruct (lookup_lt_is_Some_2 _ _ Hpos) as [h Hh].
  unfold nodeAtPos. rewrite Hh. apply list_elem_of_lookup_2 in Hh.
  apply (nodeAt_owner r h Hok) in Hh. apply (ring_own r Hok) in Hh. tauto.
Qed.

Lemma member_has_pos r n : RingOk r -> n ∈ members r ->
  exists pos, (pos < length (sortedHashes r))%nat /\ n = nodeAtPos r pos.
Proof.
  intros Hok Hn. pose proof (ring_vnodes r Hok) as Hv.
  destruct (vhashes (vnodes r) n) as [|h hs] eqn:E.
  { pose proof (length_vhashes (vnodes r) n Hv) as Hl. rewrite E in Hl. simpl in Hl. lia. }
  destruct (vhashes_on_ring r n h Hok Hn) as [Hin He]; [rewrite E; by constructor|].
  apply list_elem_of_lookup in Hin as [pos Hpos]. exists pos.
  split; [by eapply lookup_lt_Some|]. unfold nodeAtPos. by rewrite Hpos.
Qed.

Lemma ringIndex_lt r h : RingOk r -> sortedHashes r ≠ [] ->
  (ringIndex r h < length (sortedHashes r))%nat.
Proof.
  intros Hok Hne. destruct (ringIndex_succeeds r h) as (x & Hx & _); [apply Hok|done|].
  by eapply lookup_lt_Some.
Qed.

(** ** Properties *)

(** C17: lookup is total and correct on every ring built from membership events
    without hash collisions: with a member on the ring, GetNode returns a member,
    namely the one with a virtual node at the clockwise successor of the key's
    hash (the first hash at or after it, wrapping around to the smallest); the
    binary search finds it. *)
Theorem ring_owner_is_successor r key n :
  ring_reachable r -> n ∈ members r ->
  GetNode key r ∈ members r
  /\ exists x, succeeds (sortedHashes r) (hashKey key) x
       /\ x ∈ vhashes (vnodes r) (GetNode key r)
       /\ forall y, succeeds (sortedHashes r) (hashKey key) y -> y = x.
Proof.
  intros Hok%ring_reachable_RingOk Hn.
  destruct (GetNode_owner key r Hok (ring_nonempty r n Hok Hn)) as (x & Hs & Hx).
  apply (ring_own r Hok) in Hx as [Hm Hh]. split; [done|]. exists x.
  split_and!; [done|done|]. intros y Hy. by eapply succeeds_unique.
Qed.

(** C19: adding a node moves keys only to that node. On a ring with a member, built by
    joins and leaves without hash collisions, a node whose virtual nodes hash to
    values of their own is added: every key it does not take over keeps its
    owner. *)
Theorem ring_add_minimal r name key n :
  ring_reachable r -> collision_free name r -> n ∈ members r ->
  GetNode key (AddNode name r) = name \/ GetNode key (AddNode name r) = GetNode key r.
Proof.
  intros Hok%ring_reachable_RingOk Hc Hn.
  destruct (decide (name ∈ members r)) as [Hin|Hin]; [right; by rewrite AddNode_old|].
  pose proof (AddNode_ok name r Hok Hin Hc) as Hok'.
  pose proof (AddNode_hashes name r Hin) as Hp.
  destruct (AddNode_new name r Hin) as (Hv & _ & Hm & Hmem).
  destruct (GetNode_owner key (AddNode name r) Hok') as (x & Hs & Hx).
  { eapply (ring_nonempty _ n Hok'). rewrite Hmem. set_solver. }
  rewrite Hm in Hx. case_decide as Hh; [left; congruence|right].
  symmetry. eapply GetNode_eq; [done| |exact Hx].
  eapply succeeds_sub; [| |exact Hs].
  - intros y Hy. rewrite Hp. set_solver.
  - destruct Hs as [Hs _]. rewrite Hp in Hs. set_solver.
Qed.

(** Removing a node never panics, and moves only the keys it owned: every
    other key keeps its owner. *)
Theorem ring_remove_minimal r name key :
  ring_reachable r ->
  exists r', RemoveNode name r = Some r' /\ (name ∉ members r')
    /\ (GetNode key r ≠ name -> GetNode key r' = GetNode key r).
Proof.
  intros Hok%ring_reachable_RingOk. destruct (decide (name ∈ members r)) as [Hn|Hn].
  2: { exists r. by rewrite RemoveNode_old. }
  destruct (RemoveNode_ok name r Hok Hn) as (r1 & Hr1 & Hok1).
  destruct (RemoveNode_spec name r Hok Hn) as (r' & Hr & Hv & Hs & Hm & Hmem).
  rewrite Hr in Hr1. injection Hr1 as <-.
  exists r'. split_and!; [done|rewrite Hmem; set_solver|]. intros Hne.
  destruct (GetNode_owner key r Hok (ring_nonempty r name Hok Hn)) as (x & Hsx & Hx).
  assert (Hat : nodeAt (hashMap r) x = GetNode key r) by (unfold nodeAt; by rewrite Hx).
  eapply GetNode_eq; [done| |].
  - rewrite Hs. eapply succeeds_sub; [| |exact Hsx].
    + intros y [_ Hy]%list_elem_of_filter. done.
    + apply list_elem_of_filter. split; [congruence|]. apply Hsx.
  - rewrite Hm, decide_False; [exact Hx|]. intros [_ He]. congruence.
Qed.

(** A node that joins and leaves again leaves no trace: hashes, owners and
    members are as before. *)
Theorem ring_join_leave_identity r name :
  ring_reachable r -> collision_free name r -> name ∉ members r ->
  RemoveNode name (AddNode name r) = Some r.
Proof.
  intros Hok%ring_reachable_RingOk Hc Hn.
  pose proof (AddNode_ok name r Hok Hn Hc) as Hok'.
  destruct (AddNode_new name r Hn) as (Hv & Hs & Hm & Hmem).
  pose proof (AddNode_hashes name r Hn) as Hp.
  destruct (RemoveNode_spec name (AddNode name r) Hok') as (r' & -> & Hv' & Hs' & Hm' & Hmem').
  { rewrite Hmem. set_solver. }
  destruct Hc as [_ Hfree]. rewrite Forall_forall in Hfree.
  assert (Hold : forall h, h ∈ sortedHashes r -> nodeAt (hashMap (AddNode name r)) h ≠ name).
  { intros h Hh. unfold nodeAt. rewrite Hm, decide_False by (intros Hv0; by apply (Hfree h)).
    apply Hok in Hh as [n E]. rewrite E. simpl. intros ->. apply Hok in E. tauto. }
  assert (Hnew : forall h, h ∈ vhashes (vnodes r) name -> nodeAt (hashMap (AddNode name r)) h = name).
  { intros h Hh. unfold nodeAt. by rewrite Hm, decide_True. }
  assert (Hin : forall h, h ∈ sortedHashes (AddNode name r)
    <-> h ∈ sortedHashes r \/ h ∈ vhashes (vnodes r) name).
  { intros h. by rewrite Hp, elem_of_app. }
  f_equal. destruct r as [v hs hm ms], r' as [v' hs' hm' ms']. simpl in *. f_equal.
  - congruence.
  - eapply (StronglySorted_unique Z.le); [|apply Hok|].
    + rewrite Hs'. by apply ordered_filter, Hok'.
    + rewrite Hs', Hp, filter_app.
      rewrite (list_filter_all _ hs) by done.
      rewrite (list_filter_none _ (vhashes v name)); [by rewrite app_nil_r|].
      intros h Hh Hneq. by apply Hneq, Hnew.
  - apply map_eq. intros h. rewrite Hm'. case_decide as Hc.
    + destruct Hc as [_ Hc]. destruct (hm !! h) as [n|] eqn:E; [|done].
      destruct (Hold h); [apply Hok; by exists n|done].
    + rewrite Hm. case_decide as Hh; [|done]. destruct Hc. rewrite Hin. auto.
  - rewrite Hmem', Hmem. set_solver.
Qed.

(** Replica selection. For n >= 0, GetNodes returns min(n, number of
    members) distinct members, the first of which is the owner GetNode gives. *)
Theorem ring_replicas r key n m :
  ring_reachable r -> m ∈ members r -> 0 <= n ->
  exists l, GetNodes key n r = Some l /\ NoDup l /\ (forall x, x ∈ l -> x ∈ members r)
    /\ Z.of_nat (length l) = Z.min n (Z.of_nat (size (members r)))
    /\ (0 < n -> head l = Some (GetNode key r)).
Proof.
  intros Hok%ring_reachable_RingOk Hmem Hn. pose proof (ring_nonempty r m Hok Hmem) as Hne.
  pose proof (ringIndex_lt r (hashKey key) Hok Hne) as Hidx.
  unfold GetNodes, GetNode. destruct (Nat.eqb_spec (length (sortedHashes r)) 0) as [Hz|_]; [lia|].
  set (cnt := Z.of_nat (size (members r))). set (idx := ringIndex r (hashKey key)) in *.
  assert (Hcnt : 0 < cnt).
  { unfold cnt. assert (size (members r) ≠ 0)%nat; [|lia]. intros E%size_empty_inv. set_solver. }
  set (k := if n >? cnt then cnt else n).
  assert (Hk : k = Z.min n cnt) by (unfold k; rewrite Z.gtb_ltb; destruct (Z.ltb_spec cnt n); lia).
  destruct (Z.ltb_spec k 0); [lia|]. eexists. split; [reflexivity|]. rewrite walk_pick.
  set (names := clockwise r idx _).
  destruct (pick_spec k names ∅ []) as (H1 & _ & H3 & H4 & H5); [constructor|set_solver|simpl; lia|].
  assert (Hin : forall x, x ∈ names <-> x ∈ members r).
  { intros x. unfold names. rewrite clockwise_elem by done. split.
    - intros (pos & Hpos & ->). by apply nodeAtPos_member.
    - intros Hx. by apply member_has_pos. }
  assert (Hsub : forall x, x ∈ pick k names ∅ [] -> x ∈ members r).
  { intros x [Hx|Hx]%H3; [by apply not_elem_of_nil in Hx|by apply Hin]. }
  split_and!; [done|done| |].
  - rewrite <- Hk. destruct H5 as [H5|H5]; [done|].
    assert (members r ⊆ list_to_set (pick k names ∅ [])) as Hs.
    { intros x Hx. apply elem_of_list_to_set, H5. by apply Hin. }
    apply subseteq_size in Hs. rewrite size_list_to_set in Hs by done. lia.
  - intros Hpos. destruct (clockwise_head r idx Hidx) as [tl Htl]. unfold names. rewrite Htl.
    destruct (pick_head k (nodeAtPos r idx) tl) as [rest ->]; [lia|done].
Qed.

(** A hash collision between virtual nodes breaks the ring: with the two
    nodes named here, which share a hash, removing the second leaves hashes
    without an owner, and a key that maps there is owned by no node (the empty
    name) although the first is still a member. *)
Theorem ring_collision_orphans_keys :
  exists r, RemoveNode "node-2622" (AddNode "node-2622" (AddNode "node-21" (NewRing 0))) = Some r
    /\ HasNode "node-21" r = true /\ GetNode "node-21-109" r = "".
Proof. eexists. split; [vm_compute; reflexivity|]. split; vm_compute; reflexivity. Qed.

(** ** Witnesses *)

Definition w_ring1 : Ring := AddNode "a" (NewRing 3).
Definition w_ring : Ring := AddNode "b" w_ring1.

Lemma w_ring1_reachable : ring_reachable w_ring1.
Proof. apply ring_add; [apply ring_new|]. by_decide. Qed.

Lemma w_ring_reachable : ring_reachable w_ring.
Proof. apply ring_add; [apply w_ring1_reachable|]. by_decide. Qed.

Lemma w_ring_member : "a" ∈ members w_ring.
Proof. by_decide. Qed.

Lemma ring_owner_is_successor_witness :
  GetNode "k" w_ring ∈ members w_ring.
Proof. by apply (ring_owner_is_successor w_ring "k" "a" w_ring_reachable w_ring_member). Defined.

Lemma ring_add_minimal_witness :
  GetNode "k" w_ring = "b" \/ GetNode "k" w_ring = GetNode "k" w_ring1.
Proof.
  apply (ring_add_minimal w_ring1 "b" "k" "a" w_ring1_reachable);
    by_decide.
Defined.

Lemma ring_remove_minimal_witness :
  exists r', RemoveNode "b" w_ring = Some r' /\ ("b" ∉ members r')
    /\ (GetNode "k" w_ring ≠ "b" -> GetNode "k" r' = GetNode "k" w_ring).
Proof. exact (ring_remove_minimal w_ring "b" "k" w_ring_reachable). Defined.

Lemma ring_join_leave_identity_witness : RemoveNode "b" w_ring = Some w_ring1.
Proof.
  apply (ring_join_leave_identity w_ring1 "b" w_ring1_reachable);
    by_decide.
Defined.

Lemma ring_replicas_witness :
  exists l, GetNodes "k" 2 w_ring = Some l /\ NoDup l /\ length l = 2%nat.
Proof.
  destruct (ring_replicas w_ring "k" 2 "a" w_ring_reachable w_ring_member)
    as (l & Hl & Hd & _ & Hn & _); [lia|]. exists l. split_and!; [exact Hl|exact Hd|].
  replace (Z.min 2 (Z.of_nat (size (members w_ring)))) with 2 in Hn by (vm_compute; reflexivity).
  lia.
Defined.
