(* ===== verification/Cluster.v ===== *)
(** internal/cluster/state.go and the topology events of member.go.

    Gossip is hashicorp/memberlist: it is not modelled; what it delivers, its
    calls of NotifyJoin, NotifyLeave and NotifyUpdate, are the steps here. *)
From stdpp Require Import sorting pretty.
From Stdlib Require Import Ascii.
From S2P Require Import Prelude GoLib HashRing RingProofs.

(** ** state.go *)

Inductive NodeStatus := NodeAlive | NodeSuspect | NodeDead | NodeLeft.

#[export] Instance NodeStatus_eq_dec : EqDecision NodeStatus.
Proof. solve_decision. Defined.

Definition NodeStatus_String (s : NodeStatus) : string :=
  match s with
  | NodeAlive => "alive"
  | NodeSuspect => "suspect"
  | NodeDead => "dead"
  | NodeLeft => "left"
  end.

Record NodeMeta := MkNodeMeta {
  mRPCPort : Z;
  mHTTPPort : Z;
  Version : string;
}.

Record NodeInfo := MkNodeInfo {
  Name : string;
  Addr : string;
  RPCAddr : string;
  HTTPAddr : string;
  Status : NodeStatus;
  JoinedAt : Time;
  Meta : NodeMeta;
}.

Record ClusterState := MkClusterState {
  nodes : gmap string NodeInfo;
  self : string;
}.

Definition NewClusterState (selfName : string) : ClusterState := MkClusterState ∅ selfName.

Definition State_AddNode (info : NodeInfo) (cs : ClusterState) : ClusterState :=
  MkClusterState (<[Name info := info]> (nodes cs)) (self cs).

Definition State_RemoveNode (name : string) (cs : ClusterState) : ClusterState :=
  MkClusterState (delete name (nodes cs)) (self cs).

Definition set_Status (status : NodeStatus) (n : NodeInfo) : NodeInfo :=
  MkNodeInfo (Name n) (Addr n) (RPCAddr n) (HTTPAddr n) status (JoinedAt n) (Meta n).

Definition UpdateStatus (name : string) (status : NodeStatus) (cs : ClusterState) : ClusterState :=
  match nodes cs !! name with
  | Some node => MkClusterState (<[name := set_Status status node]> (nodes cs)) (self cs)
  | None => cs
  end.

Definition State_GetNode (name : string) (cs : ClusterState) : option NodeInfo := nodes cs !! name.

(** [order] is the iteration order of the map. *)
Definition LiveNodes (order : list (string * NodeInfo)) : list NodeInfo :=
  filter (fun n => Status n = NodeAlive) order.*2.

Definition AllNodes (order : list (string * NodeInfo)) : list NodeInfo := order.*2.

Definition SelfName (cs : ClusterState) : string := self cs.

Definition NodeCount (cs : ClusterState) : Z := Z.of_nat (size (nodes cs)).

(** ** member.go *)

(** What memberlist reports of a node: its name, the text of its IP address, its
    gossip port and its metadata. *)
Record MlNode := MkMlNode {
  nName : string;
  nAddr : string;
  nPort : Z;
  nMeta : bytes;
}.

(** [net.JoinHostPort]: a host with a colon (an IPv6 address) is bracketed. *)
Fixpoint has_colon (s : string) : bool :=
  match s with
  | EmptyString => false
  | String c s' => Ascii.eqb c ":"%char || has_colon s'
  end.

Definition JoinHostPort (host port : string) : string :=
  (if has_colon host then "[" +:+ host +:+ "]:" +:+ port else host +:+ ":" +:+ port)%string.

Section Membership.
(** What [json.Unmarshal] of a node's metadata leaves in a zero NodeMeta. *)
Context (unmarshalMeta : bytes -> NodeMeta).

Definition zeroMeta : NodeMeta := MkNodeMeta 0 0 "".

Definition nodeToInfo (now : Time) (node : MlNode) : NodeInfo :=
  let meta := if lenb (nMeta node) >? 0 then unmarshalMeta (nMeta node) else zeroMeta in
  MkNodeInfo (nName node)
    (nAddr node +:+ ":" +:+ pretty (nPort node))
    (JoinHostPort (nAddr node) (pretty (mRPCPort meta)))
    (JoinHostPort (nAddr node) (pretty (mHTTPPort meta)))
    NodeAlive now meta.

(** The state a membership handler owns: the cluster state and the ring. *)
Definition Topology := (ClusterState * Ring)%type.

(** NewMembership adds the node itself to both. *)
Definition addSelf (info : NodeInfo) (t : Topology) : Topology :=
  (State_AddNode info t.1, AddNode (Name info) t.2).

Definition NotifyJoin (now : Time) (node : MlNode) (t : Topology) : Topology :=
  (State_AddNode (nodeToInfo now node) t.1, AddNode (nName node) t.2).

(** [None]: RemoveNode of the ring panics. *)
Definition NotifyLeave (node : MlNode) (t : Topology) : option Topology :=
  match RemoveNode (nName node) t.2 with
  | Some r => Some (UpdateStatus (nName node) NodeLeft t.1, r)
  | None => None
  end.

Definition NotifyUpdate (now : Time) (node : MlNode) (t : Topology) : Topology :=
  (State_AddNode (nodeToInfo now node) t.1, t.2).

(** The events of memberlist, and what they do, one after the other. *)
Inductive MemberEvent :=
  | EvJoin (now : Time) (node : MlNode)
  | EvLeave (node : MlNode)
  | EvUpdate (now : Time) (node : MlNode).

Definition notify (ev : MemberEvent) (t : Topology) : option Topology :=
  match ev with
  | EvJoin now node => Some (NotifyJoin now node t)
  | EvLeave node => NotifyLeave node t
  | EvUpdate now node => Some (NotifyUpdate now node t)
  end.

Fixpoint notifyAll (evs : list MemberEvent) (t : Topology) : option Topology :=
  match evs with
  | [] => Some t
  | ev :: evs' => match notify ev t with Some t' => notifyAll evs' t' | None => None end
  end.

(** The topology of a node that has started. *)
Definition startTopology (info : NodeInfo) (vn : Z) : Topology :=
  addSelf info (NewClusterState (Name info), NewRing vn).

(** ** What the events say of the members *)

(** Who has joined and not left, if [known] were there before. *)
Fixpoint joined (known : gset string) (evs : list MemberEvent) : gset string :=
  match evs with
  | [] => known
  | EvJoin _ node :: evs' => joined (known ∪ {[nName node]}) evs'
  | EvLeave node :: evs' => joined (known ∖ {[nName node]}) evs'
  | EvUpdate _ _ :: evs' => joined known evs'
  end.

(** Everybody that ever was a member. *)
Fixpoint everJoined (known : gset string) (evs : list MemberEvent) : gset string :=
  match evs with
  | [] => known
  | EvJoin _ node :: evs' => everJoined (known ∪ {[nName node]}) evs'
  | _ :: evs' => everJoined known evs'
  end.

(** memberlist reports the update of a node only while it is a member. *)
Fixpoint updatesKnown (known : gset string) (evs : list MemberEvent) : Prop :=
  match evs with
  | [] => True
  | EvJoin _ node :: evs' => updatesKnown (known ∪ {[nName node]}) evs'
  | EvLeave node :: evs' => updatesKnown (known ∖ {[nName node]}) evs'
  | EvUpdate _ node :: evs' => nName node ∈ known /\ updatesKnown known evs'
  end.

(** No two virtual nodes of these members have the same hash. *)
Definition NoCollisions (vn : Z) (names : gset string) : Prop :=
  set_Forall (fun n => NoDup (vhashes vn n)
    /\ set_Forall (fun n' => n' ≠ n -> Forall (fun h => h ∉ vhashes vn n') (vhashes vn n)) names) names.

#[export] Instance NoCollisions_dec vn names : Decision (NoCollisions vn names).
Proof. unfold NoCollisions. apply _. Defined.

(** ** Coherence of state and ring *)

Record TopologyOk (t : Topology) : Prop := {
  topo_ring : RingOk t.2;
  topo_alive : forall n, n ∈ members t.2 <->
    exists i, nodes t.1 !! n = Some i /\ Status i = NodeAlive;
  topo_name : forall n i, nodes t.1 !! n = Some i -> Name i = n;
}.

Lemma members_AddNode name r : members (AddNode name r) = members r ∪ {[name]}.
Proof.
  destruct (decide (name ∈ members r)) as [Hn|Hn].
  - rewrite AddNode_old by done. set_solver.
  - apply AddNode_new. done.
Qed.

Lemma vnodes_AddNode name r : vnodes (AddNode name r) = vnodes r.
Proof.
  destruct (decide (name ∈ members r)) as [Hn|Hn]; [by rewrite AddNode_old|].
  by apply AddNode_new.
Qed.

Lemma AddNode_RingOk name r : RingOk r -> collision_free name r -> RingOk (AddNode name r).
Proof.
  intros Hok Hc. destruct (decide (name ∈ members r)); [by rewrite AddNode_old|].
  by apply AddNode_ok.
Qed.

Lemma RemoveNode_members name r r' : RingOk r -> RemoveNode name r = Some r' ->
  RingOk r' /\ members r' = members r ∖ {[name]} /\ vnodes r' = vnodes r.
Proof.
  intros Hok Hr. destruct (decide (name ∈ members r)) as [Hn|Hn].
  - destruct (RemoveNode_ok name r Hok Hn) as (r1 & H1 & Hok1).
    destruct (RemoveNode_spec name r Hok Hn) as (r2 & H2 & Hv & _ & _ & Hm).
    split_and!; congruence.
  - rewrite RemoveNode_old in Hr by done. injection Hr as <-. split_and!; [done|set_solver|done].
Qed.

(** Storing an alive node under its name, on a ring that has it. *)
Lemma add_coherent t info r : TopologyOk t -> Status info = NodeAlive -> RingOk r ->
  members r = members t.2 ∪ {[Name info]} -> TopologyOk (State_AddNode info t.1, r).
Proof.
  intros [_ Ha Hn] Hs Hr Hm. split; simpl; [done| |].
  - intros n. rewrite Hm. destruct (decide (n = Name info)) as [->|Hne].
    + rewrite lookup_insert_eq. set_solver.
    + rewrite lookup_insert_ne by done. rewrite <- Ha. set_solver.
  - intros n i [[<- <-]|[_ H]]%lookup_insert_Some; auto.
Qed.

(** A name outside the ring meets none of its hashes. *)
Lemma NoCollisions_free vn names name r : RingOk r -> vnodes r = vn -> NoCollisions vn names ->
  members r ⊆ names -> name ∈ names -> name ∉ members r -> collision_free name r.
Proof.
  intros Hok Hv Hnc Hsub Hin Hout. destruct (Hnc name Hin) as [Hnd Hdis]. split; [by rewrite Hv|].
  rewrite Hv. apply Forall_forall. intros h Hh Hon. apply (ring_dom r Hok) in Hon as [n Hn].
  apply (ring_own r Hok) in Hn as [Hn Hhn]. rewrite Hv in Hhn. assert (n ≠ name) as Hne by (by intros ->).
  specialize (Hdis n (Hsub n Hn) Hne). rewrite Forall_forall in Hdis. by apply (Hdis h Hh).
Qed.

Lemma join_coherent now node t : TopologyOk t -> RingOk (AddNode (nName node) t.2) -> TopologyOk (NotifyJoin now node t).
Proof. intros Hok Hr. apply (add_coherent t (nodeToInfo now node)); [done|done|done|apply members_AddNode]. Qed.

Lemma update_coherent now node t : TopologyOk t -> nName node ∈ members t.2 -> TopologyOk (NotifyUpdate now node t).
Proof. intros Hok Hm. apply (add_coherent t (nodeToInfo now node)); [done|done|apply Hok|]. simpl. set_solver. Qed.

Lemma leave_coherent node t t' : TopologyOk t -> NotifyLeave node t = Some t' -> TopologyOk t'.
Proof.
  unfold NotifyLeave. intros Hok Hl. destruct (RemoveNode (nName node) t.2) as [r|] eqn:Er; [|done].
  injection Hl as <-. destruct Hok as [Hr Ha Hn].
  apply RemoveNode_members in Er as (Hr' & Hm & _); [|done].
  unfold UpdateStatus. destruct (nodes t.1 !! nName node) as [i|] eqn:Ei.
  + split; simpl; [done| |].
    * intros n. rewrite Hm. destruct (decide (n = nName node)) as [->|Hne].
      -- rewrite lookup_insert_eq. split; [set_solver|]. intros (j & [= <-] & Hs). done.
      -- rewrite lookup_insert_ne by done. rewrite <- Ha. set_solver.
    * intros n j [[<- <-]|[_ H]]%lookup_insert_Some; simpl; auto.
  + split; simpl; [done| |done]. intros n. rewrite Hm, <- Ha.
    split; [set_solver|]. intros Hin. apply elem_of_difference. split; [done|].
    intros ->%elem_of_singleton. apply Ha in Hin as (j & Hj & _). congruence.
Qed.

(** Leaving does not panic on a ring without collisions. *)
Lemma NotifyLeave_total node t : RingOk t.2 -> exists t', NotifyLeave node t = Some t'
  /\ RingOk t'.2 /\ members t'.2 = members t.2 ∖ {[nName node]} /\ vnodes t'.2 = vnodes t.2.
Proof.
  intros Hok. assert (exists r, RemoveNode (nName node) t.2 = Some r) as [r Hr].
  { destruct (decide (nName node ∈ members t.2)) as [Hin|Hin].
    - destruct (RemoveNode_ok _ _ Hok Hin) as (r & Hr & _). eauto.
    - exists t.2. by apply RemoveNode_old. }
  unfold NotifyLeave. rewrite Hr. eexists. split; [done|]. by apply RemoveNode_members.
Qed.

Lemma everJoined_known known evs : known ⊆ everJoined known evs.
Proof. revert known. induction evs as [|[|node|] evs IH]; intros known; cbn; [done| |apply IH|apply IH]. etrans; [|apply IH]. set_solver. Qed.

Lemma everJoined_mono known known' evs : known ⊆ known' -> everJoined known evs ⊆ everJoined known' evs.
Proof. revert known known'. induction evs as [|[|node|] evs IH]; intros known known' Hs; cbn; [done| |by apply IH..]. apply IH. set_solver. Qed.

(** A run of events without collisions: nothing panics, the ring is in order and
    has the members of the events. *)
Lemma notifyAll_ring evs t names : RingOk t.2 -> NoCollisions (vnodes t.2) names -> everJoined (members t.2) evs ⊆ names ->
  exists t', notifyAll evs t = Some t' /\ RingOk t'.2 /\ members t'.2 = joined (members t.2) evs /\ vnodes t'.2 = vnodes t.2.
Proof.
  revert t. induction evs as [|ev evs IH]; intros t Hok Hnc Hsub; [by exists t|].
  destruct ev as [now node|node|now node]; cbn [notifyAll notify joined everJoined] in *.
  - pose proof (everJoined_known (members t.2 ∪ {[nName node]}) evs) as Hk.
    assert (RingOk (AddNode (nName node) t.2)) as Hok1.
    { destruct (decide (nName node ∈ members t.2)) as [Hin|Hin]; [by rewrite AddNode_old|].
      apply AddNode_RingOk; [done|]. eapply NoCollisions_free; try done; set_solver. }
    pose proof (members_AddNode (nName node) t.2) as Hm1. pose proof (vnodes_AddNode (nName node) t.2) as Hv1.
    destruct (IH (NotifyJoin now node t)) as (t' & Hr & Hok' & Hm & Hv);
      [exact Hok1|cbn; by rewrite Hv1|cbn; by rewrite Hm1|].
    cbn [NotifyJoin snd] in Hm, Hv. rewrite Hm1 in Hm. rewrite Hv1 in Hv. by exists t'.
  - destruct (NotifyLeave_total node t Hok) as (t1 & -> & Hok1 & Hm1 & Hv1).
    destruct (IH t1 Hok1) as (t' & Hr & Hok' & Hm & Hv); [by rewrite Hv1| |].
    { etrans; [|exact Hsub]. rewrite Hm1. apply everJoined_mono. set_solver. }
    exists t'. rewrite Hm, Hm1. split_and!; try done. congruence.
  - by apply (IH (NotifyUpdate now node t)).
Qed.

(** With it, if updates are of members, state and ring are coherent. *)
Lemma notifyAll_coherent evs t t' names : TopologyOk t -> NoCollisions (vnodes t.2) names ->
  everJoined (members t.2) evs ⊆ names -> updatesKnown (members t.2) evs -> notifyAll evs t = Some t' -> TopologyOk t'.
Proof.
  revert t. induction evs as [|ev evs IH]; intros t Hok Hnc Hsub Hup; [by intros [= <-]|].
  destruct ev as [now node|node|now node]; cbn [notifyAll notify joined everJoined updatesKnown] in *.
  - pose proof (everJoined_known (members t.2 ∪ {[nName node]}) evs) as Hk. apply IH.
    + apply join_coherent; [done|]. destruct (decide (nName node ∈ members t.2)) as [Hin|Hin]; [rewrite AddNode_old by done; apply Hok|].
      apply AddNode_RingOk; [apply Hok|]. eapply NoCollisions_free; try done; [apply Hok|set_solver..].
    + cbn. by rewrite vnodes_AddNode.
    + cbn. by rewrite members_AddNode.
    + cbn. by rewrite members_AddNode.
  - destruct (NotifyLeave_total node t (topo_ring _ Hok)) as (t1 & Hl & Hok1 & Hm1 & Hv1). rewrite Hl. apply IH.
    + by eapply leave_coherent.
    + by rewrite Hv1.
    + etrans; [|exact Hsub]. rewrite Hm1. apply everJoined_mono. set_solver.
    + by rewrite Hm1.
  - destruct Hup as [Hin Hup]. apply (IH (NotifyUpdate now node t)); try done. by apply update_coherent.
Qed.

(** The number of virtual nodes NewRing takes. *)
Definition ringVnodes (vn : Z) : Z := if vn <=? 0 then DefaultVirtualNodes else vn.

Lemma start_ring info vn names : NoCollisions (ringVnodes vn) names -> Name info ∈ names ->
  RingOk (startTopology info vn).2 /\ members (startTopology info vn).2 = {[Name info]}
  /\ vnodes (startTopology info vn).2 = ringVnodes vn.
Proof.
  intros Hnc Hin. unfold startTopology, addSelf. cbn [fst snd]. rewrite members_AddNode, vnodes_AddNode. split_and!; [|set_solver|done].
  apply AddNode_RingOk; [apply NewRing_ok|]. eapply NoCollisions_free; [apply NewRing_ok|done|exact Hnc|set_solver|done|set_solver].
Qed.

Lemma start_coherent info vn names : NoCollisions (ringVnodes vn) names -> Name info ∈ names -> Status info = NodeAlive ->
  TopologyOk (startTopology info vn).
Proof.
  intros Hnc Hin Hs. destruct (start_ring info vn names Hnc Hin) as (Hr & Hm & _).
  apply (add_coherent (NewClusterState (Name info), NewRing vn)); [|done|exact Hr|].
  2: { change (members (startTopology info vn).2 = members (NewRing vn) ∪ {[Name info]}). rewrite Hm. unfold NewRing. simpl. set_solver. }
  split; simpl; [apply NewRing_ok| |].
  - intros n. rewrite lookup_empty. split; [|naive_solver]. unfold NewRing. simpl. set_solver.
  - intros n i. by rewrite lookup_empty.
Qed.

End Membership.

(** A ring without collisions is determined by its members. *)
Lemma ring_determined r1 r2 : RingOk r1 -> RingOk r2 ->
  vnodes r1 = vnodes r2 -> members r1 = members r2 -> r1 = r2.
Proof.
  intros H1 H2 Hv Hm.
  assert (Hh : hashMap r1 = hashMap r2).
  { apply map_eq. intros h. apply option_eq. intros n.
    by rewrite (ring_own r1 H1), (ring_own r2 H2), Hv, Hm. }
  assert (Hs : sortedHashes r1 = sortedHashes r2).
  { apply (StronglySorted_unique Z.le); [apply H1|apply H2|].
    apply NoDup_Permutation; [apply H1|apply H2|]. intros h.
    by rewrite (ring_dom r1 H1), (ring_dom r2 H2), Hh. }
  destruct r1, r2; simpl in *. congruence.
Qed.

(** ** Properties *)

(** C29: a node starts and hears of joins, leaves and updates in any order, where
    updates come only for nodes that are members, as memberlist sends them, and
    no two virtual nodes of the nodes that ever were members have the same hash.
    Then no event panics, and the members of the ring, the nodes that the cluster
    state lists as live, and the nodes that have joined and not left are the
    same. *)
Theorem ring_matches_live_nodes unmarshalMeta info vn evs :
  Status info = NodeAlive -> updatesKnown {[Name info]} evs ->
  NoCollisions (ringVnodes vn) (everJoined {[Name info]} evs) ->
  exists t, notifyAll unmarshalMeta evs (startTopology info vn) = Some t
    /\ members t.2 = joined {[Name info]} evs
    /\ forall order n, order ≡ₚ map_to_list (nodes t.1) -> n ∈ members t.2 <-> n ∈ Name <$> LiveNodes order.
Proof.
  intros Hs Hup Hnc. assert (Name info ∈ everJoined {[Name info]} evs) as Hin.
  { apply (everJoined_known {[Name info]} evs). set_solver. }
  destruct (start_ring info vn _ Hnc Hin) as (Hr & Hm & Hv). pose proof (start_coherent info vn _ Hnc Hin Hs) as Hok.
  destruct (notifyAll_ring unmarshalMeta evs (startTopology info vn) (everJoined {[Name info]} evs)) as (t & Ht & _ & Hmem & _);
    [done|by rewrite Hv|by rewrite Hm|].
  exists t. split; [exact Ht|]. split; [by rewrite Hmem, Hm|]. intros order n Ho.
  eapply notifyAll_coherent in Ht as Hok'; [|exact Hok|by rewrite Hv|by rewrite Hm|by rewrite Hm].
  rewrite (topo_alive t Hok'). unfold LiveNodes. rewrite list_elem_of_fmap. split.
  - intros (i & Hi & Hal). exists i. split; [symmetry; by eapply topo_name|].
    apply list_elem_of_filter. split; [done|]. apply list_elem_of_fmap. exists (n, i).
    split; [done|]. rewrite Ho. by apply elem_of_map_to_list.
  - intros (i & -> & [Hal Hi]%list_elem_of_filter). exists i. split; [|done].
    apply list_elem_of_fmap in Hi as ([n j] & -> & Hi).
    rewrite Ho, elem_of_map_to_list in Hi. simpl in *. by rewrite (topo_name t Hok' n j Hi).
Qed.

(** C18: convergence. Two nodes of a cluster with the same configured number of
    virtual nodes have started and heard of joins, leaves and updates, each in
    its own order, that leave the same members. If no two virtual nodes of the
    nodes that either of them ever had as a member have the same hash, both have
    the same ring, and send every key to the same owner. *)
Theorem topology_converges unmarshalMeta info1 info2 vn evs1 evs2 :
  joined {[Name info1]} evs1 = joined {[Name info2]} evs2 ->
  NoCollisions (ringVnodes vn) (everJoined {[Name info1]} evs1) ->
  NoCollisions (ringVnodes vn) (everJoined {[Name info2]} evs2) ->
  exists t1 t2, notifyAll unmarshalMeta evs1 (startTopology info1 vn) = Some t1
    /\ notifyAll unmarshalMeta evs2 (startTopology info2 vn) = Some t2
    /\ t1.2 = t2.2 /\ forall key, GetNode key t1.2 = GetNode key t2.2.
Proof.
  intros Hm Hnc1 Hnc2.
  assert (forall info evs, NoCollisions (ringVnodes vn) (everJoined {[Name info]} evs) ->
    exists t, notifyAll unmarshalMeta evs (startTopology info vn) = Some t /\ RingOk t.2
      /\ members t.2 = joined {[Name info]} evs /\ vnodes t.2 = ringVnodes vn) as Hrun.
  { intros info evs Hnc. destruct (start_ring info vn _ Hnc) as (Hr & Hmem & Hv).
    { apply (everJoined_known {[Name info]} evs). set_solver. }
    rewrite <- Hv, <- Hmem in *. eapply notifyAll_ring; done. }
  destruct (Hrun info1 evs1 Hnc1) as (t1 & H1 & R1 & M1 & V1), (Hrun info2 evs2 Hnc2) as (t2 & H2 & R2 & M2 & V2).
  exists t1, t2. split; [done|]. split; [done|]. assert (t1.2 = t2.2) as ->; [|done]. apply ring_determined; congruence.
Qed.

(** ** Witnesses *)

Definition w_info (name : string) : NodeInfo :=
  MkNodeInfo name "10.0.0.1:7946" "10.0.0.1:7947" "10.0.0.1:6380" NodeAlive 0 zeroMeta.
Definition w_node (name : string) : MlNode := MkMlNode name "10.0.0.2" 7946 [].
Definition w_meta (_ : bytes) : NodeMeta := MkNodeMeta 7947 6380 "".

(** Node a sees itself and b join; node b sees a and c join, a change its metadata
    and c leave. *)
Definition w_events_a : list MemberEvent := [EvJoin 0 (w_node "a"); EvJoin 0 (w_node "b")].
Definition w_events_b : list MemberEvent :=
  [EvJoin 0 (w_node "a"); EvJoin 0 (w_node "c"); EvUpdate 1 (w_node "a"); EvLeave (w_node "c")].

Lemma ring_matches_live_nodes_witness :
  exists t, notifyAll w_meta w_events_b (startTopology (w_info "b") 3) = Some t /\ members t.2 = {["a"; "b"]}.
Proof.
  destruct (ring_matches_live_nodes w_meta (w_info "b") 3 w_events_b) as (t & Ht & Hm & _);
    [reflexivity|cbn; split; [set_solver|done]|by_decide|].
  exists t. split; [exact Ht|]. rewrite Hm. by_decide.
Defined.

Lemma topology_converges_witness :
  exists t1 t2, notifyAll w_meta w_events_a (startTopology (w_info "a") 3) = Some t1
    /\ notifyAll w_meta w_events_b (startTopology (w_info "b") 3) = Some t2 /\ GetNode "k" t1.2 = GetNode "k" t2.2.
Proof.
  destruct (topology_converges w_meta (w_info "a") (w_info "b") 3 w_events_a w_events_b) as (t1 & t2 & H1 & H2 & _ & Hk);
    [by_decide..|]. exists t1, t2. split; [exact H1|]. split; [exact H2|]. exact (Hk "k").
Defined.
