(* ===== verification/Transport.v ===== *)
(** internal/transport: the RPC protocol between nodes.

    The two interfaces of transport.go are classes: [LocalHandler] is what a node
    offers to its peers, and the Remote* calls of rpc.go are what it can ask of
    them. The network is a [Network]: the nodes by RPC address, and which calls
    get through. Connection pooling and deadlines are part of that choice; calls
    are taken one at a time. *)
From S2P Require Import Prelude GoLib Serializer.

(** ** Wire format *)

Inductive Opcode :=
  | opGet | opSet | opDelete | opExists | opMGet | opIncr
  | opLockAcquire | opLockRelease | opLockExtend
  | opUnknown (code : Z).

(** The operation byte. *)
Definition opcode_of_byte (b : Z) : Opcode :=
  if b =? 1 then opGet else if b =? 2 then opSet else if b =? 3 then opDelete
  else if b =? 4 then opExists else if b =? 5 then opMGet else if b =? 6 then opIncr
  else if b =? 7 then opLockAcquire else if b =? 8 then opLockRelease
  else if b =? 9 then opLockExtend else opUnknown b.

Record request := MkRequest {
  qOp : Z;
  qKey : string;
  qKeys : list string;
  qValue : bytes;
  qTTL : Duration;
  qTags : list string;
  qDelta : Z;
  qToken : string;
}.

Record response := MkResponse {
  rValue : bytes;
  rValues : gmap string bytes;
  rFound : bool;
  rOK : bool;
  rIntVal : Z;
  rToken : string;
  rFencingToken : Z;
  rAcquired : bool;
  rError : string;
}.

Definition emptyRequest : request := MkRequest 0 "" [] [] 0 [] 0 "".
Definition emptyResponse : response := MkResponse [] ∅ false false 0 "" 0 false "".

(** [err.Error()] *)
Fixpoint Error_Error (e : Error) : string :=
  match e with
  | ErrNotFound => "cachegrid: key not found"
  | ErrExpired => "cachegrid: key expired"
  | ErrKeyEmpty => "cachegrid: key must not be empty"
  | ErrSerializationFailed => "cachegrid: serialization failed"
  | ErrShutdown => "cachegrid: cache is shut down"
  | ErrNodeNotFound => "cachegrid: node not found in cluster"
  | ErrRemoteCall => "cachegrid: remote call failed"
  | ErrLockNotAcquired => "cachegrid: lock could not be acquired"
  | ErrLockNotHeld => "cachegrid: lock not held or expired"
  | ErrRateLimited => "cachegrid: rate limit exceeded"
  | ErrWrap s c => Error_Error s +:+ ": " +:+ Error_Error c
  | ErrText msg => msg
  | ErrExternal msg => msg
  end.

(** ** LocalHandler

    [None] is a panic. [random] is what crypto/rand gives the lock engine. *)
Class LocalHandler (H : Type) := {
  HandleGet : string -> Clock -> H -> option (option bytes * H);
  HandleSet : string -> bytes -> Duration -> list string -> Clock -> H -> option H;
  HandleDelete : string -> H -> option (bool * H);
  HandleExists : string -> Clock -> H -> option (bool * H);
  HandleMGet : list string -> Clock -> H -> option (gmap string bytes * H);
  HandleIncr : string -> Z -> Clock -> H -> option (result Z * H);
  HandleLockAcquire : string -> Duration -> bytes -> Clock -> H -> (string * Z * bool) * H;
  HandleLockRelease : string -> string -> H -> bool * H;
  HandleLockExtend : string -> string -> Duration -> Clock -> H -> bool * H;
}.

Section Server.
Context {H : Type} `{LocalHandler H}.

Definition processRequest (req : request) (random : bytes) (clk : Clock) (h : H)
  : option (response * H) :=
  match opcode_of_byte (qOp req) with
  | opGet =>
      match HandleGet (qKey req) clk h with
      | Some (Some val, h') => Some (MkResponse val ∅ true false 0 "" 0 false "", h')
      | Some (None, h') => Some (emptyResponse, h')
      | None => None
      end
  | opSet =>
      match HandleSet (qKey req) (qValue req) (qTTL req) (qTags req) clk h with
      | Some h' => Some (MkResponse [] ∅ false true 0 "" 0 false "", h')
      | None => None
      end
  | opDelete =>
      match HandleDelete (qKey req) h with
      | Some (ok, h') => Some (MkResponse [] ∅ false ok 0 "" 0 false "", h')
      | None => None
      end
  | opExists =>
      match HandleExists (qKey req) clk h with
      | Some (ok, h') => Some (MkResponse [] ∅ false ok 0 "" 0 false "", h')
      | None => None
      end
  | opMGet =>
      match HandleMGet (qKeys req) clk h with
      | Some (vals, h') => Some (MkResponse [] vals false false 0 "" 0 false "", h')
      | None => None
      end
  | opIncr =>
      match HandleIncr (qKey req) (qDelta req) clk h with
      | Some (Ok val, h') => Some (MkResponse [] ∅ false false val "" 0 false "", h')
      | Some (Err err, h') => Some (MkResponse [] ∅ false false 0 "" 0 false (Error_Error err), h')
      | None => None
      end
  | opLockAcquire =>
      let '((token, fencing, acquired), h') := HandleLockAcquire (qKey req) (qTTL req) random clk h in
      Some (MkResponse [] ∅ false false 0 token fencing acquired "", h')
  | opLockRelease =>
      let '(ok, h') := HandleLockRelease (qKey req) (qToken req) h in
      Some (MkResponse [] ∅ false ok 0 "" 0 false "", h')
  | opLockExtend =>
      let '(ok, h') := HandleLockExtend (qKey req) (qToken req) (qTTL req) clk h in
      Some (MkResponse [] ∅ false ok 0 "" 0 false "", h')
  | opUnknown _ => Some (MkResponse [] ∅ false false 0 "" 0 false "unknown operation", h)
  end.
End Server.

(** ** The client side *)

(** A network of nodes; [link addr] is the error a call to [addr] meets (dial,
    encode, decode or timeout), if any; [entropy addr] is the randomness its
    lock engine would draw. *)
Record Network (H : Type) := MkNetwork {
  hosts : gmap string H;
  link : string -> option Error;
  entropy : string -> bytes;
}.
Arguments MkNetwork {H} hosts link entropy.
Arguments hosts {H} n : rename.
Arguments link {H} n addr : rename.
Arguments entropy {H} n addr : rename.

Definition put_host {H} (addr : string) (h : H) (net : Network H) : Network H :=
  MkNetwork (<[addr := h]> (hosts net)) (link net) (entropy net).

Section Client.
Context {H : Type} `{LocalHandler H}.
Implicit Types net : Network H.

(** [call]: the request is processed at the other end and the response comes
    back, or the call fails. A handler that panics takes its node down: the
    caller sees an error. *)
Definition call (addr : string) (req : request) (clk : Clock) net : result response * Network H :=
  match link net addr, hosts net !! addr with
  | Some err, _ => (Err err, net)
  | None, None => (Err (ErrText ("transport: dial " +:+ addr)), net)
  | None, Some h =>
      match processRequest req (entropy net addr) clk h with
      | None => (Err (ErrText ("transport: decode from " +:+ addr)), net)
      | Some (resp, h') =>
          let net' := put_host addr h' net in
          if negb (String.eqb (rError resp) "")
          then (Err (ErrText ("transport: remote error from " +:+ addr +:+ ": " +:+ rError resp)), net')
          else (Ok resp, net')
      end
  end.

(** The result of a call, read off the response. *)
Definition on_response {A} (f : response -> A) (r : result response * Network H)
  : result A * Network H :=
  match r with
  | (Ok resp, net') => (Ok (f resp), net')
  | (Err err, net') => (Err err, net')
  end.

Definition getRequest (key : string) : request := MkRequest 1 key [] [] 0 [] 0 "".
Definition setRequest (key : string) (value : bytes) (ttl : Duration) (tags : list string) : request :=
  MkRequest 2 key [] value ttl tags 0 "".
Definition deleteRequest (key : string) : request := MkRequest 3 key [] [] 0 [] 0 "".

Definition RemoteGet (addr key : string) (clk : Clock) net : result (bytes * bool) * Network H :=
  on_response (fun resp => (rValue resp, rFound resp)) (call addr (getRequest key) clk net).

Definition RemoteSet (addr key : string) (value : bytes) (ttl : Duration) (tags : list string)
    (clk : Clock) net : result unit * Network H :=
  on_response (fun _ => tt) (call addr (setRequest key value ttl tags) clk net).

Definition RemoteDelete (addr key : string) (clk : Clock) net : result unit * Network H :=
  on_response (fun _ => tt) (call addr (deleteRequest key) clk net).

Definition RemoteExists (addr key : string) (clk : Clock) net : result bool * Network H :=
  on_response rOK (call addr (MkRequest 4 key [] [] 0 [] 0 "") clk net).

Definition RemoteMGet (addr : string) (keys : list string) (clk : Clock) net
  : result (gmap string bytes) * Network H :=
  on_response rValues (call addr (MkRequest 5 "" keys [] 0 [] 0 "") clk net).

Definition RemoteIncr (addr key : string) (delta : Z) (clk : Clock) net : result Z * Network H :=
  on_response rIntVal (call addr (MkRequest 6 key [] [] 0 [] delta "") clk net).

Definition RemoteLockAcquire (addr key : string) (ttl : Duration) (clk : Clock) net
  : result (string * Z * bool) * Network H :=
  on_response (fun resp => (rToken resp, rFencingToken resp, rAcquired resp))
    (call addr (MkRequest 7 key [] [] ttl [] 0 "") clk net).

Definition RemoteLockRelease (addr key token : string) (clk : Clock) net : result bool * Network H :=
  on_response rOK (call addr (MkRequest 8 key [] [] 0 [] 0 token) clk net).

Definition RemoteLockExtend (addr key token : string) (ttl : Duration) (clk : Clock) net
  : result bool * Network H :=
  on_response rOK (call addr (MkRequest 9 key [] [] ttl [] 0 token) clk net).
End Client.
