(* ===== verification/Pool.v ===== *)
(** internal/transport/rpc.go: connections. The pool of a node, the two ends of
    a connection, and [call] as the steps it takes over them.

    [Transport] takes a call as one step. Here a call picks the connection of
    the pool, or dials one, writes its request, and reads the next response.
    [pooled_call_refines] justifies the one step for calls that do not overlap;
    [overlapping_calls_swap] shows what happens to calls that do. *)
From S2P Require Import Prelude GoLib Serializer Transport.

(** ** State *)

(** A connection: requests on their way to the peer and responses on their way
    back, each message written and read as a whole. *)
Record Conn := MkConn {
  peer : string;
  requests : list request;
  responses : list response;
  isOpen : bool;
}.

Definition set_requests (q : list request) (c : Conn) : Conn :=
  MkConn (peer c) q (responses c) (isOpen c).
Definition set_responses (r : list response) (c : Conn) : Conn :=
  MkConn (peer c) (requests c) r (isOpen c).
Definition close_conn (c : Conn) : Conn := MkConn (peer c) (requests c) (responses c) false.

(** The transport of one node, the connections it ever dialed, and the nodes at
    the other ends. [listener] is nil or a listener that is open or closed;
    [stopped] is the closed channel [done]. *)
Record TCPTransport (H : Type) := MkTCPTransport {
  conns : gmap string nat;
  listener : option bool;
  timeout : Duration;
  stopped : bool;
  wires : list Conn;
  remotes : gmap string H;
}.
Arguments MkTCPTransport {H} conns listener timeout stopped wires remotes.
Arguments conns {H} t : rename.
Arguments listener {H} t : rename.
Arguments timeout {H} t : rename.
Arguments stopped {H} t : rename.
Arguments wires {H} t : rename.
Arguments remotes {H} t : rename.

Section Pool.
Context {H : Type} `{LocalHandler H}.

Abbreviation TCPTransport := (TCPTransport H).
Implicit Types t : TCPTransport.

Definition NewTCPTransport (timeout : Duration) (remotes : gmap string H) : TCPTransport :=
  MkTCPTransport ∅ None (if timeout <=? 0 then 5 * Second else timeout) false [] remotes.

Definition with_conns (m : gmap string nat) t : TCPTransport :=
  MkTCPTransport m (listener t) (timeout t) (stopped t) (wires t) (remotes t).
Definition with_wires (ws : list Conn) t : TCPTransport :=
  MkTCPTransport (conns t) (listener t) (timeout t) (stopped t) ws (remotes t).
Definition with_remotes (hs : gmap string H) t : TCPTransport :=
  MkTCPTransport (conns t) (listener t) (timeout t) (stopped t) (wires t) hs.

(** Update the connection at a position. *)
Definition on_wire (c : nat) (f : Conn -> Conn) t : TCPTransport :=
  with_wires (alter f c (wires t)) t.

(** ** The pool *)

(** The first critical section of [getConn]. *)
Definition pooled (addr : string) t : option nat := conns t !! addr.

(** [net.DialTimeout], to a node that is there. *)
Definition dial (addr : string) t : option (nat * TCPTransport) :=
  match remotes t !! addr with
  | None => None
  | Some _ => Some (length (wires t), with_wires (wires t ++ [MkConn addr [] [] true]) t)
  end.

(** The second critical section: another goroutine may have put a connection
    into the pool. *)
Definition adopt (addr : string) (c : nat) t : nat * TCPTransport :=
  match conns t !! addr with
  | Some existing => (existing, on_wire c close_conn t)
  | None => (c, with_conns (<[addr := c]> (conns t)) t)
  end.

Definition getConn (addr : string) t : option (nat * TCPTransport) :=
  match pooled addr t with
  | Some c => Some (c, t)
  | None =>
      match dial addr t with
      | None => None
      | Some (c, t') => Some (adopt addr c t')
      end
  end.

Definition closeConn (addr : string) t : TCPTransport :=
  match conns t !! addr with
  | Some c => with_conns (delete addr (conns t)) (on_wire c close_conn t)
  | None => t
  end.

Definition CloseConnection (addr : string) t : TCPTransport := closeConn addr t.

(** [listen] is net.Listen; the goroutine with [acceptLoop] starts. *)
Definition Start (listen : string -> result unit) (listenAddr : string) t : result TCPTransport :=
  match listen listenAddr with
  | Err err => Err (ErrWrap (ErrText ("transport: failed to listen on " +:+ listenAddr)) err)
  | Ok _ => Ok (MkTCPTransport (conns t) (Some true) (timeout t) (stopped t) (wires t) (remotes t))
  end.

(** Stop closes the channel [done], which panics the second time, the listener,
    and then every connection of the pool, in the order of the map. *)
Fixpoint stopLoop (order : list (string * nat)) t : TCPTransport :=
  match order with
  | [] => t
  | (addr, c) :: order' =>
      stopLoop order' (with_conns (delete addr (conns t)) (on_wire c close_conn t))
  end.

Definition Stop (order : list (string * nat)) t : option TCPTransport :=
  if stopped t then None
  else Some (stopLoop order (MkTCPTransport (conns t) ((fun _ => false) <$> listener t) (timeout t) true
                               (wires t) (remotes t))).

(** ** The listening side *)

(** What Accept returns; an error comes with the answer to whether [done] is
    closed by then. *)
Inductive Accept (A : Type) := Accepted (conn : A) | AcceptError (isDone : bool).
#[global] Arguments Accepted {A} conn.
#[global] Arguments AcceptError {A} isDone.

(** The connections that got a goroutine, and whether the loop has returned,
    after the given results of Accept. *)
Fixpoint acceptLoop {A} (results : list (Accept A)) : list A * bool :=
  match results with
  | [] => ([], false)
  | Accepted conn :: results' => let '(cs, b) := acceptLoop results' in (conn :: cs, b)
  | AcceptError isDone :: results' => if isDone then ([], true) else acceptLoop results'
  end.

(** All of [handleConn], which serves a connection that was accepted: what
    Decode returns, each time with whether the response can be written. The
    responses written, and the handler; [None] is a panic. *)
Fixpoint serveConn (msgs : list (option request * bool)) (random : bytes) (clk : Clock) (h : H)
  : option (list response * H) :=
  match msgs with
  | [] | (None, _) :: _ => Some ([], h)
  | (Some req, writable) :: msgs' =>
      match processRequest req random clk h with
      | None => None
      | Some (resp, h') =>
          if writable then
            match serveConn msgs' random clk h' with
            | None => None
            | Some (resps, h'') => Some (resp :: resps, h'')
            end
          else Some ([], h')
      end
  end.

(** ** Messages *)

(** [enc.Encode(req)] on a connection; false on a closed one. *)
Definition send (c : nat) (req : request) t : bool * TCPTransport :=
  match wires t !! c with
  | Some w =>
      if isOpen w then (true, on_wire c (set_requests (requests w ++ [req])) t) else (false, t)
  | None => (false, t)
  end.

(** One iteration of [handleConn] at the peer. *)
Definition handleConn (c : nat) (random : bytes) (clk : Clock) t : option TCPTransport :=
  match wires t !! c with
  | Some w =>
      match requests w, remotes t !! peer w with
      | req :: reqs, Some h =>
          match processRequest req random clk h with
          | Some (resp, h') =>
              Some (on_wire c (fun w => set_responses (responses w ++ [resp]) (set_requests reqs w))
                      (with_remotes (<[peer w := h']> (remotes t)) t))
          | None => None
          end
      | _, _ => None
      end
  | None => None
  end.

(** [dec.Decode(&resp)]: the next response on the connection, when there is
    one. *)
Definition receive (c : nat) t : option (response * TCPTransport) :=
  match wires t !! c with
  | Some w =>
      match responses w with
      | resp :: rest => if isOpen w then Some (resp, on_wire c (set_responses rest) t) else None
      | [] => None
      end
  | None => None
  end.

(** What [call] makes of a response. *)
Definition answer (addr : string) (resp : response) : result response :=
  if negb (String.eqb (rError resp) "")
  then Err (ErrText ("transport: remote error from " +:+ addr +:+ ": " +:+ rError resp))
  else Ok resp.

(** A call on its own: nobody else uses the connection, and the peer answers
    before the deadline. *)
Definition call_steps (addr : string) (req : request) (random : bytes) (clk : Clock) t
  : result response * TCPTransport :=
  match getConn addr t with
  | None => (Err (ErrText ("transport: dial " +:+ addr)), t)
  | Some (c, t1) =>
      match send c req t1 with
      | (false, t2) => (Err (ErrText ("transport: encode to " +:+ addr)), closeConn addr t2)
      | (true, t2) =>
          match handleConn c random clk t2 with
          | None => (Err (ErrText ("transport: decode from " +:+ addr)), closeConn addr t2)
          | Some t3 =>
              match receive c t3 with
              | None => (Err (ErrText ("transport: decode from " +:+ addr)), closeConn addr t3)
              | Some (resp, t4) => (answer addr resp, t4)
              end
          end
      end
  end.

(** ** Calls of several goroutines *)

Inductive Caller :=
  | Starts (addr : string) (req : request)
  | Dials (addr : string) (req : request)
  | Adopts (addr : string) (req : request) (c : nat)
  | Writes (addr : string) (req : request) (c : nat)
  | Reads (addr : string) (c : nat)
  | Returns (r : result response).

Record Calls := MkCalls {
  transport : TCPTransport;
  callers : gmap nat Caller;
}.

Inductive call_step : Calls -> Calls -> Prop :=
  | cs_pooled t cs i addr req c :
      cs !! i = Some (Starts addr req) -> pooled addr t = Some c ->
      call_step (MkCalls t cs) (MkCalls t (<[i := Writes addr req c]> cs))
  | cs_missing t cs i addr req :
      cs !! i = Some (Starts addr req) -> pooled addr t = None ->
      call_step (MkCalls t cs) (MkCalls t (<[i := Dials addr req]> cs))
  | cs_dial t cs i addr req c t' :
      cs !! i = Some (Dials addr req) -> dial addr t = Some (c, t') ->
      call_step (MkCalls t cs) (MkCalls t' (<[i := Adopts addr req c]> cs))
  | cs_adopt t cs i addr req c c' t' :
      cs !! i = Some (Adopts addr req c) -> adopt addr c t = (c', t') ->
      call_step (MkCalls t cs) (MkCalls t' (<[i := Writes addr req c']> cs))
  | cs_send t cs i addr req c t' :
      cs !! i = Some (Writes addr req c) -> send c req t = (true, t') ->
      call_step (MkCalls t cs) (MkCalls t' (<[i := Reads addr c]> cs))
  | cs_handle t cs c random clk t' :
      handleConn c random clk t = Some t' ->
      call_step (MkCalls t cs) (MkCalls t' cs)
  | cs_receive t cs i addr c resp t' :
      cs !! i = Some (Reads addr c) -> receive c t = Some (resp, t') ->
      call_step (MkCalls t cs) (MkCalls t' (<[i := Returns (answer addr resp)]> cs)).
End Pool.
#[global] Arguments Calls H : clear implicits.
