(* ===== verification/Goroutines.v ===== *)
(** Goroutines that call one object at the same time.

    A call runs as a program of atomic actions on a shared world: what one
    critical section does, or one call of an object that locks by itself. The
    scheduler picks any goroutine for the next action. This file has the
    programs, the schedules with the history of calls and returns, and the proof
    principle for linearizability by linearization points, which [Concurrent] and
    [DiskRaces] use. *)
From S2P Require Import Prelude.

(** ** Programs *)

Section Programs.
Context {W A : Type}.

(** A program has returned, or its next action is [m]; an action that is
    undefined does not happen. *)
Inductive Prog :=
  | Done (a : A)
  | Act {B : Type} (m : W -> option (B * W)) (k : B -> Prog).

Definition prog_step (p : Prog) (w : W) : option (Prog * W) :=
  match p with
  | Done _ => None
  | Act m k => match m w with Some (b, w') => Some (k b, w') | None => None end
  end.

(** Nobody else runs. *)
Fixpoint run_alone (p : Prog) (w : W) : option (A * W) :=
  match p with
  | Done a => Some (a, w)
  | Act m k => match m w with Some (b, w') => run_alone (k b) w' | None => None end
  end.

Lemma run_step p w p' w' : prog_step p w = Some (p', w') -> run_alone p' w' = run_alone p w.
Proof. destruct p as [|B m k]; cbn; [done|]. destruct (m w) as [[b w1]|]; [|done]. by intros [= <- <-]. Qed.
End Programs.
Arguments Prog : clear implicits.

(** ** Schedules *)

Section Schedules.
Context {W C A : Type}.

Inductive Event :=
  | Invoke (i : nat) (c : C)
  | Return (i : nat) (a : A).

(** The world, the calls under way, and what was called and returned so far.
    Every call has a number of its own. *)
Record Sched := MkSched {
  swrld : W;
  calls_open : gmap nat (C * Prog W A);
  history : list Event;
}.

Context (body : C -> Prog W A).
(** What happens beside the calls. *)
Context (background : W -> W -> Prop).

Inductive sched_step : Sched -> Sched -> Prop :=
  | ss_invoke w gs h i c : (forall c', Invoke i c' ∉ h) ->
      sched_step (MkSched w gs h) (MkSched w (<[i := (c, body c)]> gs) (h ++ [Invoke i c]))
  | ss_act w gs h i c p p' w' : gs !! i = Some (c, p) -> prog_step p w = Some (p', w') ->
      sched_step (MkSched w gs h) (MkSched w' (<[i := (c, p')]> gs) h)
  | ss_return w gs h i c a : gs !! i = Some (c, Done a) ->
      sched_step (MkSched w gs h) (MkSched w (delete i gs) (h ++ [Return i a]))
  | ss_background w w' gs h : background w w' -> sched_step (MkSched w gs h) (MkSched w' gs h).

Definition start (w : W) : Sched := MkSched w ∅ [].

(** A schedule that is given move by move, without background. *)
Inductive Move :=
  | MInvoke (i : nat) (c : C)
  | MAct (i : nat)
  | MReturn (i : nat).

Definition invoked (i : nat) (e : Event) : bool :=
  match e with Invoke j _ => bool_decide (i = j) | Return _ _ => false end.

Definition move (m : Move) (st : Sched) : option Sched :=
  match m with
  | MInvoke i c =>
      if existsb (invoked i) (history st) then None
      else Some (MkSched (swrld st) (<[i := (c, body c)]> (calls_open st)) (history st ++ [Invoke i c]))
  | MAct i =>
      match calls_open st !! i with
      | Some (c, p) =>
          match prog_step p (swrld st) with
          | Some (p', w') => Some (MkSched w' (<[i := (c, p')]> (calls_open st)) (history st))
          | None => None
          end
      | None => None
      end
  | MReturn i =>
      match calls_open st !! i with
      | Some (c, Done a) => Some (MkSched (swrld st) (delete i (calls_open st)) (history st ++ [Return i a]))
      | _ => None
      end
  end.

Fixpoint schedule (ms : list Move) (st : Sched) : option Sched :=
  match ms with
  | [] => Some st
  | m :: ms' => match move m st with Some st' => schedule ms' st' | None => None end
  end.

Lemma move_step m st st' : move m st = Some st' -> sched_step st st'.
Proof.
  destruct m as [i c|i|i]; destruct st as [w gs h]; cbn.
  - destruct (existsb (invoked i) h) eqn:E; [done|]. intros [= <-]. apply ss_invoke. intros c' Hin.
    apply not_true_iff_false in E. apply E, existsb_exists. exists (Invoke i c'). split; [by apply list_elem_of_In|].
    by apply bool_decide_eq_true.
  - destruct (gs !! i) as [[c p]|] eqn:Ei; [|done]. destruct (prog_step p w) as [[p' w']|] eqn:Ep; [|done].
    intros [= <-]. by eapply ss_act.
  - destruct (gs !! i) as [[c [a|]]|] eqn:Ei; [|done..]. intros [= <-]. by eapply ss_return.
Qed.

Lemma schedule_steps ms st st' : schedule ms st = Some st' -> rtc sched_step st st'.
Proof.
  revert st. induction ms as [|m ms IH]; intros st; cbn [schedule]; [by intros [= <-]|].
  destruct (move m st) as [st1|] eqn:E; [|done]. intros Hs. eapply rtc_l; [by eapply move_step|auto].
Qed.
End Schedules.
Arguments Sched : clear implicits.
Arguments Event : clear implicits.

(** ** Linearizability *)

Section Histories.
(** The object as one that does every call at once. *)
Context {C A Σ : Type} (exec : C -> Σ -> option (A * Σ)).

(** Calls one after the other. *)
Inductive legal : Σ -> list (nat * (C * A)) -> Σ -> Prop :=
  | legal_nil s : legal s [] s
  | legal_cons s i c a s1 l s' : exec c s = Some (a, s1) -> legal s1 l s' -> legal s ((i, (c, a)) :: l) s'.

Definition before (l : list nat) (i j : nat) : Prop := exists l1 l2 l3, l = l1 ++ i :: l2 ++ j :: l3.

(** [i] had returned when [j] was called. *)
Definition earlier (h : list (Event C A)) (i j : nat) : Prop :=
  exists a c h1 h2 h3, h = h1 ++ Return i a :: h2 ++ Invoke j c :: h3.

(** [l] is an order of the calls that explains the history: one after the other
    they have the answers that were returned, and no call is moved before one
    that had returned when it was called. Calls under way are in [l] if they
    have taken effect. *)
Record Linearization (h : list (Event C A)) (s0 : Σ) (l : list (nat * (C * A))) (s : Σ) : Prop := {
  ln_unique : NoDup l.*1;
  ln_legal : legal s0 l s;
  ln_called : forall i c a, (i, (c, a)) ∈ l -> Invoke i c ∈ h;
  ln_returned : forall i a, Return i a ∈ h -> exists c, (i, (c, a)) ∈ l;
  ln_order : forall i j, earlier h i j -> j ∈ l.*1 -> before l.*1 i j;
}.

Lemma legal_snoc s0 l s i c a s' : legal s0 l s -> exec c s = Some (a, s') -> legal s0 (l ++ [(i, (c, a))]) s'.
Proof.
  intros Hl He. induction Hl as [s|s j d b s1 l s2 Hd Hl IH]; cbn [app].
  - eapply legal_cons; [exact He|apply legal_nil].
  - eapply legal_cons; [exact Hd|by apply IH].
Qed.

Lemma legal_split s l1 i c a l2 s' : legal s (l1 ++ (i, (c, a)) :: l2) s' ->
  exists s1 s2, legal s l1 s1 /\ exec c s1 = Some (a, s2) /\ legal s2 l2 s'.
Proof.
  revert s. induction l1 as [|[j [d b]] l1 IH]; intros s Hl; inversion Hl as [|? ? ? ? s1 ? ? He Hl']; subst.
  - exists s, s1. split; [apply legal_nil|done].
  - destruct (IH s1 Hl') as (s2 & s3 & H1 & H2 & H3). exists s2, s3. split; [by eapply legal_cons|done].
Qed.

Lemma before_snoc l i j k : before l i j -> before (l ++ [k]) i j.
Proof. intros (l1 & l2 & l3 & ->). exists l1, l2, (l3 ++ [k]). by list_simplifier. Qed.

Lemma before_last l i j : i ∈ l -> before (l ++ [j]) i j.
Proof. intros (l1 & l2 & ->)%list_elem_of_split. exists l1, l2, []. by list_simplifier. Qed.

Lemma earlier_snoc h e i j : earlier (h ++ [e]) i j -> earlier h i j \/ exists c a, e = Invoke j c /\ Return i a ∈ h.
Proof.
  intros (a & c & h1 & h2 & h3 & He). destruct h3 as [|x h3 _] using rev_ind.
  - right. exists c, a. change (h ++ [e] = h1 ++ (Return i a :: h2) ++ [Invoke j c]) in He. rewrite app_assoc in He.
    apply app_inj_tail in He as [-> ->]. split; [done|]. set_solver.
  - left. exists a, c, h1, h2, h3. assert (h ++ [e] = (h1 ++ Return i a :: h2 ++ Invoke j c :: h3) ++ [x]) as Hx.
    { rewrite He. by list_simplifier. }
    by apply app_inj_tail in Hx as [-> _].
Qed.

(** The history grows. *)
Lemma lin_event h s0 l s e : Linearization h s0 l s ->
  match e with
  | Invoke i c => i ∉ l.*1
  | Return i a => exists c, (i, (c, a)) ∈ l
  end -> Linearization (h ++ [e]) s0 l s.
Proof.
  intros [Hu Hl Hc Hr Ho] He. split; [done|done| | |].
  - intros i c a Hi. apply elem_of_app. left. by eapply Hc.
  - intros i a [Hi|Hi]%elem_of_app; [by apply Hr|]. apply list_elem_of_singleton in Hi as <-. exact He.
  - intros i j [Hij|(c & a & -> & _)]%earlier_snoc Hj; [auto|done].
Qed.

(** A call takes effect. *)
Lemma lin_effect h s0 l s i c a s' : Linearization h s0 l s -> i ∉ l.*1 -> Invoke i c ∈ h -> exec c s = Some (a, s') ->
  Linearization h s0 (l ++ [(i, (c, a))]) s'.
Proof.
  intros [Hu Hl Hc Hr Ho] Hi Hin He. split.
  - rewrite fmap_app. apply NoDup_app. split_and!; [done| |apply NoDup_singleton]. intros j Hj Hj'%list_elem_of_singleton. by subst.
  - by eapply legal_snoc.
  - intros j d b [Hj|Hj%list_elem_of_singleton]%elem_of_app; [by eapply Hc|]. by injection Hj as -> -> ->.
  - intros j b [d Hj]%Hr. exists d. apply elem_of_app. by left.
  - intros j k Hjk. rewrite fmap_app. intros [Hk|Hk%list_elem_of_singleton]%elem_of_app; [by apply before_snoc, Ho|].
    cbn in Hk. subst k. apply before_last. destruct Hjk as (b & d & h1 & h2 & h3 & ->).
    destruct (Hr j b) as [d' Hj]; [set_solver|]. apply list_elem_of_fmap. by exists (j, (d', b)).
Qed.

End Histories.

Section Linearizability.
Context {W C A Σ : Type} (body : C -> Prog W A) (background : W -> W -> Prop) (exec : C -> Σ -> option (A * Σ)).
(** Which states of the object a world stands for. *)
Context (stands : W -> Σ -> Prop).
Abbreviation Linearization := (Linearization exec).

(** A program that has taken effect: whatever others do, it returns [a], and its
    actions do not matter. *)
Fixpoint Quiet (p : Prog W A) (a : A) : Prop :=
  match p with
  | Done a' => a' = a
  | Act m k => forall w s b w', stands w s -> m w = Some (b, w') -> stands w' s /\ Quiet (k b) a
  end.

(** A program that has not: an action does not matter, or it is where the call
    takes effect. *)
Fixpoint Poised (c : C) (p : Prog W A) : Prop :=
  match p with
  | Done _ => False
  | Act m k => forall w s b w', stands w s -> m w = Some (b, w') ->
      (stands w' s /\ Poised c (k b))
      \/ exists a s', exec c s = Some (a, s') /\ stands w' s' /\ Quiet (k b) a
  end.

(** What holds along a schedule. *)
Record Explained (s0 : Σ) (st : Sched W C A) (l : list (nat * (C * A))) (s : Σ) : Prop := {
  ex_stands : stands (swrld st) s;
  ex_lin : Linearization (history st) s0 l s;
  ex_open : forall i c p, calls_open st !! i = Some (c, p) -> (Invoke i c ∈ history st)
    /\ ((i ∉ l.*1) /\ Poised c p \/ exists a, ((i, (c, a)) ∈ l) /\ Quiet p a);
}.

(** The calls that are made. *)
Context (allowed : C -> Prop).
Hypothesis body_poised : forall c, allowed c -> Poised c (body c).
Hypothesis background_stands : forall w w' s, background w w' -> stands w s -> stands w' s.

Lemma explained_step s0 st st' l s : Explained s0 st l s -> sched_step body background st st' ->
  (forall i c, Invoke i c ∈ history st' -> allowed c) -> exists l' s', Explained s0 st' l' s'.
Proof.
  intros [Hs Hl Ho] Hst Hall. destruct Hst as [w gs h i c Hnew|w gs h i c p p' w' Hi Hp|w gs h i c a Hi|w w' gs h Hb]; cbn in Hs, Hl, Ho.
  - assert (i ∉ l.*1) as Hil.
    { intros ([j [d b]] & -> & Hj)%list_elem_of_fmap. by apply (Hnew d), (ln_called _ _ _ _ _ Hl _ _ b). }
    exists l, s. split; cbn; [done|by apply lin_event|].
    intros j d q [[<- [= <- <-]]|[Hne Hj]]%lookup_insert_Some; [split; [set_solver|left; split; [done|apply body_poised, (Hall i); set_solver]]|].
    destruct (Ho j d q Hj) as [Hin Hq]. split; [set_solver|done].
  - destruct (Ho i c p Hi) as [Hin Hq]. destruct p as [a|B m k]; [done|]. cbn in Hp.
    destruct (m w) as [[b w1]|] eqn:Em; [|done]. injection Hp as <- <-. destruct Hq as [[Hil Hq]|(a & Ha & Hq)].
    + destruct (Hq w s b w1 Hs Em) as [[Hs1 Hk]|(a & s1 & He & Hs1 & Hk)].
      * exists l, s. split; [done|done|]. cbn [calls_open history]. intros j d q [[<- [= <- <-]]|[_ Hj]]%lookup_insert_Some; [split; auto|by apply Ho].
      * exists (l ++ [(i, (c, a))]), s1. split; [done|by eapply lin_effect|]. cbn.
        intros j d q [[<- [= <- <-]]|[Hne Hj]]%lookup_insert_Some; [split; [done|]; right; exists a; set_solver|].
        destruct (Ho j d q Hj) as [Hj1 [[Hj2 Hj3]|(a' & Hj2 & Hj3)]]; (split; [done|]); [left; split; [|done]|right; exists a'; set_solver].
        rewrite fmap_app, elem_of_app. cbn. rewrite list_elem_of_singleton. by intros [|].
    + destruct (Hq w s b w1 Hs Em) as [Hs1 Hk]. exists l, s. split; [done|done|]. cbn [calls_open history].
      intros j d q [[<- [= <- <-]]|[_ Hj]]%lookup_insert_Some; [split; eauto|by apply Ho].
  - destruct (Ho i c (Done a) Hi) as [Hin [[_ []]|(a' & Ha & Hq)]]. cbn in Hq. subst a'.
    exists l, s. split; cbn; [done|apply lin_event; eauto|]. intros j d q [_ Hj]%lookup_delete_Some.
    destruct (Ho j d q Hj) as [Hj1 Hj2]. split; [set_solver|done].
  - exists l, s. split; [by eapply background_stands|done|done].
Qed.

Lemma history_grows st st' : sched_step body background st st' -> exists h, history st' = history st ++ h.
Proof. intros []; cbn; [by eexists|by exists []; rewrite app_nil_r|by eexists|by exists []; rewrite app_nil_r]. Qed.

(** Linearizability by linearization points. *)
Lemma linearizable w0 s0 st : stands w0 s0 -> rtc (sched_step body background) (start w0) st ->
  (forall i c, Invoke i c ∈ history st -> allowed c) ->
  exists l s, Linearization (history st) s0 l s /\ stands (swrld st) s.
Proof.
  intros Hs Hr Hall. enough (exists l s, Explained s0 st l s) as (l & s & He) by (exists l, s; split; apply He).
  revert Hall. pattern st. revert st Hr. apply rtc_ind_r; [|intros st st' _ Hst IH]; intros Hall.
  - exists [], s0. split; [done| |]; cbn; [|intros ? ? ?; by rewrite lookup_empty].
    split; [by apply NoDup_nil|constructor| | |]; cbn; intros; set_solver.
  - destruct (history_grows st st' Hst) as [h Hh]. destruct IH as (l & s & He).
    + intros i c Hi. apply (Hall i). rewrite Hh. set_solver.
    + by eapply explained_step.
Qed.
End Linearizability.

(** ** Methods under one mutex *)

Section Mutex.
Context {W C A Σ : Type} (body : C -> Prog W A) (exec : C -> Σ -> option (A * Σ)) (stands : W -> Σ -> Prop).
Context (held : W -> bool) (allowed : C -> Prop).
Abbreviation Prog := (Prog W A).
Abbreviation Linearization := (Linearization exec).

(** A program inside: it holds the mutex until its last action. *)
Fixpoint Critical (p : Prog) : Prop :=
  match p with
  | Done _ => False
  | Act m k => forall w b w', held w = true -> m w = Some (b, w') ->
      held w' = true /\ Critical (k b) \/ held w' = false /\ exists a, k b = Done a
  end.

(** A call begins by taking the mutex, and does on its own what [exec] says. *)
Hypothesis body_waits : forall c w, allowed c -> held w = true -> prog_step (body c) w = None.
Hypothesis body_calls : forall c a, allowed c -> body c ≠ Done a.
Hypothesis body_enters : forall c w s p' w', allowed c -> held w = false -> stands w s -> prog_step (body c) w = Some (p', w') ->
  held w' = true /\ Critical p'
  /\ exists a s' w'', exec c s = Some (a, s') /\ run_alone p' w' = Some (a, w'') /\ stands w'' s'.

(** A call outside: it waits, or it is done. *)
Definition Outside (h : list (Event C A)) (l : list (nat * (C * A))) (i : nat) (c : C) (p : Prog) : Prop :=
  (Invoke i c ∈ h) /\ ((i ∉ l.*1) /\ p = body c \/ exists a, ((i, (c, a)) ∈ l) /\ p = Done a).

(** Nobody is inside; or one is, whose call has been counted as done already. *)
Inductive Guarded (s0 : Σ) (l : list (nat * (C * A))) (s : Σ) : Sched W C A -> Prop :=
  | guard_free w gs h : Linearization h s0 l s -> held w = false -> stands w s ->
      (forall i c p, gs !! i = Some (c, p) -> Outside h l i c p) -> Guarded s0 l s (MkSched w gs h)
  | guard_held w gs h i c p a w' : Linearization h s0 l s -> held w = true -> gs !! i = Some (c, p) -> Critical p ->
      Invoke i c ∈ h -> (i, (c, a)) ∈ l -> run_alone p w = Some (a, w') -> stands w' s ->
      (forall j d q, j ≠ i -> gs !! j = Some (d, q) -> Outside h l j d q) -> Guarded s0 l s (MkSched w gs h).

Lemma outside_event h l i c p e : Outside h l i c p -> Outside (h ++ [e]) l i c p.
Proof. intros [Hin Hp]. split; [set_solver|done]. Qed.

Lemma outside_effect h l i c p x : Outside h l i c p -> i ≠ x.1 -> Outside h (l ++ [x]) i c p.
Proof.
  intros [Hin [[Hi Hp]|(a & Ha & Hp)]] Hne; (split; [done|]); [left|right; exists a; set_solver].
  split; [|done]. rewrite fmap_app, elem_of_app. cbn. rewrite list_elem_of_singleton. by intros [|].
Qed.

Lemma fresh_call h s0 l s i : Linearization h s0 l s -> (forall c, Invoke i c ∉ h) -> i ∉ l.*1.
Proof. intros Hl Hnew ([j [d b]] & -> & Hj)%list_elem_of_fmap. by apply (Hnew d), (ln_called _ _ _ _ _ Hl _ _ b). Qed.

Lemma guarded_step s0 l s st st' : Guarded s0 l s st -> sched_step body (fun _ _ => False) st st' ->
  (forall i c, Invoke i c ∈ history st' -> allowed c) -> exists l' s', Guarded s0 l' s' st'.
Proof.
  intros Hg Hst Hall. destruct Hg as [w gs h Hl Hw Hs Ho|w gs h i0 c0 p0 a0 w0 Hl Hw Hi0 Hcr Hin Ha0 Hrun Hs Ho]; inversion Hst as
    [? ? ? i c Hnew|? ? ? i c p p' w' Hi Hp|? ? ? i c a Hi|? ? ? ? []]; subst; cbn in Hall.
  - exists l, s. apply guard_free; [apply lin_event; [done|by eapply fresh_call]|done|done|].
    intros j d q [[<- [= <- <-]]|[_ Hj]]%lookup_insert_Some; [|by apply outside_event, Ho].
    split; [set_solver|]. left. split; [by eapply fresh_call|done].
  - destruct (Ho i c p Hi) as [Hin [[Hil ->]|(a & _ & ->)]]; [|done].
    destruct (body_enters c w s p' w') as (Hw' & Hcr & a & s' & w'' & He & Hrun & Hs'); [by eapply Hall|done|done|done|].
    exists (l ++ [(i, (c, a))]), s'. eapply (guard_held _ _ _ w' _ h i c p' a w''); try done; [by eapply lin_effect|by rewrite lookup_insert_eq|set_solver|].
    intros j d q Hne. rewrite lookup_insert_ne by done. intros Hj. by apply outside_effect; [apply Ho|].
  - destruct (Ho i c (Done a) Hi) as [Hin [[_ Hb]|(a' & Ha & [= <-])]]; [symmetry in Hb; apply body_calls in Hb; [done|apply (Hall i); set_solver]|].
    exists l, s. apply guard_free; [apply lin_event; eauto|done|done|]. intros j d q [_ Hj]%lookup_delete_Some. by apply outside_event, Ho.
  - assert (i0 ≠ i) as Hne by by (intros ->; apply (Hnew c0)).
    exists l, s. eapply (guard_held _ _ _ w _ _ i0 c0 p0 a0 w0); try done;
      [apply lin_event; [done|by eapply fresh_call]|by rewrite lookup_insert_ne|set_solver|].
    intros j d q Hj [[<- [= <- <-]]|[_ Hjq]]%lookup_insert_Some; [|by apply outside_event, Ho].
    split; [set_solver|]. left. split; [by eapply fresh_call|done].
  - destruct (decide (i = i0)) as [->|Hne].
    + rewrite Hi0 in Hi. injection Hi as <- <-. pose proof (run_step _ _ _ _ Hp) as Hr. rewrite Hrun in Hr.
      destruct p0 as [|B m k]; [done|]. cbn in Hp. destruct (m w) as [[b w1]|] eqn:Em; [|done]. injection Hp as <- <-.
      destruct (Hcr w b w1 Hw Em) as [[Hw1 Hcr1]|[Hw1 [a1 Hd]]]; exists l, s.
      * eapply (guard_held _ _ _ w1 _ h i0 c0 (k b) a0 w0); try done; [by rewrite lookup_insert_eq|].
        intros j d q Hj. rewrite lookup_insert_ne by done. by apply Ho.
      * rewrite Hd in *. cbn in Hr. injection Hr as -> ->. apply guard_free; [done|done|done|].
        intros j d q [[<- [= <- <-]]|[Hj Hjq]]%lookup_insert_Some; [split; [done|]; right; eauto|by apply Ho].
    + destruct (Ho i c p) as [Hic [[_ ->]|(a & _ & ->)]]; [done|done| |done]. rewrite body_waits in Hp; [done|by eapply Hall|done].
  - assert (i ≠ i0) as Hne.
    { intros ->. rewrite Hi0 in Hi. injection Hi as <- ->. done. }
    destruct (Ho i c (Done a)) as [Hic [[_ Hb]|(a' & Ha & [= <-])]];
      [done|done|symmetry in Hb; apply body_calls in Hb; [done|apply (Hall i); set_solver]|].
    exists l, s. eapply (guard_held _ _ _ w _ _ i0 c0 p0 a0 w0); try done; [apply lin_event; eauto|by rewrite lookup_delete_ne|set_solver|].
    intros j d q Hj [_ Hjq]%lookup_delete_Some. by apply outside_event, Ho.
Qed.

(** Methods that hold one mutex throughout are linearizable. *)
Lemma mutex_linearizable w0 s0 st : held w0 = false -> stands w0 s0 -> rtc (sched_step body (fun _ _ => False)) (start w0) st ->
  (forall i c, Invoke i c ∈ history st -> allowed c) ->
  exists l s, Linearization (history st) s0 l s /\ (calls_open st = ∅ -> stands (swrld st) s).
Proof.
  intros Hw Hs Hr Hall. enough (exists l s, Guarded s0 l s st) as (l & s & Hg).
  { exists l, s. destruct Hg as [w gs h Hl|w gs h i c p a w' Hl ? Hi]; (split; [exact Hl|]); [done|].
    cbn. intros ->. by rewrite lookup_empty in Hi. }
  revert Hall. pattern st. revert st Hr. apply rtc_ind_r; [|intros st st' _ Hst IH]; intros Hall.
  - exists [], s0. apply guard_free; [|done|done|intros ? ? ?; by rewrite lookup_empty].
    split; [by apply NoDup_nil|constructor| | |]; intros; set_solver.
  - destruct (history_grows body (fun _ _ => False) st st' Hst) as [h Hh]. destruct IH as (l & s & Hg).
    + intros i c Hi. apply (Hall i). rewrite Hh. set_solver.
    + by eapply guarded_step.
Qed.
End Mutex.
