(* ===== verification/DiskRaces.v ===== *)
(** Goroutines that use one disk store (store_pebble.go).

    Only Incr takes the mutex of the store. Every other method is a sequence of
    calls of the database, which is safe for concurrent use, and of additions to
    the atomic counter, and other goroutines run in between. *)
From S2P Require Import Prelude GoLib Serializer Shard Store PebbleStore PebbleProofs Counters Goroutines.

(** The store and its mutex. *)
Record Disk (DB : Type) := MkDisk {
  dstore : PebbleStore DB;
  muHeld : bool;
}.
Arguments MkDisk {DB} dstore muHeld.
Arguments dstore {DB} d.
Arguments muHeld {DB} d.

Inductive DiskCall :=
  | DGet (key : string) (clk : Clock)
  | DSet (key : string) (value : bytes) (ttl : Duration) (clk : Clock)
  | DDelete (key : string)
  | DExists (key : string) (clk : Clock)
  | DTTL (key : string) (clk : Clock)
  | DIncr (key : string) (delta : Z) (defaultTTL : Duration) (clk : Clock).

Inductive DiskAnswer :=
  | RValue (v : option bytes)
  | RNothing
  | RBool (b : bool)
  | RDuration (d : Duration)
  | RIncr (r : result Z).

Section Programs.
Context {DB V T : Type} `{PebbleDB DB} `{Msgpack V T}.
Abbreviation Disk := (Disk DB).
Abbreviation Prog := (Prog Disk DiskAnswer).
Implicit Types (d : Disk).

(** ** Actions *)

Definition readDB (key : string) d : option (option bytes * Disk) := Some (db_Get (db (dstore d)) key, d).

Definition with_db (x : DB) d : Disk :=
  let p := dstore d in MkDisk (MkPebbleStore x (count p) (onEvict p) (onExpire p)) (muHeld d).

Definition writeDB (key : string) (raw : bytes) d : option (result unit * Disk) :=
  Some (match db_Set (db (dstore d)) key raw with Ok x => (Ok tt, with_db x d) | Err err => (Err err, d) end).

Definition deleteDB (key : string) d : option (result unit * Disk) :=
  Some (match db_Delete (db (dstore d)) key with Ok x => (Ok tt, with_db x d) | Err err => (Err err, d) end).

Definition countAdd (n : Z) d : option (unit * Disk) :=
  Some (tt, MkDisk (addCount n (db (dstore d)) (dstore d)) (muHeld d)).

(** Lock waits until the mutex is free. *)
Definition muLock d : option (unit * Disk) := if muHeld d then None else Some (tt, MkDisk (dstore d) true).
Definition muUnlock d : option (unit * Disk) := Some (tt, MkDisk (dstore d) false).

(** ** Methods *)

(** [p.db.Delete], whose error is dropped, and the count. *)
Definition dropExpired (key : string) (k : Prog) : Prog :=
  Act (deleteDB key) (fun _ => Act (countAdd (-1)) (fun _ => k)).

Definition diskGet (key : string) (clk : Clock) : Prog :=
  Act (readDB key) (fun raw =>
    match raw with
    | None => Done (RValue None)
    | Some raw =>
        let '(value, expiresAt) := decode raw in
        if isExpired expiresAt (clk 0%nat) then dropExpired key (Done (RValue None)) else Done (RValue (Some value))
    end).

Definition diskSet (key : string) (value : bytes) (ttl : Duration) (clk : Clock) : Prog :=
  Act (readDB key) (fun old =>
    Act (writeDB key (encode value ttl (clk 0%nat))) (fun r =>
      match r, old with
      | Ok _, None => Act (countAdd 1) (fun _ => Done RNothing)
      | _, _ => Done RNothing
      end)).

Definition diskDelete (key : string) : Prog :=
  Act (readDB key) (fun raw =>
    match raw with
    | None => Done (RBool false)
    | Some _ =>
        Act (deleteDB key) (fun r =>
          match r with
          | Err _ => Done (RBool false)
          | Ok _ => Act (countAdd (-1)) (fun _ => Done (RBool true))
          end)
    end).

Definition diskExists (key : string) (clk : Clock) : Prog :=
  Act (readDB key) (fun raw =>
    match raw with
    | None => Done (RBool false)
    | Some raw =>
        let '(_, expiresAt) := decode raw in
        if isExpired expiresAt (clk 0%nat) then dropExpired key (Done (RBool false)) else Done (RBool true)
    end).

Definition diskTTL (key : string) (clk : Clock) : Prog :=
  Act (readDB key) (fun raw =>
    match raw with
    | None => Done (RDuration 0)
    | Some raw =>
        let '(_, expiresAtNano) := decode raw in
        if expiresAtNano =? 0 then Done (RDuration (-1))
        else
          let remaining := Until (Unix0 expiresAtNano) (clk 1%nat) in
          if remaining <=? 0 then dropExpired key (Done (RDuration 0)) else Done (RDuration remaining)
    end).

(** The end of Incr, and [defer p.mu.Unlock()]. *)
Definition unlocking (r : result Z) : Prog := Act muUnlock (fun _ => Done (RIncr r)).

Definition diskIncrWrite (key : string) (current delta : Z) (ttl : Duration) (clk : Clock) : Prog :=
  let current := int64 (current + delta) in
  match Serialize (GInt64 current) with
  | Err err => unlocking (Err err)
  | Ok newValue =>
      Act (readDB key) (fun old =>
      Act (writeDB key (encode newValue ttl (clk 3%nat))) (fun r =>
        match r with
        | Err err => unlocking (Err err)
        | Ok _ => match old with Some _ => unlocking (Ok current) | None => Act (countAdd 1) (fun _ => unlocking (Ok current)) end
        end))
  end.

(** Between [p.mu.Lock()] and the deferred [p.mu.Unlock()]. *)
Definition diskIncrLocked (key : string) (delta : Z) (defaultTTL : Duration) (clk : Clock) : Prog :=
  Act (readDB key) (fun raw =>
    match raw with
    | Some raw =>
        let '(value, expiresAtNano) := decode raw in
        if negb (isExpired expiresAtNano (clk 0%nat)) then
          match Deserialize value DInt64 with
          | Ok (GInt64 current) =>
              let ttl :=
                if negb (expiresAtNano =? 0) then
                  let remaining := Until (Unix0 expiresAtNano) (clk 2%nat) in
                  if remaining >? 0 then remaining else 0
                else 0 in
              diskIncrWrite key current delta ttl clk
          | Ok _ => unlocking (Err (ErrExternal "unreachable: the destination is an int64"))
          | Err err => unlocking (Err err)
          end
        else Act (countAdd (-1)) (fun _ => diskIncrWrite key 0 delta defaultTTL clk)
    | None => diskIncrWrite key 0 delta defaultTTL clk
    end).

Definition diskIncr (key : string) (delta : Z) (defaultTTL : Duration) (clk : Clock) : Prog :=
  Act muLock (fun _ => diskIncrLocked key delta defaultTTL clk).

Definition diskProgram (c : DiskCall) : Prog :=
  match c with
  | DGet key clk => diskGet key clk
  | DSet key value ttl clk => diskSet key value ttl clk
  | DDelete key => diskDelete key
  | DExists key clk => diskExists key clk
  | DTTL key clk => diskTTL key clk
  | DIncr key delta ttl clk => diskIncr key delta ttl clk
  end.

(** The methods as [PebbleStore] has them. *)
Definition diskMethod (c : DiskCall) (p : PebbleStore DB) : DiskAnswer * PebbleStore DB :=
  match c with
  | DGet key clk => let '(v, p') := PebbleStore_Get key clk p in (RValue v, p')
  | DSet key value ttl clk => (RNothing, PebbleStore_Set key value ttl clk p)
  | DDelete key => let '(b, p') := PebbleStore_Delete key p in (RBool b, p')
  | DExists key clk => let '(b, p') := PebbleStore_Exists key clk p in (RBool b, p')
  | DTTL key clk => let '(x, p') := PebbleStore_TTL key clk p in (RDuration x, p')
  | DIncr key delta ttl clk => let '(r, p') := PebbleStore_Incr key delta ttl clk p in (RIncr r, p')
  end.

Lemma dropExpired_alone key k p b : run_alone (dropExpired key k) (MkDisk p b) = run_alone k (MkDisk (deleteAndCount key p) b).
Proof. unfold dropExpired, deleteAndCount. cbn. by destruct (db_Delete (db p) key). Qed.

Lemma diskIncrWrite_alone key current delta ttl clk p :
  run_alone (diskIncrWrite key current delta ttl clk) (MkDisk p true)
  = let '(r, p') := Incr_write key current delta ttl clk p in Some (RIncr r, MkDisk p' false).
Proof.
  unfold diskIncrWrite, Incr_write. cbv zeta. destruct (Serialize (GInt64 (int64 (current + delta)))) as [v|]; [|done].
  cbn. destruct (db_Set (db p) key _); [|done]. by destruct (db_Get (db p) key).
Qed.

(** With nobody else around, a program does what its method does. *)
Lemma diskProgram_alone c p :
  run_alone (diskProgram c) (MkDisk p false) = let '(a, p') := diskMethod c p in Some (a, MkDisk p' false).
Proof.
  destruct c as [key clk|key value ttl clk|key|key clk|key clk|key delta ttl clk]; cbn [diskProgram diskMethod].
  - unfold diskGet, PebbleStore_Get. cbn. destruct (db_Get (db p) key) as [raw|]; [|done]. destruct (decode raw) as [v x].
    destruct (isExpired x (clk 0%nat)); [|done]. apply dropExpired_alone.
  - unfold diskSet, PebbleStore_Set. cbn. destruct (db_Set (db p) key _); [|done]. by destruct (db_Get (db p) key).
  - unfold diskDelete, PebbleStore_Delete. cbn. destruct (db_Get (db p) key); [|done]. cbn. by destruct (db_Delete (db p) key).
  - unfold diskExists, PebbleStore_Exists. cbn. destruct (db_Get (db p) key) as [raw|]; [|done]. destruct (decode raw) as [v x].
    destruct (isExpired x (clk 0%nat)); [|done]. apply dropExpired_alone.
  - unfold diskTTL, PebbleStore_TTL. cbn. destruct (db_Get (db p) key) as [raw|]; [|done]. destruct (decode raw) as [v x].
    destruct (x =? 0); [done|]. cbv zeta. destruct (_ <=? 0); [|done]. apply dropExpired_alone.
  - unfold diskIncr, diskIncrLocked, PebbleStore_Incr. cbn. destruct (db_Get (db p) key) as [raw|]; [|rewrite diskIncrWrite_alone; by destruct (Incr_write _ _ _ _ _ _)].
    destruct (decode raw) as [v x]. destruct (negb (isExpired x (clk 0%nat))).
    + destruct (UnmarshalInt64 v) as [z|]; [|done]. rewrite diskIncrWrite_alone. by destruct (Incr_write _ _ _ _ _ _).
    + cbn. rewrite diskIncrWrite_alone. by destruct (Incr_write _ _ _ _ _ _).
Qed.
End Programs.

(** ** While nothing expires *)

Section Linearizable.
Context {DB V T : Type} `{PebbleLaws DB} `{Msgpack V T}.
Context (deadline : Z).
Implicit Types (d : Disk DB) (m : gmap string bytes).

(** The store as a map of raw values that does every call at once. *)
Definition diskAtomic (c : DiskCall) m : option (DiskAnswer * gmap string bytes) :=
  match c with
  | DGet key _ => Some (RValue ((fun raw => (decode raw).1) <$> m !! key), m)
  | DSet key value ttl clk => Some (RNothing, <[key := encode value ttl (clk 0%nat)]> m)
  | DExists key _ => Some (RBool (bool_decide (is_Some (m !! key))), m)
  | _ => None
  end.

(** A value that does not expire before [deadline], in nanoseconds since 1970. *)
Definition lasting (raw : bytes) : Prop := (decode raw).2 = 0 \/ deadline <= (decode raw).2.

(** Calls of Get, Exists and Set that are made before [deadline] and store values
    that last. *)
Definition Lasts (c : DiskCall) : Prop :=
  match c with
  | DGet _ clk | DExists _ clk => UnixNano (clk 0%nat) <= deadline
  | DSet _ value ttl clk => lasting (encode value ttl (clk 0%nat))
  | _ => False
  end.

Definition Holds d m : Prop := db_ok (db (dstore d)) /\ pairs (db (dstore d)) = m /\ map_Forall (fun _ => lasting) m.

Lemma lasting_live raw clk : lasting raw -> UnixNano (clk 0%nat) <= deadline -> isExpired (decode raw).2 (clk 0%nat) = false.
Proof.
  intros Hl Ht. unfold isExpired. destruct Hl as [-> |Hl]; [done|]. destruct (_ =? 0); [done|]. cbn.
  rewrite Z.gtb_ltb. apply Z.ltb_ge. lia.
Qed.

Lemma disk_poised c : Lasts c -> Poised diskAtomic Holds c (diskProgram c).
Proof.
  destruct c as [key clk|key value ttl clk|key|key clk|key clk|key delta ttl clk]; cbn [Lasts diskProgram]; try done; intros Ht.
  - intros d m raw d' (Hok & Hm & Hall) [= <- <-]. right. eexists _, m. split; [reflexivity|]. split; [done|].
    rewrite db_Get_spec, Hm by done. destruct (m !! key) as [raw|] eqn:E; [|done]. cbn.
    pose proof (lasting_live raw clk (Hall _ _ E) Ht) as Hx. destruct (decode raw) as [v x]. cbn in Hx. by rewrite Hx.
  - intros d m old d' Hd [= <- <-]. left. split; [done|]. generalize (db_Get (db (dstore d)) key). intros old. clear d m Hd.
    intros d m r d' (Hok & Hm & Hall). unfold writeDB. set (raw := encode value ttl (clk 0%nat)) in *.
    destruct (db_Set_spec (db (dstore d)) key raw Hok) as (x & -> & Hok' & Hx). intros [= <- <-]. right.
    eexists _, _. split; [reflexivity|]. split; [split_and!; [done|by rewrite <- Hm|]|].
    + by apply map_Forall_insert_2.
    + destruct old; [done|]. intros d1 m1 [] d1' Hd1 [= <-]. by split.
  - intros d m raw d' (Hok & Hm & Hall) [= <- <-]. right. eexists _, m. split; [reflexivity|]. split; [done|].
    rewrite db_Get_spec, Hm by done. destruct (m !! key) as [raw|] eqn:E; [|done]. cbn.
    pose proof (lasting_live raw clk (Hall _ _ E) Ht) as Hx. destruct (decode raw) as [v x]. cbn in Hx. by rewrite Hx.
Qed.

(** C23: the disk store is linearizable while nothing expires. Goroutines call Get,
    Exists and Set at any time before some deadline, and neither what is stored
    at the start nor what they store expires before it. Then there is an order of
    the calls, which respects the order of calls that do not overlap, in which
    the store, as a map, gives the same answers and ends with the same values. *)
Theorem disk_linearizable (d0 : Disk DB) st :
  db_ok (db (dstore d0)) -> map_Forall (fun _ => lasting) (pairs (db (dstore d0))) ->
  rtc (sched_step diskProgram (fun _ _ => False)) (start d0) st ->
  (forall i c, Invoke i c ∈ history st -> Lasts c) ->
  exists l m, Linearization diskAtomic (history st) (pairs (db (dstore d0))) l m
    /\ pairs (db (dstore (swrld st))) = m.
Proof.
  intros Hok Hall Hr Hc.
  destruct (linearizable diskProgram (fun _ _ => False) diskAtomic Holds Lasts disk_poised) with (w0 := d0)
    (s0 := pairs (db (dstore d0))) (st := st) as (l & m & Hl & _ & Hm & _); try done. by exists l, m.
Qed.
End Linearizable.

(** ** Incr *)

Section Increments.
Context {DB V T : Type} `{PebbleLaws DB} `{MsgpackLaws V T}.
Implicit Types (p : PebbleStore DB).

Definition is_incr (c : DiskCall) : Prop := match c with DIncr _ _ _ _ => True | _ => False end.

(** The store, when the mutex is free. *)
Definition Unlocked (d : Disk DB) p : Prop := muHeld d = false /\ dstore d = p.

Lemma unlocking_critical r : Critical muHeld (unlocking (DB := DB) r).
Proof. intros d u d' Hd [= _ <-]. right. eauto. Qed.

Lemma write_critical key current delta ttl clk : Critical muHeld (diskIncrWrite (DB := DB) key current delta ttl clk).
Proof.
  unfold diskIncrWrite. cbv zeta. destruct (Serialize _) as [v|]; [|apply unlocking_critical].
  intros d old d' Hd [= <- <-]. left. split; [done|]. generalize (db_Get (db (dstore d)) key). intros old. clear d Hd.
  intros d r d' Hd Hw. left. unfold writeDB in Hw.
  destruct (db_Set _ _ _) as [x|err]; injection Hw as <- <-; (split; [done|]); [|apply unlocking_critical].
  destruct old; [apply unlocking_critical|]. clear d Hd x. intros d u d' Hd [= _ <-]. left. split; [done|apply unlocking_critical].
Qed.

Lemma incr_critical key delta ttl clk : Critical muHeld (diskIncrLocked (DB := DB) key delta ttl clk).
Proof.
  intros d raw d' Hd [= <- <-]. left. split; [done|]. destruct (db_Get _ _) as [raw|]; [|apply write_critical].
  destruct (decode raw) as [v x]. destruct (negb _).
  - destruct (Deserialize v DInt64) as [[b|z|y]|]; [apply unlocking_critical|apply write_critical|apply unlocking_critical..].
  - clear d Hd. intros d u d' Hd [= _ <-]. left. split; [done|apply write_critical].
Qed.

Lemma incr_enters c d p q d' : is_incr c -> muHeld d = false -> Unlocked d p -> prog_step (diskProgram c) d = Some (q, d') ->
  muHeld d' = true /\ Critical muHeld q
  /\ exists a p' d'', Some (diskMethod c p) = Some (a, p') /\ run_alone q d' = Some (a, d'') /\ Unlocked d'' p'.
Proof.
  intros Hc Hd [_ <-] Hs. pose proof (run_step _ _ _ _ Hs) as Hr. pose proof (diskProgram_alone c (dstore d)) as Ha.
  destruct c as [| | | | |key delta ttl clk]; try done. destruct d as [p []]; [done|]. cbn in Hs. injection Hs as <- <-.
  split; [done|]. split; [apply incr_critical|]. cbn [dstore] in Ha |- *. rewrite Ha in Hr.
  destruct (diskMethod _ p) as [a p']. exists a, p', (MkDisk p' false). split; [done|]. by split.
Qed.

(** The sum of what the calls of [l] add to a key. *)
Definition delta_of (key : string) (c : DiskCall) : Z :=
  match c with DIncr k delta _ _ => if String.eqb k key then delta else 0 | _ => 0 end.
Definition added (key : string) (l : list (nat * (DiskCall * DiskAnswer))) : Z := sumZ (fun x => delta_of key x.2.1) l.

#[local] Existing Instance disk_laws.

Lemma incr_counter c p a p' key z : is_incr c -> diskMethod c p = (a, p') -> PebbleOk p -> counter p key z -> is_int64 z ->
  PebbleOk p' /\ counter p' key (int64 (z + delta_of key c)).
Proof.
  intros Hc Hm Hp Hz Hr. destruct c as [| | | | |k delta ttl clk]; try done. cbn [diskMethod delta_of] in Hm |- *.
  destruct (disk_Incr p k delta ttl clk Hp) as (Hok & Hfr & Hcn & _). destruct (PebbleStore_Incr k delta ttl clk p) as [r q].
  injection Hm as _ <-. cbn [fst snd] in *. split; [done|]. destruct (String.eqb_spec k key) as [->|Hne]; [by apply Hcn|].
  rewrite Z.add_0_r, int64_id by done. destruct Hz as (b & Hv & Hu). exists b. split; [|done].
  change (pview q key = Some (b, 0)). rewrite Hfr by done. exact Hv.
Qed.

Lemma legal_counter p l p' key z : legal (fun c p => Some (diskMethod c p)) p l p' -> Forall (fun x => is_incr x.2.1) l ->
  PebbleOk p -> counter p key z -> is_int64 z -> PebbleOk p' /\ counter p' key (int64 (z + added key l)).
Proof.
  intros Hl. revert z. induction Hl as [p|p i c a p1 l p' He Hl IH]; intros z Hall Hp Hz Hr.
  - cbn. by rewrite Z.add_0_r, int64_id.
  - apply Forall_cons in Hall as [Hc Hall]. injection He as He. destruct (incr_counter c p a p1 key z Hc He Hp Hz Hr) as [Hp1 Hz1].
    destruct (IH _ Hall Hp1 Hz1 (int64_range _)) as [Hp' Hz']. split; [done|].
    replace (int64 (z + added key ((i, (c, a)) :: l))) with (int64 (int64 (z + delta_of key c) + added key l)); [done|].
    rewrite int64_add_l. f_equal. unfold added, sumZ. cbn [foldr snd fst]. lia.
Qed.

(** C22: no increment is lost. Goroutines call Incr on the disk store at any time, and
    nothing else; the mutex makes the calls take effect one after the other, in
    an order that respects the order of calls that do not overlap. When none is
    under way, a counter has grown by the sum of what they added to it. *)
Theorem disk_incr_no_lost_update p key z st :
  PebbleOk p -> counter p key z -> is_int64 z ->
  rtc (sched_step diskProgram (fun _ _ => False)) (start (MkDisk p false)) st ->
  (forall i c, Invoke i c ∈ history st -> is_incr c) -> calls_open st = ∅ ->
  exists l, Linearization (fun c p => Some (diskMethod c p)) (history st) p l (dstore (swrld st))
    /\ counter (dstore (swrld st)) key (int64 (z + added key l)).
Proof.
  intros Hp Hz Hr Hs Hall Hdone.
  destruct (mutex_linearizable diskProgram (fun c p => Some (diskMethod c p)) Unlocked muHeld is_incr) with (w0 := MkDisk p false)
    (s0 := p) (st := st) as (l & q & Hl & Hq); try done.
  - intros c [q []] Hc Hd; [by destruct c|discriminate Hd].
  - intros c a Hc. by destruct c.
  - exact incr_enters.
  - destruct (Hq Hdone) as [_ ->]. exists l. split; [exact Hl|]. eapply legal_counter; [apply Hl| |done|done|done].
    apply Forall_forall. intros [i [c a]] Hi. by eapply Hall, (ln_called _ _ _ _ _ Hl).
Qed.
End Increments.

(** ** Races *)

Section Races.
Context {DB V T : Type} `{PebbleLaws DB} `{Msgpack V T}.
Abbreviation disk_step := (sched_step (diskProgram (DB := DB)) (fun _ _ => False)).

(** One move of a schedule. *)
Ltac invoke_as i c := eapply rtc_l; [apply (ss_invoke _ _ _ _ _ i c); intros ?; set_solver|]; cbn [app diskProgram].
Ltac act_as i := eapply rtc_l; [eapply (ss_act _ _ _ _ _ i); [simplify_map_eq; reflexivity|]|]; [unfold prog_step|].
Ltac return_as i := eapply rtc_l; [eapply (ss_return _ _ _ _ _ i); simplify_map_eq; reflexivity|]; cbn [app].

(** A read can delete a write. A Get that has found a value expired deletes the
    key without looking again. When another goroutine has set the key in
    between, the new value is gone, although its Set has returned and it has not
    expired. The memory store looks again under its lock. *)
Theorem disk_get_deletes_write (p : PebbleStore DB) key raw value ttl clkG clkS :
  db_ok (db p) -> pairs (db p) !! key = Some raw -> isExpired (decode raw).2 (clkG 0%nat) = true ->
  exists st, rtc disk_step (start (MkDisk p false)) st
    /\ history st = [Invoke 0 (DGet key clkG); Invoke 1 (DSet key value ttl clkS); Return 1 RNothing; Return 0 (RValue None)]
    /\ pairs (db (dstore (swrld st))) !! key = None.
Proof.
  intros Hok Hraw Hx. destruct (db_Set_spec (db p) key (encode value ttl (clkS 0%nat)) Hok) as (d1 & Hs & Hok1 & Hp1).
  destruct (db_Delete_spec d1 key Hok1) as (d2 & Hd & Hok2 & Hp2).
  assert (db_Get (db p) key = Some raw) as Hg by by rewrite db_Get_spec.
  destruct (decode raw) as [v x] eqn:Ed. cbn in Hx.
  eexists (MkSched _ _ _). split; [|split].
  - invoke_as 0%nat (DGet key clkG). act_as 0%nat. { unfold readDB. cbn. rewrite Hg, Ed, Hx. reflexivity. }
    invoke_as 1%nat (DSet key value ttl clkS). act_as 1%nat. { unfold diskSet, readDB. cbn [dstore]. rewrite Hg. reflexivity. }
    act_as 1%nat. { unfold writeDB. cbn [dstore]. rewrite Hs. reflexivity. }
    return_as 1%nat. act_as 0%nat. { unfold deleteDB. cbn. rewrite Hd. reflexivity. }
    act_as 0%nat; [reflexivity|]. return_as 0%nat. apply rtc_refl.
  - reflexivity.
  - cbn. by rewrite Hp2, lookup_delete_eq.
Qed.
End Races.

(** ** Examples and witnesses *)

#[local] Existing Instance map_db.
#[local] Existing Instance map_db_laws.
#[local] Existing Instance tagged_msgpack.

Definition dr_empty : Disk (gmap string bytes) := MkDisk w_pebble false.
(** "hits" has a counter that has expired at [w_later]. *)
Definition dr_old : Disk (gmap string bytes) := MkDisk w_pebble1 false.
Abbreviation dr_program := (diskProgram (DB := gmap string bytes)).
Definition dr_set : DiskCall := DSet "k" [Byte.x01] 0 w_clk.
Definition dr_hits (z : Z) : bytes := match Serialize (GInt64 z : GoValue Empty_set) with Ok b => b | Err _ => [] end.

(** The count drifts. Two goroutines that set a new key at the same time both
    count it; two that find the same key expired both take it off. *)
Theorem disk_count_races :
  let final ms d := (fun st => let p := dstore (swrld st) in (count p, Z.of_nat (size (db p)))) <$> schedule dr_program ms (start d) in
  final [MInvoke 0 dr_set; MInvoke 1 dr_set; MAct 0; MAct 1; MAct 0; MAct 1; MAct 0; MAct 1; MReturn 0; MReturn 1] dr_empty
    = Some (2, 1)
  /\ final [MInvoke 0 (DGet "hits" w_later); MInvoke 1 (DExists "hits" w_later); MAct 0; MAct 1; MAct 0; MAct 0; MAct 1; MAct 1;
            MReturn 0; MReturn 1] dr_old = Some (-1, 0).
Proof. vm_compute. by split. Qed.

(** Incr can undo a Set. The mutex is taken by Incr alone: a Set between the read
    and the write of an Incr has returned, and its value is gone, as if it had
    been before; yet the answer of Incr does not count from it. *)
Theorem disk_incr_undoes_set :
  let incr := DIncr "hits" 1 0 w_clk in let set_ := DSet "hits" (dr_hits 100) 0 w_clk in
  let final ms := (fun st => (history st, decode <$> db (dstore (swrld st)) !! "hits")) <$> schedule dr_program ms (start dr_empty) in
  final [MInvoke 0 incr; MAct 0; MAct 0; MInvoke 1 set_; MAct 1; MAct 1; MAct 1; MReturn 1; MAct 0; MAct 0; MAct 0; MReturn 0]
    = Some ([Invoke 0 incr; Invoke 1 set_; Return 1 RNothing; Return 0 (RIncr (Ok 1))], Some (dr_hits 1, 0)).
Proof. vm_compute. reflexivity. Qed.

Lemma disk_get_deletes_write_witness :
  exists st, rtc (sched_step dr_program (fun _ _ => False)) (start dr_old) st
    /\ history st = [Invoke 0 (DGet "hits" w_later); Invoke 1 (DSet "hits" [Byte.x01] 0 w_later); Return 1 RNothing; Return 0 (RValue None)]
    /\ pairs (db (dstore (swrld st))) !! "hits" = None.
Proof.
  apply (disk_get_deletes_write w_pebble1 "hits" (encode (dr_hits 7) (30 * Second) w_now) [Byte.x01] 0 w_later w_later).
  - exact I.
  - vm_compute. reflexivity.
  - vm_compute. reflexivity.
Defined.

Definition dr_moves : list (Move (C := DiskCall)) :=
  [MInvoke 0 dr_set; MAct 0; MInvoke 1 (DGet "k" w_clk); MAct 0; MAct 1; MReturn 1; MAct 0; MReturn 0].

Lemma dr_reached : exists st, schedule dr_program dr_moves (start dr_empty) = Some st
  /\ history st = [Invoke 0 dr_set; Invoke 1 (DGet "k" w_clk); Return 1 (RValue (Some [Byte.x01])); Return 0 RNothing].
Proof. eexists. split; [vm_compute; reflexivity|reflexivity]. Qed.

Lemma disk_linearizable_witness : exists l m,
  Linearization diskAtomic [Invoke 0 dr_set; Invoke 1 (DGet "k" w_clk); Return 1 (RValue (Some [Byte.x01])); Return 0 RNothing] ∅ l m.
Proof.
  destruct dr_reached as (st & Hst & Hh). rewrite <- Hh.
  destruct (disk_linearizable (UnixNano w_now) dr_empty st) as (l & m & Hl & _).
  - exact I.
  - intros k raw Hk. cbn in Hk. by rewrite lookup_empty in Hk.
  - by apply schedule_steps with (ms := dr_moves).
  - intros i c. rewrite Hh, !elem_of_cons, elem_of_nil. intros [[= -> ->]|[[= -> ->]|[[=]|[[=]|[]]]]]; [by left|apply Z.le_refl].
  - by exists l, m.
Defined.

#[local] Existing Instance tagged_msgpack_laws.
#[local] Existing Instance disk_laws.

(** "c" has the counter 5. *)
Definition dr_counter : PebbleStore (gmap string bytes) := (PebbleStore_Incr "c" 5 0 w_clk w_pebble).2.
Definition dr_incr (delta : Z) : DiskCall := DIncr "c" delta 0 w_clk.

(** The second call comes when the first holds the mutex. *)
Definition dr_incrs : list (Move (C := DiskCall)) :=
  [MInvoke 0 (dr_incr 1); MAct 0; MInvoke 1 (dr_incr 2)] ++ replicate 4 (MAct 0) ++ [MReturn 0] ++ replicate 5 (MAct 1) ++ [MReturn 1].

Lemma dr_incrs_reached : exists st, schedule dr_program dr_incrs (start (MkDisk dr_counter false)) = Some st
  /\ history st = [Invoke 0 (dr_incr 1); Invoke 1 (dr_incr 2); Return 0 (RIncr (Ok 6)); Return 1 (RIncr (Ok 8))]
  /\ calls_open st = ∅.
Proof. eexists. split; [vm_compute; reflexivity|split; reflexivity]. Qed.

Lemma disk_incr_no_lost_update_witness : exists st l,
  history st = [Invoke 0 (dr_incr 1); Invoke 1 (dr_incr 2); Return 0 (RIncr (Ok 6)); Return 1 (RIncr (Ok 8))]
  /\ Linearization (fun c p => Some (diskMethod c p)) (history st) dr_counter l (dstore (swrld st))
  /\ counter (dstore (swrld st)) "c" (int64 (5 + added "c" l)).
Proof.
  destruct dr_incrs_reached as (st & Hst & Hh & Ho).
  destruct (disk_incr_no_lost_update dr_counter "c" 5 st) as (l & Hl & Hc).
  - exact I.
  - exists (dr_hits 5). split; vm_compute; reflexivity.
  - clear. unfold is_int64. lia.
  - exact (schedule_steps _ _ _ _ _ Hst).
  - intros i c. rewrite Hh, !elem_of_cons, elem_of_nil. clear. intros [[= -> ->]|[[= -> ->]|[[=]|[[=]|[]]]]]; exact I.
  - exact Ho.
  - exists st, l. split; [exact Hh|]. split; [exact Hl|exact Hc].
Defined.
