(* ===== verification/GlobProofs.v ===== *)
(** Termination of [path_Match], and its equivalence with the relation [Glob] on
    patterns of literals, stars and question marks. *)
From S2P Require Import Prelude GoLib Glob.

(** ** Termination *)

Lemma DecodeRune_width s : s ≠ [] -> (1 <= (DecodeRune s).2)%nat.
Proof. destruct s; [done|]. intros _. cbn. split_matches; simpl; lia. Qed.

Lemma getEsc_shorter chunk r rest :
  getEsc chunk = Some (r, rest) -> (length rest < length chunk)%nat.
Proof.
  destruct chunk as [|c chunk]; [done|]. unfold getEsc.
  assert (forall s, s ≠ [] -> (let '(r, n) := DecodeRune s in
      if (r =? RuneError) && (n =? 1)%nat then None
      else match drop n s with [] => None | rest => Some (r, rest) end) = Some (r, rest) ->
      (length rest < length s)%nat) as Hdec.
  { intros s Hs. pose proof (DecodeRune_width s Hs) as Hw.
    destruct (DecodeRune s) as [r' n]; simpl in *. destruct (_ && _); [done|].
    pose proof (length_drop s n) as Hl. destruct (drop n s) as [|x l]; [done|].
    intros [= <- <-]. destruct s; [done|]. simpl in *. lia. }
  destruct (_ || _); [done|]. destruct (c =? c_esc).
  - destruct chunk as [|d chunk]; [done|]. intros H. apply Hdec in H; [|done]. simpl in *. lia.
  - intros H. by apply Hdec in H.
Qed.

Lemma classLoop_total fuel r chunk m first :
  (length chunk < fuel)%nat ->
  match classLoop fuel r chunk m first with
  | ClassOutOfFuel => False
  | ClassBad => True
  | ClassEnd _ rest => (length rest <= length chunk)%nat
  end.
Proof.
  revert chunk m first. induction fuel as [|fuel IH]; intros chunk m first Hl; [lia|].
  cbn [classLoop].
  assert (match (match getEsc chunk with
          | None => ClassBad
          | Some (lo, chunk1) =>
              match match chunk1 with 45 :: chunk2 => getEsc chunk2 | _ => Some (lo, chunk1) end with
              | None => ClassBad
              | Some (hi, chunk2) => classLoop fuel r chunk2 (m || between lo r hi) false
              end
          end) with
    | ClassOutOfFuel => False | ClassBad => True
    | ClassEnd _ rest => (length rest <= length chunk)%nat end) as Hgen.
  { destruct (getEsc chunk) as [[lo chunk1]|] eqn:E1; [|done]. apply getEsc_shorter in E1.
    destruct (match chunk1 with 45 :: _ => _ | _ => _ end) as [[hi chunk2]|] eqn:E2; [|done].
    assert (length chunk2 <= length chunk1)%nat as H2.
    { clear IH Hl E1. split_matches; simpl in *; try lia;
        apply getEsc_shorter in E2; lia. }
    specialize (IH chunk2 (m || between lo r hi) false ltac:(lia)).
    destruct (classLoop _ _ _ _ _); auto. lia. }
  clear IH. revert Hgen.
  match goal with |- context [match getEsc chunk with _ => _ end] =>
    generalize (match getEsc chunk with
      | None => ClassBad
      | Some (lo, chunk1) =>
          match match chunk1 with 45 :: chunk2 => getEsc chunk2 | _ => Some (lo, chunk1) end with
          | None => ClassBad
          | Some (hi, chunk2) => classLoop fuel r chunk2 (m || between lo r hi) false
          end
      end) end.
  intros rest Hgen. split_matches; simpl in *; auto.
Qed.

Lemma matchChunkLoop_total fuel chunk s failed :
  (length chunk < fuel)%nat -> matchChunkLoop fuel chunk s failed ≠ OutOfFuel.
Proof.
  revert chunk s failed. induction fuel as [|fuel IH]; intros chunk s failed Hl; [lia|].
  destruct chunk as [|c chunk]; cbn [matchChunkLoop].
  { by destruct failed. }
  simpl in Hl. set (f := failed || _). destruct (c =? c_open).
  - destruct (if f then _ else _) as [r s1].
    assert (length (classNegated chunk).2 <= length chunk)%nat as H1.
    { destruct chunk as [|d chunk]; simpl; [lia|]. destruct (d =? _); simpl; lia. }
    destruct (classNegated chunk) as [negated chunk1]; simpl in H1.
    pose proof (classLoop_total fuel r chunk1 false true ltac:(lia)).
    destruct (classLoop _ _ _ _ _); try done. apply IH. lia.
  - destruct (c =? c_quest); [destruct f; apply IH; lia|].
    destruct (c =? c_esc); [|destruct f; apply IH; lia].
    destruct chunk; [done|]. simpl in Hl. destruct f; apply IH; lia.
Qed.

Lemma matchChunk_total chunk s : matchChunk chunk s ≠ OutOfFuel.
Proof. apply matchChunkLoop_total. lia. Qed.

Lemma skipMatch_total chunk name last : skipMatch chunk name last ≠ OutOfFuel.
Proof.
  induction name as [|c name IH]; [done|]. cbn [skipMatch].
  pose proof (matchChunk_total chunk name). split_matches; done.
Qed.

Lemma skipStars_length p :
  (length (skipStars p).2 <= length p)%nat
  /\ ((skipStars p).1 = true -> (length (skipStars p).2 < length p)%nat).
Proof.
  induction p as [|c p [IH _]]; simpl; [lia|].
  destruct (c =? c_star); simpl; lia.
Qed.

(** Every chunk takes something away from the pattern. *)
Lemma scanChunk_progress p star chunk rest :
  p ≠ [] -> scanChunk p = (star, chunk, rest) -> (length rest < length p)%nat.
Proof.
  unfold scanChunk. intros Hp H. pose proof (skipStars_length p) as [H1 H2].
  destruct (skipStars p) as [star' q] eqn:E. simplify_eq. simpl in *.
  rewrite length_drop. destruct star; [specialize (H2 eq_refl); lia|].
  destruct p as [|c p]; [done|]. simpl in E. destruct (c =? c_star) eqn:Ec; [done|].
  simplify_eq. simpl. rewrite Ec. simpl. split_matches; simpl; lia.
Qed.

Lemma checkRest_total fuel p : (length p < fuel)%nat -> checkRest fuel p ≠ Diverges.
Proof.
  revert p. induction fuel as [|fuel IH]; intros p Hl; [lia|].
  cbn [checkRest]. destruct p as [|c p]; [done|].
  destruct (scanChunk (c :: p)) as [[star chunk] rest] eqn:E.
  apply scanChunk_progress in E; [|done].
  pose proof (matchChunk_total chunk []).
  destruct (matchChunk chunk []); try done; apply IH; lia.
Qed.

Lemma matchLoop_total fuel p name : (length p < fuel)%nat -> matchLoop fuel p name ≠ Diverges.
Proof.
  revert p name. induction fuel as [|fuel IH]; intros p name Hl; [lia|].
  cbn [matchLoop]. destruct p as [|c p]; [done|].
  destruct (scanChunk (c :: p)) as [[star chunk] rest] eqn:E.
  apply scanChunk_progress in E; [|done].
  pose proof (matchChunk_total chunk name).
  pose proof (skipMatch_total chunk name (bool_decide (rest = []))).
  pose proof (checkRest_total fuel rest ltac:(lia)).
  split_matches; try done; apply IH; lia.
Qed.

(** For every pattern, well-formed or not, and every name, the loops end with a
    verdict or with ErrBadPattern. *)
Lemma path_Match_terminates pattern name : path_Match pattern name ≠ Diverges.
Proof. apply matchLoop_total. lia. Qed.

(** ** What a pattern means

    A star stands for any text without a slash, a question mark for one
    character that is no slash, every other character for itself. *)
Inductive Glob : list Z -> list Z -> Prop :=
  | glob_end : Glob [] []
  | glob_char c p n : c ≠ c_star -> c ≠ c_quest -> Glob p n -> Glob (c :: p) (c :: n)
  | glob_any c p n : c ≠ c_slash -> Glob p n -> Glob (c_quest :: p) (c :: n)
  | glob_star_end p n : Glob p n -> Glob (c_star :: p) n
  | glob_star_char c p n : c ≠ c_slash -> Glob (c_star :: p) n -> Glob (c_star :: p) (c :: n).
#[local] Hint Constructors Glob : core.

(** Patterns without classes and escapes; texts of 7-bit characters. *)
Definition simple (p : list Z) : Prop := Forall (fun c => c ≠ c_open /\ c ≠ c_esc) p.
Definition ascii7 (n : list Z) : Prop := Forall (fun c => c < 128) n.

(** ** Chunks *)

Definition char_match (c x : Z) : Prop :=
  (c = c_quest /\ x ≠ c_slash) \/ (c ≠ c_quest /\ x = c).

Definition chunk_match (chunk s t : list Z) : Prop :=
  exists b, s = b ++ t /\ Forall2 char_match chunk b.

Lemma chunk_match_fun chunk s t t' : chunk_match chunk s t -> chunk_match chunk s t' -> t = t'.
Proof.
  intros (b & -> & Hb) (b' & Heq & Hb').
  apply Forall2_length in Hb, Hb'. by apply app_inj_1 in Heq as [_ ?]; [|lia].
Qed.

Lemma chunk_match_cons c chunk s t :
  chunk_match (c :: chunk) s t
  <-> exists x s', s = x :: s' /\ char_match c x /\ chunk_match chunk s' t.
Proof.
  split.
  - intros (b & -> & Hb). inversion Hb as [|? x ? b']; subst. exists x, (b' ++ t).
    split_and!; [done|done|by exists b'].
  - intros (x & s' & -> & Hx & b & -> & Hb). exists (x :: b). by split; [|constructor].
Qed.

Lemma matchChunkLoop_simple fuel chunk s failed :
  (length chunk < fuel)%nat -> simple chunk -> ascii7 s ->
  match matchChunkLoop fuel chunk s failed with
  | Rest t => failed = false /\ chunk_match chunk s t
  | NoMatch => failed = true \/ forall t, ~ chunk_match chunk s t
  | _ => False
  end.
Proof.
  revert chunk s failed. induction fuel as [|fuel IH]; intros chunk s failed Hl Hp Hs; [lia|].
  destruct chunk as [|c chunk]; cbn [matchChunkLoop].
  { destruct failed; [by left|]. split; [done|]. by exists []. }
  simpl in Hl. inversion Hp as [|? ? [Ho He] Hp']; subst.
  rewrite (proj2 (Z.eqb_neq c c_open) Ho), (proj2 (Z.eqb_neq c c_esc) He).
  destruct (decide (failed = true \/ s = [])) as [Hf|Hf].
  - replace (failed || _) with true by (destruct Hf as [-> | ->]; [|destruct failed]; done).
    assert (forall r, match r with Rest t => true = false /\ chunk_match chunk s t
        | NoMatch => true = true \/ forall t, ~ chunk_match chunk s t | _ => False end ->
        match r with Rest t => failed = false /\ chunk_match (c :: chunk) s t
        | NoMatch => failed = true \/ forall t, ~ chunk_match (c :: chunk) s t
        | _ => False end) as Hmon.
    { intros [| | |t]; try done; [|by intros [? _]]. intros _. destruct Hf as [-> | ->]; [by left|].
      right. intros t (x & s' & ? & _)%chunk_match_cons. done. }
    destruct (c =? c_quest); apply Hmon, IH; auto; lia.
  - destruct failed; [by destruct Hf; left|]. destruct s as [|x s]; [by destruct Hf; right|].
    simpl. inversion Hs as [|? ? Hx Hs']; subst.
    assert (forall b : bool, (b = false <-> char_match c x) ->
        match matchChunkLoop fuel chunk s b with
        | Rest t => false = false /\ chunk_match (c :: chunk) (x :: s) t
        | NoMatch => false = true \/ forall t, ~ chunk_match (c :: chunk) (x :: s) t
        | _ => False end) as Hgo.
    { intros b Hb. specialize (IH chunk s b ltac:(lia) Hp' Hs').
      destruct (matchChunkLoop _ _ _ _) as [| | |t]; try done.
      - right. intros t (x' & s' & [= <- <-] & Hm & Hc)%chunk_match_cons.
        destruct IH as [->|IH]; [by apply Hb in Hm|by apply (IH t)].
      - destruct IH as [-> Hc]. split; [done|]. apply chunk_match_cons.
        exists x, s. split_and!; [done|by apply Hb|done]. }
    unfold char_match in Hgo. destruct (Z.eqb_spec c c_quest) as [->|Hq].
    + rewrite (proj2 (Z.ltb_lt x 128) Hx). destruct (acceptRange x). simpl. apply Hgo.
      rewrite Z.eqb_neq. tauto.
    + apply Hgo. rewrite negb_false_iff, Z.eqb_eq. tauto.
Qed.

Lemma matchChunk_simple chunk s :
  simple chunk -> ascii7 s ->
  match matchChunk chunk s with
  | Rest t => chunk_match chunk s t
  | NoMatch => forall t, ~ chunk_match chunk s t
  | _ => False
  end.
Proof.
  intros Hp Hs.
  pose proof (matchChunkLoop_simple (S (length chunk)) chunk s false ltac:(lia) Hp Hs) as H.
  unfold matchChunk. destruct (matchChunkLoop _ _ _ _) as [| | |t]; try done.
  - by destruct H.
  - by destruct H as [_ H].
Qed.

(** A chunk that occurs twice, with no slash before the second place, leaves
    nothing but slash-free text between the two ends. *)
Lemma chunk_match_twice chunk w s t1 t2 :
  c_slash ∉ w -> chunk_match chunk (w ++ s) t1 -> chunk_match chunk s t2 ->
  exists v, t1 = v ++ t2 /\ c_slash ∉ v.
Proof.
  intros Hw (b1 & E1 & H1) (b2 & -> & H2).
  pose proof (Forall2_length _ _ _ H1) as L1. pose proof (Forall2_length _ _ _ H2) as L2.
  destruct w as [|x w].
  { simpl in E1. apply app_inj_1 in E1 as [_ ->]; [|lia]. exists []. split; [done|set_solver]. }
  assert (forall k, b2 !! k ≠ Some c_slash) as Hb2.
  { intros k. induction (lt_wf k) as [k _ IH]. intros Hk.
    destruct (Forall2_lookup_r _ _ _ _ _ H2 Hk) as (c & Hc & [[_ ?]|[Hq <-]]); [done|].
    destruct (Forall2_lookup_l _ _ _ _ _ H1 Hc) as (y & Hy & [[? _]|[_ ->]]); [done|].
    assert (((x :: w) ++ b2) !! k = Some c_slash) as Hwk.
    { assert (k < length b2)%nat by by apply (lookup_lt_Some _ _ c_slash).
      rewrite <- (lookup_app_l _ t2) by (rewrite length_app; lia).
      rewrite <- app_assoc, E1, lookup_app_l by lia. done. }
    rewrite lookup_app in Hwk. destruct ((x :: w) !! k) eqn:Ek.
    - simplify_eq. by apply Hw, (list_elem_of_lookup_2 _ k).
    - apply lookup_ge_None in Ek. apply (IH (k - length (x :: w))%nat); [simpl in *; lia|done]. }
  exists (drop (length b1) ((x :: w) ++ b2)). split.
  - assert (length b1 <= length ((x :: w) ++ b2))%nat by (rewrite length_app; lia).
    apply (f_equal (drop (length b1))) in E1. rewrite drop_app_length in E1.
    rewrite <- E1, app_assoc, drop_app_le; done.
  - intros Hin. assert (c_slash ∈ (x :: w) ++ b2) as Hin'
      by (rewrite <- (take_drop (length b1) (_ ++ _)), elem_of_app; by right).
    apply elem_of_app in Hin' as [?|[k Hk]%list_elem_of_lookup]; [done|].
    by apply (Hb2 k).
Qed.

(** ** Skipping for a star *)

(** The place [u ++ s] where the chunk is taken: after at least one byte, none
    of them a slash; with nothing left over for the last chunk. *)
Definition skip_match (chunk : list Z) (last : bool) (name u t : list Z) : Prop :=
  exists s, name = u ++ s /\ u ≠ [] /\ (c_slash ∉ u) /\ chunk_match chunk s t
            /\ (last = true -> t = []).

Lemma skip_match_cons chunk last c name u t :
  skip_match chunk last (c :: name) u t
  <-> c ≠ c_slash /\ exists u', (u = c :: u')
      /\ ((u' = [] /\ chunk_match chunk name t /\ (last = true -> t = []))
          \/ skip_match chunk last name u' t).
Proof.
  split.
  - intros (s & Hn & Hu & Hs & Hc & Hl). destruct u as [|x u]; [done|]. simplify_eq/=.
    split; [set_solver|]. exists u. split; [done|].
    destruct u as [|y u]; [by left|]. right. exists s. split_and!; auto. set_solver.
  - intros (Hc & u' & -> & [(-> & Hm & Hl)|(s & -> & Hu & Hs & Hm & Hl)]).
    + exists name. split_and!; auto. set_solver.
    + exists s. split_and!; auto. set_solver.
Qed.

Lemma skip_match_pos chunk last name u t : skip_match chunk last name u t -> (1 <= length u)%nat.
Proof. intros (s & _ & Hu & _). destruct u; [done|]. simpl. lia. Qed.

Lemma skipMatch_simple chunk last name :
  simple chunk -> ascii7 name ->
  match skipMatch chunk name last with
  | Rest t => exists u, skip_match chunk last name u t
      /\ forall u' t', skip_match chunk last name u' t' -> (length u <= length u')%nat
  | NoMatch => forall u t, ~ skip_match chunk last name u t
  | _ => False
  end.
Proof.
  intros Hp. induction name as [|c name IH]; intros Hs.
  { simpl. intros u t (s & Hn & Hu & _). by destruct u. }
  inversion Hs as [|? ? Hx Hs']; subst. specialize (IH Hs'). cbn [skipMatch].
  destruct (Z.eqb_spec c c_slash) as [->|Hc].
  { intros u t [? _]%skip_match_cons. done. }
  assert ((forall t, chunk_match chunk name t -> ~ (last = true -> t = [])) ->
    match skipMatch chunk name last with
    | Rest t => exists u, skip_match chunk last (c :: name) u t
        /\ forall u' t', skip_match chunk last (c :: name) u' t' -> (length u <= length u')%nat
    | NoMatch => forall u t, ~ skip_match chunk last (c :: name) u t
    | _ => False end) as Hskip.
  { intros Hno. destruct (skipMatch chunk name last) as [| | |t]; try done.
    - intros u t (_ & u' & -> & [(_ & Hm & Hl)|Hm])%skip_match_cons.
      + by apply (Hno t).
      + by apply (IH u' t).
    - destruct IH as (u & Hu & Hmin). exists (c :: u). split.
      + apply skip_match_cons. split; [done|]. exists u. auto.
      + intros u' t' (_ & u'' & -> & [(_ & Hm & Hl)|Hm])%skip_match_cons.
        * by destruct (Hno t').
        * simpl. specialize (Hmin u'' t' Hm). lia. }
  pose proof (matchChunk_simple chunk name Hp Hs') as Hm.
  destruct (matchChunk chunk name) as [| | |t]; try done.
  - apply Hskip. intros t Ht. by destruct (Hm t).
  - destruct last; simpl; [case_bool_decide as Ht; simpl|].
    + exists [c]. split; [|by intros u' t' ?%skip_match_pos].
      apply skip_match_cons. split; [done|]. exists []. naive_solver.
    + apply Hskip. intros t' Ht'. rewrite (chunk_match_fun _ _ _ _ Ht' Hm). tauto.
    + exists [c]. split; [|by intros u' t' ?%skip_match_pos].
      apply skip_match_cons. split; [done|]. exists []. naive_solver.
Qed.

(** ** Patterns *)

Lemma glob_chunk chunk q n :
  c_star ∉ chunk -> Glob (chunk ++ q) n <-> exists t, chunk_match chunk n t /\ Glob q t.
Proof.
  revert n. induction chunk as [|c chunk IH]; intros n Hns; simpl.
  { split; [intros H; exists n; split; [by exists []|done]|].
    by intros (t & (b & -> & Hb) & H); inversion Hb. }
  assert (c ≠ c_star) by set_solver. specialize (fun m => IH m ltac:(set_solver)). split.
  - intros H0. inversion H0; subst; try done;
      match goal with HG : Glob (chunk ++ q) _ |- _ => apply IH in HG as (t & Ht & Hq) end;
      exists t; (split; [|done]); apply chunk_match_cons; eexists _, _; split_and!; try done;
      unfold char_match; tauto.
  - intros (t & (x & s & -> & [[-> Hx]|[Hq ->]] & Hm)%chunk_match_cons & HG);
      constructor; try done; apply IH; eauto.
Qed.

Lemma glob_star_app p u t : c_slash ∉ u -> Glob (c_star :: p) t -> Glob (c_star :: p) (u ++ t).
Proof. intros Hu Ht. induction u as [|c u IH]; simpl; [done|]. constructor; set_solver. Qed.

Lemma glob_star p n :
  Glob (c_star :: p) n <-> exists u t, n = u ++ t /\ (c_slash ∉ u) /\ Glob p t.
Proof.
  split.
  - intros H. remember (c_star :: p) as q. induction H; simplify_eq.
    + exists [], n. split_and!; [done|set_solver|done].
    + destruct IHGlob as (u & t & -> & Hu & Ht); [done|]. exists (c :: u), t.
      split_and!; [done|set_solver|done].
  - intros (u & t & -> & Hu & Ht). apply glob_star_app; [done|]. by constructor.
Qed.

Lemma glob_stars p n star q :
  skipStars p = (star, q) ->
  Glob p n <-> exists u t, n = u ++ t /\ (if star then c_slash ∉ u else u = []) /\ Glob q t.
Proof.
  revert n star. induction p as [|c p IH]; intros n star; simpl.
  { intros [= <- <-]. split; [by exists [], n|by intros (u & t & -> & -> & H)]. }
  destruct (Z.eqb_spec c c_star) as [->|]; intros [= <- <-];
    [|split; [by exists [], n|by intros (u & t & -> & -> & H)]].
  destruct (skipStars p) as [star' q]. rewrite glob_star. simpl. split.
  - intros (u & t & -> & Hu & (u' & t' & -> & Hu' & Ht)%(IH _ star')); [|done].
    exists (u ++ u'), t'. rewrite app_assoc. split_and!; [done| |done].
    destruct star'; [set_solver|]. subst. by rewrite app_nil_r.
  - intros (u & t & -> & Hu & Ht). exists u, t. split_and!; [done..|]. apply (IH t star'); [done|].
    exists [], t. split_and!; [done| |done]. destruct star'; [set_solver|done].
Qed.

Lemma scanLoop_simple p : simple p ->
  exists chunk rest, p = chunk ++ rest /\ scanLoop p false = length chunk
    /\ (c_star ∉ chunk) /\ (rest = [] \/ exists rest', rest = c_star :: rest').
Proof.
  induction p as [|c p IH]; intros Hp; simpl.
  { exists [], []. split_and!; [done|done|set_solver|by left]. }
  inversion Hp as [|? ? [Ho He] Hp']; subst.
  destruct (Z.eqb_spec c c_esc) as [|_]; [done|]. destruct (Z.eqb_spec c c_open) as [|_]; [done|].
  destruct (Z.eqb_spec c c_star) as [->|Hs]; simpl.
  { exists [], (c_star :: p). split_and!; [done|done|set_solver|eauto]. }
  destruct (IH Hp') as (chunk & rest & -> & HL & Hns & Hr). exists (c :: chunk), rest.
  rewrite HL. destruct (c =? c_close); (split_and!; [done|done|set_solver|done]).
Qed.

Lemma skipStars_suffix p : exists k, p = k ++ (skipStars p).2.
Proof.
  induction p as [|c p [k IH]]; simpl; [by exists []|].
  destruct (c =? c_star); [|by exists []]. exists (c :: k). simpl. by rewrite <- IH.
Qed.

Lemma skipStars_head p r : (skipStars p).2 ≠ c_star :: r.
Proof.
  induction p as [|c p IH]; simpl; [done|]. destruct (Z.eqb_spec c c_star); [done|]. simpl. congruence.
Qed.

(** What [scanChunk] cuts off a simple pattern. *)
Lemma scanChunk_simple p star chunk rest n :
  p ≠ [] -> simple p -> scanChunk p = (star, chunk, rest) ->
  simple chunk /\ simple rest /\ (rest = [] \/ exists rest', rest = c_star :: rest')
  /\ (chunk = [] -> star = true /\ rest = [])
  /\ (Glob p n <-> exists u s t, n = u ++ s /\ (if star then c_slash ∉ u else u = [])
        /\ chunk_match chunk s t /\ Glob rest t).
Proof.
  intros Hne Hp. unfold scanChunk. destruct (skipStars_suffix p) as [k Hk].
  pose proof (fun star q => glob_stars p n star q) as Hg. pose proof (skipStars_length p) as [_ Hlen].
  destruct (skipStars p) as [star' q] eqn:Eq. simpl in *.
  assert (simple q) as Hq by (rewrite Hk in Hp; by apply Forall_app in Hp as [_ ?]).
  destruct (scanLoop_simple q Hq) as (chunk' & rest' & -> & -> & Hns & Hr).
  rewrite take_app_length, drop_app_length. intros [= <- <- <-].
  apply Forall_app in Hq as [Hc Hrest]. split_and!; [done|done|done| |].
  - intros ->. simpl in *. destruct star'.
    + split; [done|]. destruct Hr as [|(r & ->)]; [done|]. by destruct (skipStars_head p r); rewrite Eq.
    + exfalso. destruct p as [|c p]; [done|]. simpl in Eq.
      destruct (Z.eqb_spec c c_star); [done|]. simplify_eq/=.
      destruct Hr as [|[]]; simplify_eq.
  - rewrite (Hg star' (chunk' ++ rest') eq_refl). split.
    + intros (u & s & -> & Hu & (t & Ht & HG)%glob_chunk); [|done]. eauto 10.
    + intros (u & s & t & -> & Hu & Ht & HG). exists u, s. split_and!; auto.
      apply glob_chunk; eauto.
Qed.

Lemma checkRest_false fuel p : checkRest fuel p ≠ Matched true.
Proof.
  revert p. induction fuel as [|fuel IH]; intros p; [done|]. cbn [checkRest].
  destruct p; [done|]. destruct (scanChunk _) as [[? chunk] rest].
  destruct (matchChunk chunk []); try done; apply IH.
Qed.

Lemma ascii7_app u s : ascii7 (u ++ s) <-> ascii7 u /\ ascii7 s.
Proof. apply Forall_app. Qed.

Lemma chunk_match_ascii chunk s t : chunk_match chunk s t -> ascii7 s -> ascii7 t.
Proof. by intros (b & -> & _) [_ ?]%ascii7_app. Qed.

(** The first place is as good as any other: what a later place leaves to match
    is matched after the first place too, with more for the next star. *)
Lemma glob_first_place chunk rest' u1 s1 t1 u2 s2 t2 :
  u1 ++ s1 = u2 ++ s2 -> (length u1 <= length u2)%nat -> c_slash ∉ u2 ->
  chunk_match chunk s1 t1 -> chunk_match chunk s2 t2 ->
  Glob (c_star :: rest') t2 -> Glob (c_star :: rest') t1.
Proof.
  intros Heq Hlen Hu2 H1 H2 HG.
  assert (exists w, u2 = u1 ++ w /\ s1 = w ++ s2) as (w & -> & ->).
  { exists (drop (length u1) u2). split.
    - apply (f_equal (take (length u1))) in Heq.
      rewrite take_app_length, take_app_le in Heq by done. by rewrite Heq at 1; rewrite take_drop.
    - apply (f_equal (drop (length u1))) in Heq.
      by rewrite drop_app_length, drop_app_le in Heq. }
  destruct (chunk_match_twice chunk w s2 t1 t2) as (v & -> & Hv); [set_solver|done|done|].
  by apply glob_star_app.
Qed.

(** The code after the first place was of no use: the star takes at least one
    byte. *)
Definition skipBranch (fuel : nat) (star : bool) (chunk rest name : list Z) : match_result :=
  if star then
    match skipMatch chunk name (bool_decide (rest = [])) with
    | OutOfFuel => Diverges
    | BadPattern => ErrBadPattern
    | Rest t => matchLoop fuel rest t
    | NoMatch => checkRest fuel rest
    end
  else checkRest fuel rest.

Lemma skip_glob fuel star chunk rest n :
  simple chunk -> ascii7 n -> (rest = [] \/ exists rest', rest = c_star :: rest') ->
  (forall t, ascii7 t -> matchLoop fuel rest t = Matched true <-> Glob rest t) ->
  (forall t, chunk_match chunk n t -> ~ Glob rest t) ->
  skipBranch fuel star chunk rest n = Matched true <->
  exists u s t, n = u ++ s /\ (if star then c_slash ∉ u else u = []) /\ chunk_match chunk s t
    /\ Glob rest t.
Proof.
  intros Hc Hn Hrest IH Hno. pose proof (skipMatch_simple chunk (bool_decide (rest = [])) n Hc Hn) as Hsk.
  unfold skipBranch. destruct star.
  2:{ split; [by intros ?%checkRest_false|]. intros (u & s & t & -> & -> & Ht & HG). by destruct (Hno t). }
  assert (forall u s t, n = u ++ s -> c_slash ∉ u -> chunk_match chunk s t -> Glob rest t ->
    skip_match chunk (bool_decide (rest = [])) n u t) as Hplace.
  { intros u s t -> Hu Ht HG. exists s. split_and!; auto.
    - intros ->. by destruct (Hno t).
    - intros ->%bool_decide_eq_true. by inversion HG. }
  destruct (skipMatch _ _ _) as [| | |t]; try done.
  - split; [by intros ?%checkRest_false|]. intros (u & s & t & ? & ? & ? & ?).
    destruct (Hsk u t). eauto.
  - destruct Hsk as (u & (s & Hus & Hu & Hsu & Ht & Hlast) & Hmin). rewrite IH.
    2:{ subst n. apply ascii7_app in Hn as [_ ?]. by eapply chunk_match_ascii. }
    split; [intros; exists u, s, t; auto|]. intros (u' & s' & t' & Hus' & Hu' & Ht' & HG).
    destruct Hrest as [-> | [rest' ->]]; [rewrite (Hlast eq_refl); constructor|].
    eapply (glob_first_place chunk rest' u s t u' s' t'); eauto; congruence.
Qed.

Lemma matchLoop_glob fuel p n :
  (length p < fuel)%nat -> simple p -> ascii7 n ->
  matchLoop fuel p n = Matched true <-> Glob p n.
Proof.
  revert p n. induction fuel as [|fuel IH]; intros p n Hl Hp Hn; [lia|].
  cbn [matchLoop]. destruct p as [|c p].
  { split; [intros [= ->%bool_decide_eq_true]; constructor|].
    intros H. inversion H. by rewrite bool_decide_true. }
  destruct (scanChunk (c :: p)) as [[star chunk] rest] eqn:E.
  assert (c :: p ≠ []) as Hcp by done. pose proof (scanChunk_progress _ _ _ _ Hcp E) as Hlt.
  destruct (scanChunk_simple _ _ _ _ n Hcp Hp E) as (Hc & Hr & Hrest & Hnil & ->).
  destruct (decide (chunk = [])) as [->|Hne].
  { destruct Hnil as [-> ->]; [done|]. simpl. split.
    - intros [= Hs%bool_decide_eq_true]. exists n, [], []. rewrite app_nil_r.
      split_and!; [done|done|by exists []|constructor].
    - intros (u & s & t & -> & Hu & (b & -> & Hb) & HG). inversion Hb; inversion HG; subst.
      simpl. by rewrite app_nil_r, bool_decide_true. }
  rewrite (bool_decide_false (chunk = [])), andb_false_r by done.
  assert (forall t, chunk_match chunk n t -> (matchLoop fuel rest t = Matched true <-> Glob rest t)) as IHt.
  { intros t Ht. apply IH; [lia|done|by eapply chunk_match_ascii]. }
  pose proof (matchChunk_simple chunk n Hc Hn) as Hm0.
  pose proof (skip_glob fuel star chunk rest n Hc Hn Hrest) as Hskip.
  specialize (Hskip (fun t => IH rest t ltac:(lia) Hr)).
  destruct (matchChunk chunk n) as [| | |t]; try done.
  - apply Hskip. intros t Ht. by destruct (Hm0 t).
  - destruct (decide (rest = [])) as [->|Hrn].
    + rewrite (bool_decide_true ([] = [])), orb_false_r in * by done.
      case_bool_decide as Ht.
      * rewrite IHt by done. subst. split; [|constructor].
        intros _. exists [], n, []. split_and!; [done| |done|constructor]. destruct star; set_solver.
      * apply Hskip. intros t' Ht'. rewrite (chunk_match_fun _ _ _ _ Ht' Hm0). by inversion 1.
    + rewrite (bool_decide_false (rest = [])), orb_true_r, IHt by done.
      split.
      * intros HG. exists [], n, t. split_and!; [done| |done|done]. destruct star; set_solver.
      * intros (u & s & t' & Hus & Hu & Ht' & HG). destruct star.
        -- destruct Hrest as [|[rest' ->]]; [done|].
           apply (glob_first_place chunk rest' [] n t u s t'); auto. simpl. lia.
        -- subst. by rewrite (chunk_match_fun _ _ _ _ Hm0 Ht').
Qed.

(** On simple patterns and 7-bit names the matcher decides [Glob]. *)
Lemma path_Match_glob pattern name :
  simple (string_bytes pattern) -> ascii7 (string_bytes name) ->
  path_Match pattern name = Matched true <-> Glob (string_bytes pattern) (string_bytes name).
Proof. intros. apply matchLoop_glob; auto. Qed.
