(* ===== verification/Broker.v ===== *)
(** internal/pubsub: events, subscriptions and the broker.

    A subscription is shared: the broker's map and the subscriber hold the same
    pointer. So the broker's state has a heap of subscriptions, in the order they
    were made, and the map has positions of the heap. *)
From S2P Require Import Prelude GoLib Glob.

(** ** Buffered channels *)

Record Chan (A : Type) := MkChan {
  ch_cap : nat;
  ch_buf : list A;
  ch_closed : bool;
}.
Arguments MkChan {A} ch_cap ch_buf ch_closed.
Arguments ch_cap {A} c : rename.
Arguments ch_buf {A} c : rename.
Arguments ch_closed {A} c : rename.

Definition make_chan {A} (size : nat) : Chan A := MkChan size [] false.

(** [select { case c <- x: default: }]; sending on a closed channel panics. *)
Definition trySend {A} (x : A) (c : Chan A) : option (Chan A) :=
  if ch_closed c then None
  else if (length (ch_buf c) <? ch_cap c)%nat then Some (MkChan (ch_cap c) (ch_buf c ++ [x]) false)
  else Some c.

(** Closing a closed channel panics. What is buffered can still be received. *)
Definition close_chan {A} (c : Chan A) : option (Chan A) :=
  if ch_closed c then None else Some (MkChan (ch_cap c) (ch_buf c) true).

(** What a receive sees: a value, the end of a closed channel, or nothing yet. *)
Inductive received (A : Type) := Got (x : A) | AtEnd | Waits.
Arguments Got {A} x.
Arguments AtEnd {A}.
Arguments Waits {A}.

Definition recv {A} (c : Chan A) : received A * Chan A :=
  match ch_buf c with
  | x :: buf => (Got x, MkChan (ch_cap c) buf (ch_closed c))
  | [] => (if ch_closed c then AtEnd else Waits, c)
  end.

(** ** Events *)

Inductive EventType := EventSet | EventDelete | EventExpire | EventEvict.

Module Pubsub.

Record Event := MkEvent {
  Type_ : EventType;
  Key : string;
  Value : bytes;
  Timestamp : Time;
  NodeName : string;
}.

Definition set_Timestamp (t : Time) (e : Event) : Event :=
  MkEvent (Type_ e) (Key e) (Value e) t (NodeName e).

(** ** Subscriptions *)

Record Subscription := MkSubscription {
  ID : Z;
  pattern : string;
  ch : Chan Event;
  done : Chan unit;
  closed : bool;
}.

Definition newSubscription (id : Z) (pattern : string) (bufSize : nat) : Subscription :=
  MkSubscription id pattern (make_chan bufSize) (make_chan 0) false.

Definition set_ch (c : Chan Event) (s : Subscription) : Subscription :=
  MkSubscription (ID s) (pattern s) c (done s) (closed s).

Definition Subscription_Close (s : Subscription) : option Subscription :=
  if closed s then Some s
  else
    match close_chan (done s) with
    | None => None
    | Some d =>
        match close_chan (ch s) with
        | None => None
        | Some c => Some (MkSubscription (ID s) (pattern s) c d true)
        end
    end.

Definition Subscription_Pattern (s : Subscription) : string := pattern s.

(** The error of a malformed pattern is dropped: it matches nothing. None would
    be a matcher that does not return. *)
Definition matches (key : string) (s : Subscription) : option bool :=
  match path_Match (pattern s) key with
  | Matched b => Some b
  | ErrBadPattern => Some false
  | Diverges => None
  end.

(** ** The broker

    [F] are the callbacks, [G] those that take a value. *)

Definition defaultBufSize : nat := 256.

Record Broker (F G : Type) := MkBroker {
  heap : list Subscription;
  subscriptions : gmap Z nat;
  nextID : Z;
  onHit : list F;
  onMiss : list F;
  onEvict : list G;
  onSet : list G;
  onDelete : list F;
}.
Arguments MkBroker {F G} heap subscriptions nextID onHit onMiss onEvict onSet onDelete.
Arguments heap {F G} b : rename.
Arguments subscriptions {F G} b : rename.
Arguments nextID {F G} b : rename.
Arguments onHit {F G} b : rename.
Arguments onMiss {F G} b : rename.
Arguments onEvict {F G} b : rename.
Arguments onSet {F G} b : rename.
Arguments onDelete {F G} b : rename.

Section Broker.
Context {F G : Type}.

Abbreviation Broker := (Broker F G).
Implicit Types b : Broker.

Definition NewBroker : Broker := MkBroker [] ∅ 0 [] [] [] [] [].

Definition with_subs (h : list Subscription) (m : gmap Z nat) b : Broker :=
  MkBroker h m (nextID b) (onHit b) (onMiss b) (onEvict b) (onSet b) (onDelete b).

Definition set_heap (h : list Subscription) b : Broker := with_subs h (subscriptions b) b.

(** The pointer it returns is the new end of the heap. *)
Definition Subscribe (pattern : string) b : nat * Broker :=
  let id := uint64 (nextID b + 1) in
  let sub := newSubscription id pattern defaultBufSize in
  let p := length (heap b) in
  (p, MkBroker (heap b ++ [sub]) (<[id := p]> (subscriptions b)) id
        (onHit b) (onMiss b) (onEvict b) (onSet b) (onDelete b)).

(** A method call on the subscription at a pointer. *)
Definition at_sub (p : nat) (f : Subscription -> option Subscription) b : option Broker :=
  match heap b !! p with
  | None => None
  | Some s =>
      match f s with
      | None => None
      | Some s' => Some (set_heap (<[p := s']> (heap b)) b)
      end
  end.

Definition Close (p : nat) b : option Broker := at_sub p Subscription_Close b.

Definition Unsubscribe (id : Z) b : option Broker :=
  match subscriptions b !! id with
  | None => Some b
  | Some p =>
      match Close p b with
      | None => None
      | Some b' => Some (with_subs (heap b') (delete id (subscriptions b')) b')
      end
  end.

(** One iteration of the loop of Publish. *)
Definition offer (event : Event) (s : Subscription) : option Subscription :=
  if closed s then Some s
  else
    match matches (Key event) s with
    | None => None
    | Some false => Some s
    | Some true =>
        match trySend event (ch s) with
        | None => None
        | Some c => Some (set_ch c s)
        end
    end.

Fixpoint publishLoop (event : Event) (subs : list (Z * nat)) b : option Broker :=
  match subs with
  | [] => Some b
  | (_, p) :: subs' =>
      match at_sub p (offer event) b with
      | None => None
      | Some b' => publishLoop event subs' b'
      end
  end.

Definition stamp (now : Time) (event : Event) : Event :=
  if IsZero (Timestamp event) then set_Timestamp now event else event.

(** [order] is the order in which the run visits the map. *)
Definition Publish (now : Time) (order : list (Z * nat)) (event : Event) b : option Broker :=
  publishLoop (stamp now event) order b.

Fixpoint shutdownLoop (subs : list (Z * nat)) b : option Broker :=
  match subs with
  | [] => Some b
  | (id, p) :: subs' =>
      match Close p b with
      | None => None
      | Some b' => shutdownLoop subs' (with_subs (heap b') (delete id (subscriptions b')) b')
      end
  end.

Definition Shutdown (order : list (Z * nat)) b : option Broker := shutdownLoop order b.

(** A receive of the subscriber on Events(). *)
Definition Receive (p : nat) b : option (received Event * Broker) :=
  match heap b !! p with
  | None => None
  | Some s => let '(r, c) := recv (ch s) in Some (r, set_heap (<[p := set_ch c s]> (heap b)) b)
  end.

(** ** Hooks

    Callbacks are registered at the end and fired in the order of
    registration. *)

Definition OnHit (fn : F) b : Broker :=
  MkBroker (heap b) (subscriptions b) (nextID b)
    (onHit b ++ [fn]) (onMiss b) (onEvict b) (onSet b) (onDelete b).
Definition OnMiss (fn : F) b : Broker :=
  MkBroker (heap b) (subscriptions b) (nextID b)
    (onHit b) (onMiss b ++ [fn]) (onEvict b) (onSet b) (onDelete b).
Definition OnEvict (fn : G) b : Broker :=
  MkBroker (heap b) (subscriptions b) (nextID b)
    (onHit b) (onMiss b) (onEvict b ++ [fn]) (onSet b) (onDelete b).
Definition OnSet (fn : G) b : Broker :=
  MkBroker (heap b) (subscriptions b) (nextID b)
    (onHit b) (onMiss b) (onEvict b) (onSet b ++ [fn]) (onDelete b).
Definition OnDelete (fn : F) b : Broker :=
  MkBroker (heap b) (subscriptions b) (nextID b)
    (onHit b) (onMiss b) (onEvict b) (onSet b) (onDelete b ++ [fn]).

(** A call of user code. *)
Inductive HookCall :=
  | CallKey (fn : F) (key : string)
  | CallValue (fn : G) (key : string) (value : bytes).

Definition FireHit (key : string) b : list HookCall := (fun fn => CallKey fn key) <$> onHit b.
Definition FireMiss (key : string) b : list HookCall := (fun fn => CallKey fn key) <$> onMiss b.
Definition FireEvict (key : string) (value : bytes) b : list HookCall :=
  (fun fn => CallValue fn key value) <$> onEvict b.
Definition FireSet (key : string) (value : bytes) b : list HookCall :=
  (fun fn => CallValue fn key value) <$> onSet b.
Definition FireDelete (key : string) b : list HookCall := (fun fn => CallKey fn key) <$> onDelete b.
End Broker.

#[global] Arguments HookCall F G : clear implicits.
End Pubsub.
