(* ===== verification/BrokerProofs.v ===== *)
(** Invariant of the broker, delivery of events, and the stream of events a
    subscriber sees. *)
From S2P Require Import Prelude GoLib Glob GlobProofs Broker.

Module PubsubProofs.
Import Pubsub.

(** ** Operations as data *)

Section Proofs.
Context {F G : Type}.

Abbreviation Broker := (Broker F G).
Implicit Types b : Broker.

(** What a subscription is when it is idle: the flag tells whether the channels
    are closed, and the buffer is within its capacity. *)
Record SubOk (s : Subscription) : Prop := {
  ok_ch : ch_closed (ch s) = closed s;
  ok_done : ch_closed (done s) = closed s;
  ok_cap : ch_cap (ch s) = defaultBufSize;
  ok_buf : (length (ch_buf (ch s)) <= defaultBufSize)%nat;
}.

Record BrokerWf b : Prop := {
  wf_subs : forall p s, heap b !! p = Some s -> SubOk s;
  wf_registered : forall id p, subscriptions b !! id = Some p ->
    exists s, heap b !! p = Some s /\ ID s = id;
  wf_nextID : nextID b = uint64 (Z.of_nat (length (heap b)));
  wf_id : forall p s, heap b !! p = Some s -> ID s = uint64 (Z.of_nat p + 1);
  wf_open : Z.of_nat (length (heap b)) < 2 ^ 64 ->
    forall p s, heap b !! p = Some s -> closed s = false -> subscriptions b !! ID s = Some p;
}.

Inductive op :=
  | OpSubscribe (pattern : string)
  | OpUnsubscribe (id : Z)
  | OpPublish (now : Time) (order : list (Z * nat)) (event : Event)
  | OpClose (p : nat)
  | OpReceive (p : nat)
  | OpShutdown (order : list (Z * nat)).

Inductive output := Done | Pointer (p : nat) | Read (p : nat) (r : received Event).

Definition done_with (r : option Broker) : option (output * Broker) :=
  match r with Some b' => Some (Done, b') | None => None end.

Definition exec (o : op) b : option (output * Broker) :=
  match o with
  | OpSubscribe pattern => let '(p, b') := Subscribe pattern b in Some (Pointer p, b')
  | OpUnsubscribe id => done_with (Unsubscribe id b)
  | OpPublish now order event => done_with (Publish now order event b)
  | OpClose p => done_with (Close p b)
  | OpReceive p => match Receive p b with Some (r, b') => Some (Read p r, b') | None => None end
  | OpShutdown order => done_with (Shutdown order b)
  end.

(** The orders are orders of the map, the pointers come from Subscribe. *)
Definition valid (o : op) b : Prop :=
  match o with
  | OpPublish _ order _ | OpShutdown order => order ≡ₚ map_to_list (subscriptions b)
  | OpClose p | OpReceive p => (p < length (heap b))%nat
  | _ => True
  end.

(** Runs, with what each operation answered. *)
Inductive Run : Broker -> list (op * output) -> Broker -> Prop :=
  | run_nil b : Run b [] b
  | run_cons b o out b' tr b'' :
      valid o b -> exec o b = Some (out, b') -> Run b' tr b'' -> Run b ((o, out) :: tr) b''.

(** ** One subscription *)

(** What an event does to a subscription. *)
Definition accepts (event : Event) (s : Subscription) : bool :=
  negb (closed s) && bool_decide (matches (Key event) s = Some true)
  && (length (ch_buf (ch s)) <? defaultBufSize)%nat.

Definition deliver (event : Event) (s : Subscription) : Subscription :=
  if accepts event s
  then set_ch (MkChan (ch_cap (ch s)) (ch_buf (ch s) ++ [event]) false) s
  else s.

Lemma matches_total key s : exists m, matches key s = Some m.
Proof.
  unfold matches. pose proof (path_Match_terminates (pattern s) key).
  destruct (path_Match _ _); eauto. done.
Qed.

Lemma newSubscription_ok id pattern : SubOk (newSubscription id pattern defaultBufSize).
Proof. split; simpl; auto. lia. Qed.

Lemma offer_ok event s : SubOk s -> offer event s = Some (deliver event s).
Proof.
  intros [Hch _ Hcap _]. unfold offer, deliver, accepts.
  destruct (closed s) eqn:Ec; [done|]. destruct (matches_total (Key event) s) as [m Hm].
  rewrite Hm. destruct m; simpl; [|done].
  unfold trySend. rewrite Hch, Hcap. simpl.
  destruct (_ <? _)%nat; [done|]. f_equal. by destruct s.
Qed.

Lemma deliver_ok event s : SubOk s -> SubOk (deliver event s).
Proof.
  intros Hs. unfold deliver, accepts. destruct (_ && _ && _)%nat eqn:E; [|done].
  zbool. destruct Hs. apply Nat.ltb_lt in H0. split; simpl; rewrite ?length_app; simpl; auto; congruence || lia.
Qed.

Lemma Subscription_Close_ok s : SubOk s ->
  exists s', Subscription_Close s = Some s' /\ SubOk s' /\ closed s' = true
    /\ ID s' = ID s /\ pattern s' = pattern s /\ ch_buf (ch s') = ch_buf (ch s).
Proof.
  intros Hs. unfold Subscription_Close. destruct (closed s) eqn:Ec; [by eauto 10|].
  destruct Hs. unfold close_chan. rewrite ok_done0, ok_ch0, Ec.
  eexists. split; [done|]. simpl. split_and!; done.
Qed.

Lemma recv_ok s r c : SubOk s -> recv (ch s) = (r, c) -> SubOk (set_ch c s).
Proof.
  intros [] Hr. unfold recv in Hr. destruct (ch_buf (ch s)) eqn:Eb; simplify_eq.
  - split; simpl; auto. rewrite Eb. simpl. lia.
  - simpl in *. split; simpl; auto. lia.
Qed.

(** ** The heap *)

Lemma at_sub_Some p f b s s' :
  heap b !! p = Some s -> f s = Some s' -> at_sub p f b = Some (set_heap (<[p := s']> (heap b)) b).
Proof. intros Hp Hf. unfold at_sub. by rewrite Hp, Hf. Qed.

(** Replacing a subscription by one with the same identity, no less closed. *)
Lemma wf_update b p s s' :
  BrokerWf b -> heap b !! p = Some s -> SubOk s' -> ID s' = ID s ->
  (closed s' = false -> closed s = false) ->
  BrokerWf (set_heap (<[p := s']> (heap b)) b).
Proof.
  intros [Hs Hr Hn Hi Ho] Hp Hs' Hid Hcl.
  assert (forall q t, <[p := s']> (heap b) !! q = Some t ->
    (q = p /\ t = s') \/ heap b !! q = Some t) as Hget.
  { intros q t. rewrite list_lookup_insert. case_decide; naive_solver. }
  split; simpl.
  - intros q t [[_ ->]|?]%Hget; eauto.
  - intros id q Hq. destruct (Hr id q Hq) as (t & Ht & Hti).
    destruct (decide (q = p)) as [->|Hne].
    + simplify_eq. exists s'. rewrite list_lookup_insert_eq by (by eapply lookup_lt_Some). auto.
    + exists t. by rewrite list_lookup_insert_ne.
  - by rewrite length_insert.
  - intros q t [[-> ->]|?]%Hget; [|by apply Hi]. rewrite Hid. by apply Hi.
  - rewrite length_insert. intros Hlen q t [[-> ->]|?]%Hget ?; [|by apply Ho].
    rewrite Hid. apply Ho; auto.
Qed.

Lemma wf_delete b id p s :
  BrokerWf b -> subscriptions b !! id = Some p -> heap b !! p = Some s -> closed s = true ->
  BrokerWf (with_subs (heap b) (delete id (subscriptions b)) b).
Proof.
  intros [Hs Hr Hn Hi Ho] Hid Hp Hcl. split; simpl; auto.
  - intros id' q Hq. apply lookup_delete_Some in Hq as [_ Hq]. by apply Hr.
  - intros Hlen q t Hq Ht. rewrite lookup_delete_ne; [by apply Ho|].
    intros ->. rewrite (Ho Hlen q t Hq Ht) in Hid. simplify_eq. congruence.
Qed.

Lemma close_wf b p :
  BrokerWf b -> (p < length (heap b))%nat ->
  exists b' s s', Close p b = Some b' /\ heap b !! p = Some s /\ Subscription_Close s = Some s'
    /\ b' = set_heap (<[p := s']> (heap b)) b /\ BrokerWf b' /\ closed s' = true.
Proof.
  intros Hwf [s Hp]%lookup_lt_is_Some_2.
  destruct (Subscription_Close_ok s) as (s' & Hc & Hok & Hcl & Hid & _); [by eapply wf_subs|].
  eexists _, s, s'. split_and!; [exact (at_sub_Some p _ b s s' Hp Hc)|done|done|done| |done].
  eapply wf_update; eauto. by rewrite Hcl.
Qed.

Lemma subscribe_wf pat b : BrokerWf b -> BrokerWf (Subscribe pat b).2.
Proof.
  intros [Hs Hr Hn Hi Ho].
  assert (forall q t, (heap b ++ [newSubscription (uint64 (nextID b + 1)) pat defaultBufSize]) !! q = Some t ->
    heap b !! q = Some t \/ (q = length (heap b) /\
      t = newSubscription (uint64 (nextID b + 1)) pat defaultBufSize)) as Hget.
  { intros q t [?|[Hq Ht]]%lookup_app_Some; [by left|right].
    apply list_lookup_singleton_Some in Ht as [? ?]. split; [lia|done]. }
  assert (uint64 (nextID b + 1) = uint64 (Z.of_nat (length (heap b)) + 1)) as Hu.
  { rewrite Hn. unfold uint64. by rewrite Zplus_mod_idemp_l. }
  split; simpl.
  - intros q t [?|[_ ->]]%Hget; [eauto|apply newSubscription_ok].
  - intros id p [[<- <-]|[? Hp]]%lookup_insert_Some.
    + eexists. by rewrite list_lookup_middle.
    + destruct (Hr id p Hp) as (t & Ht & ?). exists t. by rewrite (lookup_app_l_Some _ _ _ _ Ht).
  - rewrite Hu, length_app. simpl. f_equal. lia.
  - intros q t [?|[-> ->]]%Hget; [by apply Hi|done].
  - rewrite length_app. simpl. intros Hlen q t [Hq|[-> ->]]%Hget Ht; [|by rewrite lookup_insert_eq].
    rewrite lookup_insert_ne; [apply Ho; auto; lia|]. simpl. rewrite (Hi q t Hq), Hu. unfold uint64.
    apply lookup_lt_Some in Hq. rewrite !Z.mod_small by lia. lia.
Qed.

Lemma unsubscribe_wf id b :
  BrokerWf b -> exists b', Unsubscribe id b = Some b' /\ BrokerWf b'
    /\ subscriptions b' = delete id (subscriptions b).
Proof.
  intros Hwf. unfold Unsubscribe. destruct (subscriptions b !! id) as [p|] eqn:Hid.
  - destruct (wf_registered b Hwf id p Hid) as (s & Hp & _).
    destruct (close_wf b p Hwf) as (b' & s0 & s' & -> & _ & _ & -> & Hwf' & Hcl);
      [by eapply lookup_lt_Some|].
    eexists. split; [done|]. split; [|done].
    eapply (wf_delete _ id p s'); simpl; auto. rewrite list_lookup_insert_eq; [done|].
    by eapply lookup_lt_Some.
  - exists b. by rewrite delete_id.
Qed.

(** ** Delivery *)

(** A pass over distinct pointers delivers once at each of them. *)
Lemma publishLoop_ok event subs b :
  BrokerWf b -> NoDup subs.*2 -> (forall p, p ∈ subs.*2 -> (p < length (heap b))%nat) ->
  exists b', publishLoop event subs b = Some b' /\ BrokerWf b'
    /\ b' = set_heap (heap b') b /\ length (heap b') = length (heap b)
    /\ forall p s, heap b !! p = Some s ->
        heap b' !! p = Some (if bool_decide (p ∈ subs.*2) then deliver event s else s).
Proof.
  revert b. induction subs as [|[id p] subs IH]; intros b Hwf; simpl.
  { intros _ _. exists b. split_and!; [done|done|by destruct b|done|done]. }
  rewrite NoDup_cons. intros [Hp Hnd] Hin.
  destruct (lookup_lt_is_Some_2 (heap b) p) as [s Hs]; [apply Hin; set_solver|].
  assert (SubOk s) as Hok by by eapply wf_subs.
  rewrite (at_sub_Some p _ b s (deliver event s)) by auto using offer_ok.
  assert (ID (deliver event s) = ID s /\ closed (deliver event s) = closed s) as [Hid Hcl]
    by (unfold deliver; by destruct (accepts _ _)).
  destruct (IH (set_heap (<[p := deliver event s]> (heap b)) b)) as (b' & HL & Hwf' & Hb' & Hlen & Hget).
  { eapply wf_update; eauto using deliver_ok. }
  { done. }
  { simpl. intros q Hq. rewrite length_insert. apply Hin. set_solver. }
  exists b'. simpl in *. rewrite length_insert in Hlen. split_and!; auto.
  intros q t Hq. destruct (decide (q = p)) as [->|Hne].
  - rewrite (Hget p (deliver event s)) by (apply list_lookup_insert_eq; by eapply lookup_lt_Some).
    rewrite bool_decide_false, bool_decide_true by set_solver. by simplify_eq.
  - rewrite (Hget q t) by by rewrite list_lookup_insert_ne. f_equal.
    destruct (decide (q ∈ subs.*2)); [rewrite !bool_decide_true|rewrite !bool_decide_false];
      set_solver.
Qed.

Lemma order_pointers b order :
  BrokerWf b -> order ≡ₚ map_to_list (subscriptions b) ->
  NoDup order.*2 /\ (forall p, p ∈ order.*2 -> (p < length (heap b))%nat)
  /\ forall p, p ∈ order.*2 <-> exists id, subscriptions b !! id = Some p.
Proof.
  intros Hwf Ho.
  assert (forall p, p ∈ order.*2 <-> exists id, subscriptions b !! id = Some p) as Hin.
  { intros p. rewrite Ho, list_elem_of_fmap. split.
    - intros ([id q] & -> & Hm). exists id. by apply elem_of_map_to_list in Hm.
    - intros [id Hid]. exists (id, p). split; [done|]. by apply elem_of_map_to_list. }
  split_and!; [|intros p [id Hid]%Hin|done].
  - rewrite Ho. pose proof (NoDup_map_to_list (subscriptions b)) as Hnd.
    apply NoDup_fmap_2_strong; [|done]. intros [i p] [j q] Hi Hj Hpq. simpl in *. subst.
    apply elem_of_map_to_list in Hi, Hj.
    destruct (wf_registered b Hwf i q Hi) as (s & Hs & <-), (wf_registered b Hwf j q Hj) as (t & Ht & <-).
    by simplify_eq.
  - destruct (wf_registered b Hwf id p Hid) as (s & Hs & _). by eapply lookup_lt_Some.
Qed.

(** Every open subscription is offered the event, once. *)
Lemma publish_wf now order event b :
  BrokerWf b -> order ≡ₚ map_to_list (subscriptions b) ->
  exists b', Publish now order event b = Some b' /\ BrokerWf b'
    /\ subscriptions b' = subscriptions b /\ length (heap b') = length (heap b)
    /\ forall p s, heap b !! p = Some s ->
        (heap b' !! p = Some s \/ heap b' !! p = Some (deliver (stamp now event) s))
        /\ (Z.of_nat (length (heap b)) < 2 ^ 64 ->
            heap b' !! p = Some (deliver (stamp now event) s)).
Proof.
  intros Hwf Ho. destruct (order_pointers b order Hwf Ho) as (Hnd & Hlt & Hin).
  destruct (publishLoop_ok (stamp now event) order b Hwf Hnd Hlt) as (b' & HP & Hwf' & Hb' & Hlen & Hget).
  exists b'. split_and!; [done|done|by rewrite Hb'|done|]. intros p s Hp. rewrite (Hget p s Hp).
  case_bool_decide as Hm; [by auto|]. split; [by left|]. intros Hlen'. f_equal.
  unfold deliver, accepts. destruct (closed s) eqn:Hc; [done|]. destruct Hm. apply Hin.
  exists (ID s). by apply (wf_open b Hwf).
Qed.

(** ** The stream of a subscription *)

Abbreviation buffered s := (ch_buf (ch s)).

(** What the subscriber at [p] read, and what was published for its pattern. *)
Definition got (p : nat) (out : output) : list Event :=
  match out with
  | Read q (Got e) => if decide (q = p) then [e] else []
  | _ => []
  end.

Definition published (pat : string) (o : op) : list Event :=
  match o with
  | OpPublish now _ event =>
      if bool_decide (path_Match pat (Key event) = Matched true) then [stamp now event] else []
  | _ => []
  end.

(** From [s] to [s'], [g] was read and [w] published. *)
Record Evolves (g w : list Event) (s s' : Subscription) : Prop := {
  ev_pattern : pattern s' = pattern s;
  ev_closed : closed s' = false -> closed s = false;
  ev_sublist : g ++ buffered s' `sublist_of` buffered s ++ w;
}.

Definition Lossless (g w : list Event) (s s' : Subscription) : Prop :=
  closed s' = false -> (length (buffered s ++ w) <= defaultBufSize)%nat ->
  g ++ buffered s' = buffered s ++ w.

Lemma evolves_quiet s s' :
  pattern s' = pattern s -> (closed s' = false -> closed s = false) -> buffered s' = buffered s ->
  Evolves [] [] s s' /\ Lossless [] [] s s'.
Proof.
  intros Hp Hc Hb. split; [split; auto|]; [|intros _ _]; simpl; by rewrite app_nil_r, Hb.
Qed.

Lemma matches_true key s : matches key s = Some true <-> path_Match (pattern s) key = Matched true.
Proof. unfold matches. destruct (path_Match _ _); naive_solver. Qed.

Lemma evolves_deliver now order event s :
  SubOk s ->
  Evolves [] (published (pattern s) (OpPublish now order event)) s (deliver (stamp now event) s)
  /\ Lossless [] (published (pattern s) (OpPublish now order event)) s (deliver (stamp now event) s).
Proof.
  intros Hs. assert (Key (stamp now event) = Key event) as Hk by (unfold stamp; by destruct (IsZero _)).
  unfold deliver, accepts, published. rewrite Hk. unfold Lossless.
  rewrite (bool_decide_ext _ _ (matches_true (Key event) s)).
  case_bool_decide as Hm.
  - destruct (closed s) eqn:Hc; simpl.
    { split; [|congruence]. split; auto. simpl. by apply sublist_inserts_r. }
    destruct (Nat.ltb_spec (length (buffered s)) defaultBufSize); simpl.
    { split; [|done]. by split. }
    rewrite length_app. simpl. split; [|lia]. split; auto. by apply sublist_inserts_r.
  - rewrite andb_false_r. simpl. rewrite app_nil_r. split; [|done]. split; auto. simpl. by rewrite app_nil_r.
Qed.

Lemma evolves_keep now order event s :
  Evolves [] (published (pattern s) (OpPublish now order event)) s s.
Proof. split; auto. simpl. by apply sublist_inserts_r. Qed.

Lemma evolves_trans g1 g2 w1 w2 s1 s2 s3 :
  Evolves g1 w1 s1 s2 -> Evolves g2 w2 s2 s3 -> Evolves (g1 ++ g2) (w1 ++ w2) s1 s3.
Proof.
  intros [Hp1 Hc1 H1] [Hp2 Hc2 H2]. split; [congruence|auto|].
  rewrite <- app_assoc. etrans; [apply (sublist_app g1 g1); [reflexivity|exact H2]|].
  rewrite !app_assoc. by apply sublist_app.
Qed.

Lemma lossless_trans g1 g2 w1 w2 s1 s2 s3 :
  (closed s3 = false -> closed s2 = false) ->
  Lossless g1 w1 s1 s2 -> Lossless g2 w2 s2 s3 -> Lossless (g1 ++ g2) (w1 ++ w2) s1 s3.
Proof.
  unfold Lossless. intros Hc H1 H2 Hc3. rewrite app_assoc, !length_app. intros Hlen.
  specialize (H1 (Hc Hc3)). rewrite length_app in H1. specialize (H1 ltac:(lia)).
  pose proof (f_equal length H1) as HL. rewrite !length_app in HL.
  specialize (H2 Hc3). rewrite length_app in H2. specialize (H2 ltac:(lia)).
  by rewrite <- app_assoc, H2, app_assoc, H1.
Qed.

Lemma close_evolves s s' : SubOk s -> Subscription_Close s = Some s' ->
  Evolves [] [] s s' /\ Lossless [] [] s s'.
Proof.
  intros Hs Hc. destruct (Subscription_Close_ok s Hs) as (s0 & Hc' & _ & Hcl & _ & Hp & Hb).
  simplify_eq. apply evolves_quiet; auto. by rewrite Hcl.
Qed.

(** What a broker operation does to every subscription that was there. *)
Definition HeapEvolves (o : op) (out : output) b b' : Prop :=
  BrokerWf b' /\ (length (heap b) <= length (heap b'))%nat
  /\ forall p s, heap b !! p = Some s -> exists s', heap b' !! p = Some s'
      /\ Evolves (got p out) (published (pattern s) o) s s'
      /\ (Z.of_nat (length (heap b)) < 2 ^ 64 ->
          Lossless (got p out) (published (pattern s) o) s s').

Lemma heap_same o out b b' :
  (forall p, got p out = []) -> (forall pat, published pat o = []) -> BrokerWf b' ->
  heap b `prefix_of` heap b' -> HeapEvolves o out b b'.
Proof.
  intros Hg Hw Hwf [t Ht]. split_and!; [done|rewrite Ht, length_app; lia|].
  intros p s Hp. exists s. rewrite Ht, Hg, Hw. split; [by apply lookup_app_l_Some|].
  destruct (evolves_quiet s s); auto.
Qed.

(** One subscription is changed, the others stay. *)
Lemma heap_insert o out b b' q s s' :
  (forall pat, published pat o = []) -> (forall p, p ≠ q -> got p out = []) ->
  BrokerWf b' -> heap b !! q = Some s -> heap b' = <[q := s']> (heap b) ->
  Evolves (got q out) [] s s' -> Lossless (got q out) [] s s' ->
  HeapEvolves o out b b'.
Proof.
  intros Hw Hg Hwf Hq Hh He Hl. split_and!; [done|rewrite Hh, length_insert; lia|].
  intros p t Hp. rewrite Hh, Hw. destruct (decide (p = q)) as [->|Hne].
  - simplify_eq. exists s'. rewrite list_lookup_insert_eq by (by eapply lookup_lt_Some). auto.
  - exists t. rewrite list_lookup_insert_ne, Hg by done. split; [done|].
    destruct (evolves_quiet t t); auto.
Qed.

Lemma shutdownLoop_ok subs b :
  BrokerWf b -> subs ≡ₚ map_to_list (subscriptions b) ->
  exists b', shutdownLoop subs b = Some b' /\ BrokerWf b' /\ subscriptions b' = ∅
    /\ length (heap b') = length (heap b)
    /\ forall p s, heap b !! p = Some s -> exists s', heap b' !! p = Some s'
        /\ pattern s' = pattern s /\ (closed s' = false -> closed s = false)
        /\ buffered s' = buffered s.
Proof.
  revert b. induction subs as [|[id p] subs IH]; intros b Hwf Ho.
  { exists b. split_and!; [done|done| |done|by eauto]. apply map_to_list_empty_iff.
    symmetry. by apply Permutation_nil_l. }
  assert (subscriptions b !! id = Some p) as Hid
    by (apply elem_of_map_to_list; rewrite <- Ho; set_solver).
  destruct (wf_registered b Hwf id p Hid) as (s & Hp & _). simpl.
  destruct (close_wf b p Hwf) as (b1 & s0 & s' & -> & Hp' & Hs' & -> & Hwf1 & Hcl);
    [by eapply lookup_lt_Some|]. simplify_eq. simpl.
  assert (<[p := s']> (heap b) !! p = Some s') as Hnew
    by (apply list_lookup_insert_eq; by eapply lookup_lt_Some).
  destruct (IH (with_subs (<[p := s']> (heap b)) (delete id (subscriptions b)) b))
    as (b' & HL & Hwf' & Hempty & Hlen & Hget).
  { by apply (wf_delete _ id p s' Hwf1). }
  { simpl. apply (Permutation_cons_inv (a := (id, p))). by rewrite Ho, map_to_list_delete. }
  exists b'. simpl in *. rewrite length_insert in Hlen. split_and!; auto.
  intros q t Hq. destruct (decide (q = p)) as [->|Hne].
  - assert (t = s) as -> by congruence. destruct (Hget p s' Hnew) as (s'' & -> & Hpat & Hc & Hb).
    destruct (Subscription_Close_ok s (wf_subs b Hwf p s Hq)) as (u & Hu & _ & _ & _ & Hpu & Hbu).
    simplify_eq. exists s''. split_and!; [done|congruence| |congruence]. intros ?%Hc. congruence.
  - apply Hget. by rewrite list_lookup_insert_ne.
Qed.

(** In a well-formed broker no operation panics or hangs. *)
Lemma exec_ok o b :
  BrokerWf b -> valid o b -> exists out b', exec o b = Some (out, b') /\ HeapEvolves o out b b'.
Proof.
  intros Hwf Hv. destruct o as [pat|id|now order event|p|p|order]; simpl in *.
  - eexists _, _. split; [done|].
    apply heap_same; [done|done|by apply (subscribe_wf pat)|by apply prefix_app_r].
  - unfold Unsubscribe. destruct (subscriptions b !! id) as [p|] eqn:Hid.
    2:{ eexists _, _. split; [done|]. by apply heap_same. }
    destruct (wf_registered b Hwf id p Hid) as (s & Hp & _).
    destruct (close_wf b p Hwf) as (b' & s0 & s' & -> & Hp0 & Hs' & -> & Hwf' & Hcl);
      [by eapply lookup_lt_Some|]. assert (s0 = s) as -> by congruence.
    eexists _, _. split; [done|].
    destruct (close_evolves s s' (wf_subs b Hwf p s Hp) Hs') as [? ?].
    eapply (heap_insert _ _ _ _ p s s'); try done.
    eapply (wf_delete _ id p s'); auto. apply list_lookup_insert_eq. by eapply lookup_lt_Some.
  - destruct (publish_wf now order event b Hwf Hv) as (b' & -> & Hwf' & _ & Hlen & Hget).
    eexists _, _. split; [done|]. split_and!; [done|lia|]. intros p s Hp.
    destruct (Hget p s Hp) as [Hor Hl]. pose proof (wf_subs b Hwf p s Hp) as Hok.
    destruct (evolves_deliver now order event s Hok) as [He Hlo].
    destruct (decide (Z.of_nat (length (heap b)) < 2 ^ 64)) as [Hs|Hs].
    + eexists. split; [by apply Hl|]. by split.
    + destruct Hor; eexists; (split; [done|]); (split; [|done]); auto using evolves_keep.
  - destruct (close_wf b p Hwf Hv) as (b' & s & s' & -> & Hp & Hs' & -> & Hwf' & Hcl).
    eexists _, _. split; [done|].
    destruct (close_evolves s s' (wf_subs b Hwf p s Hp) Hs') as [? ?].
    by eapply (heap_insert _ _ _ _ p s s').
  - destruct (lookup_lt_is_Some_2 _ _ Hv) as [s Hp]. pose proof (wf_subs b Hwf p s Hp) as Hok.
    unfold Receive. rewrite Hp. destruct (recv (ch s)) as [r c] eqn:Er.
    eexists _, _. split; [done|]. eapply (heap_insert _ _ _ _ p s (set_ch c s)); try done.
    + intros q Hq. simpl. destruct r; [rewrite decide_False|..]; done.
    + eapply wf_update; eauto using recv_ok.
    + split; auto. simpl. rewrite app_nil_r. unfold recv in Er.
      destruct (buffered s) eqn:Eb; simplify_eq; simpl; rewrite ?decide_True; [|done..].
      destruct (ch_closed _); by rewrite Eb.
    + intros _ _. simpl. rewrite app_nil_r. unfold recv in Er.
      destruct (buffered s) eqn:Eb; simplify_eq; simpl; rewrite ?decide_True; [|done..].
      destruct (ch_closed _); by rewrite Eb.
  - destruct (shutdownLoop_ok order b Hwf Hv) as (b' & HL & Hwf' & _ & Hlen & Hget).
    unfold Shutdown. rewrite HL. eexists _, _. split; [done|]. split_and!; [done|lia|].
    intros p s Hp. destruct (Hget p s Hp) as (s' & Hp' & Hpat & Hc & Hb). exists s'.
    split; [done|]. destruct (evolves_quiet s s'); auto.
Qed.
End Proofs.
End PubsubProofs.
