(* ===== verification/BrokerTheorems.v ===== *)
(** What the broker promises: it does not panic or block, subscribers see the
    events of their pattern in order, and shutting down ends all streams; and
    what a concurrent Close breaks. *)
From stdpp Require Import relations.
From S2P Require Import Prelude GoLib Glob GlobProofs Broker BrokerProofs.

Module PubsubTheorems.
Import Pubsub PubsubProofs.

Section Theorems.
Context {F G : Type}.

Abbreviation Broker := (Broker F G).
Implicit Types b : Broker.

Lemma NewBroker_wf : BrokerWf (NewBroker : Broker).
Proof. split; simpl; try done; by intros *; rewrite ?lookup_nil. Qed.

(** What a subscriber read and what was published for a pattern, over a run. *)
Definition read (p : nat) (tr : list (op * output)) : list Event := tr ≫= (fun x => got p x.2).
Definition events (pat : string) (tr : list (op * output)) : list Event :=
  tr ≫= (fun x => published pat x.1).

Lemma run_evolves b tr b' :
  Run b tr b' -> BrokerWf b ->
  BrokerWf b' /\ (length (heap b) <= length (heap b'))%nat
  /\ forall p s, heap b !! p = Some s -> exists s', heap b' !! p = Some s'
      /\ Evolves (read p tr) (events (pattern s) tr) s s'
      /\ (Z.of_nat (length (heap b')) < 2 ^ 64 ->
          Lossless (read p tr) (events (pattern s) tr) s s').
Proof.
  induction 1 as [b|b o out b1 tr b2 Hv He Hrun IH]; intros Hwf.
  { split_and!; [done|done|]. intros p s Hp. exists s. destruct (evolves_quiet s s); auto. }
  destruct (exec_ok o b Hwf Hv) as (out' & b1' & He' & Hwf1 & Hlen1 & H1).
  rewrite He in He'. simplify_eq. destruct (IH Hwf1) as (Hwf2 & Hlen2 & H2).
  split_and!; [done|lia|]. intros p s Hp.
  destruct (H1 p s Hp) as (s1 & Hp1 & Hev1 & Hl1), (H2 p s1 Hp1) as (s2 & Hp2 & Hev2 & Hl2).
  rewrite (ev_pattern _ _ _ _ Hev1) in *. exists s2. split_and!; [done|by eapply evolves_trans|].
  intros Hb. eapply lossless_trans; [apply Hev2|apply Hl1; lia|by apply Hl2].
Qed.

Lemma run_wf tr b : Run NewBroker tr b -> BrokerWf b.
Proof. intros Hrun. by destruct (run_evolves _ _ _ Hrun NewBroker_wf). Qed.

Lemma deliver_cases now event s :
  if negb (closed s) && bool_decide (path_Match (pattern s) (Key event) = Matched true)
     && (length (ch_buf (ch s)) <? 256)%nat
  then ch_buf (ch (deliver (stamp now event) s)) = ch_buf (ch s) ++ [stamp now event]
  else deliver (stamp now event) s = s.
Proof.
  assert (Key (stamp now event) = Key event) as Hk by (unfold stamp; by destruct (IsZero _)).
  unfold deliver, accepts. rewrite Hk, (bool_decide_ext _ _ (matches_true (Key event) s)).
  change defaultBufSize with 256%nat. destruct (closed s) eqn:Hc; [done|].
  case_bool_decide; destruct (_ <? _)%nat; done.
Qed.

(** Publish leaves the callbacks alone. *)
Lemma publish_hooks now order event b b' :
  Publish now order event b = Some b' -> onSet b' = onSet b.
Proof.
  unfold Publish. generalize (stamp now event). intros e. revert b.
  induction order as [|[id p] order IH]; intros b; simpl; [by intros [= ->]|].
  unfold at_sub. destruct (heap b !! p); [|done]. destruct (offer _ _); [|done].
  intros HP. by rewrite (IH _ HP).
Qed.

(** Whatever the clients have done so far, one operation after the other, the
    next call of the broker or of a subscription returns: no send on a closed
    channel, no second close of a channel, no pattern the matcher does not
    decide. Buffers hold at most 256 events, and of fewer than 2^64 subscriptions
    those that are open are registered under an id of their own. *)
Theorem broker_never_panics tr b o :
  Run NewBroker tr b -> valid o b ->
  (exists out b', exec o b = Some (out, b'))
  /\ (forall p s, heap b !! p = Some s -> (length (ch_buf (ch s)) <= defaultBufSize)%nat)
  /\ (Z.of_nat (length (heap b)) < 2 ^ 64 ->
      forall p s, heap b !! p = Some s -> closed s = false -> subscriptions b !! ID s = Some p).
Proof.
  intros Hrun Hv. pose proof (run_wf _ _ Hrun) as Hwf.
  split_and!.
  - destruct (exec_ok o b Hwf Hv) as (out & b' & He & _). eauto.
  - intros p s Hp. apply (wf_subs b Hwf p s Hp).
  - apply (wf_open b Hwf).
Qed.

(** C13: Publish hands the event, stamped with the time if it has none, to exactly
    the subscriptions that are open, match the key and have room, at the end of
    their buffers; it changes no other subscription and no registration, whatever
    the order in which the run visits the map. *)
Theorem publish_exact tr b now order event :
  Run NewBroker tr b -> order ≡ₚ map_to_list (subscriptions b) ->
  Z.of_nat (length (heap b)) < 2 ^ 64 ->
  exists b', Publish now order event b = Some b'
    /\ subscriptions b' = subscriptions b /\ length (heap b') = length (heap b)
    /\ forall p s, heap b !! p = Some s -> exists s', heap b' !! p = Some s'
        /\ if negb (closed s) && bool_decide (path_Match (pattern s) (Key event) = Matched true)
              && (length (ch_buf (ch s)) <? 256)%nat
           then ch_buf (ch s') = ch_buf (ch s) ++ [stamp now event]
           else s' = s.
Proof.
  intros Hrun Ho Hlen. pose proof (run_wf _ _ Hrun) as Hwf.
  destruct (publish_wf now order event b Hwf Ho) as (b' & HP & _ & Hs & Hl & Hget).
  exists b'. split_and!; auto. intros p s Hp. eexists. split; [by apply (Hget p s Hp)|].
  apply deliver_cases.
Qed.

(** C14: what a subscriber has read and what waits in its buffer are, in order and
    without repetition, events published since it subscribed that match its
    pattern; and they are all of these events, as long as the subscription is
    open and no more than 256 were published for it. *)
Theorem subscription_stream tr0 b0 pat tr b :
  Run NewBroker tr0 b0 -> Run (Subscribe pat b0).2 tr b -> Z.of_nat (length (heap b)) < 2 ^ 64 ->
  let p := (Subscribe pat b0).1 in
  exists s, heap b !! p = Some s
    /\ read p tr ++ ch_buf (ch s) `sublist_of` events pat tr
    /\ (closed s = false -> (length (events pat tr) <= 256)%nat ->
        read p tr ++ ch_buf (ch s) = events pat tr).
Proof.
  intros Hrun0 Hrun Hlen p. pose proof (run_wf _ _ Hrun0) as Hwf0.
  destruct (run_evolves _ _ _ Hrun (subscribe_wf pat b0 Hwf0)) as (_ & _ & H).
  destruct (H p (newSubscription (uint64 (nextID b0 + 1)) pat defaultBufSize))
    as (s & Hs & Hev & Hl).
  { simpl. by rewrite list_lookup_middle. }
  exists s. split_and!; [done|apply Hev|]. intros Hc Hn. by apply Hl.
Qed.

(** After Shutdown no subscription is registered and every one is closed: a
    subscriber reads what its buffer still holds and then the end of its channel,
    and an event published later reaches nobody. *)
Theorem broker_shutdown_ends_streams tr b order :
  Run NewBroker tr b -> order ≡ₚ map_to_list (subscriptions b) ->
  Z.of_nat (length (heap b)) < 2 ^ 64 ->
  exists b', Shutdown order b = Some b' /\ subscriptions b' = ∅
    /\ (forall p s, heap b !! p = Some s -> exists s', heap b' !! p = Some s' /\ closed s' = true
          /\ ch_closed (ch s') = true /\ ch_buf (ch s') = ch_buf (ch s))
    /\ (forall now event, Publish now [] event b' = Some b').
Proof.
  intros Hrun Ho Hlen. pose proof (run_wf _ _ Hrun) as Hwf.
  destruct (shutdownLoop_ok order b Hwf Ho) as (b' & HS & Hwf' & Hempty & Hl & Hget).
  exists b'. split_and!; [done|done| |done]. intros p s Hp.
  destruct (Hget p s Hp) as (s' & Hp' & _ & _ & Hb). exists s'.
  assert (closed s' = true) as Hc.
  { destruct (closed s') eqn:Hc; [done|]. pose proof (wf_open b' Hwf' ltac:(lia) p s' Hp' Hc) as H.
    by rewrite Hempty in H. }
  split_and!; [done|done| |done]. by rewrite (ok_ch _ (wf_subs b' Hwf' p s' Hp')).
Qed.

(** A pattern of literals, stars and question marks matches a key of 7-bit
    characters exactly when the key is the pattern with each star replaced by
    text without a slash and each question mark by one character that is no
    slash; the matcher misses nothing by trying only the first place for the text
    between two stars. *)
Theorem matches_decides_glob key s :
  simple (string_bytes (pattern s)) -> ascii7 (string_bytes key) ->
  matches key s = Some true <-> Glob (string_bytes (pattern s)) (string_bytes key).
Proof. intros Hp Hk. rewrite matches_true. by apply path_Match_glob. Qed.

(** The matcher of a subscription answers for every pattern and every key,
    malformed patterns and invalid UTF-8 included. *)
Theorem matches_terminates key s : exists m, matches key s = Some m.
Proof. apply matches_total. Qed.

(** ** Publish step by step

    Publish holds the read lock of the broker's mutex, so calls of Publish can
    overlap, and Subscribe, Unsubscribe and Shutdown wait until none is running.
    Between the test of a subscription and the send, other goroutines run. Close
    of a subscription takes no lock. *)
Record Publisher := MkPublisher {
  p_event : Event;
  p_todo : list nat;
  p_sending : option nat;
}.

Inductive State :=
  | Running b (pubs : gmap nat Publisher)
  | Panicked.

Definition exclusive (o : op) : bool :=
  match o with OpSubscribe _ | OpUnsubscribe _ | OpShutdown _ => true | _ => false end.

(** What an operation leaves: a panic where it is undefined. *)
Definition ran (r : option (output * Broker)) (pubs : gmap nat Publisher) : State :=
  match r with
  | Some (_, b') => Running b' pubs
  | None => Panicked
  end.

(** The test of a subscription by the publisher [t]: a nil pointer panics, and a
    matcher that does not return is counted as a panic. *)
Definition tested b (pubs : gmap nat Publisher) (t : nat) (e : Event) (p : nat) (todo : list nat) : State :=
  match heap b !! p with
  | None => Panicked
  | Some s =>
      if closed s then Running b (<[t := MkPublisher e todo None]> pubs)
      else
        match matches (Key e) s with
        | None => Panicked
        | Some m => Running b (<[t := MkPublisher e todo (if m then Some p else None)]> pubs)
        end
  end.

(** The send to a subscription that was tested. *)
Definition sent b (pubs : gmap nat Publisher) (t : nat) (e : Event) (p : nat) (todo : list nat) : State :=
  match heap b !! p with
  | None => Panicked
  | Some s =>
      match trySend e (ch s) with
      | None => Panicked
      | Some c => Running (set_heap (<[p := set_ch c s]> (heap b)) b) (<[t := MkPublisher e todo None]> pubs)
      end
  end.

(** [lockless] says whether subscribers call Close. *)
Inductive step (lockless : bool) : State -> State -> Prop :=
  | step_start b pubs t now order event :
      pubs !! t = None -> order ≡ₚ map_to_list (subscriptions b) ->
      step lockless (Running b pubs)
        (Running b (<[t := MkPublisher (stamp now event) order.*2 None]> pubs))
  | step_test b pubs t e p todo :
      pubs !! t = Some (MkPublisher e (p :: todo) None) ->
      step lockless (Running b pubs) (tested b pubs t e p todo)
  | step_send b pubs t e p todo :
      pubs !! t = Some (MkPublisher e todo (Some p)) ->
      step lockless (Running b pubs) (sent b pubs t e p todo)
  | step_end b pubs t e :
      pubs !! t = Some (MkPublisher e [] None) ->
      step lockless (Running b pubs) (Running b (delete t pubs))
  | step_exclusive b o :
      exclusive o = true -> valid o b ->
      step lockless (Running b ∅) (ran (exec o b) ∅)
  | step_receive b pubs p :
      valid (OpReceive p) b ->
      step lockless (Running b pubs) (ran (exec (OpReceive p) b) pubs)
  | step_close b pubs p :
      lockless = true -> valid (OpClose p) b ->
      step lockless (Running b pubs) (ran (exec (OpClose p) b) pubs).

Definition reachable (lockless : bool) : State -> Prop := rtc (step lockless) (Running NewBroker ∅).

(** What a publisher still has to visit is in the heap, and a subscription that has
    been tested is open until it is sent to. *)
Definition PublisherOk b (pub : Publisher) : Prop :=
  (forall p, p ∈ p_todo pub -> is_Some (heap b !! p))
  /\ forall p, p_sending pub = Some p -> exists s, heap b !! p = Some s /\ closed s = false.

Definition SafeState (st : State) : Prop :=
  match st with
  | Panicked => False
  | Running b pubs => BrokerWf b /\ map_Forall (fun _ => PublisherOk b) pubs
  end.

(** Updates of one subscription that do not close it. *)
Lemma safe_update b pubs p s s' :
  SafeState (Running b pubs) -> heap b !! p = Some s -> SubOk s' -> ID s' = ID s ->
  closed s' = closed s -> SafeState (Running (set_heap (<[p := s']> (heap b)) b) pubs).
Proof.
  intros [Hwf Hs] Hp Hok Hid Hcl. split; [eapply wf_update; eauto; congruence|].
  intros t pub Ht. destruct (Hs t pub Ht) as [Htodo Hsend]. split; cbn [heap set_heap with_subs].
  - intros q Hq. destruct (decide (q = p)) as [->|Hne]; [|rewrite list_lookup_insert_ne by done; by apply Htodo].
    rewrite list_lookup_insert_eq by (by eapply lookup_lt_Some). eauto.
  - intros q Hq. destruct (Hsend q Hq) as (u & Hu & Hc).
    destruct (decide (q = p)) as [->|Hne]; [|exists u; by rewrite list_lookup_insert_ne].
    exists s'. rewrite list_lookup_insert_eq by (by eapply lookup_lt_Some). simplify_eq. by rewrite Hcl.
Qed.

Lemma safe_publisher b pubs t pub :
  SafeState (Running b pubs) -> PublisherOk b pub -> SafeState (Running b (<[t := pub]> pubs)).
Proof. intros [Hwf Hs] Hpub. split; [done|]. by apply map_Forall_insert_2. Qed.

Lemma tested_safe b pubs t e p todo :
  SafeState (Running b pubs) -> pubs !! t = Some (MkPublisher e (p :: todo) None) -> SafeState (tested b pubs t e p todo).
Proof.
  intros Hst Ht. destruct Hst as [Hwf Hs] eqn:E. destruct (Hs t _ Ht) as [Htodo _]. cbn [p_todo] in Htodo.
  destruct (Htodo p) as [s Hp]; [by left|]. unfold tested. rewrite Hp.
  assert (forall q, q ∈ todo -> is_Some (heap b !! q)) as Hrest by (intros q Hq; apply Htodo; by right).
  destruct (closed s) eqn:Hc; [by apply safe_publisher|].
  destruct (matches_total (Key e) s) as [m ->]. apply safe_publisher; [done|]. split; [done|].
  intros q Hq. destruct m; [|done]. injection Hq as <-. eauto.
Qed.

Lemma sent_safe b pubs t e p todo :
  SafeState (Running b pubs) -> pubs !! t = Some (MkPublisher e todo (Some p)) -> SafeState (sent b pubs t e p todo).
Proof.
  intros Hst Ht. destruct Hst as [Hwf Hs] eqn:E. destruct (Hs t _ Ht) as [Htodo Hsend].
  destruct (Hsend p eq_refl) as (s & Hp & Hc). unfold sent, trySend. rewrite Hp.
  pose proof (wf_subs b Hwf p s Hp) as Hok. rewrite (ok_ch _ Hok), Hc.
  assert (forall c, SubOk (set_ch c s) ->
    SafeState (Running (set_heap (<[p := set_ch c s]> (heap b)) b) (<[t := MkPublisher e todo None]> pubs))) as Hgo.
  { intros c Hc'. apply (safe_update b _ p s); [|done|done|done|done]. by apply safe_publisher. }
  destruct Hok. destruct (Nat.ltb_spec (length (ch_buf (ch s))) (ch_cap (ch s))); apply Hgo; split; simpl; auto;
    rewrite ?length_app; simpl; lia || congruence.
Qed.

Lemma step_safe st st' : SafeState st -> step false st st' -> SafeState st'.
Proof.
  intros Hst Hstep. destruct Hstep as [b pubs t now order event Hn Ho|b pubs t e p todo Ht|b pubs t e p todo Ht|b pubs t e Ht|b o Hx Hv|b pubs p Hv|b pubs p Hl Hv].
  - apply safe_publisher; [done|]. split; [|done]. cbn [p_todo]. intros p ([id q] & -> & Hq)%list_elem_of_fmap.
    rewrite Ho in Hq. apply elem_of_map_to_list in Hq. destruct Hst as [Hwf _]. destruct (wf_registered b Hwf id q Hq) as (s & Hp & _). eauto.
  - by apply tested_safe.
  - by apply sent_safe.
  - destruct Hst as [Hwf Hs]. split; [done|]. by apply map_Forall_delete.
  - destruct Hst as [Hwf _]. destruct (exec_ok o b Hwf Hv) as (out & b' & -> & Hwf' & _). split; [done|]. apply map_Forall_empty.
  - cbn [valid] in Hv. apply lookup_lt_is_Some_2 in Hv as [s Hp]. cbn [exec]. unfold Receive. rewrite Hp.
    destruct (recv (ch s)) as [r c] eqn:Er. apply (safe_update b pubs p s); [done|done| |done|done].
    destruct Hst as [Hwf _]. exact (recv_ok s r c (wf_subs b Hwf p s Hp) Er).
  - done.
Qed.

(** C32: while subscribers leave closing to Unsubscribe and Shutdown, which wait for
    the broker's mutex, no interleaving of the steps of any number of Publish calls
    with the other operations panics, neither in Publish nor in Subscribe,
    Unsubscribe, Shutdown or a receive. *)
Theorem concurrent_publish_safe st : reachable false st -> st ≠ Panicked.
Proof.
  intros Hr. assert (SafeState st) as Hs; [|by intros ->].
  unfold reachable in Hr. remember (Running NewBroker ∅) as st0 eqn:E.
  assert (SafeState st0) as H0 by (subst; split; [apply NewBroker_wf|apply map_Forall_empty]).
  clear E. induction Hr; eauto using step_safe.
Qed.

(** A subscriber that closes its own subscription can bring the program down:
    an event is published and the subscription tested as open, the subscriber
    calls Close, and the send on the closed channel panics. *)
Theorem close_races_with_publish : reachable true Panicked.
Proof.
  set (e := MkEvent EventSet "k" [] 1 "").
  eapply rtc_l; [by apply (step_exclusive _ _ (OpSubscribe "*"))|]. cbn [ran exec Subscribe].
  eapply rtc_l; [apply (step_start _ _ ∅ 0%nat 1 [(1, 0%nat)] e); [done|by vm_compute]|].
  eapply rtc_l; [by apply (step_test _ _ _ 0%nat e 0%nat [])|].
  eapply rtc_l; [eapply (step_close _ _ _ 0%nat); [done|apply Nat.lt_0_succ]|].
  eapply rtc_l; [by apply (step_send _ _ _ 0%nat e 0%nat [])|]. apply rtc_refl.
Qed.

(** ** Close does not unsubscribe *)

Definition leaves (o : op) : bool :=
  match o with OpUnsubscribe _ | OpShutdown _ => false | _ => true end.

Lemma leaves_size o b out b' :
  BrokerWf b -> valid o b -> leaves o = true -> exec o b = Some (out, b') ->
  Z.of_nat (length (heap b')) < 2 ^ 64 -> size (subscriptions b) = length (heap b) ->
  size (subscriptions b') = length (heap b').
Proof.
  intros Hwf Hv Hl He Hlen Hsize. destruct o as [pat|?|now order event|p|p|?]; simpl in *; try done.
  - simplify_eq. simpl in *. rewrite length_app in *. simpl in *.
    rewrite map_size_insert_None; [lia|].
    destruct (subscriptions b !! _) as [p|] eqn:Hp; [|done].
    destruct (wf_registered b Hwf _ p Hp) as (s & Hs & Hid). rewrite (wf_id b Hwf p s Hs) in Hid.
    apply lookup_lt_Some in Hs. rewrite (wf_nextID b Hwf) in Hid. revert Hid. unfold uint64.
    rewrite Zplus_mod_idemp_l, !Z.mod_small by lia. lia.
  - destruct (publish_wf now order event b Hwf Hv) as (b1 & HP & _ & Hs & Hh & _).
    rewrite HP in He. simplify_eq/=. congruence.
  - destruct (close_wf b p Hwf Hv) as (b1 & s & s' & HC & _ & _ & -> & _). rewrite HC in He.
    simplify_eq/=. by rewrite length_insert.
  - unfold Receive in He. destruct (heap b !! p); [|done]. destruct (recv _).
    simplify_eq/=. by rewrite length_insert.
Qed.

Lemma leaves_run b tr b' :
  Run b tr b' -> BrokerWf b -> Forall (fun x => leaves x.1 = true) tr ->
  Z.of_nat (length (heap b')) < 2 ^ 64 -> size (subscriptions b) = length (heap b) ->
  size (subscriptions b') = length (heap b').
Proof.
  induction 1 as [b|b o out b1 tr b2 Hv He Hrun IH]; intros Hwf Hl Hlen Hsize; [done|].
  inversion Hl; subst. destruct (exec_ok o b Hwf Hv) as (out' & b1' & He' & Hwf1 & _).
  assert (b1' = b1) as -> by congruence.
  destruct (run_evolves _ _ _ Hrun Hwf1) as (_ & Hle & _).
  apply IH; auto. apply (leaves_size o b out b1); auto. lia.
Qed.

(** Closing a subscription does not unsubscribe it: as long as nobody calls
    Unsubscribe or Shutdown, the broker keeps every subscription ever made,
    closed or not, and visits it at every Publish. *)
Theorem close_keeps_registration tr b :
  Run NewBroker tr b -> Forall (fun x => leaves x.1 = true) tr ->
  Z.of_nat (length (heap b)) < 2 ^ 64 -> size (subscriptions b) = length (heap b).
Proof. intros Hrun Hl Hlen. by apply (leaves_run _ _ _ Hrun); [apply NewBroker_wf|..]. Qed.
End Theorems.

(** ** Witnesses *)

Definition w_event : Event := MkEvent EventSet "user:1" [Byte.x01] 0 "".
Definition w_other : Event := MkEvent EventSet "order/1" [Byte.x02] 0 "".
Definition w_sub : Pubsub.Broker unit unit := (Subscribe "user:*" NewBroker).2.
Definition w_order : list (Z * nat) := [(1, 0%nat)].

Definition w_ops : list op :=
  [OpPublish 5 w_order w_event; OpPublish 6 w_order w_other; OpReceive 0; OpReceive 0].

(** A run of operations, when all of them are valid. *)
Fixpoint w_run (os : list op) (b : Pubsub.Broker unit unit)
  : list (op * output) * Pubsub.Broker unit unit :=
  match os with
  | [] => ([], b)
  | o :: os' =>
      match exec o b with
      | Some (out, b') => let '(tr, b'') := w_run os' b' in ((o, out) :: tr, b'')
      | None => ([], b)
      end
  end.

Definition w_tr0 : list (op * output) := [(OpSubscribe "user:*", Pointer 0)].

Lemma w_run0 : Run NewBroker w_tr0 w_sub.
Proof. eapply run_cons; [done|reflexivity|constructor]. Qed.

Lemma w_perm : w_order ≡ₚ map_to_list (subscriptions w_sub).
Proof. by vm_compute. Qed.

Lemma w_run1 : Run w_sub (w_run w_ops w_sub).1 (w_run w_ops w_sub).2.
Proof.
  eapply run_cons; [exact w_perm|vm_compute; reflexivity|].
  eapply run_cons; [by vm_compute|vm_compute; reflexivity|].
  eapply run_cons; [by apply Nat.ltb_lt|vm_compute; reflexivity|].
  eapply run_cons; [by apply Nat.ltb_lt|vm_compute; reflexivity|]. constructor.
Qed.

Lemma broker_never_panics_witness :
  exists out b', exec (OpPublish 7 w_order w_event) w_sub = Some (out, b').
Proof. apply (broker_never_panics w_tr0 w_sub (OpPublish 7 w_order w_event) w_run0 w_perm). Defined.

Lemma publish_exact_witness :
  exists b', Publish 7 w_order w_event w_sub = Some b' /\ subscriptions b' = subscriptions w_sub.
Proof.
  destruct (publish_exact w_tr0 w_sub 7 w_order w_event w_run0 w_perm ltac:(vm_compute; reflexivity))
    as (b' & H1 & H2 & _). by exists b'.
Defined.

Lemma subscription_stream_witness :
  read 0 (w_run w_ops w_sub).1 = [stamp 5 w_event]
  /\ exists s, heap (w_run w_ops w_sub).2 !! 0%nat = Some s.
Proof.
  split; [vm_compute; reflexivity|].
  destruct (subscription_stream [] NewBroker "user:*" _ _ (run_nil _) w_run1 ltac:(vm_compute; reflexivity))
    as (s & Hs & _). by exists s.
Defined.

Lemma broker_shutdown_ends_streams_witness :
  exists b', Shutdown w_order w_sub = Some b' /\ subscriptions b' = ∅.
Proof.
  destruct (broker_shutdown_ends_streams w_tr0 w_sub w_order w_run0 w_perm ltac:(vm_compute; reflexivity))
    as (b' & H1 & H2 & _). by exists b'.
Defined.

Lemma matches_decides_glob_witness :
  Glob (string_bytes "user:*") (string_bytes "user:1").
Proof.
  apply (matches_decides_glob "user:1" (newSubscription 1 "user:*" 256)).
  - repeat constructor; vm_compute; discriminate.
  - repeat constructor; vm_compute; reflexivity.
  - vm_compute. reflexivity.
Defined.

(** No publisher is left, and the one subscription there was is removed and closed,
    with an event still to be read. *)
Definition w_after (st : State (F := unit) (G := unit)) : Prop :=
  match st with
  | Running b pubs => pubs = ∅ /\ subscriptions b = ∅
      /\ ((fun s => (closed s, ch_buf (ch s))) <$> heap b) = [(true, [stamp 5 w_event])]
  | Panicked => False
  end.

(** Two events are published at once to a subscription, which is read in between and
    removed afterwards. *)
Lemma concurrent_publish_safe_witness :
  exists st, reachable false st /\ st ≠ Panicked /\ w_after st.
Proof.
  set (e := stamp 5 w_event). assert (exists st, reachable false st /\ w_after st) as (st & Hr & Hst).
  { eexists. split.
    - eapply rtc_l; [by apply (step_exclusive _ _ (OpSubscribe "user:*"))|]. cbn [ran exec Subscribe].
      eapply rtc_l; [apply (step_start _ _ ∅ 0%nat 5 [(1, 0%nat)] w_event); [done|by vm_compute]|].
      eapply rtc_l; [apply (step_start _ _ _ 1%nat 5 [(1, 0%nat)] w_event); [done|by vm_compute]|].
      eapply rtc_l; [by apply (step_test _ _ _ 0%nat e 0%nat [])|].
      eapply rtc_l; [by apply (step_test _ _ _ 1%nat e 0%nat [])|].
      eapply rtc_l; [by apply (step_send _ _ _ 1%nat e 0%nat [])|].
      eapply rtc_l; [apply (step_receive _ _ _ 0%nat); apply Nat.lt_0_succ|].
      eapply rtc_l; [by apply (step_send _ _ _ 0%nat e 0%nat [])|].
      eapply rtc_l; [by apply (step_end _ _ _ 0%nat e)|].
      eapply rtc_l; [by apply (step_end _ _ _ 1%nat e)|].
      eapply rtc_l; [by apply (step_exclusive _ _ (OpUnsubscribe 1))|]. apply rtc_refl.
    - by vm_compute. }
  exists st. split; [exact Hr|]. split; [by apply concurrent_publish_safe|exact Hst].
Defined.

Lemma close_keeps_registration_witness :
  size (subscriptions (w_run [OpClose 0] w_sub).2) = 1%nat.
Proof.
  apply (close_keeps_registration (w_tr0 ++ (w_run [OpClose 0] w_sub).1)).
  - eapply run_cons; [done|reflexivity|].
    eapply run_cons; [by apply Nat.ltb_lt|vm_compute; reflexivity|constructor].
  - repeat constructor.
  - vm_compute. reflexivity.
Defined.
End PubsubTheorems.
