(* ===== verification/Float64.v ===== *)
(** The float64 of Go, as the rate limiters use it: IEEE 754 binary64 with
    rounding to nearest, ties to even.

    A finite value is its rational number in lowest terms; every operation is the
    exact operation on rationals followed by [round]. The sign of zero is not
    represented: no operation of the sources can tell. [rnd_mono], [rnd_Z] and
    [rnd_error] are the properties of rounding the proofs use. *)
From Stdlib Require Import QArith Qround Qabs Lqa.
From S2P Require Import Prelude GoLib.

Local Open Scope Q_scope.

(** ** Rounding *)

(** The exponent of the leading bit of a positive rational. *)
Definition flog (x : Q) : Z :=
  let k := (Z.log2 (Qnum x) - Z.log2 (Zpos (Qden x)))%Z in
  if Qle_bool (2 ^ k) x then k else (k - 1)%Z.

(** To the nearest integer, ties to even. *)
Definition rhe (x : Q) : Z :=
  let f := Qfloor x in
  match Qcompare (x - inject_Z f) (1 # 2) with
  | Lt => f
  | Gt => (f + 1)%Z
  | Eq => if Z.even f then f else (f + 1)%Z
  end.

(** The exponent of the last of 53 bits; the least exponent is that of the
    subnormal numbers. *)
Definition ulp_exp (x : Q) : Z := Z.max (flog x - 52) (-1074).

Definition rnd_pos (x : Q) : Q := inject_Z (rhe (x / 2 ^ ulp_exp x)) * 2 ^ ulp_exp x.

Definition rnd (x : Q) : Q :=
  match Qcompare x 0 with
  | Eq => 0
  | Gt => rnd_pos x
  | Lt => - rnd_pos (- x)
  end.

Inductive float64 := NaN | Inf (negative : bool) | Fin (q : Q).

Definition round (x : Q) : float64 :=
  let r := Qred (rnd (Qred x)) in
  if Qle_bool (2 ^ 1024) (Qabs r) then Inf (negb (Qle_bool 0 r)) else Fin r.

(** ** Operations *)

Definition fneg_sign (q : Q) : bool := negb (Qle_bool 0 q).

Definition of_int64 (z : Z) : float64 := round (inject_Z z).

Definition fadd (x y : float64) : float64 :=
  match x, y with
  | Fin a, Fin b => round (a + b)
  | Inf s, Inf t => if Bool.eqb s t then Inf s else NaN
  | Inf s, Fin _ | Fin _, Inf s => Inf s
  | _, _ => NaN
  end.

Definition fopp (x : float64) : float64 :=
  match x with NaN => NaN | Inf s => Inf (negb s) | Fin a => Fin (Qred (- a)) end.

Definition fsub (x y : float64) : float64 := fadd x (fopp y).

Definition fmul (x y : float64) : float64 :=
  match x, y with
  | Fin a, Fin b => round (a * b)
  | Inf s, Inf t => Inf (xorb s t)
  | Inf s, Fin a | Fin a, Inf s => if Qeq_bool a 0 then NaN else Inf (xorb s (fneg_sign a))
  | _, _ => NaN
  end.

(** A zero divisor counts as positive zero. *)
Definition fdiv (x y : float64) : float64 :=
  match x, y with
  | Fin a, Fin b =>
      if Qeq_bool b 0 then if Qeq_bool a 0 then NaN else Inf (fneg_sign a)
      else round (a / b)
  | Inf s, Fin b => Inf (xorb s (fneg_sign b))
  | Fin _, Inf _ => Fin 0
  | _, _ => NaN
  end.

(** Comparisons are false on NaN. *)
Definition fle (x y : float64) : bool :=
  match x, y with
  | Fin a, Fin b => Qle_bool a b
  | Inf s, Inf t => s || negb t
  | Inf s, Fin _ => s
  | Fin _, Inf t => negb t
  | _, _ => false
  end.

Definition flt (x y : float64) : bool :=
  match x, y with
  | NaN, _ | _, NaN => false
  | _, _ => negb (fle y x)
  end.

(** Conversion to int64 truncates; where the value does not fit, or is NaN, the
    result depends on the machine. *)
Definition to_int64 (machine : float64 -> Z) (x : float64) : Z :=
  match x with
  | Fin q =>
      let z := Z.quot (Qnum q) (Zpos (Qden q)) in
      if ((- 2 ^ 63 <=? z) && (z <? 2 ^ 63))%Z then z else machine x
  | _ => machine x
  end.

(** [Duration.Seconds] *)
Definition Seconds (d : Duration) : float64 :=
  let sec := Z.quot d Second in
  let nsec := Z.rem d Second in
  fadd (of_int64 sec) (fdiv (of_int64 nsec) (of_int64 1000000000)).
