(* ===== verification/Float64Proofs.v ===== *)
(** Properties of float64 rounding: it is monotone, exact on integers of up to 53
    bits and on powers of two, and close to the exact value. *)
From Stdlib Require Import QArith Qround Qabs Qpower Lqa.
From S2P Require Import Prelude GoLib Float64.

Local Open Scope Q_scope.

(** ** Powers of two *)

Lemma pow2_pos k : 0 < 2 ^ k.
Proof. by apply Qpower_0_lt. Qed.

Lemma pow2_add j k : 2 ^ (j + k) == 2 ^ j * 2 ^ k.
Proof. by apply Qpower_plus. Qed.

Lemma pow2_Z k : (0 <= k)%Z -> 2 ^ k == inject_Z (2 ^ k).
Proof. intros. by rewrite Zpower_Qpower. Qed.

Lemma pow2_le j k : (j <= k)%Z -> 2 ^ j <= 2 ^ k.
Proof. intros. by apply Qpower_le_compat_l. Qed.

Lemma pow2_lt_inv j k : 2 ^ j < 2 ^ k -> (j < k)%Z.
Proof. intros. by eapply Qpower_lt_compat_l_inv. Qed.

(** ** The leading bit *)

Lemma flog_spec x : 0 < x -> 2 ^ flog x <= x /\ x < 2 ^ (flog x + 1).
Proof.
  intros Hx. destruct x as [n d]. assert (0 < n)%Z as Hn by (unfold Qlt in Hx; simpl in Hx; lia).
  set (a := Z.log2 n). set (b := Z.log2 (Zpos d)).
  pose proof (Z.log2_spec n Hn) as [Ha1 Ha2]. pose proof (Z.log2_spec (Zpos d) ltac:(lia)) as [Hb1 Hb2].
  fold a in Ha1, Ha2. fold b in Hb1, Hb2.
  assert (0 <= a /\ 0 <= b)%Z as [Ha Hb] by (split; apply Z.log2_nonneg).
  assert (inject_Z n == (n # d) * inject_Z (Zpos d)) as Hnd by (unfold Qeq; simpl; lia).
  assert (2 ^ a <= inject_Z n /\ inject_Z n < 2 ^ (a + 1)) as [HA1 HA2].
  { rewrite !pow2_Z, <- Zle_Qle, <- Zlt_Qlt by lia. lia. }
  assert (2 ^ b <= inject_Z (Zpos d) /\ inject_Z (Zpos d) < 2 ^ (b + 1)) as [HB1 HB2].
  { rewrite !pow2_Z, <- Zle_Qle, <- Zlt_Qlt by lia. lia. }
  assert (2 ^ (a - b - 1) <= (n # d) /\ (n # d) < 2 ^ (a - b + 1)) as [HL HU].
  { split.
    - apply (Qmult_le_r _ _ (2 ^ (b + 1))); [apply pow2_pos|].
      rewrite <- pow2_add. replace (a - b - 1 + (b + 1))%Z with a by lia.
      eapply Qle_trans; [exact HA1|]. rewrite Hnd. apply Qmult_le_l; [done|]. by apply Qlt_le_weak.
    - apply (Qmult_lt_r _ _ (2 ^ b)); [apply pow2_pos|].
      rewrite <- pow2_add. replace (a - b + 1 + b)%Z with (a + 1)%Z by lia.
      eapply Qle_lt_trans; [|exact HA2]. rewrite Hnd. by apply Qmult_le_l. }
  unfold flog. simpl Qnum. simpl Qden. fold a b. destruct (Qle_bool _ _) eqn:E.
  - split; [by apply Qle_bool_iff|done].
  - split; [done|]. replace (a - b - 1 + 1)%Z with (a - b)%Z by lia.
    apply Qnot_le_lt. rewrite <- Qle_bool_iff. congruence.
Qed.

Lemma flog_unique x k : 2 ^ k <= x -> x < 2 ^ (k + 1) -> flog x = k.
Proof.
  intros H1 H2. assert (0 < x) as Hx by (eapply Qlt_le_trans; [apply (pow2_pos k)|done]).
  destruct (flog_spec x Hx) as [H3 H4].
  assert (2 ^ k < 2 ^ (flog x + 1)) as ?%pow2_lt_inv by (eapply Qle_lt_trans; eauto).
  assert (2 ^ flog x < 2 ^ (k + 1)) as ?%pow2_lt_inv by (eapply Qle_lt_trans; eauto). lia.
Qed.

Lemma flog_mono x y : 0 < x -> x <= y -> (flog x <= flog y)%Z.
Proof.
  intros Hx Hxy. destruct (flog_spec x Hx) as [H1 _].
  destruct (flog_spec y ltac:(lra)) as [_ H2].
  assert (2 ^ flog x < 2 ^ (flog y + 1)) as ?%pow2_lt_inv; [|lia].
  eapply Qle_lt_trans; [exact H1|]. eapply Qle_lt_trans; eauto.
Qed.

Lemma flog_comp x y : 0 < x -> x == y -> flog x = flog y.
Proof.
  intros Hx Hxy. apply flog_unique; destruct (flog_spec y ltac:(lra)); by rewrite Hxy.
Qed.

(** ** To the nearest integer *)

Lemma rhe_comp x y : x == y -> rhe x = rhe y.
Proof.
  intros H. unfold rhe. rewrite (Qfloor_comp x y H). by setoid_rewrite H.
Qed.

Lemma floor_bounds x : inject_Z (Qfloor x) <= x /\ x < inject_Z (Qfloor x) + 1.
Proof.
  split; [apply Qfloor_le|]. pose proof (Qlt_floor x) as H. by rewrite inject_Z_plus in H.
Qed.

Lemma rhe_cases x :
  (rhe x = Qfloor x /\ x - inject_Z (Qfloor x) <= 1 # 2)
  \/ (rhe x = (Qfloor x + 1)%Z /\ (1 # 2) <= x - inject_Z (Qfloor x)).
Proof.
  unfold rhe. destruct (Qcompare_spec (x - inject_Z (Qfloor x)) (1 # 2)) as [H|H|H].
  - destruct (Z.even _); [left|right]; split; lra || done.
  - left. split; [done|lra].
  - right. split; [done|lra].
Qed.

Lemma rhe_near x : x - (1 # 2) <= inject_Z (rhe x) /\ inject_Z (rhe x) <= x + (1 # 2).
Proof.
  destruct (floor_bounds x). destruct (rhe_cases x) as [[-> ?]|[-> ?]].
  - lra.
  - rewrite inject_Z_plus. change (inject_Z 1) with 1. lra.
Qed.

Lemma rhe_Z z : rhe (inject_Z z) = z.
Proof.
  unfold rhe. rewrite Qfloor_Z.
  destruct (Qcompare_spec (inject_Z z - inject_Z z) (1 # 2)) as [H|H|H]; [lra|done|lra].
Qed.

Lemma rhe_mono x y : x <= y -> (rhe x <= rhe y)%Z.
Proof.
  intros Hxy. pose proof (Qfloor_resp_le x y Hxy) as Hf.
  destruct (decide (Qfloor x = Qfloor y)) as [He|Hne].
  - unfold rhe. rewrite He. set (f := Qfloor y).
    destruct (Qcompare_spec (x - inject_Z f) (1 # 2)) as [H|H|H],
      (Qcompare_spec (y - inject_Z f) (1 # 2)) as [H'|H'|H']; try lia; try lra;
      destruct (Z.even f); lia.
  - destruct (rhe_cases x) as [[-> _]|[-> _]], (rhe_cases y) as [[-> _]|[-> _]]; lia.
Qed.

(** ** Rounding of positive numbers *)

Lemma ulp_exp_comp x y : 0 < x -> x == y -> ulp_exp x = ulp_exp y.
Proof. intros. unfold ulp_exp. by rewrite (flog_comp x y). Qed.

Lemma rnd_pos_comp x y : 0 < x -> x == y -> rnd_pos x == rnd_pos y.
Proof.
  intros Hx H. unfold rnd_pos. rewrite (ulp_exp_comp x y Hx H).
  rewrite (rhe_comp (x / 2 ^ ulp_exp y) (y / 2 ^ ulp_exp y)); [done|]. by rewrite H.
Qed.

(** Multiples of the last place are bounds of the rounded value. *)
Lemma mult_pow2 k e : (e <= k)%Z -> exists m, 2 ^ k == inject_Z m * 2 ^ e.
Proof.
  intros H. exists (2 ^ (k - e))%Z. rewrite <- pow2_Z by lia. rewrite <- pow2_add.
  by replace (k - e + e)%Z with k by lia.
Qed.

Lemma div_le_r a b c : 0 < c -> a <= b * c -> a / c <= b.
Proof.
  intros Hc H. apply (Qmult_le_r _ _ c Hc). rewrite Qmult_comm, Qmult_div_r by lra. lra.
Qed.

Lemma div_ge_r a b c : 0 < c -> b * c <= a -> b <= a / c.
Proof.
  intros Hc H. apply (Qmult_le_r _ _ c Hc). rewrite (Qmult_comm (a / c)), Qmult_div_r by lra. lra.
Qed.

Lemma rnd_pos_le x m : x <= inject_Z m * 2 ^ ulp_exp x -> rnd_pos x <= inject_Z m * 2 ^ ulp_exp x.
Proof.
  intros H. unfold rnd_pos. pose proof (pow2_pos (ulp_exp x)).
  apply Qmult_le_compat_r; [|lra]. rewrite <- Zle_Qle, <- (rhe_Z m). apply rhe_mono. by apply div_le_r.
Qed.

Lemma rnd_pos_ge x m : inject_Z m * 2 ^ ulp_exp x <= x -> inject_Z m * 2 ^ ulp_exp x <= rnd_pos x.
Proof.
  intros H. unfold rnd_pos. pose proof (pow2_pos (ulp_exp x)).
  apply Qmult_le_compat_r; [|lra]. rewrite <- Zle_Qle, <- (rhe_Z m). apply rhe_mono. by apply div_ge_r.
Qed.

Lemma rnd_pos_exact x m : x == inject_Z m * 2 ^ ulp_exp x -> rnd_pos x == x.
Proof.
  intros H. apply Qle_antisym.
  - pose proof (rnd_pos_le x m ltac:(lra)). lra.
  - pose proof (rnd_pos_ge x m ltac:(lra)). lra.
Qed.

Lemma rnd_pos_nonneg x : 0 < x -> 0 <= rnd_pos x.
Proof.
  intros Hx. pose proof (rnd_pos_ge x 0) as H. change (inject_Z 0) with 0 in H. lra.
Qed.

Lemma rnd_pos_mono x y : 0 < x -> x <= y -> rnd_pos x <= rnd_pos y.
Proof.
  intros Hx Hxy. pose proof (flog_mono x y Hx Hxy) as Hf.
  destruct (decide (ulp_exp x = ulp_exp y)) as [He|Hne].
  - unfold rnd_pos. rewrite He. pose proof (pow2_pos (ulp_exp y)).
    apply Qmult_le_compat_r; [|lra]. rewrite <- Zle_Qle. apply rhe_mono.
    apply div_ge_r; [done|]. rewrite Qmult_comm, Qmult_div_r by lra. done.
  - (* a power of two lies between them *)
    assert (ulp_exp y = flog y - 52 /\ ulp_exp x < flog y /\ flog x + 1 <= flog y)%Z as (Hy & Hxe & Hlt)
      by (unfold ulp_exp in *; lia).
    destruct (flog_spec x Hx) as [_ HU]. destruct (flog_spec y ltac:(lra)) as [HL _].
    pose proof (pow2_le _ _ Hlt). apply (Qle_trans _ (2 ^ flog y)).
    + destruct (mult_pow2 (flog y) (ulp_exp x) ltac:(lia)) as [m Hm]. rewrite Hm.
      apply rnd_pos_le. rewrite <- Hm. lra.
    + destruct (mult_pow2 (flog y) (ulp_exp y) ltac:(lia)) as [m Hm]. rewrite Hm.
      apply rnd_pos_ge. by rewrite <- Hm.
Qed.

(** ** Rounding *)

Lemma rnd_gt0 x : 0 < x -> rnd x = rnd_pos x.
Proof. intros H. unfold rnd. destruct (Qcompare_spec x 0); lra || done. Qed.

Lemma rnd_0 x : x == 0 -> rnd x = 0.
Proof. intros H. unfold rnd. destruct (Qcompare_spec x 0); lra || done. Qed.

Lemma rnd_lt0 x : x < 0 -> rnd x = - rnd_pos (- x).
Proof. intros H. unfold rnd. destruct (Qcompare_spec x 0); lra || done. Qed.

Lemma rnd_mono x y : x <= y -> rnd x <= rnd y.
Proof.
  intros Hxy. destruct (Qlt_le_dec 0 x) as [Hx|Hx].
  { rewrite !rnd_gt0 by lra. by apply rnd_pos_mono. }
  destruct (Qlt_le_dec y 0) as [Hy|Hy].
  { rewrite !rnd_lt0 by lra. pose proof (rnd_pos_mono (- y) (- x)). lra. }
  apply (Qle_trans _ 0).
  - destruct (Qlt_le_dec x 0); [|rewrite rnd_0 by lra; lra].
    rewrite rnd_lt0 by done. pose proof (rnd_pos_nonneg (- x)). lra.
  - destruct (Qlt_le_dec 0 y); [|rewrite rnd_0 by lra; lra].
    rewrite rnd_gt0 by done. by apply rnd_pos_nonneg.
Qed.

#[export] Instance rnd_comp : Proper (Qeq ==> Qeq) rnd.
Proof.
  intros x y H. apply Qle_antisym; apply rnd_mono; lra.
Qed.

Lemma rnd_opp x : rnd (- x) == - rnd x.
Proof.
  destruct (Qcompare_spec x 0) as [H|H|H].
  - rewrite !rnd_0 by lra. done.
  - rewrite (rnd_gt0 (- x)), (rnd_lt0 x) by lra. lra.
  - rewrite (rnd_lt0 (- x)), (rnd_gt0 x) by lra.
    rewrite (rnd_pos_comp (- - x) x) by lra. done.
Qed.

(** Integers of up to 53 bits are exact. *)
Lemma rnd_Z z : (Z.abs z <= 2 ^ 53)%Z -> rnd (inject_Z z) == inject_Z z.
Proof.
  assert (forall z, 0 < z <= 2 ^ 53 -> rnd (inject_Z z) == inject_Z z)%Z as Hpos.
  { intros n Hn. assert (0 < inject_Z n) as H0 by (change 0 with (inject_Z 0); rewrite <- Zlt_Qlt; lia).
    rewrite rnd_gt0 by done. destruct (flog_spec _ H0) as [HL HU].
    assert (flog (inject_Z n) < 54)%Z as Hf.
    { apply pow2_lt_inv. eapply Qle_lt_trans; [exact HL|].
      rewrite pow2_Z, <- Zlt_Qlt by lia. lia. }
    destruct (decide (flog (inject_Z n) = 53)%Z) as [E|E].
    - apply (rnd_pos_exact _ (2 ^ 52)). unfold ulp_exp. rewrite E. change (53 - 52)%Z with 1%Z.
      assert (n = 2 ^ 53)%Z as ->; [|by vm_compute].
      rewrite E, pow2_Z, <- Zle_Qle in HL by lia. lia.
    - assert (exists k, (0 <= k)%Z /\ ulp_exp (inject_Z n) = (- k)%Z) as (k & Hk & Hu).
      { exists (- ulp_exp (inject_Z n))%Z. unfold ulp_exp. lia. }
      apply (rnd_pos_exact _ (n * 2 ^ k)). rewrite Hu, inject_Z_mult, <- pow2_Z by done.
      rewrite <- Qmult_assoc, <- pow2_add. replace (k + - k)%Z with 0%Z by lia.
      rewrite Qpower_0_r. lra. }
  intros Hz. destruct (Z.lt_trichotomy z 0) as [H|[->|H]].
  - replace z with (- - z)%Z by lia. rewrite inject_Z_opp, rnd_opp, Hpos by lia. done.
  - by rewrite rnd_0.
  - apply Hpos. lia.
Qed.

(** So are powers of two. *)
Lemma rnd_pow2 k : (-1022 <= k)%Z -> rnd (2 ^ k) == 2 ^ k.
Proof.
  intros Hk. pose proof (pow2_pos k). rewrite rnd_gt0 by done.
  assert (flog (2 ^ k) = k) as Hf.
  { apply flog_unique; [lra|]. rewrite pow2_add. change (2 ^ 1) with 2. lra. }
  destruct (mult_pow2 k (ulp_exp (2 ^ k))) as [m Hm]; [unfold ulp_exp; rewrite Hf; lia|].
  by apply (rnd_pos_exact _ m).
Qed.

(** The relative error of a normal number is at most 2^-53. *)
Lemma rnd_error x : 2 ^ (-1022) <= x -> x * (1 - 2 ^ (-53)) <= rnd x /\ rnd x <= x * (1 + 2 ^ (-53)).
Proof.
  intros Hx. pose proof (pow2_pos (-1022)). assert (0 < x) as H0 by lra. rewrite rnd_gt0 by done.
  destruct (flog_spec x H0) as [HL HU].
  assert (-1022 < flog x + 1)%Z as Hf by (apply pow2_lt_inv; lra).
  assert (2 ^ ulp_exp x <= x * 2 ^ (-52)) as Hu.
  { unfold ulp_exp. rewrite Z.max_l by lia. replace (flog x - 52)%Z with (flog x + -52)%Z by lia.
    rewrite pow2_add. apply Qmult_le_compat_r; [done|]. apply Qlt_le_weak, pow2_pos. }
  unfold rnd_pos. pose proof (pow2_pos (ulp_exp x)) as Hp. set (u := 2 ^ ulp_exp x) in *.
  destruct (rhe_near (x / u)) as [H1 H2].
  assert (x / u * u == x) as Hd by (rewrite Qmult_comm; apply Qmult_div_r; lra).
  apply (Qmult_le_compat_r _ _ u) in H1, H2; [|lra..].
  assert (2 ^ (-52) == 2 * 2 ^ (-53)) as H52 by by vm_compute.
  assert ((x / u - (1 # 2)) * u == x - (1 # 2) * u) as E1 by (rewrite <- Hd at 2; ring).
  assert ((x / u + (1 # 2)) * u == x + (1 # 2) * u) as E2 by (rewrite <- Hd at 2; ring). lra.
Qed.

(** The absolute error below a bound of at least 1. *)
Lemma rnd_abs_error x L : 0 <= x -> x <= L -> 1 <= L -> rnd x <= x + L * 2 ^ (-53).
Proof.
  intros H0 HxL HL. pose proof (pow2_pos (-53)) as H53.
  assert (0 <= L * 2 ^ (-53)) as HLp by (apply Qmult_le_0_compat; lra).
  destruct (Qlt_le_dec 0 x) as [Hx|Hx]; [|rewrite rnd_0 by lra; lra].
  destruct (Qlt_le_dec x (2 ^ (-1022))) as [Hs|Hs].
  - assert (rnd x <= 2 ^ (-1022)) as Hr by (rewrite <- (rnd_pow2 (-1022)) by lia; apply rnd_mono; lra).
    assert (2 ^ (-1022) <= 1 * 2 ^ (-53)) as Hp by by vm_compute.
    assert (1 * 2 ^ (-53) <= L * 2 ^ (-53)) by (apply Qmult_le_compat_r; lra). lra.
  - destruct (rnd_error x Hs) as [_ He].
    assert (x * 2 ^ (-53) <= L * 2 ^ (-53)) by (apply Qmult_le_compat_r; lra).
    assert (x * (1 + 2 ^ (-53)) == x + x * 2 ^ (-53)) by ring. lra.
Qed.

(** ** Finite results *)

Lemma rnd_bound x k : (-1022 <= k)%Z -> - 2 ^ k <= x -> x <= 2 ^ k -> - 2 ^ k <= rnd x /\ rnd x <= 2 ^ k.
Proof.
  intros Hk H1 H2. split.
  - rewrite <- (rnd_pow2 k Hk), <- rnd_opp. by apply rnd_mono.
  - rewrite <- (rnd_pow2 k Hk). by apply rnd_mono.
Qed.

Lemma round_fin x : 0 <= x -> x <= 2 ^ 200 -> round x = Fin (Qred (rnd x)).
Proof.
  intros H0 H1. unfold round. rewrite (Qred_complete (rnd (Qred x)) (rnd x)) by (by rewrite Qred_correct).
  assert (0 <= rnd x) by (rewrite <- (rnd_0 0) by done; by apply rnd_mono).
  destruct (rnd_bound x 200 ltac:(lia)) as [_ Hu]; [pose proof (pow2_pos 200); lra|done|].
  destruct (Qle_bool _ _) eqn:E; [exfalso|done]. apply Qle_bool_iff in E.
  rewrite Qred_correct, Qabs_pos in E by done.
  assert (2 ^ 200 < 2 ^ 1024) by by vm_compute. lra.
Qed.

Lemma Qred_Z z : Qred (inject_Z z) = inject_Z z.
Proof.
  pose proof (Qred_correct (inject_Z z)) as H1. pose proof (gcd_Qred (inject_Z z)) as H2.
  destruct (Qred (inject_Z z)) as [n d]. unfold Qeq in H1. simpl in *. rewrite Z.mul_1_r in H1. subst n.
  assert (Zpos d = 1)%Z as Hd.
  { rewrite Z.gcd_comm, Z.mul_comm, Z.gcd_mul_diag_l in H2; lia. }
  injection Hd as ->. unfold inject_Z. f_equal. lia.
Qed.

Lemma of_int64_Z z : (0 <= z <= 2 ^ 53)%Z -> of_int64 z = Fin (inject_Z z).
Proof.
  intros Hz. unfold of_int64. assert (0 <= inject_Z z <= 2 ^ 53) as [H1 H2].
  { rewrite pow2_Z by lia. change 0 with (inject_Z 0). rewrite <- !Zle_Qle. lia. }
  rewrite round_fin; [|done|].
  - rewrite (Qred_complete _ (inject_Z z)) by (apply rnd_Z; lia). by rewrite Qred_Z.
  - assert (2 ^ 53 <= 2 ^ 200) by by apply pow2_le. lra.
Qed.

(** ** Seconds *)

Definition sec (d : Z) : Q :=
  rnd (inject_Z (d / Second) + rnd (inject_Z (d mod Second) / inject_Z 1000000000)).

Lemma frac_bounds n : (0 <= n < Second)%Z ->
  0 <= inject_Z n / inject_Z 1000000000 <= 1 /\ 0 <= rnd (inject_Z n / inject_Z 1000000000) <= 1.
Proof.
  intros Hn. unfold Second in Hn.
  assert (0 <= inject_Z n / inject_Z 1000000000 <= 1) as [H1 H2].
  { split; [apply div_ge_r; [done|]|apply div_le_r; [done|]].
    - rewrite Qmult_0_l. change 0 with (inject_Z 0). rewrite <- Zle_Qle. lia.
    - rewrite Qmult_1_l, <- Zle_Qle. lia. }
  split; [done|]. split.
  - rewrite <- (rnd_0 0) by done. by apply rnd_mono.
  - change 1 with (inject_Z 1). rewrite <- (rnd_Z 1) by lia. by apply rnd_mono.
Qed.

Lemma whole_bounds d : (0 <= d < 2 ^ 63)%Z -> (0 <= d / Second < 2 ^ 34)%Z.
Proof.
  unfold Second. intros Hd. split; [apply Z.div_pos; lia|]. apply Z.div_lt_upper_bound; lia.
Qed.

Lemma sec_bounds d : (0 <= d < 2 ^ 63)%Z ->
  inject_Z (d / Second) <= sec d /\ sec d <= inject_Z (d / Second + 1).
Proof.
  intros Hd. pose proof (whole_bounds d Hd). unfold sec.
  destruct (frac_bounds (d mod Second)) as [_ [H1 H2]]; [apply Z.mod_pos_bound; by unfold Second|].
  split; [rewrite <- (rnd_Z (d / Second)) at 1 by lia|rewrite <- (rnd_Z (d / Second + 1)) by lia];
    apply rnd_mono; rewrite ?inject_Z_plus; change (inject_Z 1) with 1; lra.
Qed.

Lemma Seconds_sec d : (0 <= d < 2 ^ 63)%Z -> Seconds d = Fin (Qred (sec d)).
Proof.
  intros Hd. pose proof (whole_bounds d Hd) as Hw. unfold Seconds, sec.
  assert (0 <= d mod Second < Second)%Z as Hm by (apply Z.mod_pos_bound; by unfold Second).
  rewrite Z.quot_div_nonneg, Z.rem_mod_nonneg by (unfold Second; lia).
  rewrite !of_int64_Z by (unfold Second in *; lia).
  destruct (frac_bounds _ Hm) as [[H1 H2] [H3 H4]].
  assert (1 <= 2 ^ 200 /\ 2 ^ 34 + 1 <= 2 ^ 200) as [H5 H6] by by vm_compute.
  unfold fdiv. change (Qeq_bool (inject_Z 1000000000) 0) with false. cbv iota.
  rewrite round_fin by lra. unfold fadd.
  assert (inject_Z (d / Second) <= 2 ^ 34) by (rewrite pow2_Z, <- Zle_Qle by lia; lia).
  assert (0 <= inject_Z (d / Second)) by (change 0 with (inject_Z 0); rewrite <- Zle_Qle; lia).
  rewrite round_fin by (rewrite Qred_correct; lra).
  f_equal. apply Qred_complete. by rewrite Qred_correct.
Qed.

(** Rounding a number that is zero or normal. *)
Lemma rnd_rel x : x == 0 \/ 2 ^ (-1022) <= x ->
  x * (1 - 2 ^ (-53)) <= rnd x /\ rnd x <= x * (1 + 2 ^ (-53)).
Proof.
  intros [H|H]; [|by apply rnd_error]. rewrite rnd_0, H by done. by vm_compute.
Qed.

(** The exact number of seconds, and its distance from what Seconds returns. *)
Definition seconds (d : Z) : Q := inject_Z d / inject_Z 1000000000.

Lemma seconds_pos d : (0 < d)%Z -> 2 ^ (-30) <= seconds d.
Proof.
  intros Hd. apply div_ge_r; [done|]. apply (Qle_trans _ (inject_Z 1)); [by vm_compute|].
  rewrite <- Zle_Qle. lia.
Qed.

Lemma sec_error d : (0 <= d < 2 ^ 63)%Z ->
  seconds d * (1 - 2 ^ (-51)) <= sec d /\ sec d <= seconds d * (1 + 2 ^ (-51)).
Proof.
  intros Hd. unfold sec, seconds. set (s := (d / Second)%Z). set (n := (d mod Second)%Z).
  assert (0 <= n < Second)%Z as Hn by (apply Z.mod_pos_bound; by unfold Second).
  pose proof (whole_bounds d Hd) as Hs. fold s in Hs.
  assert (inject_Z d == inject_Z s * inject_Z 1000000000 + inject_Z n) as Hdec.
  { rewrite <- inject_Z_mult, <- inject_Z_plus. apply inject_Z_injective.
    rewrite (Z.div_mod d Second) by (by unfold Second). unfold s, n, Second. lia. }
  set (f := inject_Z n / inject_Z 1000000000).
  assert (inject_Z d / inject_Z 1000000000 == inject_Z s + f) as Hx.
  { rewrite Hdec. unfold f. field. }
  assert (0 <= inject_Z s) as Hs0 by (change 0 with (inject_Z 0); rewrite <- Zle_Qle; lia).
  assert (f == 0 \/ 2 ^ (-1022) <= f) as Hf.
  { destruct (decide (n = 0)%Z) as [E|E]; [left; unfold f; by rewrite E|right].
    pose proof (seconds_pos n ltac:(lia)). assert (2 ^ (-1022) <= 2 ^ (-30)) by by apply pow2_le.
    unfold seconds in *. fold f in H. lra. }
  destruct (rnd_rel f Hf) as [H1 H2]. set (y := inject_Z s + rnd f).
  destruct (frac_bounds n Hn) as [[Hf0 _] [Hf1 _]]. fold f in Hf0, Hf1.
  assert (y == 0 \/ 2 ^ (-1022) <= y) as Hy.
  { destruct (decide (s = 0)%Z) as [E|E].
    - unfold y. rewrite E. change (inject_Z 0) with 0. destruct Hf as [Hf|Hf].
      + left. rewrite rnd_0 by done. lra.
      + right. rewrite Qplus_0_l, <- (rnd_pow2 (-1022)) by lia. by apply rnd_mono.
    - right. assert (1 <= inject_Z s) by (change 1 with (inject_Z 1); rewrite <- Zle_Qle; lia).
      assert (2 ^ (-1022) <= 1) by by vm_compute. unfold y. lra. }
  destruct (rnd_rel y Hy) as [H3 H4]. rewrite Hx. clear Hy Hf Hdec.
  assert (2 ^ (-51) == 4 * 2 ^ (-53)) as -> by by vm_compute.
  pose proof (pow2_pos (-53)) as Hu. assert (2 ^ (-53) <= 1 # 4) as Hu4 by by vm_compute.
  set (u := 2 ^ (-53)) in *. set (x := inject_Z s + f).
  assert (x * (1 - u) <= y) as Ha by (unfold x, y; nra).
  assert (y <= x * (1 + u)) as Hb by (unfold x, y; nra).
  assert (0 <= x) by (unfold x; lra). split; nra.
Qed.
