(* ===== verification/RateLimit.v ===== *)
(** internal/ratelimit and ratelimit.go: the token bucket and the sliding window.

    A call takes the reading of time.Now(). Sums and products are rounded one by
    one, as on amd64, where products are not fused with sums. *)
From S2P Require Import Prelude GoLib Float64.

Module Ratelimit.

Record State := MkState {
  Allowed : bool;
  Remaining : Z;
  Limit : Z;
  ResetsAt : Time;
}.

(** ** Data *)

Record bucket := MkBucket {
  tokens : float64;
  b_limit : Z;
  lastFill : Time;
  b_window : Duration;
}.
Abbreviation TokenBucket := (gmap string bucket).

Record window := MkWindow {
  prevCount : Z;
  currCount : Z;
  w_limit : Z;
  windowLen : Duration;
  currStart : Time;
}.
Abbreviation SlidingWindow := (gmap string window).

Section Machine.
(** What the machine converts to int64 where the value does not fit. *)
Context (machine : float64 -> Z).

(** ** Token bucket *)

Definition NewTokenBucket : TokenBucket := ∅.

Definition one : float64 := of_int64 1.

(** The tokens after the refill at [now]. *)
Definition refill (limit : Z) (window : Duration) (now : Time) (b : bucket) : float64 :=
  let elapsed := Sub now (lastFill b) in
  let refillRate := fdiv (of_int64 limit) (Seconds window) in
  let t := fadd (tokens b) (fmul (Seconds elapsed) refillRate) in
  if flt (of_int64 limit) t then of_int64 limit else t.

Definition TB_Allow (key : string) (limit : Z) (window : Duration) (now : Time) (tb : TokenBucket)
  : State * TokenBucket :=
  let b :=
    match tb !! key with
    | Some b => b
    | None => MkBucket (of_int64 limit) limit now window
    end in
  let t := refill limit window now b in
  let resetsAt := Add now window in
  if fle one t then
    let t := fsub t one in
    (MkState true (to_int64 machine t) limit resetsAt, <[key := MkBucket t limit now window]> tb)
  else (MkState false 0 limit resetsAt, <[key := MkBucket t limit now window]> tb).

Definition TB_Reset (key : string) (tb : TokenBucket) : TokenBucket := delete key tb.

(** ** Sliding window *)

Definition NewSlidingWindow : SlidingWindow := ∅.

(** Advance the windows to [now]. *)
Definition shift (limit : Z) (wl : Duration) (now : Time) (w : window) : window :=
  let elapsed := Sub now (currStart w) in
  if elapsed >=? int64 (2 * wl) then MkWindow 0 0 limit wl now
  else if elapsed >=? wl then MkWindow (currCount w) 0 limit wl (Add (currStart w) wl)
  else MkWindow (prevCount w) (currCount w) limit wl (currStart w).

(** The count of the last window, weighted by how much of it is still seen. *)
Definition estimatedCount (now : Time) (w : window) : float64 :=
  let progress := fdiv (Seconds (Sub now (currStart w))) (Seconds (windowLen w)) in
  let progress := if flt one progress then one else progress in
  let prevWeight := fsub one progress in
  fadd (fmul (of_int64 (prevCount w)) prevWeight) (of_int64 (currCount w)).

Definition SW_Allow (key : string) (limit : Z) (wl : Duration) (now : Time) (sw : SlidingWindow)
  : State * SlidingWindow :=
  let w :=
    match sw !! key with
    | Some w => w
    | None => MkWindow 0 0 limit wl now
    end in
  let w := shift limit wl now w in
  let resetsAt := Add (currStart w) wl in
  let estimate := to_int64 machine (estimatedCount now w) in
  if estimate <? limit then
    let w' := MkWindow (prevCount w) (int64 (currCount w + 1)) limit wl (currStart w) in
    let remaining := int64 (int64 (limit - estimate) - 1) in
    let remaining := if remaining <? 0 then 0 else remaining in
    (MkState true remaining limit resetsAt, <[key := w']> sw)
  else (MkState false 0 limit resetsAt, <[key := w]> sw).

Definition SW_Reset (key : string) (sw : SlidingWindow) : SlidingWindow := delete key sw.

(** ** ratelimit.go *)

Record RateLimitState := MkRateLimitState {
  rl_Allowed : bool;
  rl_Remaining : Z;
  rl_Limit : Z;
  rl_ResetsAt : Time;
}.

Definition stateFromInternal (s : State) : RateLimitState :=
  MkRateLimitState (Allowed s) (Remaining s) (Limit s) (ResetsAt s).

Definition Cache_RateLimit (key : string) (limit : Z) (window : Duration) (now : Time) (tb : TokenBucket)
  : bool * RateLimitState * TokenBucket :=
  let '(s, tb') := TB_Allow key limit window now tb in
  let state := stateFromInternal s in (rl_Allowed state, state, tb').

Definition Cache_RateLimitSliding (key : string) (limit : Z) (wl : Duration) (now : Time)
    (sw : SlidingWindow) : bool * RateLimitState * SlidingWindow :=
  let '(s, sw') := SW_Allow key limit wl now sw in
  let state := stateFromInternal s in (rl_Allowed state, state, sw').
End Machine.
End Ratelimit.
