(* ===== verification/RateProofs.v ===== *)
(** The token bucket: bounds on the tokens, the rate it enforces, bursts, refill,
    and what a window of zero does. *)
From Stdlib Require Import QArith Qround Qabs Lqa.
From S2P Require Import Prelude GoLib Float64 Float64Proofs RateLimit.

Local Open Scope Q_scope.

Module RateProofs.
Import Ratelimit.

(** Limits that float64 represents, and positive windows. *)
Record ArgsOk (limit : Z) (window : Duration) : Prop := {
  limit_ok : (0 <= limit <= 2 ^ 53)%Z;
  window_ok : (0 < window < 2 ^ 63)%Z;
}.

Lemma inject_nonneg z : (0 <= z)%Z -> 0 <= inject_Z z.
Proof. intros. change 0 with (inject_Z 0). by rewrite <- Zle_Qle. Qed.

Lemma inject_le a b : (a <= b)%Z -> inject_Z a <= inject_Z b.
Proof. intros. by rewrite <- Zle_Qle. Qed.

Lemma rnd_nonneg x : 0 <= x -> 0 <= rnd x.
Proof. intros. rewrite <- (rnd_0 0) by done. by apply rnd_mono. Qed.

Lemma rnd_le_Z x z : (Z.abs z <= 2 ^ 53)%Z -> x <= inject_Z z -> rnd x <= inject_Z z.
Proof. intros Hz Hx. rewrite <- (rnd_Z z Hz). by apply rnd_mono. Qed.

Lemma rnd_ge_Z x z : (Z.abs z <= 2 ^ 53)%Z -> inject_Z z <= x -> inject_Z z <= rnd x.
Proof. intros Hz Hx. rewrite <- (rnd_Z z Hz) at 1. by apply rnd_mono. Qed.

Lemma to_int64_fin machine q : 0 <= q -> q < 2 ^ 63 -> to_int64 machine (Fin q) = Qfloor q.
Proof.
  intros H0 H1. destruct q as [n d]. unfold to_int64. simpl Qnum. simpl Qden.
  assert (0 <= n)%Z by (unfold Qle in H0; simpl in H0; lia).
  rewrite Z.quot_div_nonneg by lia. change (n / Zpos d)%Z with (Qfloor (n # d)).
  assert (0 <= Qfloor (n # d))%Z by (change 0%Z with (Qfloor 0); by apply Qfloor_resp_le).
  assert (Qfloor (n # d) < 2 ^ 63)%Z.
  { rewrite Zlt_Qlt. eapply Qle_lt_trans; [apply Qfloor_le|]. by rewrite <- pow2_Z. }
  rewrite (proj2 (Z.leb_le _ _)), (proj2 (Z.ltb_lt _ _)) by lia. done.
Qed.

Lemma Sub_elapsed now last : (last <= now)%Z ->
  (0 <= Sub now last < 2 ^ 63 /\ Sub now last <= now - last)%Z.
Proof. intros. unfold Sub, minDuration, maxDuration. lia. Qed.

(** The errors of a refill, from above and from below: [u] is the unit of
    rounding, [z * S == L] the exact quotient. *)
Lemma upper_arith (x y z S E r u L rho : Q) :
  0 < u -> u <= 1 # 1024 -> 0 < y -> 0 <= z -> z * S == L -> y * (1 - 4 * u) <= S ->
  0 <= E -> E <= x * (1 + 4 * u) -> 0 <= r -> r <= z * (1 + u) -> rho * y == L * x ->
  E * r * (1 + u) * y <= rho * (1 + 32 * u) * y.
Proof.
  intros Hu Hu' Hy Hz HzS HS HE HEx Hr Hrz Hrho.
  assert (0 <= x) as Hx by nra.
  assert (E * r <= x * (1 + 4 * u) * (z * (1 + u))) as H1 by by apply Qmult_le_compat_nonneg.
  assert (E * r * ((1 + u) * y) <= x * (1 + 4 * u) * (z * (1 + u)) * ((1 + u) * y)) as H2
    by (apply Qmult_le_compat_r; [done|nra]).
  assert (0 <= x * z) as Hxz by by apply Qmult_le_0_compat.
  assert (0 <= x * z * y) as HX by (apply Qmult_le_0_compat; lra).
  assert ((1 + 4 * u) * ((1 + u) * (1 + u)) <= (1 - 4 * u) * (1 + 32 * u)) as Hnum by nra.
  assert (x * z * y * ((1 + 4 * u) * ((1 + u) * (1 + u))) <= x * z * y * ((1 - 4 * u) * (1 + 32 * u))) as H3
    by (rewrite !(Qmult_comm (x * z * y)); by apply Qmult_le_compat_r).
  assert (x * z * (y * (1 - 4 * u)) <= x * z * S) as H4
    by (rewrite !(Qmult_comm (x * z)); by apply Qmult_le_compat_r).
  assert (x * z * S == rho * y) as H5 by (rewrite Hrho, <- HzS; ring).
  assert (x * z * (y * (1 - 4 * u)) * (1 + 32 * u) <= rho * y * (1 + 32 * u)) as H6
    by (apply Qmult_le_compat_r; [by rewrite <- H5|lra]).
  lra.
Qed.

Lemma lower_arith (x y z S E r u L : Q) :
  0 < u -> u <= 1 # 1024 -> 0 < y -> 2 * y <= x -> 0 <= z -> z * S == L -> S <= y * (1 + 4 * u) ->
  x * (1 - 4 * u) <= E -> z * (1 - u) <= r -> 1 <= L -> 1 <= E * r.
Proof.
  intros Hu Hu' Hy Hxy Hz HzS HS HEx Hrz HL.
  assert (z * S <= z * (y * (1 + 4 * u))) as H1 by (rewrite !(Qmult_comm z); by apply Qmult_le_compat_r).
  assert (2 * y * (1 - 4 * u) <= E) as H2 by nra.
  assert (2 * y * (1 - 4 * u) * (z * (1 - u)) <= E * r) as H3 by (apply Qmult_le_compat_nonneg; split; nra).
  assert (0 <= z * y) as Hzy by (apply Qmult_le_0_compat; lra).
  assert ((1 + 4 * u) <= 2 * ((1 - 4 * u) * (1 - u))) as Hnum by nra.
  assert (z * y * (1 + 4 * u) <= z * y * (2 * ((1 - 4 * u) * (1 - u)))) as H4
    by (rewrite !(Qmult_comm (z * y)); by apply Qmult_le_compat_r).
  lra.
Qed.

(** ** The rate of refill *)

Section Rate.
Context (limit window : Z) (args : ArgsOk limit window).

Abbreviation L := (inject_Z limit).
Abbreviation W := (inject_Z window).

Definition rate : Q := rnd (L / sec window).

Lemma L_bounds : 0 <= L /\ L <= 2 ^ 53.
Proof using args.
  destruct args as [[H1 H2] _]. split; [by apply inject_nonneg|]. rewrite pow2_Z by lia. by apply inject_le.
Qed.

Lemma sec_window : 2 ^ (-31) <= sec window.
Proof using args.
  destruct args as [_ [H1 H2]]. destruct (sec_error window ltac:(lia)) as [H _].
  pose proof (seconds_pos window ltac:(lia)).
  assert (2 ^ (-31) <= 2 ^ (-30) * (1 - 2 ^ (-51))) by by vm_compute.
  assert (2 ^ (-30) * (1 - 2 ^ (-51)) <= seconds window * (1 - 2 ^ (-51))); [|lra].
  apply Qmult_le_compat_r; [done|by vm_compute].
Qed.

Lemma quotient_bounds : 0 <= L / sec window /\ L / sec window <= 2 ^ 84.
Proof using args.
  pose proof L_bounds as [H1 H2]. pose proof sec_window as H3. pose proof (pow2_pos (-31)).
  split; [apply div_ge_r; lra|]. apply div_le_r; [lra|].
  assert (2 ^ 84 * 2 ^ (-31) == 2 ^ 53) by by vm_compute.
  assert (2 ^ 84 * 2 ^ (-31) <= 2 ^ 84 * sec window); [|lra].
  apply Qmult_le_l; [apply pow2_pos|done].
Qed.

Lemma rate_bounds : 0 <= rate /\ rate <= 2 ^ 84.
Proof using args.
  pose proof quotient_bounds as [H1 H2]. split; [by apply rnd_nonneg|].
  apply (rnd_bound _ 84); [lia|pose proof (pow2_pos 84); lra|done].
Qed.

Lemma rate_float : fdiv (of_int64 limit) (Seconds window) = Fin (Qred rate).
Proof using args.
  pose proof sec_window as Hw. pose proof (pow2_pos (-31)). pose proof quotient_bounds as [H1 H2].
  destruct args as [Hl Hwin].
  rewrite of_int64_Z, Seconds_sec by lia. unfold fdiv. destruct (Qeq_bool _ _) eqn:E.
  { apply Qeq_bool_iff in E. rewrite Qred_correct in E. lra. }
  assert (2 ^ 84 <= 2 ^ 200) by by apply pow2_le.
  rewrite round_fin by (rewrite Qred_correct; lra).
  f_equal. apply Qred_complete. unfold rate. by rewrite Qred_correct.
Qed.

(** Tokens gained over [e] nanoseconds. *)
Definition gain (e : Z) : Q := rnd (sec e * rate).

Lemma sec_le34 e : (0 <= e < 2 ^ 63)%Z -> 0 <= sec e /\ sec e <= 2 ^ 34.
Proof.
  intros He. destruct (sec_bounds e He) as [H1 H2]. pose proof (whole_bounds e He).
  pose proof (inject_nonneg (e / Second) ltac:(lia)). split; [lra|].
  apply (Qle_trans _ _ _ H2). rewrite pow2_Z by lia. apply inject_le. lia.
Qed.

Lemma gain_bounds e : (0 <= e < 2 ^ 63)%Z -> 0 <= gain e /\ gain e <= 2 ^ 118.
Proof using args.
  intros He. pose proof rate_bounds as [R1 R2]. destruct (sec_le34 e He) as [S1 S2].
  assert (0 <= sec e * rate) by by apply Qmult_le_0_compat.
  split; [by apply rnd_nonneg|]. apply (rnd_bound _ 118); [lia|pose proof (pow2_pos 118); lra|].
  assert (2 ^ 34 * 2 ^ 84 == 2 ^ 118) as <- by by vm_compute.
  by apply Qmult_le_compat_nonneg.
Qed.

(** Refilling is capped at the limit and never below what there was. *)
Lemma refill_float b q now :
  tokens b = Fin q -> 0 <= q -> q <= 2 ^ 53 -> (lastFill b <= now)%Z ->
  let g := gain (Sub now (lastFill b)) in
  exists t, refill limit window now b = Fin t /\ 0 <= t /\ t <= L
    /\ (t == rnd (q + g) \/ (t == L /\ L < rnd (q + g))).
Proof using args.
  intros Hb H0 H1 Hnow g. destruct (Sub_elapsed now _ Hnow) as [He _].
  destruct (gain_bounds _ He) as [G1 G2]. destruct (sec_le34 _ He) as [S1 S2].
  pose proof rate_bounds as [R1 R2]. pose proof L_bounds as [L1 L2]. fold g in G1, G2.
  assert (2 ^ 118 + 2 ^ 53 <= 2 ^ 200 /\ 2 ^ 34 * 2 ^ 84 <= 2 ^ 200) as [B1 B2] by by vm_compute.
  assert (0 <= sec (Sub now (lastFill b)) * rate) by by apply Qmult_le_0_compat.
  assert (sec (Sub now (lastFill b)) * rate <= 2 ^ 34 * 2 ^ 84) by by apply Qmult_le_compat_nonneg.
  unfold refill. rewrite rate_float, Seconds_sec, Hb by done. unfold fmul.
  rewrite round_fin by (rewrite !Qred_correct; lra). unfold fadd.
  rewrite (round_fin (q + _)) by (rewrite !Qred_correct; fold (gain (Sub now (lastFill b))); fold g; lra).
  assert (rnd (q + Qred (rnd (Qred (sec (Sub now (lastFill b))) * Qred rate))) == rnd (q + g)) as Heq.
  { rewrite !Qred_correct. done. }
  rewrite (Qred_complete _ _ Heq), of_int64_Z by apply args.
  assert (0 <= rnd (q + g)) by (apply rnd_nonneg; lra).
  unfold flt, fle. destruct (Qle_bool _ _) eqn:E; simpl.
  - apply Qle_bool_iff in E. rewrite Qred_correct in E. eexists. split; [done|].
    rewrite !Qred_correct. split_and!; [done|done|by left].
  - exists L. split_and!; [done|lra|lra|]. right. split; [done|].
    apply Qnot_le_lt. intros Hle. rewrite <- (Qred_correct (rnd _)), <- Qle_bool_iff in Hle. congruence.
Qed.

(** ** How close the gain is to the exact rate *)

Lemma seconds_ratio e : L * (inject_Z e / W) * seconds window == L * seconds e.
Proof using args.
  destruct args as [_ Hw]. unfold seconds. field. intros H. pose proof (inject_le 1 window ltac:(lia)) as H1.
  change (inject_Z 1) with 1 in H1. lra.
Qed.

Context (positive : (1 <= limit)%Z).

Lemma L_ge1 : 1 <= L.
Proof using positive. change 1 with (inject_Z 1). by apply inject_le. Qed.

Lemma quotient_error :
  2 ^ (-35) <= L / sec window
  /\ L / sec window * (1 - 2 ^ (-53)) <= rate /\ rate <= L / sec window * (1 + 2 ^ (-53)).
Proof using args positive.
  destruct args as [_ Hw]. destruct (sec_le34 window ltac:(lia)) as [_ H34].
  pose proof sec_window as H31. pose proof (pow2_pos (-31)). pose proof L_ge1.
  assert (2 ^ (-35) <= L / sec window) as Hq.
  { apply div_ge_r; [lra|]. assert (2 ^ (-35) * 2 ^ 34 <= 1) by by vm_compute.
    assert (2 ^ (-35) * sec window <= 2 ^ (-35) * 2 ^ 34); [|lra].
    apply Qmult_le_l; [apply pow2_pos|done]. }
  split; [done|]. apply rnd_error. assert (2 ^ (-1022) <= 2 ^ (-35)) by by apply pow2_le. lra.
Qed.

Lemma quotient_times : L / sec window * sec window == L.
Proof using args. pose proof sec_window. pose proof (pow2_pos (-31)). field. lra. Qed.

(** Tokens are gained at the rate of [limit] per [window], up to rounding. *)
Lemma gain_upper e : (0 <= e < 2 ^ 63)%Z -> gain e <= L * (inject_Z e / W) * (1 + 2 ^ (-48)).
Proof using args positive.
  intros He. destruct (sec_error e He) as [_ HE]. destruct args as [_ Hw].
  destruct (sec_error window ltac:(lia)) as [HW _]. pose proof (seconds_pos window ltac:(lia)) as Hy.
  destruct quotient_error as (Hz0 & Hr0 & Hr). pose proof quotient_times as Hz.
  pose proof (seconds_ratio e) as Hrho. destruct (sec_le34 e He) as [HE0 _].
  assert (sec e == 0 \/ 2 ^ (-31) <= sec e) as HEn.
  { destruct (decide (e = 0)%Z) as [->|Hne]; [left; by vm_compute|right].
    destruct (sec_error e He) as [HEl _]. pose proof (seconds_pos e ltac:(lia)).
    assert (2 ^ (-31) <= 2 ^ (-30) * (1 - 2 ^ (-51))) by by vm_compute.
    assert (2 ^ (-30) * (1 - 2 ^ (-51)) <= seconds e * (1 - 2 ^ (-51))); [|lra].
    apply Qmult_le_compat_r; [done|by vm_compute]. }
  unfold gain. pose proof (pow2_pos (-35)) as P35. pose proof (pow2_pos (-30)) as P30.
  assert (2 ^ (-36) <= rate) as Hr36.
  { assert (2 ^ (-36) <= 2 ^ (-35) * (1 - 2 ^ (-53))) by by vm_compute.
    assert (2 ^ (-35) * (1 - 2 ^ (-53)) <= L / sec window * (1 - 2 ^ (-53))); [|lra].
    apply Qmult_le_compat_r; [done|by vm_compute]. }
  assert (rnd (sec e * rate) <= sec e * rate * (1 + 2 ^ (-53))) as Hg.
  { apply rnd_rel. destruct HEn as [H0|H31]; [left; rewrite H0; ring|right].
    apply (Qle_trans _ (2 ^ (-31) * 2 ^ (-36))); [by vm_compute|].
    apply Qmult_le_compat_nonneg; (split; [apply Qlt_le_weak, pow2_pos|done]). }
  eapply Qle_trans; [exact Hg|]. clear Hg HEn Hr36. destruct rate_bounds as [HR0 _].
  set (z := L / sec window) in *. set (x := seconds e) in *. set (y := seconds window) in *.
  set (rho := L * (inject_Z e / W)) in *. set (S := sec window) in *. set (E := sec e) in *.
  clearbody z x y rho S E. revert HE HW Hr.
  assert (2 ^ (-51) == 4 * 2 ^ (-53)) as -> by by vm_compute.
  assert (2 ^ (-48) == 32 * 2 ^ (-53)) as -> by by vm_compute.
  pose proof (pow2_pos (-53)) as Hu. assert (2 ^ (-53) <= 1 # 1024) as Hu4 by by vm_compute.
  assert (0 <= z) by lra. pose proof L_ge1. set (u := 2 ^ (-53)) in *. set (r := rate) in *. clearbody u r. clear Hr0.
  intros HE HW Hr. apply (Qmult_le_r _ _ y); [lra|]. apply (upper_arith x y z S E r u L rho); auto; lra.
Qed.

(** Two windows refill at least one token. *)
Lemma gain_lower e : (2 * window <= e < 2 ^ 63)%Z -> 1 <= gain e.
Proof using args positive.
  intros He. destruct args as [_ Hw]. destruct (sec_error e ltac:(lia)) as [HE _].
  destruct (sec_error window ltac:(lia)) as [_ HW]. pose proof (seconds_pos window ltac:(lia)) as Hy.
  destruct quotient_error as (Hz0 & Hr & _). pose proof quotient_times as Hz.
  pose proof (pow2_pos (-30)). pose proof (pow2_pos (-35)).
  assert (2 * seconds window <= seconds e) as Hx.
  { unfold seconds. apply div_ge_r; [done|].
    assert (2 * (W / inject_Z 1000000000) * inject_Z 1000000000 == inject_Z (2 * window)) as ->
      by (rewrite inject_Z_mult; change (inject_Z 2) with 2; field).
    apply inject_le. lia. }
  unfold gain. apply (rnd_ge_Z _ 1); [lia|]. change (inject_Z 1) with 1.
  pose proof L_ge1. revert HE HW.
  assert (2 ^ (-51) == 4 * 2 ^ (-53)) as -> by by vm_compute. intros HE HW.
  apply (lower_arith (seconds e) (seconds window) (L / sec window) (sec window) (sec e) rate (2 ^ (-53)) L);
    auto; lra.
Qed.
End Rate.

(** ** Calls *)

Section Calls.
Context (machine : float64 -> Z).

(** A bucket as it is between calls, at time [now]. *)
Definition BucketOk (now : Time) (b : bucket) : Prop :=
  exists q, tokens b = Fin q /\ 0 <= q /\ q <= 2 ^ 53 /\ (lastFill b <= now)%Z.

Definition TBOk (now : Time) (tb : TokenBucket) : Prop :=
  forall key b, tb !! key = Some b -> BucketOk now b.

(** The bucket a call works on. *)
Definition current (limit window now : Z) (key : string) (tb : TokenBucket) : bucket :=
  match tb !! key with Some b => b | None => MkBucket (of_int64 limit) limit now window end.

Lemma current_ok limit window now key tb :
  ArgsOk limit window -> TBOk now tb -> BucketOk now (current limit window now key tb).
Proof.
  intros Ha Htb. unfold current. destruct (tb !! key) as [b|] eqn:E; [by eapply Htb|].
  exists (inject_Z limit). destruct (L_bounds limit window Ha). split_and!; [|done|done|by simpl].
  apply of_int64_Z, Ha.
Qed.

(** One call: the tokens [t] after the refill decide. *)
Lemma allow_spec limit window now key tb :
  ArgsOk limit window -> TBOk now tb ->
  let b := current limit window now key tb in
  exists t t' st, refill limit window now b = Fin t /\ 0 <= t /\ t <= inject_Z limit
    /\ TB_Allow machine key limit window now tb
       = (st, <[key := MkBucket (Fin t') limit now window]> tb)
    /\ Limit st = limit /\ ResetsAt st = Add now window
    /\ ((1 <= t /\ Allowed st = true /\ t' == rnd (t - 1) /\ 0 <= t' /\ t' <= inject_Z (limit - 1)
         /\ Remaining st = Qfloor t')
        \/ (t < 1 /\ Allowed st = false /\ t' = t /\ Remaining st = 0%Z)).
Proof.
  intros Ha Htb b. destruct (current_ok limit window now key tb Ha Htb) as (q & Hq & H0 & H1 & Hl).
  fold b in Hq, Hl. destruct (refill_float limit window Ha b q now Hq H0 H1 Hl) as (t & Ht & T0 & T1 & _).
  unfold TB_Allow. fold (current limit window now key tb). fold b. rewrite Ht.
  assert (one = Fin 1) as -> by by vm_compute. unfold fle. destruct (Qle_bool 1 t) eqn:E.
  - apply Qle_bool_iff in E. unfold fsub, fopp, fadd.
    assert (2 ^ 53 <= 2 ^ 200 /\ 2 ^ 53 < 2 ^ 63) as [B1 B2] by by vm_compute.
    destruct (L_bounds limit window Ha) as [_ L2].
    assert (inject_Z (limit - 1) == inject_Z limit - 1) as Hm
      by (rewrite <- Z.add_opp_r, inject_Z_plus, inject_Z_opp; by change (inject_Z 1) with 1).
    change (Qred (- (1))) with (-1 # 1). rewrite round_fin by lra.
    assert (Qred (rnd (t + (-1 # 1))) == rnd (t - 1)) as Hr by by rewrite Qred_correct.
    destruct (Ha) as [Hlim _].
    assert (0 <= rnd (t - 1) /\ rnd (t - 1) <= inject_Z (limit - 1)) as [R1 R2].
    { split; [apply rnd_nonneg; lra|]. apply rnd_le_Z; [lia|]. lra. }
    eexists t, _, _. split_and!; [done|done|done|done|done|done|]. left. simpl.
    split_and!; [done|done|done|lra|lra|]. apply to_int64_fin; lra.
  - assert (t < 1) by (apply Qnot_le_lt; rewrite <- Qle_bool_iff; congruence).
    eexists t, t, _. split_and!; [done|done|done|done|done|done|]. by right.
Qed.

Lemma allow_ok limit window now key tb :
  ArgsOk limit window -> TBOk now tb -> TBOk now (TB_Allow machine key limit window now tb).2.
Proof.
  intros Ha Htb. destruct (allow_spec limit window now key tb Ha Htb)
    as (t & t' & st & _ & T0 & T1 & -> & _ & _ & Hc). simpl.
  destruct (L_bounds limit window Ha) as [_ L2].
  intros k b [[_ <-]|[_ Hb]]%lookup_insert_Some; [|by eapply Htb]. exists t'. simpl.
  destruct Hc as [(_ & _ & _ & H0 & H1 & _)|(_ & _ & -> & _)]; (split_and!; [done|lra| |lia]).
  - pose proof (inject_le (limit - 1) limit ltac:(lia)). lra.
  - lra.
Qed.

(** The answer is in range. *)
Lemma allow_state limit window now key tb :
  ArgsOk limit window -> TBOk now tb ->
  let st := (TB_Allow machine key limit window now tb).1 in
  Limit st = limit /\ ResetsAt st = Add now window
  /\ (if Allowed st then (0 <= Remaining st < limit)%Z else Remaining st = 0%Z).
Proof.
  intros Ha Htb. destruct (allow_spec limit window now key tb Ha Htb)
    as (t & t' & st & _ & T0 & T1 & -> & HL & HR & Hc). cbn [fst]. split_and!; [done|done|].
  destruct Hc as [(_ & -> & _ & H0 & H1 & ->)|(_ & -> & _ & ->)]; [|done].
  apply Qfloor_resp_le in H0, H1. rewrite Qfloor_Z in H1. change (Qfloor 0) with 0%Z in H0. lia.
Qed.

Lemma TBOk_later now now' tb : TBOk now tb -> (now <= now')%Z -> TBOk now' tb.
Proof. intros Htb Hle k b Hb. destruct (Htb k b Hb) as (q & ? & ? & ? & ?). exists q. split_and!; auto. lia. Qed.

(** States reached by calls with any limits and windows at times that do not
    decrease. *)
Inductive tb_reachable : Time -> TokenBucket -> Prop :=
  | tb_new now : tb_reachable now NewTokenBucket
  | tb_allow now now' key limit window tb :
      tb_reachable now tb -> (now <= now')%Z -> ArgsOk limit window ->
      tb_reachable now' (TB_Allow machine key limit window now' tb).2
  | tb_reset now key tb : tb_reachable now tb -> tb_reachable now (TB_Reset key tb).

Lemma tb_reachable_ok now tb : tb_reachable now tb -> TBOk now tb.
Proof.
  induction 1 as [now|now now' key limit window tb _ IH Hle Ha|now key tb _ IH].
  - intros k b Hb. unfold NewTokenBucket in Hb. by rewrite lookup_empty in Hb.
  - apply allow_ok; [done|]. by eapply TBOk_later.
  - intros k b. unfold TB_Reset. intros [_ Hb]%lookup_delete_Some. by eapply IH.
Qed.
End Calls.
End RateProofs.
