(* ===== verification/RateTheorems.v ===== *)
(** What the token bucket promises. *)
From Stdlib Require Import QArith Qround Qabs Lqa.
From S2P Require Import Prelude GoLib Float64 Float64Proofs RateLimit RateProofs.

Module TokenBucketTheorems.
Import Ratelimit RateProofs.

Section Theorems.
Context (machine : float64 -> Z).

(** Whatever calls came before, the answer of a token bucket is in range: an
    allowed request leaves between 0 and limit - 1 tokens, a denied one 0, and the
    tokens kept for the key are a finite number between 0 and the limit. *)
Theorem token_bucket_bounds now now' key limit window tb :
  tb_reachable machine now tb -> now <= now' -> ArgsOk limit window ->
  let '(st, tb') := TB_Allow machine key limit window now' tb in
  Limit st = limit /\ ResetsAt st = Add now' window
  /\ (if Allowed st then 0 <= Remaining st < limit else Remaining st = 0)
  /\ exists b q, tb' !! key = Some b /\ tokens b = Fin q /\ (0 <= q /\ q <= inject_Z limit)%Q
     /\ lastFill b = now'.
Proof.
  intros Hr Hle Ha.
  assert (TBOk now' tb) as Htb by (eapply TBOk_later; [by eapply tb_reachable_ok|done]).
  pose proof (allow_state machine limit window now' key tb Ha Htb) as (HL & HR & HM).
  destruct (allow_spec machine limit window now' key tb Ha Htb)
    as (t & t' & st & _ & T0 & T1 & HA & _ & _ & Hc).
  rewrite HA in HL, HR, HM |- *. split_and!; [done|done|exact HM|].
  - eexists _, t'. rewrite lookup_insert_eq. split_and!; try done.
    + destruct Hc as [(_ & _ & _ & H0 & _)|(_ & _ & -> & _)]; done.
    + destruct Hc as [(_ & _ & _ & _ & H1 & _)|(_ & _ & -> & _)]; [|done].
      pose proof (inject_le (limit - 1) limit ltac:(lia)). lra.
Qed.

(** ** The rate *)

(** How many of the calls at the times [ts] are allowed. *)
Fixpoint tb_allowed (key : string) (limit : Z) (window : Duration) (ts : list Time) (tb : TokenBucket) : Z :=
  match ts with
  | [] => 0
  | t :: ts' =>
      let '(st, tb') := TB_Allow machine key limit window t tb in
      (if Allowed st then 1 else 0) + tb_allowed key limit window ts' tb'
  end.

Fixpoint ascending (t : Time) (ts : list Time) : Prop :=
  match ts with
  | [] => True
  | t' :: ts' => t <= t' /\ ascending t' ts'
  end.

Section Rate.
Context (key : string) (limit window : Z) (args : ArgsOk limit window) (positive : 1 <= limit).
#[local] Open Scope Q_scope.

Abbreviation L := (inject_Z limit).

(** A call pays for itself: what it allows and what it leaves come from the
    tokens after the refill, up to rounding. *)
Lemma allow_pays now tb :
  TBOk now tb ->
  exists t q st, TB_Allow machine key limit window now tb
      = (st, <[key := MkBucket (Fin q) limit now window]> tb)
    /\ refill limit window now (current limit window now key tb) = Fin t
    /\ t <= L /\ 0 <= q /\ inject_Z (if Allowed st then 1 else 0) + q <= t + L * 2 ^ (-53).
Proof using args positive.
  intros Htb. destruct (allow_spec machine limit window now key tb args Htb)
    as (t & q & st & Ht & T0 & T1 & HA & _ & _ & Hc).
  exists t, q, st. pose proof (L_ge1 limit positive) as HL. pose proof (pow2_pos (-53)) as Hp.
  assert (0 <= L * 2 ^ (-53)) by (apply Qmult_le_0_compat; lra).
  split_and!; [done|done|done| |].
  - destruct Hc as [(_ & _ & _ & H0 & _)|(_ & _ & -> & _)]; done.
  - destruct Hc as [(H1 & -> & Hq & _)|(_ & -> & -> & _)].
    + pose proof (rnd_abs_error (t - 1) L ltac:(lra) ltac:(lra) HL). change (inject_Z 1) with 1. lra.
    + change (inject_Z 0) with 0. lra.
Qed.

Lemma refill_pays b q now t :
  tokens b = Fin q -> 0 <= q -> q <= 2 ^ 53 -> (lastFill b <= now)%Z ->
  refill limit window now b = Fin t ->
  t <= q + L * (inject_Z (now - lastFill b) / inject_Z window) * (1 + 2 ^ (-48)) + L * 2 ^ (-53).
Proof using args positive.
  intros Hb H0 H1 Hl Ht.
  destruct (refill_float limit window args b q now Hb H0 H1 Hl) as (t' & Ht' & T0 & T1 & Hc).
  rewrite Ht in Ht'. injection Ht' as <-. destruct (Sub_elapsed now (lastFill b) Hl) as [He Hle].
  pose proof (gain_upper limit window args positive _ He) as Hg.
  destruct (gain_bounds limit window args _ He) as [G0 _]. set (g := gain _ _ _) in *.
  assert (L * (inject_Z (Sub now (lastFill b)) / inject_Z window) * (1 + 2 ^ (-48))
    <= L * (inject_Z (now - lastFill b) / inject_Z window) * (1 + 2 ^ (-48))) as Hmono.
  { apply Qmult_le_compat_r; [|by vm_compute]. apply Qmult_le_l; [pose proof (L_ge1 limit positive); lra|].
    unfold Qdiv. apply Qmult_le_compat_r; [by apply inject_le|].
    apply Qinv_le_0_compat, inject_nonneg. pose proof (window_ok _ _ args). lia. }
  pose proof (L_ge1 limit positive) as HL. pose proof (pow2_pos (-53)).
  assert (0 <= L * 2 ^ (-53)) by (apply Qmult_le_0_compat; lra).
  destruct (Qlt_le_dec L (q + g)) as [Hlt|Hge]; [lra|].
  pose proof (rnd_abs_error (q + g) L ltac:(lra) Hge HL).
  destruct Hc as [Hc|[Hc Hc']]; lra.
Qed.

(** The credit of a bucket bounds the calls to come. *)
Lemma allowed_credit ts now q tb :
  TBOk now tb -> tb !! key = Some (MkBucket (Fin q) limit now window) ->
  0 <= q -> q <= 2 ^ 53 -> ascending now ts ->
  inject_Z (tb_allowed key limit window ts tb)
  <= q + L * (inject_Z (List.last ts now - now) / inject_Z window) * (1 + 2 ^ (-48))
     + inject_Z (Z.of_nat (length ts)) * (L * 2 ^ (-52)).
Proof using args positive.
  revert now q tb. induction ts as [|t ts IH]; intros now q tb Htb Hk H0 H1 Hasc.
  { cbn [tb_allowed List.last length]. rewrite Z.sub_diag. change (inject_Z 0) with 0.
    change (inject_Z (Z.of_nat 0)) with 0. unfold Qdiv. rewrite !Qmult_0_l, Qmult_0_r. lra. }
  destruct Hasc as [Hle Hasc]. cbn [tb_allowed].
  destruct (allow_pays t tb ltac:(by eapply TBOk_later)) as (r & q' & st & HA & Hr & Hr1 & Q0 & Hpay).
  unfold current in Hr. rewrite Hk in Hr.
  pose proof (refill_pays (MkBucket (Fin q) limit now window) q t r eq_refl H0 H1 Hle Hr) as Hrf.
  cbn [lastFill] in Hrf. pose proof (L_bounds limit window args) as [_ L2].
  pose proof (allow_ok machine limit window t key tb args ltac:(by eapply TBOk_later)) as Hok.
  rewrite HA in Hok |- *. simpl in Hok.
  assert (q' <= 2 ^ 53) as Hq'.
  { destruct (Hok key (MkBucket (Fin q') limit t window) ltac:(by rewrite lookup_insert_eq))
      as (x & [= <-] & _ & ? & _). done. }
  specialize (IH t q' (<[key := MkBucket (Fin q') limit t window]> tb) Hok
    ltac:(by rewrite lookup_insert_eq) Q0 Hq' Hasc).
  rewrite inject_Z_plus. replace (List.last (t :: ts) now) with (List.last ts t).
  2:{ destruct ts as [|t' ts]; [done|]. change (List.last (t :: t' :: ts) now) with (List.last (t' :: ts) now).
      generalize t'. clear. induction ts as [|y ts IH]; intros x; [done|]. apply IH. }
  replace (List.last ts t - now)%Z with ((t - now) + (List.last ts t - t))%Z by lia.
  rewrite inject_Z_plus. cbn [length]. rewrite Nat2Z.inj_succ, <- Z.add_1_r, inject_Z_plus.
  change (inject_Z 1) with 1.
  assert (2 ^ (-52) == 2 * 2 ^ (-53)) as H52 by by vm_compute. rewrite H52 in *.
  assert (L * ((inject_Z (t - now) + inject_Z (List.last ts t - t)) / inject_Z window)
    == L * (inject_Z (t - now) / inject_Z window)
       + L * (inject_Z (List.last ts t - t) / inject_Z window)) as -> by (unfold Qdiv; ring).
  lra.
Qed.
End Rate.

(** C12: the rate limit holds: of any calls for a key with limit L >= 1 and window W,
    at times from t to t', at most L + L * (t' - t) / W are allowed, up to the
    rounding of float64: a relative error of 2^-48 in the rate and L * 2^-52 a
    call. It does not matter what happened before. *)
Theorem token_bucket_rate key limit window now tb t ts :
  tb_reachable machine now tb -> now <= t -> ascending t ts -> ArgsOk limit window -> 1 <= limit ->
  (inject_Z (tb_allowed key limit window (t :: ts) tb)
   <= inject_Z limit
      + inject_Z limit * (inject_Z (List.last ts t - t) / inject_Z window) * (1 + 2 ^ (-48))
      + inject_Z (Z.of_nat (length (t :: ts))) * (inject_Z limit * 2 ^ (-52)))%Q.
Proof.
  intros Hr Hle Hasc Ha Hpos. cbn [tb_allowed].
  assert (TBOk t tb) as Htb by (eapply TBOk_later; [by eapply tb_reachable_ok|done]).
  destruct (allow_pays key limit window Ha Hpos t tb Htb) as (r & q & st & HA & _ & Hr1 & Q0 & Hpay).
  pose proof (allow_ok machine limit window t key tb Ha Htb) as Hok. rewrite HA in Hok |- *. simpl in Hok.
  destruct (Hok key (MkBucket (Fin q) limit t window) ltac:(by rewrite lookup_insert_eq))
    as (x & [= <-] & _ & Hq & _).
  pose proof (allowed_credit key limit window Ha Hpos ts t q _ Hok
    ltac:(by rewrite lookup_insert_eq) Q0 Hq Hasc) as Hcr.
  rewrite inject_Z_plus. cbn [length]. rewrite Nat2Z.inj_succ, <- Z.add_1_r, inject_Z_plus.
  change (inject_Z 1) with 1%Q.
  assert (2 ^ (-52) == 2 * 2 ^ (-53))%Q as H52 by by vm_compute. rewrite H52 in *.
  pose proof (L_ge1 limit Hpos). pose proof (pow2_pos (-53)).
  assert (0 <= inject_Z limit * 2 ^ (-53))%Q by (apply Qmult_le_0_compat; lra). lra.
Qed.

(** ** Bursts *)

(** [k] calls at one instant. *)
Definition tb_calls (key : string) (limit : Z) (window : Duration) (now : Time) (k : nat)
    (tb : TokenBucket) : TokenBucket :=
  Nat.iter k (fun tb => (TB_Allow machine key limit window now tb).2) tb.

Lemma gain_0 limit window : ArgsOk limit window -> (gain limit window 0 == 0)%Q.
Proof.
  intros Ha. unfold gain. assert (sec 0 == 0)%Q as H by by vm_compute.
  rewrite H, Qmult_0_l. by rewrite rnd_0.
Qed.

(** With no time passed and [m] tokens, the next call answers exactly. *)
Lemma allow_instant key limit window now tb m q :
  ArgsOk limit window -> TBOk now tb -> 0 <= m <= limit ->
  tokens (current limit window now key tb) = Fin q -> (q == inject_Z m)%Q ->
  lastFill (current limit window now key tb) = now ->
  exists st q', TB_Allow machine key limit window now tb
      = (st, <[key := MkBucket (Fin q') limit now window]> tb)
    /\ Allowed st = (0 <? m) /\ Remaining st = Z.max 0 (m - 1) /\ (q' == inject_Z (Z.max 0 (m - 1)))%Q.
Proof.
  intros Ha Htb Hm Hq Hqm Hl. destruct (current_ok limit window now key tb Ha Htb) as (q0 & Hq0 & H0 & H1 & _).
  rewrite Hq in Hq0. injection Hq0 as <-. pose proof (limit_ok _ _ Ha) as Hlim.
  destruct (refill_float limit window Ha _ q now Hq H0 H1 ltac:(lia)) as (t & Ht & T0 & T1 & Hc).
  destruct (allow_spec machine limit window now key tb Ha Htb)
    as (t0 & q' & st & Ht0 & _ & _ & HA & _ & _ & Hd). rewrite Ht in Ht0. injection Ht0 as <-.
  assert (t == inject_Z m)%Q as Htm.
  { assert (gain limit window (Sub now (lastFill (current limit window now key tb))) == 0)%Q as Hg.
    { rewrite Hl. replace (Sub now now) with 0; [by apply gain_0|].
      unfold Sub, minDuration, maxDuration. lia. }
    assert (rnd (q + gain limit window (Sub now (lastFill (current limit window now key tb))))
      == inject_Z m)%Q as Hr by (rewrite Hg, Qplus_0_r, Hqm; apply rnd_Z; lia).
    pose proof (inject_le m limit ltac:(lia)). destruct Hc as [Hc|[_ Hc]]; lra. }
  exists st, q'. split; [done|]. destruct (decide (m = 0)) as [->|Hne].
  - change (inject_Z 0) with 0%Q in Htm. destruct Hd as [(Hd & _)|(_ & -> & -> & ->)]; [lra|].
    split_and!; [done|done|]. by rewrite Htm.
  - pose proof (inject_le 1 m ltac:(lia)) as H1m. change (inject_Z 1) with 1%Q in H1m.
    destruct Hd as [(_ & -> & Hq' & _ & _ & HR)|(Hd & _)]; [|lra].
    assert (q' == inject_Z (m - 1))%Q as Hqm'.
    { rewrite Hq', Htm. assert (inject_Z m - 1 == inject_Z (m - 1))%Q as ->
        by (rewrite <- (Z.add_opp_r m), inject_Z_plus, inject_Z_opp; by change (inject_Z 1) with 1%Q).
      apply rnd_Z. lia. }
    rewrite Z.max_r by lia. split_and!; [symmetry; apply Z.ltb_lt; lia| |done].
    rewrite HR, (Qfloor_comp _ _ Hqm'). apply Qfloor_Z.
Qed.

Lemma tb_calls_tokens key limit window now tb k :
  TBOk now tb -> tb !! key = None -> ArgsOk limit window ->
  TBOk now (tb_calls key limit window now k tb)
  /\ lastFill (current limit window now key (tb_calls key limit window now k tb)) = now
  /\ exists q, tokens (current limit window now key (tb_calls key limit window now k tb)) = Fin q
     /\ (q == inject_Z (Z.max 0 (limit - Z.of_nat k)))%Q.
Proof.
  intros Htb Hk Ha. pose proof (limit_ok _ _ Ha) as Hl. induction k as [|k (IH1 & IH2 & q & IH3 & IH4)].
  { simpl. unfold current. rewrite Hk. simpl. split_and!; [done|done|].
    exists (inject_Z limit). split; [by apply of_int64_Z|]. rewrite Z.sub_0_r, Z.max_r by lia. reflexivity. }
  destruct (allow_instant key limit window now _ (Z.max 0 (limit - Z.of_nat k)) q Ha IH1 ltac:(lia) IH3 IH4 IH2)
    as (st & q' & HA & _ & _ & Hq'). unfold tb_calls in *. simpl Nat.iter.
  pose proof (allow_ok machine limit window now key _ Ha IH1) as Hok. rewrite HA in Hok |- *. simpl in Hok |- *.
  split; [done|]. unfold current. rewrite lookup_insert_eq. simpl. split; [done|]. exists q'. split; [done|].
  rewrite Hq'. replace (Z.max 0 (Z.max 0 (limit - Z.of_nat k) - 1)) with (Z.max 0 (limit - Z.of_nat (S k))) by lia.
  reflexivity.
Qed.

(** A key seen for the first time can burst: of calls at one instant exactly the
    first [limit] are allowed, and each tells how many are left. *)
Theorem token_bucket_burst now key limit window tb k :
  tb_reachable machine now tb -> tb !! key = None -> ArgsOk limit window ->
  let '(st, _) := TB_Allow machine key limit window now (tb_calls key limit window now k tb) in
  Allowed st = (Z.of_nat k <? limit) /\ Remaining st = Z.max 0 (limit - 1 - Z.of_nat k).
Proof.
  intros Hr Hk Ha. pose proof (limit_ok _ _ Ha) as Hl.
  destruct (tb_calls_tokens key limit window now tb k (tb_reachable_ok _ _ _ Hr) Hk Ha) as (H1 & H2 & q & H3 & H4).
  destruct (allow_instant key limit window now _ (Z.max 0 (limit - Z.of_nat k)) q Ha H1 ltac:(lia) H3 H4 H2)
    as (st & q' & -> & HA & HR & _). split.
  - rewrite HA. apply eq_true_iff_eq. rewrite !Z.ltb_lt. lia.
  - rewrite HR. lia.
Qed.

(** C27: nobody is locked out. After any calls, all of them with limits between 0 and
    2^53 and with positive windows, a request with limit >= 1 and a positive window
    shorter than 2^62 ns that comes two windows after the last call is allowed. *)
Theorem token_bucket_recovers now now' key limit window tb :
  tb_reachable machine now tb -> ArgsOk limit window -> 1 <= limit -> window < 2 ^ 62 ->
  now + 2 * window <= now' ->
  Allowed (TB_Allow machine key limit window now' tb).1 = true.
Proof.
  intros Hr Ha Hpos Hw Hle. pose proof (window_ok _ _ Ha) as Hwin. pose proof (limit_ok _ _ Ha) as Hlim.
  assert (TBOk now' tb) as Htb by (eapply TBOk_later; [by eapply tb_reachable_ok|lia]).
  destruct (allow_spec machine limit window now' key tb Ha Htb)
    as (t & q' & st & Ht & _ & _ & HA & _ & _ & Hd). rewrite HA. simpl.
  destruct Hd as [(_ & Hall & _)|(Hlt & _)]; [done|exfalso].
  destruct (current_ok limit window now' key tb Ha Htb) as (q & Hq & H0 & H1 & Hl).
  destruct (refill_float limit window Ha _ q now' Hq H0 H1 Hl) as (t' & Ht' & _ & _ & Hc).
  rewrite Ht in Ht'. injection Ht' as <-. set (b := current limit window now' key tb) in *.
  destruct (Sub_elapsed now' (lastFill b) Hl) as [He _].
  pose proof (L_ge1 limit Hpos) as HL. destruct (gain_bounds limit window Ha _ He) as [G0 _].
  assert (1 <= q + gain limit window (Sub now' (lastFill b)))%Q as Hge.
  { destruct (tb !! key) as [b0|] eqn:E.
    - assert (b = b0) as Hb by (unfold b, current; by rewrite E).
      destruct (tb_reachable_ok _ _ _ Hr key b0 E) as (_ & _ & _ & _ & Hl0).
      pose proof (gain_lower limit window Ha Hpos (Sub now' (lastFill b))) as Hg.
      assert (1 <= gain limit window (Sub now' (lastFill b)))%Q; [|lra]. apply Hg.
      rewrite Hb. unfold Sub, minDuration, maxDuration. lia.
    - assert (q == inject_Z limit)%Q as Hqm; [|lra]. revert Hq. unfold b, current. rewrite E. simpl.
      rewrite of_int64_Z by done. by intros [= <-]. }
  pose proof (rnd_ge_Z _ 1 ltac:(lia) Hge) as Hr1. change (inject_Z 1) with 1%Q in Hr1.
  destruct Hc as [Hc|[Hc _]]; lra.
Qed.

(** ** A window of zero *)

(** The answers to calls with given limits, windows and times. *)
Fixpoint tb_answers (key : string) (calls : list (Z * Duration * Time)) (tb : TokenBucket) : list State :=
  match calls with
  | [] => []
  | (limit, window, now) :: calls' =>
      let '(st, tb') := TB_Allow machine key limit window now tb in st :: tb_answers key calls' tb'
  end.

Lemma nan_denied key limit window now tb b :
  tb !! key = Some b -> tokens b = NaN ->
  let '(st, tb') := TB_Allow machine key limit window now tb in
  Allowed st = false /\ exists b', tb' !! key = Some b' /\ tokens b' = NaN.
Proof.
  intros Hb Hn. unfold TB_Allow, refill. rewrite Hb, Hn. cbn [fadd].
  assert (flt (of_int64 limit) NaN = false) as ->.
  { unfold flt. by destruct (of_int64 limit). }
  assert (fle one NaN = false) as -> by by vm_compute.
  split; [done|]. eexists. by rewrite lookup_insert_eq.
Qed.

(** One request with a window of zero poisons its key: 0 * Inf makes the tokens
    NaN, and every later request for the key is denied, whatever its limit, its
    window and the time, until the key is reset. *)
Theorem zero_window_poisons key limit now tb calls :
  tb !! key = None ->
  let '(st, tb') := TB_Allow machine key limit 0 now tb in
  Allowed st = false
  /\ Forall (fun s => Allowed s = false) (tb_answers key calls tb').
Proof.
  intros Hk.
  assert (forall l, fadd (of_int64 l) (fmul (Seconds 0) (fdiv (of_int64 l) (Seconds 0))) = NaN) as Hnan.
  { intros l. assert (Seconds 0 = Fin 0) as -> by by vm_compute.
    unfold fdiv. destruct (of_int64 l) as [|s|q]; [done|by destruct s|].
    change (Qeq_bool 0 0) with true. cbv iota. by destruct (Qeq_bool q 0). }
  destruct (TB_Allow machine key limit 0 now tb) as [st tb'] eqn:E.
  assert (Allowed st = false /\ exists b', tb' !! key = Some b' /\ tokens b' = NaN) as [Hst Hb'].
  { unfold TB_Allow, refill in E. rewrite Hk in E. cbn [tokens lastFill] in E.
    replace (Sub now now) with 0 in E by (unfold Sub, minDuration, maxDuration; lia).
    rewrite Hnan in E. replace (flt (of_int64 limit) NaN) with false in E by (by destruct (of_int64 limit)).
    replace (fle one NaN) with false in E by by vm_compute. simplify_eq. split; [done|].
    eexists. by rewrite lookup_insert_eq. }
  split; [done|]. clear E Hk. revert tb' Hb'.
  induction calls as [|[[lim win] t] calls IH]; intros tb' (b & Hb & Hn); [constructor|].
  cbn [tb_answers]. pose proof (nan_denied key lim win t tb' b Hb Hn) as Hd.
  destruct (TB_Allow machine key lim win t tb') as [s tb'']. destruct Hd as [Hs Hb''].
  constructor; auto.
Qed.
End Theorems.

(** ** At the instant of ResetsAt *)

(** With a limit of one request in 49 seconds, a request at the very instant
    that the first answer gave as ResetsAt is denied: 49 * (1 / 49) rounds to a
    number below 1. *)
Lemma denied_at_reset_instant machine :
  let '(st, tb) := TB_Allow machine "k" 1 (49 * Second) 0 NewTokenBucket in
  Allowed st = true
  /\ Allowed (TB_Allow machine "k" 1 (49 * Second) (ResetsAt st) tb).1 = false.
Proof. vm_compute. split; reflexivity. Qed.

(** ** Witnesses *)

Definition w_machine (x : float64) : Z := minDuration.

Lemma w_args : ArgsOk 2 Second.
Proof. split; unfold Second; lia. Qed.

Definition w_tb : TokenBucket := (TB_Allow w_machine "k" 2 Second 1000 NewTokenBucket).2.

Lemma w_tb_reachable : tb_reachable w_machine 1000 w_tb.
Proof. apply (tb_allow _ 1000); [constructor|lia|apply w_args]. Qed.

Lemma token_bucket_bounds_witness :
  Limit (TB_Allow w_machine "k" 2 Second 2000 w_tb).1 = 2.
Proof.
  pose proof (token_bucket_bounds w_machine 1000 2000 "k" 2 Second w_tb w_tb_reachable ltac:(lia) w_args) as H.
  destruct (TB_Allow _ _ _ _ _ _). apply H.
Defined.

Definition w_times : list Time := [1000; 1000; 1000; 500001000].

Lemma token_bucket_rate_witness :
  tb_allowed w_machine "k" 2 Second w_times NewTokenBucket = 3
  /\ (inject_Z (tb_allowed w_machine "k" 2 Second w_times NewTokenBucket)
      <= 2 + 2 * (inject_Z 500000000 / inject_Z Second) * (1 + 2 ^ (-48))
         + inject_Z 4 * (2 * 2 ^ (-52)))%Q.
Proof.
  split; [vm_compute; reflexivity|].
  apply (token_bucket_rate w_machine "k" 2 Second 0 NewTokenBucket 1000 [1000; 1000; 500001000]).
  - constructor.
  - lia.
  - simpl. lia.
  - apply w_args.
  - lia.
Defined.

Lemma token_bucket_burst_witness :
  Allowed (TB_Allow w_machine "k" 2 Second 1000 (tb_calls w_machine "k" 2 Second 1000 2 NewTokenBucket)).1 = false.
Proof.
  pose proof (token_bucket_burst w_machine 1000 "k" 2 Second NewTokenBucket 2 (tb_new _ _)
    ltac:(reflexivity) w_args) as H.
  destruct (TB_Allow _ _ _ _ _ _). apply H.
Defined.

Lemma token_bucket_recovers_witness :
  Allowed (TB_Allow w_machine "k" 2 Second (1000 + 2 * Second) w_tb).1 = true.
Proof.
  apply (token_bucket_recovers w_machine 1000); [apply w_tb_reachable|apply w_args|lia| |lia].
  unfold Second. lia.
Defined.

Lemma zero_window_poisons_witness :
  Allowed (TB_Allow w_machine "k" 2 0 1000 NewTokenBucket).1 = false.
Proof.
  pose proof (zero_window_poisons w_machine "k" 2 1000 NewTokenBucket [] ltac:(reflexivity)) as H.
  destruct (TB_Allow _ _ _ _ _ _). apply H.
Defined.
End TokenBucketTheorems.
