(* ===== verification/SlidingTheorems.v ===== *)
(** What the sliding window promises. *)
From Stdlib Require Import QArith Qround Qabs Lqa.
From S2P Require Import Prelude GoLib Float64 Float64Proofs RateLimit RateProofs.

Module SlidingWindowTheorems.
Import Ratelimit RateProofs.

(** Windows short enough that twice the length is an int64. *)
Record WindowArgs (limit : Z) (wl : Duration) : Prop := {
  wa_limit : 0 <= limit <= 2 ^ 53;
  wa_window : 0 < wl < 2 ^ 62;
}.

(** Counts that float64 represents, and a start in the past. *)
Record WindowOk (now : Time) (w : window) : Prop := {
  wo_prev : 0 <= prevCount w <= 2 ^ 53;
  wo_curr : 0 <= currCount w <= 2 ^ 53;
  wo_start : currStart w <= now;
}.

Definition SWOk (now : Time) (sw : SlidingWindow) : Prop :=
  forall key w, sw !! key = Some w -> WindowOk now w.

(** ** The estimate *)

(** The part of the window that has passed, at most 1. *)
Lemma progress_float now w :
  currStart w <= now -> 0 < windowLen w < 2 ^ 63 ->
  exists p, (let progress := fdiv (Seconds (Sub now (currStart w))) (Seconds (windowLen w)) in
             if flt one progress then one else progress) = Fin p /\ (0 <= p /\ p <= 1)%Q.
Proof.
  intros Hs Hw. destruct (Sub_elapsed now (currStart w) Hs) as [He _].
  pose proof (sec_window 0 (windowLen w) ltac:(split; lia)) as H31. pose proof (pow2_pos (-31)) as P31.
  destruct (sec_le34 (Sub now (currStart w)) He) as [E0 E1].
  assert (0 <= sec (Sub now (currStart w)) / sec (windowLen w) <= 2 ^ 65)%Q as [D0 D1].
  { split; [apply div_ge_r; lra|]. apply div_le_r; [lra|].
    assert (2 ^ 34 == 2 ^ 65 * 2 ^ (-31))%Q as Hp by by vm_compute.
    assert (2 ^ 65 * 2 ^ (-31) <= 2 ^ 65 * sec (windowLen w))%Q; [|lra].
    apply Qmult_le_l; [apply pow2_pos|done]. }
  cbv zeta. rewrite !Seconds_sec by lia. unfold fdiv. destruct (Qeq_bool _ _) eqn:Eq.
  { apply Qeq_bool_iff in Eq. rewrite Qred_correct in Eq. lra. }
  assert (2 ^ 65 <= 2 ^ 200)%Q by by apply pow2_le.
  rewrite round_fin by (rewrite !Qred_correct; lra).
  assert (one = Fin 1) as -> by by vm_compute. set (p := Qred (rnd _)).
  assert (0 <= p)%Q as Hp0.
  { unfold p. rewrite Qred_correct, !Qred_correct. by apply rnd_nonneg. }
  unfold flt, fle. destruct (Qle_bool p 1) eqn:E; simpl.
  - apply Qle_bool_iff in E. by exists p.
  - exists 1%Q. split; [done|]. lra.
Qed.

(** The weight of the last window. *)
Lemma weight_float now w :
  currStart w <= now -> 0 < windowLen w < 2 ^ 63 ->
  exists wt, fsub one (let progress := fdiv (Seconds (Sub now (currStart w))) (Seconds (windowLen w)) in
                       if flt one progress then one else progress) = Fin wt /\ (0 <= wt /\ wt <= 1)%Q.
Proof.
  intros Hs Hw. destruct (progress_float now w Hs Hw) as (p & -> & P0 & P1).
  assert (one = Fin 1) as -> by by vm_compute. unfold fsub, fopp, fadd.
  assert (1 <= 2 ^ 200)%Q by by vm_compute.
  rewrite round_fin by (rewrite Qred_correct; lra). eexists. split; [done|].
  rewrite Qred_correct, Qred_correct. split; [apply rnd_nonneg; lra|].
  apply (rnd_le_Z _ 1); [lia|]. change (inject_Z 1) with 1%Q. lra.
Qed.

Lemma weighted_float n wt :
  0 <= n <= 2 ^ 53 -> (0 <= wt)%Q -> (wt <= 1)%Q ->
  exists pw, fmul (of_int64 n) (Fin wt) = Fin pw /\ (0 <= pw /\ pw <= inject_Z n)%Q.
Proof.
  intros Hn W0 W1. rewrite of_int64_Z by done. unfold fmul.
  pose proof (inject_nonneg n ltac:(lia)) as In.
  assert (inject_Z n <= 2 ^ 53)%Q as In' by (rewrite pow2_Z by lia; apply inject_le; lia).
  assert (0 <= inject_Z n * wt)%Q as M0 by by apply Qmult_le_0_compat.
  assert (inject_Z n * wt <= inject_Z n)%Q as M1
    by (rewrite <- (Qmult_1_r (inject_Z n)) at 2; rewrite !(Qmult_comm (inject_Z n));
        by apply Qmult_le_compat_r).
  assert (2 ^ 53 <= 2 ^ 200)%Q by by apply pow2_le. rewrite round_fin by lra. eexists. split; [done|].
  rewrite Qred_correct. split; [by apply rnd_nonneg|]. apply rnd_le_Z; [lia|done].
Qed.

(** The estimate is never below the count of the current window, and equal to it
    when the last window was empty. *)
Lemma estimate_bounds machine now w :
  WindowOk now w -> 0 < windowLen w < 2 ^ 63 ->
  let est := to_int64 machine (estimatedCount now w) in
  currCount w <= est <= 2 ^ 54 /\ (prevCount w = 0 -> est = currCount w).
Proof.
  intros [Hp Hc Hs] Hw. unfold estimatedCount.
  destruct (weight_float now w Hs Hw) as (wt & Hwt & W0 & W1). cbv zeta in Hwt |- *. rewrite Hwt.
  destruct (weighted_float (prevCount w) wt Hp W0 W1) as (pw & -> & V0 & V1).
  rewrite of_int64_Z by done. unfold fadd.
  assert (2 ^ 53 + 2 ^ 53 <= 2 ^ 54 /\ 2 ^ 54 <= 2 ^ 200 /\ 2 ^ 54 < 2 ^ 63)%Q as (B1 & B2 & B3) by by vm_compute.
  pose proof (inject_nonneg (currCount w) ltac:(lia)) as Ic.
  assert (inject_Z (prevCount w) <= 2 ^ 53)%Q as Ip' by (rewrite pow2_Z by lia; apply inject_le; lia).
  assert (inject_Z (currCount w) <= 2 ^ 53)%Q as Ic' by (rewrite pow2_Z by lia; apply inject_le; lia).
  rewrite round_fin by lra.
  assert (inject_Z (currCount w) <= rnd (pw + inject_Z (currCount w)))%Q as E0 by (apply rnd_ge_Z; [lia|lra]).
  destruct (rnd_bound (pw + inject_Z (currCount w)) 54 ltac:(lia)) as [_ E1];
    [pose proof (pow2_pos 54); lra|lra|].
  rewrite to_int64_fin by (rewrite Qred_correct; lra). rewrite (Qfloor_comp _ _ (Qred_correct _)).
  split; [split|].
  - apply Qfloor_resp_le in E0. by rewrite Qfloor_Z in E0.
  - apply Qfloor_resp_le in E1. rewrite pow2_Z, Qfloor_Z in E1 by lia. done.
  - intros H0. rewrite H0 in V1. change (inject_Z 0) with 0%Q in V1.
    rewrite <- (Qfloor_Z (currCount w)) at 2. apply Qfloor_comp.
    assert (pw + inject_Z (currCount w) == inject_Z (currCount w))%Q as -> by lra. apply rnd_Z. lia.
Qed.

(** ** How close the estimate is *)

#[local] Open Scope Q_scope.













#[local] Close Scope Q_scope.

(** ** Calls *)

Section Calls.
Context (machine : float64 -> Z).

Definition sw_current (limit wl now : Z) (key : string) (sw : SlidingWindow) : window :=
  match sw !! key with Some w => w | None => MkWindow 0 0 limit wl now end.

Lemma sw_current_ok limit wl now key sw : SWOk now sw -> WindowOk now (sw_current limit wl now key sw).
Proof.
  intros Hsw. unfold sw_current. destruct (sw !! key) eqn:E; [by eapply Hsw|]. split; simpl; lia.
Qed.

(** After the shift the current window contains the present. *)
Lemma shift_limit limit wl now w :
  let w' := shift limit wl now w in w' = MkWindow (prevCount w') (currCount w') limit wl (currStart w').
Proof. unfold shift. by destruct (_ >=? _); [|destruct (_ >=? _)]. Qed.

Lemma shift_ok limit wl now w :
  WindowArgs limit wl -> WindowOk now w ->
  let w' := shift limit wl now w in
  WindowOk now w' /\ windowLen w' = wl /\ now < currStart w' + wl
  /\ (now < currStart w + wl -> w' = MkWindow (prevCount w) (currCount w) limit wl (currStart w))
  /\ (currStart w + wl <= now < currStart w + 2 * wl ->
        w' = MkWindow (currCount w) 0 limit wl (currStart w + wl)).
Proof.
  intros [_ Hw] [Hp Hc Hs]. unfold shift. cbv zeta. rewrite int64_id by (unfold is_int64; lia).
  assert (Sub now (currStart w) = Z.min (2 ^ 63 - 1) (now - currStart w)) as ->
    by (unfold Sub, minDuration, maxDuration; lia).
  unfold Add. rewrite !Z.geb_leb.
  destruct (Z.leb_spec (2 * wl) (Z.min (2 ^ 63 - 1) (now - currStart w)));
    [|destruct (Z.leb_spec wl (Z.min (2 ^ 63 - 1) (now - currStart w)))];
    (split_and!; [split; simpl; lia|done|simpl; lia|intros; done || (exfalso; lia)..]).
Qed.

Lemma sw_allow_spec limit wl now key sw :
  WindowArgs limit wl -> SWOk now sw ->
  let w := shift limit wl now (sw_current limit wl now key sw) in
  let est := to_int64 machine (estimatedCount now w) in
  exists st w', SW_Allow machine key limit wl now sw = (st, <[key := w']> sw)
    /\ currCount w <= est <= 2 ^ 54 /\ (prevCount w = 0 -> est = currCount w)
    /\ Limit st = limit /\ ResetsAt st = currStart w + wl
    /\ Allowed st = (est <? limit)
    /\ Remaining st = (if est <? limit then limit - est - 1 else 0)
    /\ w' = MkWindow (prevCount w) (currCount w + if est <? limit then 1 else 0) limit wl (currStart w).
Proof.
  intros Ha Hsw w est.
  destruct (shift_ok limit wl now _ Ha (sw_current_ok limit wl now key sw Hsw)) as (Hok & Hwl & _).
  fold w in Hok, Hwl. destruct Ha as [Hl Hw].
  destruct (estimate_bounds machine now w Hok ltac:(lia)) as [He1 He2]. fold est in He1, He2.
  destruct Hok as [Hp Hc Hs].
  unfold SW_Allow. fold (sw_current limit wl now key sw). fold w. fold est.
  destruct (Z.ltb_spec est limit); eexists _, _; (split; [done|]); (split; [exact He1|]);
    (split; [exact He2|]); (split_and!; try done).
  - cbn [Remaining]. rewrite !int64_id by (unfold is_int64; rewrite ?int64_id; unfold is_int64; lia).
    destruct (Z.ltb_spec (limit - est - 1) 0); lia.
  - f_equal. apply int64_id. unfold is_int64. lia.
  - rewrite Z.add_0_r. apply shift_limit.
Qed.

Lemma sw_allow_ok limit wl now key sw :
  WindowArgs limit wl -> SWOk now sw -> SWOk now (SW_Allow machine key limit wl now sw).2.
Proof.
  intros Ha Hsw. destruct (sw_allow_spec limit wl now key sw Ha Hsw) as (st & w' & -> & He & _ & _ & _ & _ & _ & ->).
  destruct (shift_ok limit wl now _ Ha (sw_current_ok limit wl now key sw Hsw)) as ([Hp Hc Hs] & _).
  destruct Ha as [Hl _]. cbn [snd]. intros k w [[_ <-]|[_ Hw]]%lookup_insert_Some; [|by eapply Hsw].
  split; cbn [prevCount currCount currStart]; [lia| |lia]. destruct (Z.ltb_spec (to_int64 machine (estimatedCount now
    (shift limit wl now (sw_current limit wl now key sw)))) limit); lia.
Qed.

Lemma SWOk_later now now' sw : SWOk now sw -> now <= now' -> SWOk now' sw.
Proof. intros Hsw Hle k w Hw. destruct (Hsw k w Hw). split; auto. lia. Qed.

Inductive sw_reachable : Time -> SlidingWindow -> Prop :=
  | sw_new now : sw_reachable now NewSlidingWindow
  | sw_allow now now' key limit wl sw :
      sw_reachable now sw -> now <= now' -> WindowArgs limit wl ->
      sw_reachable now' (SW_Allow machine key limit wl now' sw).2
  | sw_reset now key sw : sw_reachable now sw -> sw_reachable now (SW_Reset key sw).

Lemma sw_reachable_ok now sw : sw_reachable now sw -> SWOk now sw.
Proof.
  induction 1 as [now|now now' key limit wl sw _ IH Hle Ha|now key sw _ IH].
  - intros k w Hw. unfold NewSlidingWindow in Hw. by rewrite lookup_empty in Hw.
  - apply sw_allow_ok; [done|]. by eapply SWOk_later.
  - intros k w. unfold SW_Reset. intros [_ Hw]%lookup_delete_Some. by eapply IH.
Qed.

(** Whatever calls came before, the answer of a sliding window is in range, the
    window that the call counts in contains the present, and a request is allowed
    only while fewer than [limit] requests have been allowed in it. *)
Theorem sliding_window_bounds now now' key limit wl sw :
  sw_reachable now sw -> now <= now' -> WindowArgs limit wl ->
  let '(st, sw') := SW_Allow machine key limit wl now' sw in
  Limit st = limit /\ (if Allowed st then 0 <= Remaining st < limit else Remaining st = 0)
  /\ exists w, sw' !! key = Some w /\ ResetsAt st = currStart w + wl
     /\ currStart w <= now' < ResetsAt st /\ 0 <= currCount w
     /\ (Allowed st = true -> currCount w <= limit).
Proof.
  intros Hr Hle Ha.
  assert (SWOk now' sw) as Hsw by (eapply SWOk_later; [by apply sw_reachable_ok|done]).
  destruct (sw_allow_spec limit wl now' key sw Ha Hsw)
    as (st & w' & -> & He & _ & HL & HR & HA & HM & ->).
  destruct (shift_ok limit wl now' _ Ha (sw_current_ok limit wl now' key sw Hsw)) as ([Hp Hc Hs] & _ & Hnow & _).
  set (w := shift limit wl now' (sw_current limit wl now' key sw)) in *.
  set (est := to_int64 machine (estimatedCount now' w)) in *.
  split; [done|]. rewrite HA, HM, HR. split; [destruct (Z.ltb_spec est limit); lia|].
  eexists. rewrite lookup_insert_eq. split; [done|]. cbn [currStart currCount].
  split_and!; try done; destruct (Z.ltb_spec est limit); lia || done.
Qed.

(** ** The rate *)

Fixpoint sw_allowed (key : string) (limit : Z) (wl : Duration) (ts : list Time) (sw : SlidingWindow) : Z :=
  match ts with
  | [] => 0
  | t :: ts' =>
      let '(st, sw') := SW_Allow machine key limit wl t sw in
      (if Allowed st then 1 else 0) + sw_allowed key limit wl ts' sw'
  end.

(** Times that do not decrease, from [t] on, before [stop]. *)
Fixpoint times_within (t stop : Time) (ts : list Time) : Prop :=
  match ts with
  | [] => True
  | t' :: ts' => t <= t' < stop /\ times_within t' stop ts'
  end.

Section Rate.
Context (key : string) (limit wl : Z) (args : WindowArgs limit wl).

(** A call in a window that has begun at [start], seen from the count [n] of the
    window and whether the window before was empty. *)
Lemma allow_step now sw w :
  SWOk now sw -> sw !! key = Some w ->
  let w1 := shift limit wl now w in
  exists (a : bool) st, SW_Allow machine key limit wl now sw
      = (st, <[key := MkWindow (prevCount w1) (currCount w1 + if a then 1 else 0) limit wl (currStart w1)]> sw)
    /\ Allowed st = a /\ (a = true -> currCount w1 < limit)
    /\ (prevCount w1 = 0 -> a = (currCount w1 <? limit)).
Proof using args.
  intros Hsw Hk w1. destruct (sw_allow_spec limit wl now key sw args Hsw)
    as (st & w' & HA & He & He0 & _ & _ & Hall & _ & Hw'). unfold sw_current in *. rewrite Hk in *. fold w1 in He, He0, Hall, Hw'.
  set (est := to_int64 machine (estimatedCount now w1)) in *.
  exists (est <? limit), st. rewrite HA, Hw'. split_and!; [done|done| |].
  - destruct (Z.ltb_spec est limit); [lia|done].
  - intros H0. by rewrite (He0 H0).
Qed.

(** From a window that began at [start] until two lengths later, at most what the
    window has left and one full window more are allowed. *)
Lemma sw_credit ts now sw w start :
  SWOk now sw -> sw !! key = Some w ->
  times_within now (start + 2 * wl) ts -> currStart w = start \/ currStart w = start + wl ->
  sw_allowed key limit wl ts sw
  <= Z.max 0 (limit - currCount w) + if decide (currStart w = start) then limit else 0.
Proof using args.
  revert now sw w. induction ts as [|t ts IH]; intros now sw w Hsw Hk Hts Hst.
  { simpl. destruct args. case_decide; lia. }
  destruct Hts as [Ht Hts]. assert (SWOk t sw) as Hsw' by (eapply SWOk_later; [done|lia]).
  destruct (shift_ok limit wl t w args (Hsw' key w Hk)) as (Hok & Hwl & Hin & Hsame & Hnext).
  destruct (allow_step t sw w Hsw' Hk) as (a & st & HA & Hall & Hlt & _).
  cbn [sw_allowed]. pose proof (sw_allow_ok limit wl t key sw args Hsw') as Hok'.
  rewrite HA in Hok' |- *. cbn [snd] in Hok'. rewrite Hall. set (w1 := shift limit wl t w) in *.
  set (w2 := MkWindow (prevCount w1) (currCount w1 + (if a then 1 else 0)) limit wl (currStart w1)) in *.
  pose proof (wa_window _ _ args) as Hw. pose proof (wa_limit _ _ args) as Hlim.
  assert (currStart w1 = start \/ currStart w1 = start + wl) as Hst1.
  { destruct (decide (t < currStart w + wl)); [by rewrite Hsame|].
    rewrite Hnext by (destruct Hst; lia). simpl. destruct Hst; lia. }
  specialize (IH t (<[key := w2]> sw) w2 Hok' ltac:(by rewrite lookup_insert_eq) Hts Hst1).
  simpl in IH.
  destruct (decide (t < currStart w + wl)) as [Hin'|Hout].
  - rewrite Hsame in * by done. simpl in *. destruct a; [specialize (Hlt eq_refl)|]; lia.
  - rewrite Hnext in * by (destruct Hst; lia). simpl in *. destruct Hst as [Hs|Hs]; [|lia].
    rewrite Hs in *. rewrite decide_False in IH by lia. rewrite decide_True by done.
    destruct a; [specialize (Hlt eq_refl)|]; lia.
Qed.

(** In a first window, whose predecessor is empty, the count decides. *)
Lemma sw_burst ts now sw w start :
  SWOk now sw -> sw !! key = Some w -> prevCount w = 0 -> 0 <= currCount w <= limit ->
  currStart w = start -> times_within now (start + wl) ts ->
  sw_allowed key limit wl ts sw = Z.min (limit - currCount w) (Z.of_nat (length ts)).
Proof using args.
  revert now sw w. induction ts as [|t ts IH]; intros now sw w Hsw Hk Hp Hc Hst Hts.
  { simpl. lia. }
  destruct Hts as [Ht Hts]. assert (SWOk t sw) as Hsw' by (eapply SWOk_later; [done|lia]).
  destruct (shift_ok limit wl t w args (Hsw' key w Hk)) as (_ & _ & _ & Hsame & _).
  destruct (allow_step t sw w Hsw' Hk) as (a & st & HA & Hall & _ & Ha).
  cbn [sw_allowed]. pose proof (sw_allow_ok limit wl t key sw args Hsw') as Hok'.
  rewrite HA in Hok' |- *. cbn [snd] in Hok'. rewrite Hsame in * by lia. cbn in *.
  specialize (Ha Hp). rewrite Hall. clear Hall HA.
  rewrite (IH t _ _ Hok' ltac:(by rewrite lookup_insert_eq)); cbn; auto.
  - rewrite Ha. destruct (Z.ltb_spec (currCount w) limit); lia.
  - rewrite Ha. destruct (Z.ltb_spec (currCount w) limit); lia.
Qed.
End Rate.

(** ** The counts are those of the calls that were allowed *)





Section History.
Context (key : string) (limit wl : Z) (args : WindowArgs limit wl).







End History.


Lemma times_within_mono t stop stop' ts :
  times_within t stop ts -> stop <= stop' -> times_within t stop' ts.
Proof.
  intros Hts Hle. revert t Hts. induction ts as [|x ts IH]; intros t Hts; simpl in *; [done|].
  destruct Hts as [? ?]. split; [lia|]. by apply IH.
Qed.

(** Over any stretch of time shorter than the window, at most twice the limit is
    allowed for a key, whatever happened before. *)
Theorem sliding_window_rate now key limit wl sw t ts :
  sw_reachable now sw -> now <= t -> WindowArgs limit wl -> times_within t (t + wl) ts ->
  sw_allowed key limit wl (t :: ts) sw <= 2 * limit.
Proof.
  intros Hr Hle Ha Hts.
  assert (SWOk t sw) as Hsw by (eapply SWOk_later; [by apply sw_reachable_ok|done]).
  destruct (sw_allow_spec limit wl t key sw Ha Hsw) as (st & w' & HA & He & _ & _ & _ & Hall & _ & Hw').
  destruct (shift_ok limit wl t _ Ha (sw_current_ok limit wl t key sw Hsw)) as ([Hp Hc Hs] & _ & Hnow & _).
  cbn [sw_allowed]. pose proof (sw_allow_ok limit wl t key sw Ha Hsw) as Hok.
  rewrite HA in Hok |- *. cbn [snd] in Hok. rewrite Hall.
  set (w := shift limit wl t (sw_current limit wl t key sw)) in *.
  set (est := to_int64 machine (estimatedCount t w)) in *.
  assert (times_within t (currStart w + 2 * wl) ts) as Hts'.
  { eapply times_within_mono; [exact Hts|]. lia. }
  pose proof (sw_credit key limit wl Ha ts t _ w' (currStart w) Hok ltac:(by rewrite lookup_insert_eq)
    Hts' ltac:(subst; by left)) as Hcr. subst w'. cbn [prevCount currCount currStart] in Hcr.
  rewrite decide_True in Hcr by done. pose proof (wa_limit _ _ Ha).
  destruct (Z.ltb_spec est limit); lia.
Qed.

(** A key seen for the first time can burst: of calls within the length of its first
    window exactly the first [limit] are allowed. *)
Theorem sliding_window_burst now key limit wl sw t ts :
  sw_reachable now sw -> now <= t -> WindowArgs limit wl -> sw !! key = None ->
  times_within t (t + wl) ts ->
  sw_allowed key limit wl (t :: ts) sw = Z.min limit (Z.of_nat (length (t :: ts))).
Proof.
  intros Hr Hle Ha Hnew Hts.
  assert (SWOk t sw) as Hsw by (eapply SWOk_later; [by apply sw_reachable_ok|done]).
  destruct (sw_allow_spec limit wl t key sw Ha Hsw) as (st & w' & HA & He & He0 & _ & _ & Hall & _ & Hw').
  destruct (shift_ok limit wl t _ Ha (sw_current_ok limit wl t key sw Hsw)) as (_ & _ & _ & Hsame & _).
  pose proof (wa_window _ _ Ha) as Hwin. pose proof (wa_limit _ _ Ha) as Hlim.
  unfold sw_current in *. rewrite Hnew in *. cbn [currStart prevCount currCount] in *.
  rewrite Hsame in * by lia. cbn [currStart prevCount currCount] in *. specialize (He0 eq_refl).
  cbn [sw_allowed]. pose proof (sw_allow_ok limit wl t key sw Ha Hsw) as Hok.
  rewrite HA in Hok |- *. cbn [snd] in Hok. rewrite Hall, He0.
  rewrite (sw_burst key limit wl Ha ts t _ w' t Hok ltac:(by rewrite lookup_insert_eq));
    subst w'; cbn [prevCount currCount currStart]; rewrite ?He0; auto.
  - cbn [length]. destruct (Z.ltb_spec 0 limit); lia.
  - destruct (Z.ltb_spec 0 limit); lia.
Qed.

(** A window of 2^62 nanoseconds (146 years) or more limits nothing: twice its length
    overflows, so both counts are cleared at every call, and every request is
    allowed. *)
Theorem long_window_unlimited now key limit wl sw :
  SWOk now sw -> 1 <= limit <= 2 ^ 53 -> 2 ^ 62 <= wl < 2 ^ 63 ->
  Allowed (SW_Allow machine key limit wl now sw).1 = true.
Proof.
  intros Hsw Hl Hw. pose proof (sw_current_ok limit wl now key sw Hsw) as [_ _ Hs].
  unfold SW_Allow. fold (sw_current limit wl now key sw).
  assert (shift limit wl now (sw_current limit wl now key sw) = MkWindow 0 0 limit wl now) as ->.
  { unfold shift. destruct (Sub_elapsed now _ Hs) as [He _].
    assert (int64 (2 * wl) = 2 * wl - 2 ^ 64) as ->.
    { unfold int64. replace (2 * wl + 2 ^ 63) with ((2 * wl - 2 ^ 63) + 1 * 2 ^ 64) by lia.
      rewrite Z_mod_plus_full, Z.mod_small; lia. }
    rewrite Z.geb_leb, (proj2 (Z.leb_le _ _)) by lia. done. }
  destruct (estimate_bounds machine now (MkWindow 0 0 limit wl now)) as [_ He];
    [split; simpl; lia|simpl; lia|].
  rewrite He by done. cbn [currCount]. rewrite (proj2 (Z.ltb_lt 0 limit)) by lia. done.
Qed.
End Calls.

(** ** Witnesses *)

Definition w_wmachine (x : float64) : Z := minDuration.

Lemma w_wargs : WindowArgs 2 Second.
Proof. split; unfold Second; lia. Qed.

Definition w_sw : SlidingWindow := (SW_Allow w_wmachine "k" 2 Second 1000 NewSlidingWindow).2.

Lemma w_sw_reachable : sw_reachable w_wmachine 1000 w_sw.
Proof. apply (sw_allow _ 1000); [constructor|lia|apply w_wargs]. Qed.

Lemma sliding_window_bounds_witness :
  Limit (SW_Allow w_wmachine "k" 2 Second 2000 w_sw).1 = 2.
Proof.
  pose proof (sliding_window_bounds w_wmachine 1000 2000 "k" 2 Second w_sw w_sw_reachable ltac:(lia) w_wargs) as H.
  destruct (SW_Allow _ _ _ _ _ _). apply H.
Defined.

Lemma sliding_window_rate_witness :
  sw_allowed w_wmachine "k" 2 Second [2000; 3000; 4000] w_sw <= 4.
Proof.
  apply (sliding_window_rate w_wmachine 1000 "k" 2 Second w_sw 2000 [3000; 4000] w_sw_reachable).
  - lia.
  - apply w_wargs.
  - unfold Second. simpl. lia.
Defined.


Lemma sliding_window_burst_witness :
  sw_allowed w_wmachine "k" 2 Second [2000; 3000; 4000] NewSlidingWindow = 2.
Proof.
  apply (sliding_window_burst w_wmachine 1000 "k" 2 Second NewSlidingWindow 2000 [3000; 4000] (sw_new _ _)).
  - lia.
  - apply w_wargs.
  - reflexivity.
  - unfold Second. simpl. lia.
Defined.

Lemma long_window_unlimited_witness :
  Allowed (SW_Allow w_wmachine "k" 2 (2 ^ 62) 2000 w_sw).1 = true.
Proof.
  apply long_window_unlimited; [|lia|lia].
  eapply SWOk_later; [eapply sw_reachable_ok, w_sw_reachable|lia].
Defined.
End SlidingWindowTheorems.
