(* ===== verification/Cache.v ===== *)
(** cache.go, distributed.go and the cache methods of tags.go: the cache, on
    one node of a network of caches.

    An operation of the cache is a computation of a state monad over the world:
    the network of nodes and the log of effects. It is a panic when the
    computation is undefined. *)
From S2P Require Import Prelude GoLib Serializer Config Shard Store Tags LockEngine HashRing Cluster Transport Broker.

(** ** State *)

(** The ring and the cluster state are both nil, or both set by New. [pending]
    are the eviction callbacks the store has started in goroutines and that
    have not run yet. *)
Record Cache (S : Type) := MkCache {
  store : S;
  config : Config;
  closed : bool;
  cluster : option Topology;
  lockEngine : Lock.Engine;
  tags : tagIndex;
  pending : calls;
}.
Arguments MkCache {S} store config closed cluster lockEngine tags pending.
Arguments store {S} c : rename.
Arguments config {S} c : rename.
Arguments closed {S} c : rename.
Arguments cluster {S} c : rename.
Arguments lockEngine {S} c : rename.
Arguments tags {S} c : rename.
Arguments pending {S} c : rename.

(** What an operation does beside the stores: calls of the broker, and
    goroutines it starts; and the lines that a program around the cache prints. *)
Inductive Effect :=
  | Publish (type : EventType) (key : string) (value : bytes)
  | FireHit (key : string)
  | FireMiss (key : string)
  | FireEvict (key : string) (value : bytes)
  | FireSet (key : string) (value : bytes)
  | FireDelete (key : string)
  | GoRemote (addr : string) (req : request)
  | Print (line : string).

Section Cache.
Context {S V T : Type} `{Store S V T}.

Abbreviation Cache := (Cache S).

Definition set_store (s : S) (c : Cache) : Cache :=
  MkCache s (config c) (closed c) (cluster c) (lockEngine c) (tags c) (pending c).
Definition set_lockEngine (e : Lock.Engine) (c : Cache) : Cache :=
  MkCache (store c) (config c) (closed c) (cluster c) e (tags c) (pending c).
Definition set_tags (ti : tagIndex) (c : Cache) : Cache :=
  MkCache (store c) (config c) (closed c) (cluster c) (lockEngine c) ti (pending c).
Definition set_closed (b : bool) (c : Cache) : Cache :=
  MkCache (store c) (config c) b (cluster c) (lockEngine c) (tags c) (pending c).
Definition set_pending (cs : calls) (c : Cache) : Cache :=
  MkCache (store c) (config c) (closed c) (cluster c) (lockEngine c) (tags c) cs.

(** The store after a call that evicted: the callbacks start. *)
Definition evicting (cs : calls) (s : S) (c : Cache) : Cache :=
  set_pending (pending c ++ cs) (set_store s c).

Definition ownerAddr (key : string) (c : Cache) : string :=
  match cluster c with
  | None => ""
  | Some (state, ring) =>
      let owner := GetNode key ring in
      if String.eqb owner "" || String.eqb owner (SelfName state) then ""
      else
        match State_GetNode owner state with
        | None => ""
        | Some node => RPCAddr node
        end
  end.

Definition lockOwner (c : Cache) : string :=
  match cluster c with
  | Some (state, _) => SelfName state
  | None => ""
  end.

(** ** transport.LocalHandler

    The handlers a node offers to its peers. *)

Fixpoint getAll (keys : list string) (clk : Clock) (c : Cache) (results : gmap string bytes)
  : option (gmap string bytes * Cache) :=
  match keys with
  | [] => Some (results, c)
  | key :: keys' =>
      match Store_Get key clk (store c) with
      | None => None
      | Some (r, s') =>
          let results := match r with Some data => <[key := data]> results | None => results end in
          getAll keys' (advance 1 clk) (set_store s' c) results
      end
  end.

#[export] Instance Cache_LocalHandler : LocalHandler Cache := {
  HandleGet key clk c :=
    match Store_Get key clk (store c) with
    | Some (r, s') => Some (r, set_store s' c)
    | None => None
    end;
  HandleSet key value ttl tgs clk c :=
    match Store_Set key value ttl clk (store c) with
    | Some (cs, s') =>
        let c' := evicting cs s' c in
        Some (if (0 <? length tgs)%nat then set_tags (tagIndex_Add key tgs (tags c')) c' else c')
    | None => None
    end;
  HandleDelete key c :=
    let c := set_tags (tagIndex_Remove key (tags c)) c in
    match Store_Delete key (store c) with
    | Some (b, s') => Some (b, set_store s' c)
    | None => None
    end;
  HandleExists key clk c :=
    match Store_Exists key clk (store c) with
    | Some (b, s') => Some (b, set_store s' c)
    | None => None
    end;
  HandleMGet keys clk c := getAll keys clk c ∅;
  HandleIncr key delta clk c :=
    match Store_Incr key delta (DefaultTTL (config c)) clk (store c) with
    | Some (r, cs, s') => Some (r, evicting cs s' c)
    | None => None
    end;
  HandleLockAcquire key ttl random clk c :=
    let '(r, e') := Lock.Acquire key ttl (lockOwner c) random clk (lockEngine c) in
    (r, set_lockEngine e' c);
  HandleLockRelease key token c :=
    let '(b, e') := Lock.Release key token (lockEngine c) in (b, set_lockEngine e' c);
  HandleLockExtend key token ttl clk c :=
    let '(b, e') := Lock.Extend key token ttl clk (lockEngine c) in (b, set_lockEngine e' c);
}.

(** ** The monad *)

Record World := MkWorld {
  net : Network Cache;
  log : list Effect;
}.

Definition M (A : Type) : Type := World -> option (A * World).

Definition ret {A} (a : A) : M A := fun w => Some (a, w).
Definition bind {A B} (m : M A) (f : A -> M B) : M B :=
  fun w => match m w with Some (a, w') => f a w' | None => None end.

#[local] Notation "x <-- m ;; k" := (bind m (fun x => k))
  (at level 60, m at next level, right associativity).
#[local] Notation "m ;;; k" := (bind m (fun _ => k)) (at level 60, right associativity).

Definition emit (e : Effect) : M unit :=
  fun w => Some (tt, MkWorld (net w) (log w ++ [e])).

(** The cache of the node at address [me]. *)
Definition this (me : string) : M Cache :=
  fun w => match hosts (net w) !! me with Some c => Some (c, w) | None => None end.

Definition put (me : string) (c : Cache) : M unit :=
  fun w => Some (tt, MkWorld (put_host me c (net w)) (log w)).

Definition rpc {A} (f : Network Cache -> result A * Network Cache) : M (result A) :=
  fun w => let '(r, n') := f (net w) in Some (r, MkWorld n' (log w)).

(** A call of the local store. *)
Definition withStore {A} (me : string) (f : S -> option (A * S)) : M A :=
  c <-- this me ;;
  match f (store c) with
  | Some (a, s') => put me (set_store s' c) ;;; ret a
  | None => fun _ => None
  end.

Fixpoint emitAll (es : list Effect) : M unit :=
  match es with
  | [] => ret tt
  | e :: es' => emit e ;;; emitAll es'
  end.

(** A call of the local store that can evict. *)
Definition withEvictions {A} (me : string) (f : S -> option (A * calls * S)) : M A :=
  c <-- this me ;;
  match f (store c) with
  | Some (a, cs, s') => put me (evicting cs s' c) ;;; ret a
  | None => fun _ => None
  end.

(** [c.store.Set] *)
Definition storeSet (me key : string) (data : bytes) (ttl : Duration) (clk : Clock) : M unit :=
  withEvictions me (fun s =>
    match Store_Set key data ttl clk s with
    | Some (cs, s') => Some (tt, cs, s')
    | None => None
    end).

(** ** distributed.go *)

(** The addresses of the other live nodes; [order] is the iteration order of
    the node map. *)
Definition otherNodes (order : list (string * NodeInfo)) (state : ClusterState) : list string :=
  RPCAddr <$> filter (fun n => Name n ≠ SelfName state) (LiveNodes order).

Definition peers (order : ClusterState -> list (string * NodeInfo)) (c : Cache) : list string :=
  match cluster c with
  | Some (state, _) => otherNodes (order state) state
  | None => []
  end.

Section Distributed.
Context (order : ClusterState -> list (string * NodeInfo)).

Definition distributedSet (me key : string) (data : bytes) (ttl : Duration) (tgs : list string)
    (clk : Clock) : M (result unit) :=
  c <-- this me ;;
  match cMode (config c) with
  | Replicated =>
      storeSet me key data ttl clk ;;;
      emitAll ((fun addr => GoRemote addr (setRequest key data ttl tgs)) <$> peers order c) ;;;
      ret (Ok tt)
  | NearCache =>
      storeSet me key data ttl clk ;;;
      let addr := ownerAddr key c in
      if negb (String.eqb addr "") then rpc (RemoteSet addr key data ttl tgs (advance 1 clk))
      else ret (Ok tt)
  | Partitioned =>
      let addr := ownerAddr key c in
      if negb (String.eqb addr "") then rpc (RemoteSet addr key data ttl tgs clk)
      else storeSet me key data ttl clk ;;; ret (Ok tt)
  end.

Definition distributedGet (me key : string) (clk : Clock) : M (option bytes) :=
  c <-- this me ;;
  match cMode (config c) with
  | Replicated => withStore me (Store_Get key clk)
  | NearCache =>
      r <-- withStore me (Store_Get key clk) ;;
      match r with
      | Some data => ret (Some data)
      | None =>
          let addr := ownerAddr key c in
          if negb (String.eqb addr "") then
            g <-- rpc (RemoteGet addr key (advance 2 clk)) ;;
            match g with
            | Ok (data, true) =>
                storeSet me key data (DefaultTTL (config c)) (advance 4 clk) ;;;
                ret (Some data)
            | _ => ret None
            end
          else ret None
      end
  | Partitioned =>
      let addr := ownerAddr key c in
      if negb (String.eqb addr "") then
        g <-- rpc (RemoteGet addr key clk) ;;
        match g with
        | Err _ => ret None
        | Ok (data, found) => ret (if found : bool then Some data else None)
        end
      else withStore me (Store_Get key clk)
  end.

Definition distributedDelete (me key : string) (clk : Clock) : M unit :=
  c <-- this me ;;
  match cMode (config c) with
  | Replicated =>
      withStore me (Store_Delete key) ;;;
      emitAll ((fun addr => GoRemote addr (deleteRequest key)) <$> peers order c)
  | NearCache =>
      withStore me (Store_Delete key) ;;;
      let addr := ownerAddr key c in
      if negb (String.eqb addr "") then rpc (RemoteDelete addr key clk) ;;; ret tt else ret tt
  | Partitioned =>
      let addr := ownerAddr key c in
      if negb (String.eqb addr "") then rpc (RemoteDelete addr key clk) ;;; ret tt
      else withStore me (Store_Delete key) ;;; ret tt
  end.

(** ** cache.go *)

Definition Cache_Set (me key : string) (value : GoValue V) (ttl : Duration) (clk : Clock)
  : M (result unit) :=
  c <-- this me ;;
  if String.eqb key "" then ret (Err ErrKeyEmpty)
  else if closed c then ret (Err ErrShutdown)
  else
    match Serialize value with
    | Err err => ret (Err (ErrWrap ErrSerializationFailed err))
    | Ok data =>
        let ttl := if ttl =? 0 then DefaultTTL (config c) else ttl in
        r <-- distributedSet me key data ttl [] clk ;;
        match r with
        | Err err => ret (Err err)
        | Ok _ => emit (Publish EventSet key data) ;;; emit (FireSet key data) ;;; ret (Ok tt)
        end
    end.

(** The value written through [dest] when Get returns true. *)
Definition Cache_Get (me key : string) (dest : Dest T) (clk : Clock) : M (option (GoValue V)) :=
  c <-- this me ;;
  if String.eqb key "" || closed c then ret None
  else
    r <-- distributedGet me key clk ;;
    match r with
    | None => emit (FireMiss key) ;;; ret None
    | Some data =>
        match Deserialize data dest with
        | Err _ => ret None
        | Ok v => emit (FireHit key) ;;; ret (Some v)
        end
    end.

(** [c.tags.Add] and [c.tags.Remove] *)
Definition tagsAdd (me key : string) (tgs : list string) : M unit :=
  c <-- this me ;; put me (set_tags (tagIndex_Add key tgs (tags c)) c).
Definition tagsRemove (me key : string) : M unit :=
  c <-- this me ;; put me (set_tags (tagIndex_Remove key (tags c)) c).

Definition Cache_Delete (me key : string) (clk : Clock) : M unit :=
  c <-- this me ;;
  if String.eqb key "" || closed c then ret tt
  else
    distributedDelete me key clk ;;;
    emit (Publish EventDelete key []) ;;;
    emit (FireDelete key) ;;;
    tagsRemove me key.

Definition Cache_Exists (me key : string) (clk : Clock) : M bool :=
  c <-- this me ;;
  if String.eqb key "" || closed c then ret false
  else
    let addr := ownerAddr key c in
    if negb (String.eqb addr "") then
      r <-- rpc (RemoteExists addr key clk) ;;
      ret (match r with Ok b => b | Err _ => false end)
    else withStore me (Store_Exists key clk).

Definition Cache_TTL (me key : string) (clk : Clock) : M Duration :=
  c <-- this me ;;
  if String.eqb key "" || closed c then ret 0
  else withStore me (Store_TTL key clk).

(** [fn] is the caller's function: any computation. *)
Definition Cache_GetOrSet (me key : string) (dest : Dest T) (ttl : Duration)
    (fn : M (result (GoValue V))) (clk : Clock) : M (result (GoValue V)) :=
  c <-- this me ;;
  if String.eqb key "" then ret (Err ErrKeyEmpty)
  else if closed c then ret (Err ErrShutdown)
  else
    g <-- Cache_Get me key dest clk ;;
    match g with
    | Some v => ret (Ok v)
    | None =>
        f <-- fn ;;
        match f with
        | Err err => ret (Err err)
        | Ok value =>
            r <-- Cache_Set me key value ttl (advance 8 clk) ;;
            match r with
            | Err err => ret (Err err)
            | Ok _ =>
                match Serialize value with
                | Err err => ret (Err (ErrWrap ErrSerializationFailed err))
                | Ok data => ret (Deserialize data dest)
                end
            end
        end
    end.

Fixpoint mget_loop (me : string) (keys : list string) (clk : Clock) (results : gmap string bytes)
  : M (gmap string bytes) :=
  match keys with
  | [] => ret results
  | key :: keys' =>
      if String.eqb key "" then mget_loop me keys' clk results
      else
        r <-- distributedGet me key clk ;;
        mget_loop me keys' (advance 8 clk)
          (match r with Some data => <[key := data]> results | None => results end)
  end.

(** nil, when the cache is closed, reads as an empty map. *)
Definition Cache_MGet (me : string) (keys : list string) (clk : Clock) : M (gmap string bytes) :=
  c <-- this me ;;
  if closed c then ret ∅ else mget_loop me keys clk ∅.

(** [items] lists the map in the order of its iteration. *)
Fixpoint mset_loop (me : string) (its : list (string * (GoValue V * Duration))) (clk : Clock)
  : M (result unit) :=
  match its with
  | [] => ret (Ok tt)
  | (key, (value, ttl)) :: its' =>
      r <-- Cache_Set me key value ttl clk ;;
      match r with
      | Err err => ret (Err err)
      | Ok _ => mset_loop me its' (advance 8 clk)
      end
  end.

Definition Cache_MSet (me : string) (its : list (string * (GoValue V * Duration))) (clk : Clock)
  : M (result unit) :=
  c <-- this me ;;
  if closed c then ret (Err ErrShutdown) else mset_loop me its clk.

(** Incr and Decr differ in the sign of the delta. *)
Definition incrBy (me key : string) (delta : Z) (clk : Clock) : M (result Z) :=
  c <-- this me ;;
  if String.eqb key "" then ret (Err ErrKeyEmpty)
  else if closed c then ret (Err ErrShutdown)
  else
    let addr := ownerAddr key c in
    if negb (String.eqb addr "") then rpc (RemoteIncr addr key delta clk)
    else
      withEvictions me (Store_Incr key delta (DefaultTTL (config c)) clk).

Definition Cache_Incr (me key : string) (delta : Z) (clk : Clock) : M (result Z) :=
  incrBy me key delta clk.
Definition Cache_Decr (me key : string) (delta : Z) (clk : Clock) : M (result Z) :=
  incrBy me key (int64 (- delta)) clk.

Definition Cache_Len (me : string) : M Z := c <-- this me ;; ret (Store_Len (store c)).

(** The callbacks New installs in the store. *)
Definition evictCallback (me key : string) (value : bytes) : M unit :=
  emit (Publish EventEvict key value) ;;; emit (FireEvict key value) ;;; tagsRemove me key.

(** One of the goroutines with an eviction callback runs: any of them. *)
Definition runPending (me : string) (i : nat) : M unit :=
  c <-- this me ;;
  match pending c !! i with
  | Some (key, value) =>
      put me (set_pending (delete i (pending c)) c) ;;; evictCallback me key value
  | None => ret tt
  end.

(** All of them run, one after the other; [pick] says which is next. *)
Fixpoint settleLoop (fuel : nat) (me : string) (pick : calls -> nat) : M unit :=
  match fuel with
  | O => ret tt
  | Datatypes.S fuel' => c <-- this me ;; runPending me (pick (pending c)) ;;; settleLoop fuel' me pick
  end.

Definition settle (me : string) (pick : calls -> nat) : M unit :=
  c <-- this me ;; settleLoop (length (pending c)) me pick.

Definition expireCallback (me key : string) (value : bytes) : M unit :=
  emit (Publish EventExpire key value) ;;; tagsRemove me key.

Fixpoint expireAll (me : string) (expired : calls) : M unit :=
  match expired with
  | [] => ret tt
  | (key, value) :: expired' => expireCallback me key value ;;; expireAll me expired'
  end.

(** One tick of the sweeper. *)
Definition sweep (me : string) (o : Order) (clk : Clock) : M unit :=
  expired <-- withStore me (fun s =>
    match Store_DeleteExpired o clk s with
    | Some (n, cs, s') => Some (cs, s')
    | None => None
    end) ;;
  expireAll me expired.

(** ** New

    [hostname] is what os.Hostname returns, [openStore] opens the storage backend
    the configuration selects, and [startCluster] starts transport and gossip
    for a configuration with a ListenAddr; each can fail. *)
Definition withNodeName (hostname : string) (cfg : Config) : Config :=
  if String.eqb (NodeName cfg) "" then
    MkConfig (NumShards cfg) (MaxMemoryMB cfg) (DefaultTTL cfg) (SweeperInterval cfg)
      (cStorageMode cfg) (DiskPath cfg) (ListenAddr cfg) (Peers cfg) (cMode cfg)
      (if String.eqb hostname "" then "node-1" else hostname)
      (GRPCPort cfg) (HTTPPort cfg) (VirtualNodes cfg)
  else cfg.

Definition New (hostname : string) (openStore : Config -> result S)
    (startCluster : Config -> result Topology) (cfg : Config) : result Cache :=
  match validate cfg with
  | (Some err, _) => Err err
  | (None, cfg) =>
      let cfg := withNodeName hostname cfg in
      match openStore cfg with
      | Err err => Err (ErrWrap (ErrText "cachegrid: failed to open disk store") err)
      | Ok s =>
          let s := Store_SetOnExpire true (Store_SetOnEvict true s) in
          let c top := MkCache s cfg false top Lock.NewEngine newTagIndex [] in
          if negb (String.eqb (ListenAddr cfg) "") then
            match startCluster cfg with
            | Err err => Err err
            | Ok top => Ok (c (Some top))
            end
          else Ok (c None)
      end
  end.

(** ** tags.go *)

Definition Cache_SetWithTags (me key : string) (value : GoValue V) (ttl : Duration)
    (tgs : list string) (clk : Clock) : M (result unit) :=
  r <-- Cache_Set me key value ttl clk ;;
  match r with
  | Err err => ret (Err err)
  | Ok _ => if (0 <? length tgs)%nat then tagsAdd me key tgs ;;; ret (Ok tt) else ret (Ok tt)
  end.

Fixpoint deleteAll (me : string) (keys : list string) (clk : Clock) : M unit :=
  match keys with
  | [] => ret tt
  | key :: keys' => Cache_Delete me key clk ;;; deleteAll me keys' (advance 1 clk)
  end.

Definition Cache_InvalidateTag (me : string) (setOrder : gset string -> list string) (tag : string)
    (clk : Clock) : M unit :=
  c <-- this me ;;
  deleteAll me (tagIndex_GetKeysByTag setOrder tag (tags c)) clk.

End Distributed.
End Cache.

Arguments MkWorld {S} net log.
Arguments net {S} w : rename.
Arguments log {S} w : rename.

Declare Scope cache_scope.
Notation "x <-- m ;; k" := (bind m (fun x => k))
  (at level 60, m at next level, right associativity) : cache_scope.
Notation "m ;;; k" := (bind m (fun _ => k)) (at level 60, right associativity) : cache_scope.
