(* ===== verification/CacheProofs.v ===== *)
(** The cache over any store that satisfies the Store contract: routing, and
    what a node reads after another has written. *)
From S2P Require Import Prelude GoLib Serializer Config Shard Store Tags LockEngine HashRing RingProofs Cluster Transport Broker Cache.

#[local] Open Scope cache_scope.

Section CacheProofs.
Context {S V T : Type} `{StoreLaws S V T}.
Implicit Types (w : World (S := S)) (c : Cache S).

(** A request replaces the cache of one node by one with the same configuration,
    topology and open flag. *)
Definition same_node (x y : Cache S) : Prop :=
  config y = config x /\ closed y = closed x /\ cluster y = cluster x.

Lemma emitAll_eq es w : emitAll es w = Some (tt, MkWorld (net w) (log w ++ es)).
Proof.
  revert w. induction es as [|e es IH]; intros [n l]; cbn [emitAll].
  - unfold ret. simpl. by rewrite app_nil_r.
  - unfold bind, emit. rewrite IH. cbn [net log]. by rewrite <- app_assoc.
Qed.

Lemma put_host_lookup o c n a :
  hosts (put_host o c n) !! a = if decide (a = o) then Some c else hosts n !! a.
Proof.
  simpl. case_decide; [subst; by rewrite lookup_insert_eq|by rewrite lookup_insert_ne].
Qed.

(** What a Set of [key] leaves of the cache [co] that executes it. *)
Record SetAt (co c' : Cache S) (key : string) (data : bytes) (ttl : Duration) (clk : Clock)
  : Prop := {
  set_same : same_node co c';
  set_ok : store_ok (store c');
  set_view : rebound_lossy key (Some (data, expiryOf ttl (clk 0%nat)))
    (view (store co)) (view (store c'));
  set_kept : retains (store co) key data ->
    view (store c') key = Some (data, expiryOf ttl (clk 0%nat));
  set_tags_kept : tags c' = tags co;
  set_pending_kept : exists cs, pending c' = pending co ++ cs /\ forall k, k ∈ cs.*1 -> view (store c') k = None;
}.

Lemma evicting_SetAt co key data ttl clk :
  store_ok (store co) -> ClockOk clk -> admits (store co) key data ttl clk ->
  exists cs s', Store_Set key data ttl clk (store co) = Some (cs, s')
    /\ SetAt co (evicting cs s' co) key data ttl clk.
Proof.
  intros Hok Hclk Ha.
  destruct (law_Set (store co) key data ttl clk Hok Hclk Ha) as (cs & s' & Hs & Hok' & Hl & Hr).
  exists cs, s'. split; [done|]. split; try done. exists cs. split; [done|]. exact (law_evicted _ _ _ _ _ _ _ Hok Hclk Ha Hs).
Qed.

(** What a Get of [key] leaves of the cache that executes it. *)
Record GetAt (co c' : Cache S) (key : string) (clk : Clock) : Prop := {
  get_same : same_node co c';
  get_ok : store_ok (store c');
  get_view : rebound key (live_at (clk 0%nat) (view (store co) key))
    (view (store co)) (view (store c'));
  get_tags_kept : tags c' = tags co;
  get_pending_kept : pending c' = pending co;
}.

Lemma reading_GetAt co key clk : store_ok (store co) -> ClockOk clk ->
  exists s', Store_Get key clk (store co)
      = Some (fst <$> live_at (clk 0%nat) (view (store co) key), s')
    /\ GetAt co (set_store s' co) key clk.
Proof.
  intros Hok Hclk. destruct (law_Get (store co) key clk Hok Hclk) as (s' & Hs & Hok' & Hb).
  exists s'. split; [done|]. by split.
Qed.

(** ** Local calls *)

Lemma storeSet_spec me c w key data ttl clk :
  hosts (net w) !! me = Some c -> store_ok (store c) -> ClockOk clk ->
  admits (store c) key data ttl clk ->
  exists c', storeSet me key data ttl clk w = Some (tt, MkWorld (put_host me c' (net w)) (log w))
    /\ SetAt c c' key data ttl clk.
Proof.
  intros Hc Hok Hclk Ha. destruct (evicting_SetAt c key data ttl clk Hok Hclk Ha) as (cs & s' & Hs & Hat).
  exists (evicting cs s' c). split; [|done].
  unfold storeSet, withEvictions, bind, this, put, ret. by rewrite Hc, Hs.
Qed.

Lemma localGet_spec me c w key clk :
  hosts (net w) !! me = Some c -> store_ok (store c) -> ClockOk clk ->
  exists c', withStore me (Store_Get key clk) w
      = Some (fst <$> live_at (clk 0%nat) (view (store c) key),
              MkWorld (put_host me c' (net w)) (log w))
    /\ GetAt c c' key clk.
Proof.
  intros Hc Hok Hclk. destruct (reading_GetAt c key clk Hok Hclk) as (s' & Hs & Hat).
  exists (set_store s' c). split; [|done].
  unfold withStore, bind, this, put, ret. by rewrite Hc, Hs.
Qed.

Lemma localDelete_spec me c w key :
  hosts (net w) !! me = Some c -> store_ok (store c) ->
  exists s', withStore me (Store_Delete key) w
      = Some (bool_decide (is_Some (view (store c) key)),
              MkWorld (put_host me (set_store s' c) (net w)) (log w))
    /\ store_ok s' /\ rebound key None (view (store c)) (view s').
Proof.
  intros Hc Hok. destruct (law_Delete (store c) key Hok) as (s' & Hs & Hok' & Hb).
  unfold withStore, bind, this, put, ret. rewrite Hc, Hs. cbn [net log]. exists s'. done.
Qed.

(** ** Remote calls *)

Lemma remoteSet_spec o co (n : Network (Cache S)) key data ttl clk :
  link n o = None -> hosts n !! o = Some co -> store_ok (store co) -> ClockOk clk ->
  admits (store co) key data ttl clk ->
  exists c', RemoteSet o key data ttl [] clk n = (Ok tt, put_host o c' n)
    /\ SetAt co c' key data ttl clk.
Proof.
  intros Hlink Hc Hok Hclk Ha.
  destruct (evicting_SetAt co key data ttl clk Hok Hclk Ha) as (cs & s' & Hs & Hat).
  exists (evicting cs s' co). split; [|done].
  unfold RemoteSet, call, processRequest, setRequest. rewrite Hlink, Hc. simpl. by rewrite Hs.
Qed.

Lemma remoteGet_spec o co (n : Network (Cache S)) key clk :
  link n o = None -> hosts n !! o = Some co -> store_ok (store co) -> ClockOk clk ->
  exists c', RemoteGet o key clk n
      = (Ok (match live_at (clk 0%nat) (view (store co) key) with
             | Some (v, _) => (v, true) | None => ([], false) end),
         put_host o c' n)
    /\ GetAt co c' key clk.
Proof.
  intros Hlink Hc Hok Hclk. destruct (reading_GetAt co key clk Hok Hclk) as (s' & Hs & Hat).
  exists (set_store s' co). split; [|done].
  unfold RemoteGet, call, processRequest, getRequest. rewrite Hlink, Hc. simpl. rewrite Hs.
  destruct (live_at _ _) as [[v x]|]; reflexivity.
Qed.

(** ** Routing *)

(** Requests for [key] made at node [me] are executed at address [o]. *)
Definition route (c : Cache S) (me key : string) : string :=
  if String.eqb (ownerAddr key c) "" then me else ownerAddr key c.

(** Node [me] is up, partitioned, and reaches the node its requests for [key]
    go to. *)
Record Serves (n : Network (Cache S)) (me key o : string) (c co : Cache S) : Prop := {
  sv_me : hosts n !! me = Some c;
  sv_open : closed c = false;
  sv_mode : cMode (config c) = Partitioned;
  sv_route : route c me key = o;
  sv_owner : hosts n !! o = Some co;
  sv_link : link n o = None;
}.

Lemma distributedSet_spec order w me key o c co data ttl clk :
  Serves (net w) me key o c co -> store_ok (store co) -> ClockOk clk ->
  admits (store co) key data ttl clk ->
  exists c', distributedSet order me key data ttl [] clk w
      = Some (Ok tt, MkWorld (put_host o c' (net w)) (log w))
    /\ SetAt co c' key data ttl clk.
Proof.
  intros [Hme Hop Hmode Hroute Hown Hlink] Hok Hclk Ha. unfold route in Hroute.
  unfold distributedSet, bind at 1, this. rewrite Hme, Hmode.
  destruct (String.eqb (ownerAddr key c) "") eqn:E; subst o; cbn [negb].
  - rewrite Hme in Hown. injection Hown as <-.
    destruct (storeSet_spec me c w key data ttl clk Hme Hok Hclk Ha) as (c' & Hs & ?).
    exists c'. unfold bind. rewrite Hs. done.
  - destruct (remoteSet_spec (ownerAddr key c) co (net w) key data ttl clk Hlink Hown Hok Hclk Ha)
      as (c' & Hs & ?). exists c'. unfold rpc. rewrite Hs. done.
Qed.

Lemma distributedGet_spec w me key o c co clk :
  Serves (net w) me key o c co -> store_ok (store co) -> ClockOk clk ->
  exists c', distributedGet me key clk w
      = Some (fst <$> live_at (clk 0%nat) (view (store co) key),
              MkWorld (put_host o c' (net w)) (log w))
    /\ GetAt co c' key clk.
Proof.
  intros [Hme Hop Hmode Hroute Hown Hlink] Hok Hclk. unfold route in Hroute.
  unfold distributedGet, bind at 1, this. rewrite Hme, Hmode.
  destruct (String.eqb (ownerAddr key c) "") eqn:E; subst o; cbn [negb].
  - rewrite Hme in Hown. injection Hown as <-. by apply localGet_spec.
  - destruct (remoteGet_spec (ownerAddr key c) co (net w) key clk Hlink Hown Hok Hclk)
      as (c' & Hs & ?). exists c'. unfold bind, rpc. rewrite Hs.
    split; [|done]. by destruct (live_at _ _) as [[v x]|].
Qed.

(** Every route stays as it was. *)
Lemma route_same x y me key : same_node x y -> route y me key = route x me key.
Proof. intros (_ & _ & Hc). unfold route, ownerAddr. by rewrite Hc. Qed.

Lemma serves_put n me key o c co o' x y :
  Serves n me key o c co -> hosts n !! o' = Some x -> same_node x y ->
  exists c2, Serves (put_host o' y n) me key o c2 (if decide (o = o') then y else co)
    /\ same_node c c2.
Proof.
  intros [Hme Hop Hmode Hroute Hown Hlink] Ho' Hs. destruct Hs as (Hcfg & Hcl & Htop).
  assert (Hsame : exists c2, hosts (put_host o' y n) !! me = Some c2 /\ same_node c c2).
  { rewrite put_host_lookup. case_decide as He; [|by exists c].
    subst o'. rewrite Hme in Ho'. injection Ho' as <-. by exists y. }
  destruct Hsame as (c2 & Hc2 & Hs2). pose proof Hs2 as (Hcfg2 & Hcl2 & _).
  exists c2. split; [|done]. split; [done|congruence|congruence| | |done].
  - by rewrite (route_same c c2).
  - rewrite put_host_lookup. by case_decide.
Qed.

(** ** Set and Get *)

(** With a time to live of 0, the default of the node that was asked counts. *)
Lemma Cache_Set_effective order w me key o c co value data ttl clk :
  let eff := if ttl =? 0 then DefaultTTL (config c) else ttl in
  Serves (net w) me key o c co -> store_ok (store co) -> ClockOk clk -> key ≠ "" ->
  Serialize value = Ok data -> admits (store co) key data eff clk ->
  exists c', Cache_Set order me key value ttl clk w
      = Some (Ok tt, MkWorld (put_host o c' (net w))
                (log w ++ [Publish EventSet key data; FireSet key data]))
    /\ SetAt co c' key data eff clk.
Proof.
  intros eff Hsv Hok Hclk Hk Hser Ha.
  destruct (distributedSet_spec order w me key o c co data eff clk Hsv Hok Hclk Ha)
    as (c' & Hd & Hat).
  unfold Cache_Set, bind at 1, this. rewrite (sv_me _ _ _ _ _ _ Hsv), (sv_open _ _ _ _ _ _ Hsv).
  rewrite (proj2 (String.eqb_neq key "") Hk), Hser. fold eff.
  unfold bind, emit, ret. rewrite Hd. cbn [net log]. exists c'. by rewrite <- app_assoc.
Qed.

Lemma Cache_Set_spec order w me key o c co value data ttl clk :
  Serves (net w) me key o c co -> store_ok (store co) -> ClockOk clk -> key ≠ "" ->
  Serialize value = Ok data -> ttl ≠ 0 -> admits (store co) key data ttl clk ->
  exists c', Cache_Set order me key value ttl clk w
      = Some (Ok tt, MkWorld (put_host o c' (net w))
                (log w ++ [Publish EventSet key data; FireSet key data]))
    /\ SetAt co c' key data ttl clk.
Proof.
  intros Hsv Hok Hclk Hk Hser Ht Ha. apply Z.eqb_neq in Ht.
  pose proof (Cache_Set_effective order w me key o c co value data ttl clk) as Heff.
  rewrite Ht in Heff. by apply Heff.
Qed.

Lemma Cache_Get_spec w me key o c co dest clk :
  Serves (net w) me key o c co -> store_ok (store co) -> ClockOk clk -> key ≠ "" ->
  exists c' lg, Cache_Get me key dest clk w
      = Some (match live_at (clk 0%nat) (view (store co) key) with
              | Some (data, _) => match Deserialize data dest with Ok v => Some v | Err _ => None end
              | None => None
              end, MkWorld (put_host o c' (net w)) lg)
    /\ GetAt co c' key clk.
Proof.
  intros Hsv Hok Hclk Hk.
  destruct (distributedGet_spec w me key o c co clk Hsv Hok Hclk) as (c' & Hd & Hat).
  unfold Cache_Get, bind at 1, this. rewrite (sv_me _ _ _ _ _ _ Hsv), (sv_open _ _ _ _ _ _ Hsv).
  rewrite (proj2 (String.eqb_neq key "") Hk). cbn [orb]. unfold bind, emit, ret. rewrite Hd.
  destruct (live_at _ _) as [[data x]|]; cbn [fst fmap option_fmap option_map].
  - destruct (Deserialize data dest) as [v|err]; cbn [net log]; exists c'; eexists; split; done.
  - exists c'. eexists. split; done.
Qed.

(** ** A cluster that agrees on its members *)

(** [addr_of n] is the RPC address of node n. Every host runs an open,
    partitioned cache whose topology is coherent, has the members [M] and [vn]
    virtual nodes, and knows the addresses; every member is up and reachable. *)
Record ClusterOk (n : Network (Cache S)) (addr_of : string -> string) (M : gset string) (vn : Z)
  : Prop := {
  co_host : forall me c, hosts n !! me = Some c ->
    closed c = false /\ cMode (config c) = Partitioned
    /\ exists st r, cluster c = Some (st, r) /\ TopologyOk (st, r) /\ members r = M /\ vnodes r = vn
         /\ me = addr_of (self st)
         /\ forall m i, nodes st !! m = Some i -> RPCAddr i = addr_of m;
  co_member : forall m, m ∈ M ->
    m ≠ "" /\ addr_of m ≠ "" /\ is_Some (hosts n !! addr_of m) /\ link n (addr_of m) = None;
}.

(** All nodes send a key to the same one. *)
Lemma cluster_serves n addr_of M vn me c key :
  ClusterOk n addr_of M vn -> M ≠ ∅ -> hosts n !! me = Some c ->
  exists r, RingOk r /\ members r = M /\ vnodes r = vn
    /\ exists co, Serves n me key (addr_of (GetNode key r)) c co.
Proof.
  intros [Hh Hm] HM Hme. destruct (Hh me c Hme) as (Hop & Hmode & st & r & Hcl & Ht & Hmem & Hv & Hself & Hadr).
  exists r. split; [apply Ht|]. split_and!; [done|done|].
  apply set_choose_L in HM as [m0 Hm0]. rewrite <- Hmem in Hm0.
  destruct (GetNode_owner key r) as (x & _ & Hx); [apply Ht|eapply ring_nonempty; [apply Ht|done]|].
  apply (ring_own r (topo_ring _ Ht)) in Hx as [Hin _]. set (owner := GetNode key r) in *.
  destruct (Hm owner) as (Hne & Hane & [co Hco] & Hl); [congruence|]. exists co.
  split; try done. unfold route, ownerAddr. rewrite Hcl. fold owner.
  rewrite (proj2 (String.eqb_neq owner "") Hne). cbn [orb]. unfold SelfName.
  destruct (String.eqb_spec owner (self st)) as [He|He]; [by rewrite Hself, He|].
  apply (topo_alive _ Ht) in Hin as (i & Hi & _). unfold State_GetNode. simpl in Hi. rewrite Hi.
  rewrite (Hadr owner i Hi), (proj2 (String.eqb_neq (addr_of owner) "") Hane). done.
Qed.

End CacheProofs.
