(* ===== verification/CacheLock.v ===== *)
(** lock.go: locks of the cache, on the owner of the lock's key. *)
From S2P Require Import Prelude GoLib Serializer Config Shard Store Tags LockEngine LockProofs HashRing Cluster Transport Broker Cache.

#[local] Open Scope cache_scope.

Record LockOptions := MkLockOptions {
  oTTL : Duration;
  RetryCount : Z;
  RetryDelay : Duration;
}.

(** [hOwnerAddr] is empty for a lock of the local engine. *)
Record LockHandle := MkLockHandle {
  hKey : string;
  hToken : string;
  hFencingToken : Z;
  hOwnerAddr : string;
}.

Section CacheLock.
Context {S V T : Type} `{Store S V T}.

(** A call of the local lock engine. *)
Definition withEngine {A} (me : string) (f : Lock.Engine -> A * Lock.Engine) : M (S := S) A :=
  c <-- this me ;;
  let '(a, e') := f (lockEngine c) in
  put me (set_lockEngine e' c) ;;; ret a.

(** What crypto/rand gives the local engine. *)
Definition localEntropy (me : string) : M (S := S) bytes :=
  fun w => Some (entropy (net w) me, w).

Definition LockHandle_Release (me : string) (h : LockHandle) (clk : Clock) : M (S := S) (result unit) :=
  if negb (String.eqb (hOwnerAddr h) "") then
    r <-- rpc (RemoteLockRelease (hOwnerAddr h) (hKey h) (hToken h) clk) ;;
    ret (match r with
         | Err err => Err err
         | Ok ok => if negb ok then Err ErrLockNotHeld else Ok tt
         end)
  else
    ok <-- withEngine me (Lock.Release (hKey h) (hToken h)) ;;
    ret (if negb ok then Err ErrLockNotHeld else Ok tt).

Definition LockHandle_Extend (me : string) (h : LockHandle) (ttl : Duration) (clk : Clock)
  : M (S := S) (result unit) :=
  if negb (String.eqb (hOwnerAddr h) "") then
    r <-- rpc (RemoteLockExtend (hOwnerAddr h) (hKey h) (hToken h) ttl clk) ;;
    ret (match r with
         | Err err => Err err
         | Ok ok => if negb ok then Err ErrLockNotHeld else Ok tt
         end)
  else
    ok <-- withEngine me (Lock.Extend (hKey h) (hToken h) ttl clk) ;;
    ret (if negb ok then Err ErrLockNotHeld else Ok tt).

Definition LockHandle_Token (h : LockHandle) : Z := hFencingToken h.

(** One iteration of the retry loop: an error, a handle, or nothing. *)
Definition lockAttempt (me lockKey : string) (ttl : Duration) (clk : Clock)
  : M (S := S) (result (option LockHandle)) :=
  c <-- this me ;;
  let addr := ownerAddr lockKey c in
  if negb (String.eqb addr "") then
    r <-- rpc (RemoteLockAcquire addr lockKey ttl clk) ;;
    ret (match r with
         | Err err => Err err
         | Ok (token, fencing, acquired) =>
             Ok (if acquired : bool then Some (MkLockHandle lockKey token fencing addr) else None)
         end)
  else
    random <-- localEntropy me ;;
    r <-- withEngine me (Lock.Acquire lockKey ttl (lockOwner c) random clk) ;;
    let '(token, fencing, acquired) := r in
    ret (Ok (if acquired : bool then Some (MkLockHandle lockKey token fencing "") else None)).

(** The loop runs while [attempt <= RetryCount]: [left] counts the iterations
    that remain. Sleeping moves the clock, which the next attempt reads. *)
Fixpoint lock_loop (left : nat) (me lockKey : string) (ttl : Duration) (clk : Clock)
  : M (S := S) (result LockHandle) :=
  match left with
  | O => ret (Err ErrLockNotAcquired)
  | Datatypes.S left' =>
      r <-- lockAttempt me lockKey ttl clk ;;
      match r with
      | Err err => ret (Err err)
      | Ok (Some h) => ret (Ok h)
      | Ok None => lock_loop left' me lockKey ttl (advance 2 clk)
      end
  end.

Definition lockKeyOf (key : string) : string := ("__lock:" +:+ key)%string.

Definition Cache_Lock (me key : string) (opts : LockOptions) (clk : Clock)
  : M (S := S) (result LockHandle) :=
  c <-- this me ;;
  if String.eqb key "" then ret (Err ErrKeyEmpty)
  else if closed c then ret (Err ErrShutdown)
  else lock_loop (Z.to_nat (RetryCount opts + 1)) me (lockKeyOf key) (oTTL opts) clk.

Definition Cache_TryLock (me key : string) (ttl : Duration) (clk : Clock)
  : M (S := S) (option LockHandle) :=
  r <-- Cache_Lock me key (MkLockOptions ttl 0 0) clk ;;
  ret (match r with Ok h => Some h | Err _ => None end).
End CacheLock.
