(* ===== verification/CacheTheorems.v ===== *)
(** Properties of the cache as a whole: reads after writes across a cluster,
    guards, tag invalidation and single attempts at a lock. *)
From S2P Require Import Prelude GoLib Serializer Config Shard Store ShardTheorems MemoryStore Tags LockEngine LockProofs HashRing RingProofs Cluster Transport Broker Cache CacheProofs CacheLock.

#[local] Open Scope cache_scope.

Section CacheTheorems.
Context {S V T : Type} `{StoreLaws S V T}.
Implicit Types (n : Network (Cache S)) (w : World (S := S)).

(** Two nodes of an agreeing cluster reach the same owner. *)
Lemma cluster_same_owner n addr_of M vn a b ca cb key :
  ClusterOk n addr_of M vn -> M ≠ ∅ -> hosts n !! a = Some ca -> hosts n !! b = Some cb ->
  exists o co, Serves n a key o ca co /\ Serves n b key o cb co.
Proof.
  intros Hok HM Ha Hb.
  destruct (cluster_serves n addr_of M vn a ca key Hok HM Ha) as (r1 & Hr1 & Hm1 & Hv1 & co1 & Hs1).
  destruct (cluster_serves n addr_of M vn b cb key Hok HM Hb) as (r2 & Hr2 & Hm2 & Hv2 & co2 & Hs2).
  assert (r1 = r2) as -> by (apply ring_determined; congruence).
  exists (addr_of (GetNode key r2)), co1. split; [done|].
  pose proof (sv_owner _ _ _ _ _ _ Hs1) as E1. pose proof (sv_owner _ _ _ _ _ _ Hs2) as E2.
  rewrite E1 in E2. injection E2 as ->. done.
Qed.

(** C1: read your writes, cluster-wide. In a partitioned cluster whose nodes
    agree on the members, over any store that satisfies the Store contract, a Set
    at one node succeeds and a Get of the key at any node, before it expires,
    returns the stored value decoded into the destination. *)
Theorem cluster_read_your_writes order n lg addr_of M vn a b ca cb key value data ttl dest v clk clk' :
  ClusterOk n addr_of M vn -> M ≠ ∅ -> hosts n !! a = Some ca -> hosts n !! b = Some cb ->
  key ≠ "" -> ttl ≠ 0 -> Serialize value = Ok data -> Deserialize data dest = Ok v ->
  (forall o co, hosts n !! o = Some co ->
     store_ok (store co) /\ admits (store co) key data ttl clk /\ retains (store co) key data) ->
  ClockOk clk -> ClockOk clk' -> (0 < ttl -> clk' 0%nat <= clk 0%nat + ttl) ->
  exists w1 w2, Cache_Set order a key value ttl clk (MkWorld n lg) = Some (Ok tt, w1)
    /\ Cache_Get b key dest clk' w1 = Some (Some v, w2).
Proof.
  intros Hok HM Ha Hb Hk Ht Hser Hdes Hst Hclk Hclk' Hlive.
  destruct (cluster_same_owner n addr_of M vn a b ca cb key Hok HM Ha Hb) as (o & co & Hsa & Hsb).
  pose proof (sv_owner _ _ _ _ _ _ Hsa) as Hco. destruct (Hst o co Hco) as (Hso & Had & Hret).
  destruct (Cache_Set_spec order (MkWorld n lg) a key o ca co value data ttl clk)
    as (c' & Hset & [Hsame Hso' _ Hview _ _]); try done. cbn [net log] in Hset.
  destruct (serves_put n b key o cb co o co c' Hsb Hco Hsame) as (cb2 & Hsb2 & _).
  rewrite decide_True in Hsb2 by done.
  destruct (Cache_Get_spec (MkWorld (put_host o c' n)
      (lg ++ [Publish EventSet key data; FireSet key data])) b key o cb2 c' dest clk')
    as (c'' & lg'' & Hget & _); try done.
  eexists _, _. split; [exact Hset|]. rewrite Hget.
  rewrite (Hview Hret), live_at_expiryOf by done. by rewrite Hdes.
Qed.

(** C38: the guards. On a cache that is shut down, and on every cache for the empty
    key, each of Set, Get, Delete, Exists, TTL, GetOrSet, Incr, Decr and Lock returns
    its error or its empty answer and changes nothing: no store, no tag, no lock, no
    event, no remote call. *)
Theorem guards_change_nothing order w me c key value ttl dest fn delta clk :
  hosts (net w) !! me = Some c -> key = "" \/ closed c = true ->
  let err := if String.eqb key "" then ErrKeyEmpty else ErrShutdown in
  Cache_Set order me key value ttl clk w = Some (Err err, w)
  /\ Cache_Get me key dest clk w = Some (None, w)
  /\ Cache_Delete order me key clk w = Some (tt, w)
  /\ Cache_Exists me key clk w = Some (false, w)
  /\ Cache_TTL me key clk w = Some (0, w)
  /\ Cache_GetOrSet order me key dest ttl fn clk w = Some (Err err, w)
  /\ Cache_Incr me key delta clk w = Some (Err err, w)
  /\ Cache_Decr me key delta clk w = Some (Err err, w)
  /\ Cache_Lock me key (MkLockOptions ttl delta 0) clk w = Some (Err err, w).
Proof.
  intros Hme Hg.
  unfold Cache_Set, Cache_Get, Cache_Delete, Cache_Exists, Cache_TTL, Cache_GetOrSet, Cache_Incr,
    Cache_Decr, incrBy, Cache_Lock, bind, this. rewrite Hme.
  destruct (String.eqb_spec key "") as [->|Hk]; cbn [orb]; [done|].
  destruct Hg as [Hg|Hg]; [done|]. by rewrite Hg.
Qed.

(** ** Locks *)

(** One attempt at a lock executes Acquire on the owner's engine. *)
Lemma lockAttempt_spec w me key o c co ttl clk :
  Serves (net w) me key o c co ->
  exists owner addr token fencing acquired e',
    Lock.Acquire key ttl owner (entropy (net w) o) clk (lockEngine co)
      = ((token, fencing, acquired), e')
    /\ lockAttempt me key ttl clk w
       = Some (Ok (if acquired : bool then Some (MkLockHandle key token fencing addr) else None),
               MkWorld (put_host o (set_lockEngine e' co) (net w)) (log w))
    /\ (addr = "" /\ o = me \/ addr ≠ "" /\ addr = o).
Proof.
  intros [Hme Hop Hmode Hroute Hown Hlink]. unfold route in Hroute.
  unfold lockAttempt, bind at 1, this. rewrite Hme.
  destruct (String.eqb (ownerAddr key c) "") eqn:E; subst o; cbn [negb].
  - rewrite Hme in Hown. injection Hown as <-. exists (lockOwner c), "".
    destruct (Lock.Acquire key ttl (lockOwner c) (entropy (net w) me) clk (lockEngine c))
      as [[[token fencing] acquired] e'] eqn:Ea. exists token, fencing, acquired, e'.
    split; [done|]. split; [|by left]. unfold bind, localEntropy, withEngine, this, put, ret, bind. rewrite Hme, Ea. done.
  - exists (lockOwner co), (ownerAddr key c).
    destruct (Lock.Acquire key ttl (lockOwner co) (entropy (net w) (ownerAddr key c)) clk
      (lockEngine co)) as [[[token fencing] acquired] e'] eqn:Ea.
    exists token, fencing, acquired, e'. split; [done|]. split; [|right; split; [by apply String.eqb_neq|done]].
    unfold bind, rpc, RemoteLockAcquire, call, processRequest. rewrite Hlink, Hown.
    cbn -[Lock.Acquire]. rewrite Ea. done.
Qed.

(** A lock with no retries is one attempt. *)
Lemma TryLock_spec w me key o c co ttl clk :
  Serves (net w) me (lockKeyOf key) o c co -> key ≠ "" ->
  exists owner addr token fencing acquired e',
    Lock.Acquire (lockKeyOf key) ttl owner (entropy (net w) o) clk (lockEngine co)
      = ((token, fencing, acquired), e')
    /\ Cache_TryLock me key ttl clk w
       = Some (if acquired : bool then Some (MkLockHandle (lockKeyOf key) token fencing addr) else None,
               MkWorld (put_host o (set_lockEngine e' co) (net w)) (log w))
    /\ (addr = "" /\ o = me \/ addr ≠ "" /\ addr = o).
Proof.
  intros Hsv Hk. destruct (lockAttempt_spec w me (lockKeyOf key) o c co ttl clk Hsv)
    as (owner & addr & token & fencing & acquired & e' & Ha & Hl & Hadr).
  exists owner, addr, token, fencing, acquired, e'. split; [done|]. split; [|exact Hadr].
  unfold Cache_TryLock, Cache_Lock, bind at 1 2, this.
  rewrite (sv_me _ _ _ _ _ _ Hsv), (sv_open _ _ _ _ _ _ Hsv), (proj2 (String.eqb_neq key "") Hk).
  change (Z.to_nat (RetryCount (MkLockOptions ttl 0 0) + 1)) with 1%nat.
  cbn [lock_loop oTTL]. unfold bind at 1. rewrite Hl. by destruct acquired.
Qed.

(** ** Tags *)

(** Delete on a cache without a cluster. *)
Lemma Cache_Delete_local order w me c key clk :
  hosts (net w) !! me = Some c -> cluster c = None -> closed c = false -> key ≠ "" ->
  store_ok (store c) ->
  exists w' s', Cache_Delete order me key clk w = Some (tt, w')
    /\ hosts (net w') !! me = Some (set_tags (tagIndex_Remove key (tags c)) (set_store s' c))
    /\ link (net w') = link (net w) /\ store_ok s' /\ rebound key None (view (store c)) (view s').
Proof.
  intros Hme Hcl Hop Hk Hok. destruct (localDelete_spec me c w key Hme Hok) as (s' & Hd & Hok' & Hb).
  assert (Hdd : distributedDelete order me key clk w
    = Some (tt, MkWorld (put_host me (set_store s' c) (net w)) (log w))).
  { unfold distributedDelete, bind at 1, this. rewrite Hme. unfold ownerAddr, peers. rewrite Hcl.
    cbn [String.eqb negb fmap list_fmap emitAll].
    destruct (cMode (config c)); unfold bind; by rewrite Hd. }
  unfold Cache_Delete, bind at 1, this. rewrite Hme, Hop, (proj2 (String.eqb_neq key "") Hk).
  cbn [orb]. unfold bind at 1. rewrite Hdd. unfold tagsRemove, bind, emit, this, put.
  cbn [net log]. rewrite put_host_lookup, decide_True by done.
  eexists _, s'. split; [reflexivity|]. cbn [net]. rewrite put_host_lookup, decide_True by done. done.
Qed.

Lemma deleteAll_local order w me c keys clk :
  hosts (net w) !! me = Some c -> cluster c = None -> closed c = false -> "" ∉ keys ->
  store_ok (store c) ->
  exists w' c', deleteAll order me keys clk w = Some (tt, w') /\ hosts (net w') !! me = Some c'
    /\ link (net w') = link (net w) /\ same_node c c' /\ store_ok (store c') /\ (TagsOk (tags c) -> TagsOk (tags c'))
    /\ (forall k, view (store c') k = if decide (k ∈ keys) then None else view (store c) k)
    /\ (forall k t, has_tag (tags c') k t <-> (k ∉ keys) /\ has_tag (tags c) k t) /\ pending c' = pending c.
Proof.
  revert w c clk. induction keys as [|key keys IH]; intros w c clk Hme Hcl Hop Hne Hok.
  { exists w, c. split_and!; try done. intros k t. set_solver. }
  apply not_elem_of_cons in Hne as [Hk Hne].
  destruct (Cache_Delete_local order w me c key clk) as (w1 & s1 & Hd & Hme1 & Hl1 & Hok1 & Hb1 & Hb2);
    try done.
  destruct (IH w1 _ (advance 1 clk) Hme1) as (w2 & c2 & Hd2 & Hme2 & Hl2 & Hs2 & Hok2 & Htk & Hv2 & Ht2 & Hp2); try done.
  exists w2, c2. cbn [deleteAll]. unfold bind. rewrite Hd.
  split_and!; [exact Hd2|done|congruence|exact Hs2|done|intros; by apply Htk, Remove_ok| | |exact Hp2].
  - intros k. rewrite Hv2. cbn [store set_tags set_store].
    destruct (decide (k = key)) as [->|Hneq].
    + rewrite Hb1. rewrite (decide_True (P := key ∈ key :: keys)) by set_solver. by case_decide.
    + rewrite Hb2 by done. repeat case_decide; set_solver.
  - intros k t. rewrite Ht2. cbn [tags set_tags set_store]. rewrite has_tag_Remove. set_solver.
Qed.

(** InvalidateTag on a cache without a cluster. *)
Lemma InvalidateTag_local order setOrder w me c tag clk :
  hosts (net w) !! me = Some c -> cluster c = None -> closed c = false ->
  store_ok (store c) -> TagsOk (tags c) -> iterates setOrder -> ~ has_tag (tags c) "" tag ->
  exists w' c', Cache_InvalidateTag order me setOrder tag clk w = Some (tt, w')
    /\ hosts (net w') !! me = Some c' /\ link (net w') = link (net w) /\ same_node c c'
    /\ store_ok (store c') /\ TagsOk (tags c')
    /\ (forall k, has_tag (tags c) k tag -> view (store c') k = None)
    /\ (forall k, ~ has_tag (tags c) k tag -> view (store c') k = view (store c) k)
    /\ (forall k t, has_tag (tags c') k t <-> ~ has_tag (tags c) k tag /\ has_tag (tags c) k t)
    /\ pending c' = pending c.
Proof.
  intros Hme Hcl Hop Hok Ht Ho He.
  pose proof (fun k => GetKeysByTag_elem setOrder tag (tags c) k Ho Ht) as Hin.
  destruct (deleteAll_local order w me c (tagIndex_GetKeysByTag setOrder tag (tags c)) clk)
    as (w' & c' & Hd & Hme' & Hl & Hs & Hok' & Htk & Hv & Htg & Hpend); [done|done|done|by rewrite Hin|done|].
  exists w', c'. unfold Cache_InvalidateTag, bind, this. rewrite Hme.
  split_and!; [exact Hd|done|done|done|done|auto| | | |exact Hpend].
  - intros k Hk. apply Hin in Hk. rewrite Hv. by rewrite decide_True.
  - intros k Hk. rewrite <- Hin in Hk. rewrite Hv. by rewrite decide_False.
  - intros k t. by rewrite Htg, Hin.
Qed.

(** ** Eviction callbacks *)

(** [pick] chooses one of the goroutines that wait. *)
Definition picks (pick : calls -> nat) : Prop := forall cs, cs ≠ [] -> (pick cs < length cs)%nat.

(** What running the callbacks [cs] leaves of a cache. *)
Record Settled (c c' : Cache S) (cs : calls) : Prop := {
  sd_same : same_node c c';
  sd_store : store c' = store c;
  sd_tagsOk : TagsOk (tags c) -> TagsOk (tags c');
  sd_tags : forall k t, has_tag (tags c') k t <-> (k ∉ cs.*1) /\ has_tag (tags c) k t;
}.

Lemma runPending_spec w me c i key value :
  hosts (net w) !! me = Some c -> pending c !! i = Some (key, value) ->
  exists w' c', runPending me i w = Some (tt, w') /\ hosts (net w') !! me = Some c' /\ link (net w') = link (net w)
    /\ pending c' = delete i (pending c) /\ Settled c c' [(key, value)].
Proof.
  intros Hme Hi. unfold runPending, evictCallback, tagsRemove, emit, bind, this, put, ret. rewrite Hme, Hi. cbn [net log].
  rewrite !put_host_lookup, !decide_True by done. eexists _, (set_tags _ (set_pending _ c)). split; [reflexivity|].
  cbn [net]. rewrite put_host_lookup, decide_True by done. split_and!; [reflexivity..|].
  split; [done|done|intros Ht; by apply Remove_ok|]. intros k t. cbn [tags set_tags set_pending]. rewrite has_tag_Remove. set_solver.
Qed.

Lemma settled_app c c1 c2 cs1 cs2 cs : Settled c c1 cs1 -> Settled c1 c2 cs2 -> cs ≡ₚ cs1 ++ cs2 -> Settled c c2 cs.
Proof.
  intros [(A1 & A2 & A3) B1 C1 D1] [(A1' & A2' & A3') B2 C2 D2] Hp. split; [split_and!; congruence|congruence|auto|].
  intros k t. rewrite D2, D1, Hp, fmap_app, elem_of_app. tauto.
Qed.

(** Whatever the order in which the callbacks run, each is run, and the tags of
    the evicted keys are gone. *)
Lemma settle_spec w me c pick : picks pick -> hosts (net w) !! me = Some c ->
  exists w' c', settle me pick w = Some (tt, w') /\ hosts (net w') !! me = Some c' /\ link (net w') = link (net w)
    /\ pending c' = [] /\ Settled c c' (pending c).
Proof.
  intros Hp Hme. unfold settle, bind at 1, this. rewrite Hme. remember (length (pending c)) as fuel eqn:Hf.
  revert w c Hme Hf. induction fuel as [|fuel IH]; intros w c Hme Hf; symmetry in Hf.
  { apply length_zero_iff_nil in Hf. exists w, c. rewrite Hf. split_and!; [done..|]. split; [done|done|done|]. set_solver. }
  assert (pick (pending c) < length (pending c))%nat as Hlt by (apply Hp; by destruct (pending c)).
  destruct (lookup_lt_is_Some_2 _ _ Hlt) as [[key value] Hi].
  destruct (runPending_spec w me c _ key value Hme Hi) as (w1 & c1 & Hr & Hme1 & Hl1 & Hp1 & Hs1).
  destruct (IH w1 c1 Hme1) as (w2 & c2 & Hr2 & Hme2 & Hl2 & Hp2 & Hs2).
  { rewrite Hp1, length_delete by eauto. lia. }
  exists w2, c2. cbn [settleLoop]. unfold bind at 1, this. rewrite Hme. unfold bind. rewrite Hr.
  split_and!; [exact Hr2|exact Hme2|congruence|exact Hp2|]. eapply settled_app; [exact Hs1|exact Hs2|].
  rewrite Hp1. by apply delete_Permutation.
Qed.

(** C30: InvalidateTag on an open cache without a cluster, over any store that
    satisfies the contract, where the empty key does not have the tag, in whatever
    order the tag's key set is iterated: every key that had the tag is gone from the
    store and from the index, and every other key keeps its value and its tags. *)
Theorem invalidate_tag_exact order setOrder w me c tag clk :
  hosts (net w) !! me = Some c -> cluster c = None -> closed c = false ->
  store_ok (store c) -> TagsOk (tags c) -> iterates setOrder -> ~ has_tag (tags c) "" tag ->
  exists w' c', Cache_InvalidateTag order me setOrder tag clk w = Some (tt, w')
    /\ hosts (net w') !! me = Some c'
    /\ (forall k, has_tag (tags c) k tag ->
          view (store c') k = None /\ forall t, ~ has_tag (tags c') k t)
    /\ (forall k, ~ has_tag (tags c) k tag ->
          view (store c') k = view (store c) k
          /\ forall t, has_tag (tags c') k t <-> has_tag (tags c) k t).
Proof.
  intros Hme Hcl Hop Hok Ht Ho He.
  destruct (InvalidateTag_local order setOrder w me c tag clk)
    as (w' & c' & Hi & Hme' & _ & _ & _ & _ & Hgone & Hkept & Htg & _); try done.
  exists w', c'. split_and!; [done|done| |]; intros k Hk.
  - split; [auto|]. intros t. rewrite Htg. tauto.
  - split; [auto|]. intros t. rewrite Htg. tauto.
Qed.
End CacheTheorems.

(** ** Witnesses: a cluster of two nodes over memory stores *)

#[local] Existing Instance tagged_msgpack.

#[local] Instance w_laws : StoreLaws MemoryStore := MemoryStore_Laws 1000.

Definition w_addr (name : string) : string :=
  if String.eqb name "a" then "10.0.0.1:7947" else "10.0.0.2:7947".
Definition w_member (name ip : string) : NodeInfo :=
  MkNodeInfo name (ip +:+ ":7946") (ip +:+ ":7947") (ip +:+ ":6380") NodeAlive 0 zeroMeta.
Definition w_join (name ip : string) : MlNode := MkMlNode name ip 7946 [Byte.x00].

Definition w_ta : Topology :=
  NotifyJoin w_meta 0 (w_join "b" "10.0.0.2")
    (addSelf (w_member "a" "10.0.0.1") (NewClusterState "a", NewRing 3)).
Definition w_tb : Topology :=
  NotifyJoin w_meta 0 (w_join "a" "10.0.0.1")
    (addSelf (w_member "b" "10.0.0.2") (NewClusterState "b", NewRing 3)).

Lemma w_ta_ok : TopologyOk w_ta.
Proof.
  eapply (notifyAll_coherent w_meta [EvJoin 0 (w_join "b" "10.0.0.2")] (startTopology (w_member "a" "10.0.0.1") 3) _ {["a"; "b"]});
    [|by_decide|by_decide|exact I|reflexivity]. by eapply (start_coherent _ _ {["a"; "b"]}); [by_decide|by_decide|].
Qed.
Lemma w_tb_ok : TopologyOk w_tb.
Proof.
  eapply (notifyAll_coherent w_meta [EvJoin 0 (w_join "a" "10.0.0.1")] (startTopology (w_member "b" "10.0.0.2") 3) _ {["a"; "b"]});
    [|by_decide|by_decide|exact I|reflexivity]. by eapply (start_coherent _ _ {["a"; "b"]}); [by_decide|by_decide|].
Qed.

Definition w_cache (t : option Topology) : Cache MemoryStore :=
  MkCache (NewMemoryStore 4 1000) DefaultConfig false t Lock.NewEngine newTagIndex [].

Definition w_net : Network (Cache MemoryStore) :=
  MkNetwork {["10.0.0.1:7947" := w_cache (Some w_ta); "10.0.0.2:7947" := w_cache (Some w_tb)]}
    (fun _ => None) (fun _ => replicate 16 Byte.x07).

Lemma w_net_hosts me c : hosts w_net !! me = Some c ->
  (me = "10.0.0.1:7947" /\ c = w_cache (Some w_ta)) \/ (me = "10.0.0.2:7947" /\ c = w_cache (Some w_tb)).
Proof.
  unfold w_net. cbn [hosts]. intros [[<- <-]|[_ H]]%lookup_insert_Some; [by left|].
  apply lookup_singleton_Some in H as [<- <-]. by right.
Qed.

Lemma w_addresses (st : ClusterState) :
  map_Forall (fun m i => RPCAddr i = w_addr m) (nodes st) ->
  forall m i, nodes st !! m = Some i -> RPCAddr i = w_addr m.
Proof. intros Hm m i Hi. exact (Hm m i Hi). Qed.

Lemma w_net_ok : ClusterOk w_net w_addr {["a"; "b"]} 3.
Proof.
  split.
  - intros me c [[-> ->]|[-> ->]]%w_net_hosts; (split; [reflexivity|split; [reflexivity|]]).
    + exists w_ta.1, w_ta.2. split_and!; [done|apply w_ta_ok|by_decide|reflexivity|reflexivity|].
      apply w_addresses. by_decide.
    + exists w_tb.1, w_tb.2. split_and!; [done|apply w_tb_ok|by_decide|reflexivity|reflexivity|].
      apply w_addresses. by_decide.
  - intros m [Hm|Hm]%elem_of_union; apply elem_of_singleton in Hm as ->;
      (split_and!; [done|done|eexists; reflexivity|done]).
Qed.

Lemma w_net_nonempty : ({["a"; "b"]} : gset string) ≠ ∅.
Proof. set_solver. Qed.

Lemma w_net_stores o co : hosts w_net !! o = Some co ->
  store_ok (store co) /\ admits (store co) "k" [Byte.x01] Second w_clock
  /\ retains (store co) "k" [Byte.x01].
Proof.
  intros Ho. assert (store co = w_store) as ->.
  { by apply w_net_hosts in Ho as [[_ ->]|[_ ->]]. }
  split_and!; [exact w_store_ok| |].
  - cbn. unfold op_small. intros _. by vm_compute.
  - cbn. intros _. by vm_compute.
Qed.

Lemma cluster_read_your_writes_witness :
  exists w1 w2,
    Cache_Set (fun _ => []) "10.0.0.1:7947" "k" (GBytes [Byte.x01]) Second w_clock (MkWorld w_net [])
      = Some (Ok tt, w1)
    /\ Cache_Get "10.0.0.2:7947" "k" DBytes w_clock w1 = Some (Some (GBytes [Byte.x01]), w2).
Proof.
  eapply (cluster_read_your_writes (fun _ => []) w_net [] w_addr {["a"; "b"]} 3
    "10.0.0.1:7947" "10.0.0.2:7947" (w_cache (Some w_ta)) (w_cache (Some w_tb))
    "k" (GBytes [Byte.x01]) [Byte.x01] Second DBytes (GBytes [Byte.x01]) w_clock w_clock
    w_net_ok w_net_nonempty); try reflexivity; try discriminate.
  - exact w_net_stores.
  - exact w_clock_ok.
  - exact w_clock_ok.
Defined.

Lemma guards_change_nothing_witness :
  Cache_Set (fun _ => []) "10.0.0.1:7947" "" (GBytes []) 0 w_clock (MkWorld w_net [])
  = Some (Err ErrKeyEmpty, MkWorld w_net []).
Proof.
  eapply (guards_change_nothing (fun _ => []) (MkWorld w_net []) "10.0.0.1:7947"
    (w_cache (Some w_ta)) "" (GBytes []) 0 DBytes (ret (Err ErrNotFound)) 1 w_clock);
    [reflexivity|by left].
Defined.

(** A single node, with one tagged key in its index. *)
Definition w_alone : World (S := MemoryStore) :=
  MkWorld (MkNetwork
    {["" := MkCache (NewMemoryStore 4 1000) DefaultConfig false None Lock.NewEngine w_tags []]}
    (fun _ => None) (fun _ => [])) [].

Lemma invalidate_tag_exact_witness :
  exists w' c', Cache_InvalidateTag (fun _ => []) "" elements "user" w_clock w_alone = Some (tt, w')
    /\ hosts (net w') !! "" = Some c' /\ ~ has_tag (tags c') "u2" "user".
Proof.
  destruct (invalidate_tag_exact (fun _ => []) elements w_alone ""
    (MkCache (NewMemoryStore 4 1000) DefaultConfig false None Lock.NewEngine w_tags []) "user" w_clock)
    as (w' & c' & Hi & Hc & Hgone & _).
  - reflexivity.
  - reflexivity.
  - reflexivity.
  - exact w_store_ok.
  - exact (tags_reachable_TagsOk _ w_tags_reachable).
  - exact elements_iterates.
  - intros (tgs & Ht & _). vm_compute in Ht. discriminate Ht.
  - exists w', c'. split; [exact Hi|]. split; [exact Hc|]. apply Hgone.
    exists ["user"]. split; [vm_compute; reflexivity|by constructor].
Defined.
