(* ===== verification/ClusterLocks.v ===== *)
(** Locks across a cluster (lock.go, the handlers of distributed.go): calls of Lock,
    TryLock, Release and Extend at any nodes, the cleanup passes of their engines
    and whatever else they do, in any order. *)
From S2P Require Import Prelude GoLib Serializer Config Shard Store ShardTheorems MemoryStore Tags LockEngine LockProofs HashRing RingProofs Cluster Transport Broker Cache CacheProofs CacheLock CacheTheorems.

#[local] Open Scope cache_scope.

(** ** What happens in the cluster *)

(** A call with the key it asks for and what it returned, or the handle it was
    made on; a pass of a cleanup goroutine; anything that leaves locks alone. *)
Inductive LockEvent :=
  | LockCall (me key : string) (r : result LockHandle)
  | ReleaseCall (me : string) (h : LockHandle)
  | ExtendCall (me : string) (h : LockHandle)
  | CleanupPass (me : string)
  | Elsewhere.

Section ClusterLocks.
Context {S V T : Type} `{StoreLaws S V T}.
Implicit Types (n : Network (Cache S)) (w : World (S := S)).

(** A node after something that leaves its locks and its topology alone. *)
Definition lockless (x y : Cache S) : Prop := same_node x y /\ lockEngine y = lockEngine x.

Inductive lock_step : World -> LockEvent -> Clock -> World -> Prop :=
  | lk_lock w me key opts clk r w' :
      Cache_Lock me key opts clk w = Some (r, w') -> lock_step w (LockCall me key r) clk w'
  | lk_release w me h clk r w' :
      LockHandle_Release me h clk w = Some (r, w') -> lock_step w (ReleaseCall me h) clk w'
  | lk_extend w me h ttl clk r w' :
      LockHandle_Extend me h ttl clk w = Some (r, w') -> lock_step w (ExtendCall me h) clk w'
  | lk_cleanup w me c order clk :
      hosts (net w) !! me = Some c -> order ≡ₚ map_to_list (Lock.locks (lockEngine c)) ->
      lock_step w (CleanupPass me) clk
        (MkWorld (put_host me (set_lockEngine (Lock.cleanup order clk (lockEngine c)) c) (net w)) (log w))
  | lk_else w w' clk :
      link (net w') = link (net w) ->
      (forall me, option_Forall2 lockless (hosts (net w) !! me) (hosts (net w') !! me)) ->
      lock_step w Elsewhere clk w'.

Inductive lock_run : World -> list (LockEvent * Clock) -> World -> Prop :=
  | lr_nil w : lock_run w [] w
  | lr_cons w ev clk w1 evs w2 : lock_step w ev clk w1 -> lock_run w1 evs w2 -> lock_run w ((ev, clk) :: evs) w2.

(** The event does not use the handle [h]. *)
Definition spares (h : LockHandle) (ev : LockEvent) : Prop :=
  match ev with
  | ReleaseCall _ h' | ExtendCall _ h' => hKey h' = hKey h -> hToken h' ≠ hToken h
  | _ => True
  end.

(** ** The lease stays *)

Section Lease.
Context (addr_of : string -> string) (M : gset string) (vn : Z) (HM : M ≠ ∅).
Abbreviation ClusterOk n := (ClusterOk n addr_of M vn).

Lemma cluster_put n x cx cy : ClusterOk n -> hosts n !! x = Some cx -> same_node cx cy -> ClusterOk (put_host x cy n).
Proof.
  intros [Hh Hm] Hx (Hcfg & Hcl & Htop). split.
  - intros me c. rewrite put_host_lookup. case_decide as He; [|by apply Hh]. intros [= <-]. subst me.
    destruct (Hh x cx Hx) as (? & ? & st & r & ? & Hrest). split_and!; [congruence|congruence|].
    exists st, r. split; [congruence|exact Hrest].
  - intros m Hin. destruct (Hm m Hin) as (? & ? & [c Hc] & ?). split_and!; [done|done| |done].
    rewrite put_host_lookup. case_decide; eauto.
Qed.

Lemma cluster_lockless n n' : ClusterOk n -> link n' = link n ->
  (forall me, option_Forall2 lockless (hosts n !! me) (hosts n' !! me)) -> ClusterOk n'.
Proof.
  intros [Hh Hm] Hl Hs. split.
  - intros me c Hc. specialize (Hs me). rewrite Hc in Hs. inversion Hs as [x y [(Hcfg & Hcl & Htop) _] Ex|]; subst y.
    destruct (Hh me x) as (? & ? & st & r & ? & Hrest); [done|]. split_and!; [congruence|congruence|].
    exists st, r. split; [congruence|exact Hrest].
  - intros m Hin. destruct (Hm m Hin) as (? & ? & [c Hc] & ?). split_and!; [done|done| |congruence].
    specialize (Hs (addr_of m)). rewrite Hc in Hs. inversion Hs; eauto.
Qed.

(** The owner [o] of the key [lk] has the lease [en] for it. *)
Definition Leased (o lk : string) (en : Lock.Entry) w : Prop :=
  ClusterOk (net w) /\ (exists co, hosts (net w) !! o = Some co /\ Lock.locks (lockEngine co) !! lk = Some en)
  /\ forall me c o' co, Serves (net w) me lk o' c co -> o' = o.

Lemma owner_unique n me me' key o o' c c' co co' : ClusterOk n ->
  Serves n me key o c co -> Serves n me' key o' c' co' -> o = o'.
Proof.
  intros Hok Ha Hb. destruct (cluster_same_owner n addr_of M vn me me' c c' key Hok HM) as (x & cx & E1 & E2); [apply Ha|apply Hb|].
  rewrite <- (sv_route _ _ _ _ _ _ Ha), <- (sv_route _ _ _ _ _ _ Hb).
  by rewrite (sv_route _ _ _ _ _ _ E1), (sv_route _ _ _ _ _ _ E2).
Qed.

(** What a node serves depends on its configuration and topology. *)
Lemma serves_back n n' me key o c co :
  (forall x, option_Forall2 same_node (hosts n !! x) (hosts n' !! x)) -> link n' = link n ->
  Serves n' me key o c co -> exists c0 co0, Serves n me key o c0 co0.
Proof.
  intros Hs Hl [Hme Hop Hmode Hroute Hown Hlink]. pose proof (Hs me) as E1. pose proof (Hs o) as E2.
  rewrite Hme in E1. rewrite Hown in E2. inversion E1 as [x y (Hcfg & Hcl & Htop) Ex|]; subst y. inversion E2 as [z y' _ Ez|]; subst y'.
  exists x, z. split; [done|congruence|congruence| |done|congruence].
  rewrite <- Hroute. symmetry. by apply route_same.
Qed.

Lemma leased_put o lk en w x cx cy lg :
  Leased o lk en w -> hosts (net w) !! x = Some cx -> same_node cx cy ->
  (x = o -> Lock.locks (lockEngine cx) !! lk = Some en -> Lock.locks (lockEngine cy) !! lk = Some en) ->
  Leased o lk en (MkWorld (put_host x cy (net w)) lg).
Proof.
  intros (Hok & (co & Hco & Hen) & Huniq) Hx Hs Hkeep. split; [|split]; cbn [net].
  - by eapply cluster_put.
  - rewrite put_host_lookup. case_decide as He; [|eauto]. subst x. exists cy. split; [done|].
    rewrite Hco in Hx. injection Hx as ->. by apply Hkeep.
  - intros me c o' co' Hsv. apply (serves_back (net w)) in Hsv as (c0 & co0 & Hsv); [by eapply Huniq| |done].
    intros y. rewrite put_host_lookup. case_decide as He.
    + subst y. rewrite Hx. by constructor.
    + destruct (hosts (net w) !! y); by constructor.
Qed.

(** An operation of some engine that is not the holder's. *)
Lemma leased_engine o lk en w x cx op clk r e lg :
  Leased o lk en w -> hosts (net w) !! x = Some cx -> Lock.op_fits op (lockEngine cx) ->
  Lock.run_op op clk (lockEngine cx) = (r, e) -> Lock.disturbs lk (Lock.Token en) op = false ->
  (forall i, clk i <= Lock.ExpiresAt en) ->
  Leased o lk en (MkWorld (put_host x (set_lockEngine e cx) (net w)) lg).
Proof.
  intros Hl Hx Hf Hr Hd Hclk. eapply leased_put; [done|done|done|]. intros _ Hen.
  by destruct (step_keeps_lease op clk (lockEngine cx) r e lk en Hf Hr Hen Hd Hclk).
Qed.

Lemma leased_attempt o lk en w me c key ttl clk : Leased o lk en w -> hosts (net w) !! me = Some c ->
  (forall i, clk i <= Lock.ExpiresAt en) ->
  exists a w', lockAttempt me key ttl clk w = Some (Ok a, w') /\ Leased o lk en w' /\ (key = lk -> a = None)
    /\ is_Some (hosts (net w') !! me).
Proof.
  intros Hl Hme Hclk. pose proof Hl as (Hok & (co & Hco & Hen) & Huniq).
  destruct (cluster_serves (net w) addr_of M vn me c key Hok HM Hme) as (r & _ & _ & _ & cx & Hsv).
  set (x := addr_of (GetNode key r)) in *.
  destruct (lockAttempt_spec w me key x c cx ttl clk Hsv) as (owner & addr & token & fencing & acquired & e & Ha & Hl' & _).
  eexists _, _. split; [exact Hl'|]. split; [|split].
  - eapply (leased_engine o lk en w x cx (Lock.OpAcquire key ttl owner (entropy (net w) x)) clk);
      [done|apply Hsv|done|cbn [Lock.run_op]; by rewrite Ha|done|done].
  - intros ->. pose proof (Huniq _ _ _ _ Hsv) as Ex. rewrite Ex in Hsv. pose proof (sv_owner _ _ _ _ _ _ Hsv) as Hx.
    rewrite Hco in Hx. injection Hx as <-.
    apply Acquire_cases in Ha as [([= -> -> ->] & _)|[_ Hexp]]; [done|]. specialize (Hexp en Hen).
    unfold Lock.IsExpired, After in Hexp. zbool. specialize (Hclk 0%nat). lia.
  - cbn [net]. rewrite put_host_lookup. case_decide; eauto.
Qed.

Lemma leased_loop o lk en left w me key ttl clk r w' : Leased o lk en w -> is_Some (hosts (net w) !! me) ->
  (forall i, clk i <= Lock.ExpiresAt en) -> lock_loop left me key ttl clk w = Some (r, w') ->
  Leased o lk en w' /\ (key = lk -> exists err, r = Err err).
Proof.
  revert w clk. induction left as [|left IH]; intros w clk Hl [c Hme] Hclk; cbn [lock_loop].
  { intros [= <- <-]. eauto. }
  destruct (leased_attempt o lk en w me c key ttl clk Hl Hme Hclk) as (a & w1 & Ha & Hl1 & Hno & Hme1).
  unfold bind. rewrite Ha. destruct a as [h|]; [|by intros Hr; eapply IH in Hr; [|done|done|intros i; apply Hclk]].
  intros [= <- <-]. split; [done|]. intros Hkey. by apply Hno in Hkey.
Qed.

(** A request that reaches the engine of some node. *)
Lemma leased_call o lk en w addr req op clk :
  Leased o lk en w ->
  (forall c, exists resp, processRequest req (entropy (net w) addr) clk c
     = Some (resp, set_lockEngine (Lock.run_op op clk (lockEngine c)).2 c)) ->
  (forall e, Lock.op_fits op e) -> Lock.disturbs lk (Lock.Token en) op = false -> (forall i, clk i <= Lock.ExpiresAt en) ->
  Leased o lk en (MkWorld (call addr req clk (net w)).2 (log w)).
Proof.
  intros Hl Hp Hf Hd Hclk. unfold call. destruct (link (net w) addr); [by destruct w|].
  destruct (hosts (net w) !! addr) as [c|] eqn:Ec; [|by destruct w]. destruct (Hp c) as [resp ->].
  destruct (Lock.run_op op clk (lockEngine c)) as [res e] eqn:Er.
  assert (Leased o lk en (MkWorld (put_host addr (set_lockEngine e c) (net w)) (log w))) as Hl'
    by (eapply (leased_engine o lk en w addr c op clk); eauto).
  by destruct (negb _).
Qed.

Lemma leased_step o lk en w h ev clk w' : Leased o lk en w -> hKey h = lk -> hToken h = Lock.Token en ->
  lock_step w ev clk w' -> spares h ev -> (forall i, clk i <= Lock.ExpiresAt en) ->
  Leased o lk en w' /\ forall me key r, ev = LockCall me key r -> lockKeyOf key = lk -> exists err, r = Err err.
Proof.
  intros Hl Hk Ht Hst Hsp Hclk.
  assert (forall h', spares h (ReleaseCall "" h') -> String.eqb (hKey h') lk && String.eqb (hToken h') (Lock.Token en) = false) as Hdis.
  { intros h' Hh. cbn in Hh. rewrite <- Hk, <- Ht. destruct (String.eqb_spec (hKey h') (hKey h)) as [E|]; [|done].
    by apply String.eqb_neq, Hh. }
  destruct Hst as [w me key opts clk r w' Hc|w me h' clk r w' Hc|w me h' ttl clk r w' Hc|w me c order clk Hme Ho|w w' clk Hlk Hs].
  - unfold Cache_Lock, bind at 1, this in Hc. destruct (hosts (net w) !! me) as [c|] eqn:Hme; [|done].
    destruct (String.eqb key ""); [injection Hc as <- <-; split; [done|]; intros ??? [= <- <- <-] _; eauto|].
    destruct (closed c); [injection Hc as <- <-; split; [done|]; intros ??? [= <- <- <-] _; eauto|].
    eapply leased_loop in Hc as [Hl' Hno]; [|exact Hl|by rewrite Hme|exact Hclk]. split; [done|].
    intros ??? [= <- <- <-] E. by apply Hno.
  - split; [|done]. unfold LockHandle_Release, bind in Hc. specialize (Hdis h' Hsp). destruct (negb _).
    + unfold rpc, RemoteLockRelease, on_response in Hc.
      pose proof (leased_call o lk en w (hOwnerAddr h') (MkRequest 8 (hKey h') [] [] 0 [] 0 (hToken h')) (Lock.OpRelease (hKey h') (hToken h'))
        clk Hl) as Hl'. destruct (call _ _ _ _) as [[resp|err] n']; injection Hc as _ <-; (apply Hl'; [|done|done|done]);
        intros c; cbn -[Lock.Release]; destruct (Lock.Release _ _ _); by eexists.
    + unfold withEngine, bind, this, put, ret in Hc. destruct (hosts (net w) !! me) as [c|] eqn:Hme; [|done].
      destruct (Lock.Release _ _ _) as [b e] eqn:Er. injection Hc as _ <-.
      eapply (leased_engine o lk en w me c (Lock.OpRelease (hKey h') (hToken h')) clk); [done|done|done|cbn [Lock.run_op]; by rewrite Er|done|done].
  - split; [|done]. unfold LockHandle_Extend, bind in Hc. specialize (Hdis h' Hsp). destruct (negb _).
    + unfold rpc, RemoteLockExtend, on_response in Hc.
      pose proof (leased_call o lk en w (hOwnerAddr h') (MkRequest 9 (hKey h') [] [] ttl [] 0 (hToken h')) (Lock.OpExtend (hKey h') (hToken h') ttl)
        clk Hl) as Hl'. destruct (call _ _ _ _) as [[resp|err] n']; injection Hc as _ <-; (apply Hl'; [|done|done|done]);
        intros c; cbn -[Lock.Extend]; destruct (Lock.Extend _ _ _ _ _); by eexists.
    + unfold withEngine, bind, this, put, ret in Hc. destruct (hosts (net w) !! me) as [c|] eqn:Hme; [|done].
      destruct (Lock.Extend _ _ _ _ _) as [b e] eqn:Er. injection Hc as _ <-.
      eapply (leased_engine o lk en w me c (Lock.OpExtend (hKey h') (hToken h') ttl) clk); [done|done|done|cbn [Lock.run_op]; by rewrite Er|done|done].
  - split; [|done]. eapply (leased_engine o lk en w me c (Lock.OpCleanup order) clk); try done.
  - split; [|done]. destruct Hl as (Hok & (co & Hco & Hen) & Huniq). split; [|split].
    + by eapply cluster_lockless.
    + pose proof (Hs o) as E. rewrite Hco in E. inversion E as [x y [_ Eq] Ex Ey|]; subst. exists y. split; [done|]. by rewrite Eq.
    + intros me c o' co' Hsv. apply (serves_back (net w)) in Hsv as (c0 & co0 & Hsv); [by eapply Huniq| |done].
      intros x. specialize (Hs x). inversion Hs as [? ? [? _]|]; by constructor.
Qed.

Lemma leased_run o lk en w h evs w' : Leased o lk en w -> hKey h = lk -> hToken h = Lock.Token en -> lock_run w evs w' ->
  Forall (fun ec => spares h ec.1 /\ forall i, ec.2 i <= Lock.ExpiresAt en) evs ->
  Leased o lk en w'
  /\ forall me key r clk, (LockCall me key r, clk) ∈ evs -> lockKeyOf key = lk -> exists err, r = Err err.
Proof.
  intros Hl Hk Ht Hrun. revert Hl. induction Hrun as [w|w ev clk w1 evs w2 Hst Hrun IH]; intros Hl Hall.
  { split; [done|]. intros me key r clk Hin. by apply elem_of_nil in Hin. }
  apply Forall_cons in Hall as [[Hsp Hclk] Hall].
  destruct (leased_step o lk en w h ev clk w1 Hl Hk Ht Hst Hsp Hclk) as [Hl1 Hno].
  destruct (IH Hl1 Hall) as [Hl2 Hrest]. split; [done|]. intros me key r clk' [E|Hin]%elem_of_cons; [|eauto].
  injection E as Eev _. by eapply Hno.
Qed.

Lemma leased_release o lk en w a h clk : Leased o lk en w -> hKey h = lk -> hToken h = Lock.Token en ->
  hOwnerAddr h = "" /\ o = a \/ hOwnerAddr h ≠ "" /\ hOwnerAddr h = o -> link (net w) o = None ->
  exists w', LockHandle_Release a h clk w = Some (Ok tt, w').
Proof.
  intros (_ & (co & Hco & Hen) & _) Hk Ht Haddr Hlink.
  assert (exists e, Lock.Release (hKey h) (hToken h) (lockEngine co) = (true, e)) as [e Hr].
  { unfold Lock.Release. rewrite Hk, Hen, Ht, String.eqb_refl. eauto. }
  unfold LockHandle_Release. destruct Haddr as [[-> ->]|[Hne Ha]].
  - cbn [String.eqb negb]. unfold withEngine, bind, this, put, ret, bind. rewrite Hco, Hr. eauto.
  - rewrite (proj2 (String.eqb_neq _ _) Hne). cbn [negb]. unfold bind, rpc, RemoteLockRelease, call, ret. rewrite Ha, Hlink, Hco.
    cbn -[Lock.Release]. rewrite Hr. cbn. eauto.
Qed.
End Lease.

(** C9: locks exclude each other in a cluster. In a partitioned cluster whose nodes
    are up, reachable and agree on the members, TryLock of a key has succeeded
    at a node. Then, up to the end of the lease, whatever calls of Lock,
    TryLock, Release and Extend are made at whatever nodes, cleanup passes run,
    and other things happen that leave locks and topology alone: unless the
    holder's own handle is used, every call of Lock for the key fails, TryLock of
    it fails at every node, and the holder can still release it. *)
Theorem cluster_lock_exclusive n lg addr_of M vn a ca key ttl clk h w1 evs w2 :
  ClusterOk n addr_of M vn -> M ≠ ∅ -> hosts n !! a = Some ca -> key ≠ "" ->
  Cache_TryLock a key ttl clk (MkWorld n lg) = Some (Some h, w1) ->
  lock_run w1 evs w2 ->
  Forall (fun ec => spares h ec.1 /\ forall i, ec.2 i <= clk 1%nat + ttl) evs ->
  (forall me r clk', (LockCall me key r, clk') ∈ evs -> exists err, r = Err err)
  /\ (forall b cb ttl' clk', hosts (net w2) !! b = Some cb -> (forall i, clk' i <= clk 1%nat + ttl) ->
        exists w3, Cache_TryLock b key ttl' clk' w2 = Some (None, w3))
  /\ forall clk', exists w3, LockHandle_Release a h clk' w2 = Some (Ok tt, w3).
Proof.
  intros Hok HM Ha Hk Hlock Hrun Hall.
  destruct (cluster_serves n addr_of M vn a ca (lockKeyOf key) Hok HM Ha) as (r & _ & _ & _ & co & Hsa).
  set (o := addr_of (GetNode (lockKeyOf key) r)) in *.
  destruct (TryLock_spec (MkWorld n lg) a key o ca co ttl clk Hsa Hk)
    as (owner & addr & token & fencing & acquired & e' & Hacq & Htry & Haddr).
  rewrite Htry in Hlock. destruct acquired; [|done]. injection Hlock as <- <-. cbn [net log] in *.
  apply Acquire_granted in Hacq as (_ & _ & Hheld). set (en := Lock.MkEntry _ _ _ _ _) in Hheld.
  assert (Leased addr_of M vn o (lockKeyOf key) en (MkWorld (put_host o (set_lockEngine e' co) n) lg)) as Hl.
  { assert (ClusterOk (put_host o (set_lockEngine e' co) n) addr_of M vn) as Hok1 by (eapply cluster_put; [done|apply Hsa|done]).
    split; [exact Hok1|split]; cbn [net].
    - exists (set_lockEngine e' co). by rewrite put_host_lookup, decide_True.
    - intros me c o' co' Hsv. destruct (serves_put n a (lockKeyOf key) o ca co o co (set_lockEngine e' co) Hsa) as (ca2 & Hsa2 & _);
        [apply Hsa|done|]. eapply owner_unique; [exact HM|exact Hok1|exact Hsv|exact Hsa2]. }
  destruct (leased_run addr_of M vn HM o (lockKeyOf key) en _ (MkLockHandle (lockKeyOf key) token fencing addr) evs w2 Hl)
    as [Hl2 Hno]; try done.
  split_and!.
  - intros me r' clk' Hin. by eapply Hno.
  - intros b cb ttl' clk' Hb Hclk'. destruct (leased_attempt addr_of M vn HM o (lockKeyOf key) en w2 b cb (lockKeyOf key) ttl' clk' Hl2 Hb Hclk')
      as (x & w3 & Hx & _ & Hnone & _). rewrite (Hnone eq_refl) in Hx. exists w3.
    destruct (co_host _ _ _ _ (proj1 Hl2) b cb Hb) as (Hop & _).
    unfold Cache_TryLock, Cache_Lock, bind at 1 2, this. rewrite Hb, Hop, (proj2 (String.eqb_neq key "") Hk).
    change (Z.to_nat (RetryCount (MkLockOptions ttl' 0 0) + 1)) with 1%nat. cbn [lock_loop oTTL]. unfold bind. by rewrite Hx.
  - intros clk'. eapply leased_release; [exact Hl2|done|done|cbn [hOwnerAddr]; tauto|].
    pose proof Hl2 as (Hok2 & (co2 & Hco2 & _) & Huniq).
    destruct (cluster_serves (net w2) addr_of M vn o co2 (lockKeyOf key) Hok2 HM Hco2) as (r2 & _ & _ & _ & cx & Hsv).
    rewrite <- (Huniq _ _ _ _ Hsv). apply Hsv.
Qed.
End ClusterLocks.

(** ** Witness *)

#[local] Existing Instance tagged_msgpack.
#[local] Existing Instance w_laws.

Definition w_locked : option (option LockHandle * World (S := MemoryStore)) :=
  Cache_TryLock "10.0.0.1:7947" "job" Second w_clock (MkWorld w_net []).

(** The other node asks for the lock twice, with a retry, and tries to release it
    with a token of its own; another lock is taken in between. *)
Definition w_asks : list (World (S := MemoryStore) -> option (LockEvent * World (S := MemoryStore))) :=
  let ask me key opts w := match Cache_Lock me key opts w_clock w with Some (r, w') => Some (LockCall me key r, w') | None => None end in
  let release me h w := match LockHandle_Release me h w_clock w with Some (_, w') => Some (ReleaseCall me h, w') | None => None end in
  [ask "10.0.0.2:7947" "job" (MkLockOptions Second 1 0); ask "10.0.0.2:7947" "other" (MkLockOptions Second 0 0);
   release "10.0.0.2:7947" (MkLockHandle "__lock:job" "0b" 2 "")].

Fixpoint w_play (asks : list (World (S := MemoryStore) -> option (LockEvent * World (S := MemoryStore)))) w
  : option (list (LockEvent * Clock) * World (S := MemoryStore)) :=
  match asks with
  | [] => Some ([], w)
  | f :: asks' =>
      match f w with
      | Some (ev, w1) => match w_play asks' w1 with Some (evs, w2) => Some ((ev, w_clock) :: evs, w2) | None => None end
      | None => None
      end
  end.

Lemma w_play_run asks w evs w2 : Forall (fun f => forall w ev w', f w = Some (ev, w') -> lock_step w ev w_clock w') asks ->
  w_play asks w = Some (evs, w2) -> lock_run w evs w2.
Proof.
  intros Hall. revert w evs. induction Hall as [|f asks Hf Hall IH]; intros w evs; cbn [w_play]; [intros [= <- <-]; constructor|].
  destruct (f w) as [[ev w1]|] eqn:Ef; [|done]. destruct (w_play asks w1) as [[evs1 w3]|] eqn:Ep; [|done]. intros [= <- <-].
  econstructor; eauto.
Qed.

Lemma w_play_clock asks w evs w2 i ev clk : w_play asks w = Some (evs, w2) -> evs !! i = Some (ev, clk) -> clk = w_clock.
Proof.
  revert w evs i. induction asks as [|f asks IH]; intros w evs i; cbn [w_play]; [by intros [= <- <-]|].
  destruct (f w) as [[ev1 w1]|]; [|done]. destruct (w_play asks w1) as [[evs1 w3]|] eqn:Ep; [|done]. intros [= <- <-].
  destruct i as [|i]; cbn; [by intros [= <- <-]|by eapply IH].
Qed.

Lemma w_asks_steps : Forall (fun f => forall w ev w', f w = Some (ev, w') -> lock_step w ev w_clock w') w_asks.
Proof.
  unfold w_asks. repeat apply Forall_cons_2; [| | |apply Forall_nil_2]; intros w ev w'.
  1,2: destruct (Cache_Lock _ _ _ _ w) as [[r w1]|] eqn:E; [|done]; intros [= <- <-]; by eapply lk_lock.
  destruct (LockHandle_Release _ _ _ w) as [[r w1]|] eqn:E; [|done]. intros [= <- <-]. by eapply lk_release.
Qed.

Definition w_holder : LockHandle := MkLockHandle "__lock:job" "07070707070707070707070707070707" 1 "10.0.0.2:7947".
Definition w_events : list LockEvent :=
  [LockCall "10.0.0.2:7947" "job" (Err ErrLockNotAcquired);
   LockCall "10.0.0.2:7947" "other" (Ok (MkLockHandle "__lock:other" "07070707070707070707070707070707" 2 ""));
   ReleaseCall "10.0.0.2:7947" (MkLockHandle "__lock:job" "0b" 2 "")].

Lemma w_played : exists w1 w2, w_locked = Some (Some w_holder, w1) /\ lock_run w1 ((fun ev => (ev, w_clock)) <$> w_events) w2.
Proof.
  assert (match w_locked with
          | Some (Some h, w1) => match w_play w_asks w1 with Some (evs, _) => Some (h, evs.*1) | None => None end
          | _ => None
          end = Some (w_holder, w_events)) as Hev by (vm_compute; reflexivity).
  destruct w_locked as [[[h|] w1]|]; [|discriminate Hev..].
  destruct (w_play w_asks w1) as [[evs w2]|] eqn:Ep; [|discriminate Hev]. injection Hev as -> Hevs.
  exists w1, w2. split; [done|]. rewrite <- Hevs, <- list_fmap_compose.
  rewrite (list_fmap_ext _ id); [rewrite list_fmap_id; exact (w_play_run _ _ _ _ w_asks_steps Ep)|].
  intros i [ev clk] Hi. cbn. f_equal. symmetry. by eapply w_play_clock.
Qed.

Lemma cluster_lock_exclusive_witness :
  exists w1 w2, w_locked = Some (Some w_holder, w1) /\ lock_run w1 ((fun ev => (ev, w_clock)) <$> w_events) w2
    /\ exists w3, LockHandle_Release "10.0.0.1:7947" w_holder w_clock w2 = Some (Ok tt, w3).
Proof.
  destruct w_played as (w1 & w2 & Hlock & Hrun). exists w1, w2. split; [exact Hlock|]. split; [exact Hrun|].
  destruct (cluster_lock_exclusive w_net [] w_addr {["a"; "b"]} 3 "10.0.0.1:7947" (w_cache (Some w_ta)) "job" Second w_clock
    w_holder w1 ((fun ev => (ev, w_clock)) <$> w_events) w2 w_net_ok w_net_nonempty) as (_ & _ & Hrel);
    [reflexivity|discriminate|exact Hlock|exact Hrun| |exact (Hrel w_clock)].
  repeat apply Forall_cons_2; [..|apply Forall_nil_2];
    (split; [cbn; try exact I; discriminate|intros i; unfold w_clock, frozen, Second; cbn; lia]).
Defined.
