(* ===== verification/PoolProofs.v ===== *)
(** Calls over pooled connections: one after the other they behave as the one-step
    call of [Transport]; overlapping, they can take each other's responses. *)
From stdpp Require Import relations.
From S2P Require Import Prelude GoLib Serializer Config Shard Store ShardTheorems MemoryStore Tags LockEngine HashRing RingProofs Cluster Transport Pool Broker Cache CacheProofs CacheTheorems.

Section PoolProofs.
Context {H : Type} `{LocalHandler H}.
Implicit Types t : TCPTransport H.

(** A connection of the pool with nothing on its way. *)
Definition idle (addr : string) (w : Conn) : Prop := w = MkConn addr [] [] true.

Definition IdlePool t : Prop :=
  forall addr c, conns t !! addr = Some c ->
    (exists w, wires t !! c = Some w /\ idle addr w) /\ is_Some (remotes t !! addr).

(** ** One call *)

Lemma getConn_idle addr t h :
  IdlePool t -> remotes t !! addr = Some h ->
  exists c t1, getConn addr t = Some (c, t1) /\ IdlePool t1 /\ conns t1 !! addr = Some c
    /\ remotes t1 = remotes t.
Proof.
  intros Hi Hh. unfold getConn, pooled. destruct (conns t !! addr) as [c|] eqn:E; [by exists c, t|].
  unfold dial, adopt. rewrite Hh. cbn. rewrite E. eexists _, _. split; [done|].
  split_and!; [|cbn; by rewrite lookup_insert_eq|done].
  intros addr' c'. cbn. intros [[<- <-]|[Hne Hc]]%lookup_insert_Some.
  - rewrite list_lookup_middle by done. split; [by eexists|by exists h].
  - destruct (Hi addr' c' Hc) as [(w & Hw & Hid) Hr]. split; [|done].
    exists w. split; [by apply lookup_app_l_Some|done].
Qed.

(** Changing the wire of [addr] leaves the rest of the pool idle. *)
Lemma idle_elsewhere t addr addr' c c' w :
  IdlePool t -> conns t !! addr = Some c -> conns t !! addr' = Some c' -> addr ≠ addr' ->
  wires t !! c' = Some w -> c ≠ c'.
Proof.
  intros Hi Hc Hc' Hne Hw ->.
  destruct (Hi addr c' Hc) as [(w1 & Hw1 & ->) _], (Hi addr' c' Hc') as [(w2 & Hw2 & ->) _].
  rewrite Hw1 in Hw2. by injection Hw2.
Qed.

Lemma closeConn_idle t t' addr c f :
  IdlePool t -> conns t !! addr = Some c ->
  conns t' = conns t -> wires t' = alter f c (wires t) -> (forall a, is_Some (remotes t !! a) -> is_Some (remotes t' !! a)) ->
  IdlePool (closeConn addr t').
Proof.
  intros Hi Hc Ht Hw Hr. unfold closeConn. rewrite Ht, Hc.
  intros a c'. cbn. intros [Hne Ha]%lookup_delete_Some. destruct (Hi a c' Ha) as [(w & Hwc & Hid) Hra].
  split; [|auto]. exists w. split; [|done].
  assert (c ≠ c') by by eapply (idle_elsewhere t addr a).
  rewrite Hw, !list_lookup_alter_ne by done. done.
Qed.

(** C15: a call that has the pooled connection to itself is the call of the model of the
    network: it returns the same response or error, changes the peer in the same
    way, and leaves the pool ready for the next call. *)
Theorem pooled_call_refines addr req clk t (n : Network H) :
  IdlePool t -> remotes t = hosts n -> link n addr = None ->
  let '(r, t') := call_steps addr req (entropy n addr) clk t in
  let '(r', n') := call addr req clk n in
  r = r' /\ remotes t' = hosts n' /\ IdlePool t'.
Proof.
  intros Hi Hr Hl. unfold call_steps, call. rewrite Hl, <- Hr.
  destruct (remotes t !! addr) as [h|] eqn:Hh.
  2:{ unfold getConn, pooled, dial. rewrite Hh. destruct (conns t !! addr) as [c|] eqn:E.
      - destruct (Hi addr c E) as [_ [x Hx]]. congruence.
      - done. }
  destruct (getConn_idle addr t h Hi Hh) as (c & t1 & -> & Hi1 & Hc & Hr1).
  destruct (Hi1 addr c Hc) as [(w & Hw & ->) _].
  unfold send. rewrite Hw. cbn [isOpen].
  unfold handleConn. cbn [on_wire with_wires wires]. rewrite list_lookup_alter_eq, Hw. cbn.
  rewrite Hr1, Hh. destruct (processRequest req (entropy n addr) clk h) as [[resp h']|] eqn:Hp.
  2:{ split_and!; [done| |].
      - unfold closeConn. cbn. rewrite Hc. cbn. by rewrite Hr1.
      - eapply (closeConn_idle t1 _ addr c); eauto. }
  unfold receive. cbn. rewrite !list_lookup_alter_eq, Hw. cbn. unfold answer, put_host.
  assert (IdlePool (on_wire c (set_responses []) (on_wire c
      (fun w => set_responses (responses w ++ [resp]) (set_requests [] w))
      (with_remotes (<[addr := h']> (remotes t1)) (on_wire c (set_requests [req]) t1))))) as Hi'.
  { intros a c' Ha. cbn in *. destruct (Hi1 a c' Ha) as [(w & Hwc & Hid) [x Hx]].
    destruct (decide (a = addr)) as [->|Hne].
    - simplify_eq. rewrite !list_lookup_alter_eq, Hw. split; [by eexists|]. rewrite lookup_insert_eq. eauto.
    - assert (c ≠ c') by by eapply (idle_elsewhere t1 addr a). rewrite !list_lookup_alter_ne by done.
      split; [by exists w|]. rewrite lookup_insert_ne by done. eauto. }
  rewrite Hr1 in Hi'. destruct (String.eqb (rError resp) ""); cbn; (split_and!; [done|by rewrite Hr|exact Hi']).
Qed.

(** ** Overlapping calls *)

(** Two goroutines that call the same peer at the same time share its connection, and
    nothing ties a response to its request: there is a run in which each of them
    returns the response to the other's request. *)
Theorem overlapping_calls_swap addr t h c r1 r2 h1 h2 q1 q2 random clk :
  conns t !! addr = Some c -> wires t !! c = Some (MkConn addr [] [] true) -> remotes t !! addr = Some h ->
  processRequest q1 random clk h = Some (r1, h1) -> processRequest q2 random clk h1 = Some (r2, h2) ->
  exists t', rtc call_step
    (MkCalls t {[0%nat := Starts addr q1; 1%nat := Starts addr q2]})
    (MkCalls t' {[0%nat := Returns (answer addr r2); 1%nat := Returns (answer addr r1)]}).
Proof.
  intros Hc Hw Hh H1 H2. eexists.
  eapply rtc_l; [by apply (cs_pooled _ _ 0%nat addr q1 c)|].
  eapply rtc_l; [by apply (cs_pooled _ _ 1%nat addr q2 c)|].
  eapply rtc_l; [eapply (cs_send _ _ 0%nat addr q1 c); [done|unfold send; by rewrite Hw]|].
  eapply rtc_l; [eapply (cs_send _ _ 1%nat addr q2 c); [done|];
    unfold send; cbn; by rewrite list_lookup_alter_eq, Hw|].
  eapply rtc_l; [eapply (cs_handle _ _ c random clk); unfold handleConn; cbn;
    by rewrite !list_lookup_alter_eq, Hw; cbn; rewrite Hh, H1|].
  eapply rtc_l; [eapply (cs_handle _ _ c random clk); unfold handleConn; cbn;
    by rewrite !list_lookup_alter_eq, Hw; cbn; rewrite lookup_insert_eq, H2|].
  eapply rtc_l; [eapply (cs_receive _ _ 1%nat addr c r1); [done|]; unfold receive; cbn;
    by rewrite !list_lookup_alter_eq, Hw|].
  eapply rtc_l; [eapply (cs_receive _ _ 0%nat addr c r2); [done|]; unfold receive; cbn;
    by rewrite !list_lookup_alter_eq, Hw|].
  apply rtc_refl.
Qed.

(** ** Stop *)

Lemma stopLoop_spec order t :
  conns (stopLoop order t) = foldl (fun m x => delete x.1 m) (conns t) order
  /\ (forall c w, wires (stopLoop order t) !! c = Some w ->
        exists w0, wires t !! c = Some w0
          /\ w = (if decide (c ∈ order.*2) then close_conn w0 else w0))
  /\ stopped (stopLoop order t) = stopped t /\ listener (stopLoop order t) = listener t.
Proof.
  revert t. induction order as [|[addr c0] order IH]; intros t; [by eauto 10|].
  cbn [stopLoop]. destruct (IH (with_conns (delete addr (conns t)) (on_wire c0 close_conn t))) as (Hc & Hw & Hs & Hl).
  split_and!; [exact Hc| |exact Hs|exact Hl]. intros c w Hcw. destruct (Hw c w Hcw) as (w0 & Hw0 & ->).
  cbn in Hw0. cbn [fmap list_fmap snd]. destruct (decide (c = c0)) as [->|Hne].
  - rewrite list_lookup_alter_eq in Hw0. apply fmap_Some in Hw0 as (w1 & Hw1 & ->). exists w1. split; [done|].
    rewrite (decide_True (P := c0 ∈ c0 :: _)) by (by left). by case_decide.
  - rewrite list_lookup_alter_ne in Hw0 by done. exists w0. split; [done|].
    repeat case_decide; set_solver.
Qed.

Lemma delete_all (m : gmap string nat) (order : list (string * nat)) :
  foldl (fun m x => delete x.1 m) m order = filter (fun kv => kv.1 ∉ order.*1) m.
Proof.
  revert m. induction order as [|[a c] order IH]; intros m.
  { cbn. symmetry. apply map_filter_id. intros. apply not_elem_of_nil. }
  cbn [foldl]. rewrite IH. apply map_eq. intros k. apply option_eq. intros x.
  rewrite !map_lookup_filter_Some, lookup_delete_Some. cbn. set_solver.
Qed.

(** What Stop releases: the listener, and every connection of the pool, which is
    empty then; the calls that follow have to dial. A second Stop panics. *)
Theorem stop_releases order t t' :
  order ≡ₚ map_to_list (conns t) -> Stop order t = Some t' ->
  conns t' = ∅ /\ listener t' ≠ Some true /\ Stop order t' = None
  /\ forall addr c w, conns t !! addr = Some c -> wires t' !! c = Some w -> isOpen w = false.
Proof.
  intros Ho Hs. unfold Stop in Hs. destruct (stopped t) eqn:Est; [done|]. injection Hs as <-.
  set (t0 := MkTCPTransport _ _ _ _ _ _). destruct (stopLoop_spec order t0) as (Hc & Hw & Hst & Hl).
  split_and!.
  - rewrite Hc, delete_all. apply map_empty. intros a. apply map_lookup_filter_None_2. right. intros c Hac Hn. apply Hn.
    apply list_elem_of_fmap. exists (a, c). split; [done|]. rewrite Ho. by apply elem_of_map_to_list.
  - rewrite Hl. cbn. by destruct (listener t).
  - unfold Stop. by rewrite Hst.
  - intros addr c w Hac Hcw. destruct (Hw c w Hcw) as (w0 & _ & ->). rewrite decide_True; [done|].
    apply list_elem_of_fmap. exists (addr, c). split; [done|]. rewrite Ho. by apply elem_of_map_to_list.
Qed.

(** Once [done] is closed the next failed Accept ends the loop, and until then
    every connection that arrives is served. *)
Theorem accept_loop_ends {A} (before after : list (Accept A)) (late : list A) :
  Forall (fun r => r ≠ AcceptError true) before ->
  acceptLoop (before ++ (Accepted <$> late) ++ AcceptError true :: after)
  = (omap (fun r => match r with Accepted c => Some c | _ => None end) before ++ late, true).
Proof.
  intros Hb. induction Hb as [|r before Hr Hb IH]; cbn.
  - induction late as [|c late IH]; cbn; [done|]. by rewrite IH.
  - destruct r as [c|[]]; [|done|exact IH]. by rewrite IH.
Qed.

(** Iterations of [handleConn] at one end of a connection answer the requests of
    the other in order: the loop over the connection. *)
Theorem serve_in_order c t w reqs random clk h resps h' :
  wires t !! c = Some w -> requests w = reqs -> remotes t !! peer w = Some h ->
  serveConn ((fun r => (Some r, true)) <$> reqs) random clk h = Some (resps, h') ->
  exists t', Nat.iter (length reqs) (fun o => o ≫= handleConn c random clk) (Some t) = Some t'
    /\ wires t' !! c = Some (set_responses (responses w ++ resps) (set_requests [] w))
    /\ remotes t' !! peer w = Some h'.
Proof.
  revert t w h resps h'. induction reqs as [|r reqs IH]; intros t w h resps h' Hw Hq Hh Hs.
  { injection Hs as <- <-. exists t. split_and!; [done| |done]. rewrite Hw. destruct w. cbn in *. subst.
    by rewrite app_nil_r. }
  cbn [fmap list_fmap serveConn] in Hs. destruct (processRequest r random clk h) as [[resp h1]|] eqn:Ep; [|done].
  destruct (serveConn _ random clk h1) as [[resps1 h2]|] eqn:Es; [|done]. injection Hs as <- <-.
  set (w1 := set_responses (responses w ++ [resp]) (set_requests reqs w)).
  assert (handleConn c random clk t = Some (on_wire c (fun w => set_responses (responses w ++ [resp]) (set_requests reqs w))
    (with_remotes (<[peer w := h1]> (remotes t)) t))) as Hh1.
  { unfold handleConn. by rewrite Hw, Hq, Hh, Ep. }
  destruct (IH (on_wire c (fun w => set_responses (responses w ++ [resp]) (set_requests reqs w))
    (with_remotes (<[peer w := h1]> (remotes t)) t)) w1 h1 resps1 h2) as (t' & Ht' & Hw' & Hr').
  - cbn. by rewrite list_lookup_alter_eq, Hw.
  - done.
  - cbn. by rewrite lookup_insert_eq.
  - done.
  - exists t'. cbn [length]. rewrite Nat.iter_succ_r. cbn [mbind option_bind]. rewrite Hh1. split_and!; [exact Ht'| |exact Hr'].
    rewrite Hw'. cbn. by rewrite <- app_assoc.
Qed.
End PoolProofs.

(** ** Witnesses *)

#[local] Existing Instance tagged_msgpack.

(** Node b has a connection to node a in its pool. *)
Definition w_pool : TCPTransport (Cache MemoryStore) :=
  MkTCPTransport {["10.0.0.1:7947" := 0%nat]} None (5 * Second) false
    [MkConn "10.0.0.1:7947" [] [] true] (hosts w_net).

Lemma w_pool_idle : IdlePool w_pool.
Proof.
  intros addr c Hc. cbn in Hc. apply lookup_singleton_Some in Hc as [<- <-].
  split; [by eexists|]. eexists. vm_compute. reflexivity.
Qed.

Lemma pooled_call_refines_witness :
  (call_steps "10.0.0.1:7947" (getRequest "k") (entropy w_net "10.0.0.1:7947") w_clock w_pool).1
  = (call "10.0.0.1:7947" (getRequest "k") w_clock w_net).1.
Proof.
  pose proof (pooled_call_refines "10.0.0.1:7947" (getRequest "k") w_clock w_pool w_net
    w_pool_idle eq_refl eq_refl) as Hp.
  destruct (call_steps _ _ _ _ _), (call _ _ _ _). apply Hp.
Defined.

(** A request of an unknown kind and a Get of a missing key. *)
Definition w_unknown : request := MkRequest 99 "" [] [] 0 [] 0 "".
Definition w_error : response := MkResponse [] ∅ false false 0 "" 0 false "unknown operation".

Lemma overlapping_calls_swap_witness :
  exists t', rtc call_step
    (MkCalls w_pool {[0%nat := Starts "10.0.0.1:7947" w_unknown; 1%nat := Starts "10.0.0.1:7947" (getRequest "k")]})
    (MkCalls t' {[0%nat := Returns (Ok emptyResponse); 1%nat := Returns (answer "10.0.0.1:7947" w_error)]}).
Proof.
  destruct (processRequest (getRequest "k") [] w_clock (w_cache (Some w_ta))) as [[r h2]|] eqn:E;
    [|vm_compute in E; discriminate E].
  assert (fst <$> processRequest (getRequest "k") [] w_clock (w_cache (Some w_ta)) = Some emptyResponse)
    as Hr by (vm_compute; reflexivity).
  rewrite E in Hr. injection Hr as ->.
  apply (overlapping_calls_swap "10.0.0.1:7947" w_pool (w_cache (Some w_ta)) 0%nat w_error emptyResponse
    (w_cache (Some w_ta)) h2 w_unknown (getRequest "k") [] w_clock).
  - reflexivity.
  - reflexivity.
  - vm_compute. reflexivity.
  - reflexivity.
  - exact E.
Defined.
