(* ===== verification/Replication.v ===== *)
(** The replicated mode (distributed.go): the goroutines that carry a write to the
    other nodes, what every node reads once they have run, and what happens when
    they run in another order than they were started. *)
From stdpp Require Import sorting.
From S2P Require Import Prelude GoLib Serializer Config Shard Store ShardTheorems MemoryStore Tags LockEngine HashRing RingProofs Cluster Transport Broker Cache CacheProofs CacheTheorems.

#[local] Open Scope cache_scope.

(** A request on its way to a node. *)
Abbreviation Message := (string * request)%type.

(** The goroutines that were started, in the order of the log. *)
Definition started (es : list Effect) : list Message :=
  omap (fun e => match e with GoRemote addr req => Some (addr, req) | _ => None end) es.

Lemma started_sends req addrs :
  started ((fun addr => GoRemote addr req) <$> addrs) = (fun addr => (addr, req)) <$> addrs.
Proof. induction addrs as [|addr addrs IH]; [done|]. cbn. by f_equal. Qed.

Section Replication.
Context {S V T : Type} `{Store S V T}.
Implicit Types (n : Network (Cache S)) (w : World (S := S)).

(** One of them runs: [go c.transport.RemoteSet(...)] drops the result. *)
Definition deliver (m : Message) (clk : Clock) w : World (S := S) :=
  MkWorld (call m.1 m.2 clk (net w)).2 (log w).

(** They run one after the other, each at its own time. *)
Definition deliverAll (ms : list (Message * Clock)) w : World (S := S) :=
  foldl (fun w '(m, clk) => deliver m clk w) w ms.

(** ** Deliveries touch one node *)

Lemma call_elsewhere addr req clk n b : b ≠ addr -> hosts (call addr req clk n).2 !! b = hosts n !! b.
Proof.
  intros Hb. unfold call. destruct (link n addr); [done|]. destruct (hosts n !! addr); [|done].
  destruct (processRequest _ _ _ _) as [[resp h']|]; [|done].
  destruct (negb _); cbn [snd hosts put_host]; by rewrite lookup_insert_ne.
Qed.

Lemma call_link addr req clk n : link (call addr req clk n).2 = link n.
Proof.
  unfold call. destruct (link n addr); [done|]. destruct (hosts n !! addr); [|done].
  destruct (processRequest _ _ _ _) as [[resp h']|]; [|done]. by destruct (negb _).
Qed.

Lemma deliverAll_elsewhere ms w b : b ∉ (fst ∘ fst <$> ms) ->
  hosts (net (deliverAll ms w)) !! b = hosts (net w) !! b.
Proof.
  revert w. induction ms as [|[m clk] ms IH]; intros w Hb; [done|].
  cbn in Hb. apply not_elem_of_cons in Hb as [Hb1 Hb2].
  cbn [deliverAll foldl]. fold (deliverAll ms (deliver m clk w)). rewrite IH by done.
  by apply call_elsewhere.
Qed.

Lemma deliverAll_link ms w : link (net (deliverAll ms w)) = link (net w).
Proof.
  revert w. induction ms as [|[m clk] ms IH]; intros w; [done|].
  cbn [deliverAll foldl]. fold (deliverAll ms (deliver m clk w)). rewrite IH. apply call_link.
Qed.

Lemma deliverAll_app ms ms' w : deliverAll (ms ++ ms') w = deliverAll ms' (deliverAll ms w).
Proof. apply foldl_app. Qed.
End Replication.

(** [b] is the RPC address of a node that the table has as alive, and that is not
    the node itself. *)
Definition livePeer (st : ClusterState) (b : string) : Prop :=
  exists name info, nodes st !! name = Some info /\ Status info = NodeAlive /\ Name info ≠ SelfName st /\ RPCAddr info = b.

(** The live nodes of the table have addresses of their own. *)
Definition distinctAddrs (st : ClusterState) : Prop :=
  forall n1 n2 i1 i2, nodes st !! n1 = Some i1 -> nodes st !! n2 = Some i2 -> RPCAddr i1 = RPCAddr i2 -> n1 = n2.

Section Laws.
Context {S V T : Type} `{StoreLaws S V T}.
Implicit Types (n : Network (Cache S)) (w : World (S := S)).

Lemma deliver_set b cb w key data ttl clk :
  link (net w) b = None -> hosts (net w) !! b = Some cb -> store_ok (store cb) -> ClockOk clk ->
  admits (store cb) key data ttl clk ->
  exists c', deliver (b, setRequest key data ttl []) clk w = MkWorld (put_host b c' (net w)) (log w)
    /\ SetAt cb c' key data ttl clk.
Proof.
  intros Hl Hb Hok Hclk Ha. destruct (remoteSet_spec b cb (net w) key data ttl clk Hl Hb Hok Hclk Ha)
    as (c' & Hs & Hat). exists c'. split; [|done]. unfold deliver. cbn [fst snd]. f_equal.
  unfold RemoteSet, on_response in Hs. destruct (call b _ clk (net w)) as [[resp|err] n']; [by injection Hs as ->|done].
Qed.

(** ** Replicated mode *)

(** A node of a replicated cluster that is up. *)
Record Replica n (b : string) (c : Cache S) : Prop := {
  rp_host : hosts n !! b = Some c;
  rp_open : closed c = false;
  rp_mode : cMode (config c) = Replicated;
}.

Lemma replica_set order w a ca key value data ttl clk :
  Replica (net w) a ca -> store_ok (store ca) -> ClockOk clk -> key ≠ "" -> ttl ≠ 0 ->
  Serialize value = Ok data -> admits (store ca) key data ttl clk ->
  exists c', Cache_Set order a key value ttl clk w
      = Some (Ok tt, MkWorld (put_host a c' (net w))
          (log w ++ ((fun addr => GoRemote addr (setRequest key data ttl [])) <$> peers order ca)
           ++ [Publish EventSet key data; FireSet key data]))
    /\ SetAt ca c' key data ttl clk.
Proof.
  intros [Ha Hop Hmode] Hok Hclk Hk Ht Hser Had.
  destruct (storeSet_spec a ca w key data ttl clk Ha Hok Hclk Had) as (c' & Hs & Hat).
  exists c'. split; [|done]. unfold Cache_Set, bind at 1, this. rewrite Ha, Hop.
  rewrite (proj2 (String.eqb_neq key "") Hk), Hser, (proj2 (Z.eqb_neq ttl 0) Ht).
  unfold distributedSet, bind, this, emit, ret. rewrite Ha, Hmode, Hs, emitAll_eq.
  cbn [net log]. by rewrite <- !app_assoc.
Qed.

Lemma replica_get w b cb key dest clk :
  Replica (net w) b cb -> store_ok (store cb) -> ClockOk clk -> key ≠ "" ->
  exists w', Cache_Get b key dest clk w
    = Some (match live_at (clk 0%nat) (view (store cb) key) with
            | Some (data, _) => match Deserialize data dest with Ok v => Some v | Err _ => None end
            | None => None
            end, w').
Proof.
  intros [Hb Hop Hmode] Hok Hclk Hk. destruct (localGet_spec b cb w key clk Hb Hok Hclk) as (c' & Hg & _).
  assert (distributedGet b key clk w = withStore b (Store_Get key clk) w) as Hd.
  { unfold distributedGet, bind at 1, this. by rewrite Hb, Hmode. }
  unfold Cache_Get, bind at 1, this. rewrite Hb, Hop, (proj2 (String.eqb_neq key "") Hk).
  cbn [orb]. unfold bind, emit, ret. rewrite Hd, Hg.
  destruct (live_at _ _) as [[data x]|]; cbn [fst fmap option_fmap option_map]; [|eauto].
  destruct (Deserialize data dest); eauto.
Qed.

Lemma replica_same n b c n' c' : Replica n b c -> same_node c c' -> hosts n' !! b = Some c' -> Replica n' b c'.
Proof. intros [Hb Hop Hmode] (Hcfg & Hcl & _) Hb'. split; congruence. Qed.

(** A write of [data] that every store takes and keeps. *)
Definition Fits (key : string) (data : bytes) (ttl : Duration) (clk : Clock) : Prop :=
  forall s, store_ok s -> admits s key data ttl clk /\ retains s key data.

Lemma replica_reads w b cb key dest data ttl clk0 v clk :
  Replica (net w) b cb -> store_ok (store cb) -> view (store cb) key = Some (data, expiryOf ttl (clk0 0%nat)) ->
  Deserialize data dest = Ok v -> ClockOk clk -> key ≠ "" -> (0 < ttl -> clk 0%nat <= clk0 0%nat + ttl) ->
  exists w', Cache_Get b key dest clk w = Some (Some v, w').
Proof.
  intros Hb Hok Hv Hd Hclk Hk Hlive. destruct (replica_get w b cb key dest clk Hb Hok Hclk Hk) as (w' & Hg).
  exists w'. by rewrite Hg, Hv, live_at_expiryOf, Hd.
Qed.

(** The one message for a node puts the value there; the others pass it by. *)
Lemma replica_delivered w b cb key data ttl ms :
  Replica (net w) b cb -> link (net w) b = None -> store_ok (store cb) ->
  NoDup (fst ∘ fst <$> ms) -> (b, setRequest key data ttl []) ∈ ms.*1 ->
  Forall (fun clk => ClockOk clk /\ Fits key data ttl clk) ms.*2 ->
  exists cb' clk, clk ∈ ms.*2 /\ Replica (net (deliverAll ms w)) b cb' /\ store_ok (store cb')
    /\ view (store cb') key = Some (data, expiryOf ttl (clk 0%nat)).
Proof.
  intros Hb Hl Hok Hnd Hin Hclks. apply list_elem_of_fmap in Hin as ([m clk] & Hm & Hin). cbn in Hm. subst m.
  apply list_elem_of_split in Hin as (l1 & l2 & ->).
  rewrite fmap_app, fmap_cons in Hnd. apply NoDup_app in Hnd as (_ & Hd & Hnd). apply NoDup_cons in Hnd as [Hd2 _].
  cbn in Hd, Hd2. rewrite fmap_app, Forall_app, fmap_cons, Forall_cons in Hclks. destruct Hclks as (_ & (Hclk & Hfit) & _).
  cbn [snd] in Hclk, Hfit. destruct (Hfit (store cb) Hok) as [Had Hret].
  assert (hosts (net (deliverAll l1 w)) !! b = Some cb) as Hb1.
  { rewrite deliverAll_elsewhere; [apply Hb|]. intros Hx. apply (Hd b Hx). by left. }
  destruct (deliver_set b cb (deliverAll l1 w) key data ttl clk) as (c' & Hdel & Hat); try done.
  { by rewrite deliverAll_link. }
  exists c', clk. split; [rewrite fmap_app, fmap_cons; set_solver|]. split_and!; [|by apply Hat|by apply Hat].
  eapply replica_same; [exact Hb|by apply Hat|].
  rewrite deliverAll_app. cbn [deliverAll foldl]. fold (deliverAll l2).
  change (foldl _ ?x l2) with (deliverAll l2 x).
  rewrite deliverAll_elsewhere by done. rewrite Hdel. cbn [net]. by rewrite put_host_lookup, decide_True.
Qed.

Lemma peers_live order (c : Cache S) st r : cluster c = Some (st, r) -> order st ≡ₚ map_to_list (nodes st) ->
  forall b, b ∈ peers order c <-> livePeer st b.
Proof.
  intros Hc Ho b. unfold peers, otherNodes, LiveNodes, livePeer. rewrite Hc, list_elem_of_fmap. split.
  - intros (info & -> & [Hs [Hal Hin]%list_elem_of_filter]%list_elem_of_filter). rewrite Ho in Hin.
    apply list_elem_of_fmap in Hin as ([name i] & -> & Hin%elem_of_map_to_list). eauto 6.
  - intros (name & info & Hn & Hal & Hs & <-). exists info. split; [done|]. apply list_elem_of_filter. split; [done|].
    apply list_elem_of_filter. split; [done|]. rewrite Ho. apply list_elem_of_fmap. exists (name, info).
    split; [done|by apply elem_of_map_to_list].
Qed.

Lemma peers_NoDup order (c : Cache S) st r : cluster c = Some (st, r) -> order st ≡ₚ map_to_list (nodes st) -> distinctAddrs st ->
  NoDup (peers order c).
Proof.
  intros Hc Ho Hd. unfold peers, otherNodes, LiveNodes. rewrite Hc, Ho, !filter_fmap, <- list_fmap_compose.
  apply NoDup_fmap_2_strong; [|by do 2 apply NoDup_filter; apply NoDup_map_to_list].
  intros [n1 i1] [n2 i2] E1 E2. apply list_elem_of_filter in E1 as [_ [_ E1]%list_elem_of_filter].
  apply list_elem_of_filter in E2 as [_ [_ E2]%list_elem_of_filter]. apply elem_of_map_to_list in E1, E2. cbn. intros He.
  assert (n1 = n2) as -> by (by eapply Hd). congruence.
Qed.

(** Once the messages have run, the first node and the peers have the value. *)
Lemma replicas_read w1 a ca' peers key data ttl dest v clk ms clk' :
  Replica (net w1) a ca' -> store_ok (store ca') -> view (store ca') key = Some (data, expiryOf ttl (clk 0%nat)) ->
  a ∉ peers -> NoDup peers ->
  (forall b, b ∈ peers -> link (net w1) b = None /\ exists cb, Replica (net w1) b cb /\ store_ok (store cb)) ->
  key ≠ "" -> Deserialize data dest = Ok v -> ms.*1 ≡ₚ (fun addr => (addr, setRequest key data ttl [])) <$> peers ->
  ClockOk clk' -> (0 < ttl -> clk' 0%nat <= clk 0%nat + ttl) ->
  Forall (fun clk => ClockOk clk /\ Fits key data ttl clk /\ (0 < ttl -> clk' 0%nat <= clk 0%nat + ttl)) ms.*2 ->
  forall b, b ∈ a :: peers -> exists w', Cache_Get b key dest clk' (deliverAll ms w1) = Some (Some v, w').
Proof.
  intros Ha Hoka Hv Hni Hnd Hpeers Hk Hdes Hms Hclk' Hlive Hclks.
  assert ((fst ∘ fst <$> ms) ≡ₚ peers) as Hp.
  { rewrite list_fmap_compose, Hms, <- list_fmap_compose. cbn. by rewrite list_fmap_id. }
  intros b [-> | Hb]%elem_of_cons.
  - eapply (replica_reads _ a ca'); try done. split; [|apply Ha..]. rewrite deliverAll_elsewhere by (by rewrite Hp). apply Ha.
  - destruct (Hpeers b Hb) as (Hl & cb & Hrb & Hokb).
    destruct (replica_delivered w1 b cb key data ttl ms) as (cb' & clk0 & Hin & Hrb' & Hok' & Hv'); try done.
    + by rewrite Hp.
    + rewrite Hms. apply list_elem_of_fmap. eauto.
    + eapply Forall_impl; [exact Hclks|]. naive_solver.
    + rewrite Forall_forall in Hclks. destruct (Hclks clk0 Hin) as (_ & _ & Hlive0).
      by eapply (replica_reads _ b cb').
Qed.

(** C7: a replicated write reaches everybody. In replicated mode a Set at one node
    returns at once, having started one goroutine for every other node that its
    table has as alive, and no more; when these have run, in whatever order and
    at whatever times, every one of these nodes and the first answer a Get,
    before the entry expires there, with the value that was set. The other live
    nodes are up, reachable, in replicated mode too and at addresses of their
    own. *)
Theorem replicated_set_reaches_all order w a ca st r key value data ttl dest v clk :
  Replica (net w) a ca -> cluster ca = Some (st, r) -> order st ≡ₚ map_to_list (nodes st) ->
  distinctAddrs st -> ~ livePeer st a ->
  (forall b, livePeer st b -> link (net w) b = None /\ exists cb, Replica (net w) b cb) ->
  (forall b cb, hosts (net w) !! b = Some cb -> store_ok (store cb)) ->
  key ≠ "" -> ttl ≠ 0 -> Serialize value = Ok data -> Deserialize data dest = Ok v ->
  ClockOk clk -> Fits key data ttl clk ->
  exists w1 sent, Cache_Set order a key value ttl clk w = Some (Ok tt, w1)
    /\ started (log w1) = started (log w) ++ sent
    /\ NoDup sent /\ (forall m, m ∈ sent <-> exists b, livePeer st b /\ m = (b, setRequest key data ttl []))
    /\ forall ms clk', ms.*1 ≡ₚ sent -> ClockOk clk' -> (0 < ttl -> clk' 0%nat <= clk 0%nat + ttl) ->
         Forall (fun clk => ClockOk clk /\ Fits key data ttl clk /\ (0 < ttl -> clk' 0%nat <= clk 0%nat + ttl)) ms.*2 ->
         forall b, b = a \/ livePeer st b -> exists w', Cache_Get b key dest clk' (deliverAll ms w1) = Some (Some v, w').
Proof.
  intros Ha Hcl Ho Hd Hna Hup Hok Hk Ht Hser Hdes Hclk Hfit.
  pose proof (peers_live order ca st r Hcl Ho) as Hlive. pose proof (peers_NoDup order ca st r Hcl Ho Hd) as Hnd.
  pose proof (Hok a ca (rp_host _ _ _ Ha)) as Hoka. destruct (Hfit (store ca) Hoka) as [Had Hret].
  destruct (replica_set order w a ca key value data ttl clk Ha Hoka Hclk Hk Ht Hser Had) as (c' & Hset & Hat).
  set (w1 := MkWorld _ _) in Hset. exists w1, ((fun addr => (addr, setRequest key data ttl [])) <$> peers order ca).
  split; [exact Hset|]. split_and!.
  - unfold w1, started. cbn [log]. rewrite !omap_app. cbn [omap]. rewrite app_nil_r. f_equal. apply started_sends.
  - apply NoDup_fmap_2; [|done]. by intros b1 b2 [= ->].
  - intros m. rewrite list_elem_of_fmap. setoid_rewrite Hlive. naive_solver.
  - intros ms clk' Hms Hclk' Hbefore Hclks b Hb. eapply (replicas_read w1 a c' (peers order ca)); try done.
    + eapply replica_same; [exact Ha|by apply Hat|]. unfold w1. cbn [net]. by rewrite put_host_lookup, decide_True.
    + by apply Hat.
    + by apply Hat.
    + by rewrite Hlive.
    + intros b' Hb'%Hlive. destruct (Hup b' Hb') as (Hl & cb & Hcb). split; [exact Hl|]. exists cb.
      split; [|eapply Hok, Hcb]. split; [|apply Hcb..]. unfold w1. cbn [net].
      rewrite put_host_lookup, decide_False by (by intros ->). apply Hcb.
    + rewrite elem_of_cons, Hlive. exact Hb.
Qed.

(** Replicas can disagree for good. Two Sets of a key at one node, one after the
    other, start goroutines that race: when those for some other node run in the
    opposite order, the node that was asked has the second value and the other
    node the first, and no message is left that would change this. *)
Theorem replicas_diverge order w a ca b cb key x1 d1 v1 x2 d2 v2 ttl dest clk1 clk2 dclk1 dclk2 clk' :
  Replica (net w) a ca -> Replica (net w) b cb -> store_ok (store ca) -> store_ok (store cb) ->
  peers order ca = [b] -> a ≠ b -> link (net w) b = None ->
  key ≠ "" -> ttl ≠ 0 -> Serialize x1 = Ok d1 -> Serialize x2 = Ok d2 ->
  Deserialize d1 dest = Ok v1 -> Deserialize d2 dest = Ok v2 ->
  Forall (fun '(d, clk) => ClockOk clk /\ Fits key d ttl clk /\ (0 < ttl -> clk' 0%nat <= clk 0%nat + ttl))
    [(d1, clk1); (d2, clk2); (d1, dclk1); (d2, dclk2)] -> ClockOk clk' ->
  exists w1 w2, Cache_Set order a key x1 ttl clk1 w = Some (Ok tt, w1)
    /\ Cache_Set order a key x2 ttl clk2 w1 = Some (Ok tt, w2)
    /\ let m1 := (b, setRequest key d1 ttl []) in let m2 := (b, setRequest key d2 ttl []) in
       started (log w2) = started (log w) ++ [m1; m2]
       /\ let w3 := deliverAll [(m2, dclk2); (m1, dclk1)] w2 in
          (exists w', Cache_Get a key dest clk' w3 = Some (Some v2, w'))
          /\ exists w', Cache_Get b key dest clk' w3 = Some (Some v1, w').
Proof.
  intros Ha Hb Hoka Hokb Hp Hab Hl Hk Ht Hs1 Hs2 Hd1 Hd2 Hc Hclk'.
  rewrite !Forall_cons in Hc. destruct Hc as ((C1 & F1 & L1) & (C2 & F2 & L2) & (C3 & F3 & L3) & (C4 & F4 & L4) & _).
  destruct (replica_set order w a ca key x1 d1 ttl clk1) as (c1 & Hset1 & A1); try done; [by apply F1|].
  set (w1 := MkWorld _ _) in Hset1. exists w1.
  assert (Replica (net w1) a c1) as Ha1.
  { eapply replica_same; [exact Ha|by apply A1|]. unfold w1. cbn [net]. by rewrite put_host_lookup, decide_True. }
  assert (peers order c1 = [b]) as Hp1.
  { rewrite <- Hp. destruct (set_same _ _ _ _ _ _ A1) as (_ & _ & Hcl). unfold peers. by rewrite Hcl. }
  destruct (replica_set order w1 a c1 key x2 d2 ttl clk2) as (c2 & Hset2 & A2); try done; [by apply A1|apply F2; by apply A1|].
  set (w2 := MkWorld _ _) in Hset2. exists w2. split; [exact Hset1|]. split; [exact Hset2|]. split.
  { unfold w2, w1, started. cbn [log]. rewrite Hp, Hp1, !omap_app. cbn. by rewrite <- !app_assoc. }
  assert (Replica (net w2) b cb) as Hb2.
  { split; [|apply Hb..]. unfold w2, w1. cbn [net]. rewrite !put_host_lookup, !decide_False by done. apply Hb. }
  assert (deliverAll [((b, setRequest key d2 ttl []), dclk2); ((b, setRequest key d1 ttl []), dclk1)] w2
    = deliver (b, setRequest key d1 ttl []) dclk1 (deliver (b, setRequest key d2 ttl []) dclk2 w2)) as -> by done.
  destruct (deliver_set b cb w2 key d2 ttl dclk2) as (e1 & -> & B1); try done; [by apply Hb2|by apply F4|].
  set (w3 := MkWorld _ _).
  destruct (deliver_set b e1 w3 key d1 ttl dclk1) as (e2 & -> & B2); try done.
  { unfold w3. cbn [net]. by rewrite put_host_lookup, decide_True. }
  { by apply B1. }
  { apply F3, B1. }
  split.
  - eapply (replica_reads _ a c2 key dest d2 ttl clk2 v2 clk'); try done; [|by apply A2|apply A2, F2, A1].
    eapply replica_same; [exact Ha1|by apply A2|]. unfold w3, w2. cbn [net].
    by rewrite !put_host_lookup, !decide_False, decide_True by done.
  - eapply (replica_reads _ b e2 key dest d1 ttl dclk1 v1 clk'); try done; [|by apply B2|apply B2, F3, B1].
    eapply (replica_same (net w3) b e1); [|by apply B2|cbn [net]; by rewrite put_host_lookup, decide_True].
    eapply (replica_same _ b cb); [exact Hb2|by apply B1|]. unfold w3. cbn [net]. by rewrite put_host_lookup, decide_True.
Qed.
End Laws.

(** ** Witnesses: two replicas over memory stores *)

#[local] Existing Instance tagged_msgpack.
#[local] Existing Instance w_laws.

Definition w_config (mode : Mode) : Config :=
  MkConfig 4 0 0 Second Memory "" "" [] mode "" 7947 6380 3.
Definition w_mode (mode : Mode) (t : option Topology) : Cache MemoryStore :=
  MkCache (NewMemoryStore 4 1000) (w_config mode) false t Lock.NewEngine newTagIndex [].
Definition w_pair (mode : Mode) : World (S := MemoryStore) :=
  MkWorld (MkNetwork
    {["10.0.0.1:7947" := w_mode mode (Some w_ta); "10.0.0.2:7947" := w_mode mode (Some w_tb)]}
    (fun _ => None) (fun _ => replicate 16 Byte.x07)) [].
Definition w_order (st : ClusterState) : list (string * NodeInfo) := map_to_list (nodes st).

Lemma w_fits data ttl clk : lenb data <= 100 -> Fits (S := MemoryStore) "k" data ttl clk.
Proof.
  intros Hl s _. cbn. unfold op_small, op_weight. cbn [len String.length].
  change (len "k") with 1. split; lia.
Qed.

Lemma w_pair_hosts mode b c : hosts (net (w_pair mode)) !! b = Some c -> store c = w_store.
Proof.
  unfold w_pair. cbn [hosts net]. intros [[<- <-]|[_ Hb]]%lookup_insert_Some; [done|].
  by apply lookup_singleton_Some in Hb as [<- <-].
Qed.

Lemma w_peers mode : peers w_order (w_mode mode (Some w_ta)) = ["10.0.0.2:7947"].
Proof. vm_compute. reflexivity. Qed.

Lemma w_livePeer b : livePeer w_ta.1 b <-> b = "10.0.0.2:7947".
Proof.
  rewrite <- (peers_live w_order (w_mode Replicated (Some w_ta)) w_ta.1 w_ta.2 eq_refl (reflexivity _)), w_peers.
  apply list_elem_of_singleton.
Qed.

Lemma w_addrs : distinctAddrs w_ta.1.
Proof.
  intros n1 n2 i1 i2 H1 H2 He. apply elem_of_map_to_list, list_elem_of_In in H1, H2.
  vm_compute in H1, H2. destruct H1 as [[= <- <-]|[[= <- <-]|[]]], H2 as [[= <- <-]|[[= <- <-]|[]]]; done.
Qed.

Lemma replicated_set_reaches_all_witness :
  let m := ("10.0.0.2:7947", setRequest "k" [Byte.x01] Second []) in
  exists w1 w', Cache_Set w_order "10.0.0.1:7947" "k" (GBytes [Byte.x01]) Second w_clock (w_pair Replicated) = Some (Ok tt, w1)
    /\ Cache_Get "10.0.0.2:7947" "k" DBytes w_clock (deliverAll [(m, w_clock)] w1) = Some (Some (GBytes [Byte.x01]), w').
Proof.
  intros m.
  destruct (replicated_set_reaches_all w_order (w_pair Replicated) "10.0.0.1:7947" (w_mode Replicated (Some w_ta)) w_ta.1 w_ta.2
    "k" (GBytes [Byte.x01]) [Byte.x01] Second DBytes (GBytes [Byte.x01]) w_clock)
    as (w1 & sent & Hs & _ & Hnd & Hsent & Hg); try reflexivity; try discriminate.
  - by split.
  - exact w_addrs.
  - by rewrite w_livePeer.
  - intros b ->%w_livePeer. split; [reflexivity|]. eexists. by split.
  - intros b cb ->%w_pair_hosts. exact w_store_ok.
  - exact w_clock_ok.
  - by apply w_fits.
  - destruct (Hg [(m, w_clock)] w_clock) with (b := "10.0.0.2:7947") as [w' Hw'].
    + apply NoDup_Permutation; [apply NoDup_singleton|exact Hnd|]. intros x. cbn [fmap list_fmap fst]. rewrite list_elem_of_singleton, Hsent.
      split; [intros ->; exists "10.0.0.2:7947"; by rewrite w_livePeer|]. by intros (b & ->%w_livePeer & ->).
    + exact w_clock_ok.
    + done.
    + repeat constructor; try exact w_clock_ok; try (by apply w_fits); done.
    + right. by apply w_livePeer.
    + exists w1, w'. done.
Defined.

Lemma replicas_diverge_witness :
  let m1 := ("10.0.0.2:7947", setRequest "k" [Byte.x01] Second []) in
  let m2 := ("10.0.0.2:7947", setRequest "k" [Byte.x02] Second []) in
  exists w2 wa wb,
    Cache_Get "10.0.0.1:7947" "k" DBytes w_clock (deliverAll [(m2, w_clock); (m1, w_clock)] w2) = Some (Some (GBytes [Byte.x02]), wa)
    /\ Cache_Get "10.0.0.2:7947" "k" DBytes w_clock (deliverAll [(m2, w_clock); (m1, w_clock)] w2) = Some (Some (GBytes [Byte.x01]), wb).
Proof.
  intros m1 m2.
  destruct (replicas_diverge w_order (w_pair Replicated) "10.0.0.1:7947" (w_mode Replicated (Some w_ta))
    "10.0.0.2:7947" (w_mode Replicated (Some w_tb)) "k" (GBytes [Byte.x01]) [Byte.x01] (GBytes [Byte.x01])
    (GBytes [Byte.x02]) [Byte.x02] (GBytes [Byte.x02]) Second DBytes w_clock w_clock w_clock w_clock w_clock)
    as (w1 & w2 & _ & _ & _ & [wa Ha] & [wb Hb]); try reflexivity; try discriminate.
  - by split.
  - by split.
  - exact w_store_ok.
  - exact w_store_ok.
  - repeat constructor; try exact w_clock_ok; try (by apply w_fits); done.
  - exact w_clock_ok.
  - exists w2, wa, wb. split; [exact Ha|exact Hb].
Defined.
