(* ===== verification/Modes.v ===== *)
(** The cache modes beside each other: the near cache (a node keeps copies of
    keys that another node owns), and what the modes do not carry to the other
    nodes: counters, tags, and the order of a late eviction callback. *)
From S2P Require Import Prelude GoLib Serializer Config Shard Store ShardTheorems MemoryStore Tags LockEngine HashRing RingProofs Cluster Transport Broker Cache CacheProofs CacheTheorems Replication.

#[local] Open Scope cache_scope.

Section Near.
Context {S V T : Type} `{StoreLaws S V T}.
Implicit Types (n : Network (Cache S)) (w : World (S := S)).

(** Node [me] is up, in near-cache mode, and reaches [o], another node, which
    owns [key]. *)
Record Near n (me key o : string) (c co : Cache S) : Prop := {
  nr_me : hosts n !! me = Some c;
  nr_open : closed c = false;
  nr_mode : cMode (config c) = NearCache;
  nr_addr : ownerAddr key c = o;
  nr_far : o ≠ "" /\ o ≠ me;
  nr_owner : hosts n !! o = Some co;
  nr_link : link n o = None;
}.

(** The node's own copy, if it has one that is live, is the answer. *)
Lemma near_get_copy w me c key dest data x v clk :
  hosts (net w) !! me = Some c -> closed c = false -> cMode (config c) = NearCache ->
  store_ok (store c) -> ClockOk clk -> key ≠ "" ->
  live_at (clk 0%nat) (view (store c) key) = Some (data, x) -> Deserialize data dest = Ok v ->
  exists w', Cache_Get me key dest clk w = Some (Some v, w').
Proof.
  intros Hme Hop Hmode Hok Hclk Hk Hl Hd. destruct (localGet_spec me c w key clk Hme Hok Hclk) as (c' & Hg & _).
  rewrite Hl in Hg. unfold Cache_Get, bind at 1, this. rewrite Hme, Hop, (proj2 (String.eqb_neq key "") Hk).
  cbn [orb]. unfold distributedGet, bind, this, emit, ret. rewrite Hme, Hmode, Hg.
  cbn [fst fmap option_fmap option_map]. rewrite Hd. eauto.
Qed.

(** Without one, the owner's value is the answer, and a copy of it is kept, for
    the default time to live of the node. *)
Lemma near_get_through w me key o c co dest data x v clk :
  Near (net w) me key o c co -> store_ok (store c) -> store_ok (store co) ->
  ClockOk clk -> key ≠ "" ->
  live_at (clk 0%nat) (view (store c) key) = None ->
  live_at (clk 2%nat) (view (store co) key) = Some (data, x) -> Deserialize data dest = Ok v ->
  (forall s, store_ok s -> admits s key data (DefaultTTL (config c)) (advance 4 clk) /\ retains s key data) ->
  exists w1 c1, Cache_Get me key dest clk w = Some (Some v, w1)
    /\ hosts (net w1) !! me = Some c1 /\ same_node c c1 /\ store_ok (store c1)
    /\ view (store c1) key = Some (data, expiryOf (DefaultTTL (config c)) (clk 4%nat)).
Proof.
  intros [Hme Hop Hmode Haddr [Hne Hfar] Hown Hlink] Hok Hoko Hclk Hk Hmiss Hhit Hd Hfit. pose proof (fun k => advance_ok k clk Hclk) as Hadv.
  destruct (localGet_spec me c w key clk Hme Hok Hclk) as (c1 & Hg & [Hs1 Hok1 _ _]).
  set (w1 := MkWorld _ _) in Hg.
  destruct (remoteGet_spec o co (net w1) key (advance 2 clk)) as (co' & Hr & _); try done.
  { unfold w1. cbn [net]. by rewrite put_host_lookup, decide_False. }
  change (advance 2 clk 0%nat) with (clk 2%nat) in Hr. rewrite Hhit in Hr.
  set (w2 := MkWorld (put_host o co' (net w1)) (log w1)).
  assert (hosts (net w2) !! me = Some c1) as Hme2.
  { unfold w2, w1. cbn [net]. rewrite !put_host_lookup, decide_False, decide_True by done. done. }
  destruct (Hfit _ Hok1) as [Had Hret].
  destruct (storeSet_spec me c1 w2 key data (DefaultTTL (config c)) (advance 4 clk)) as (c2 & Hset & Hat); try done.
  eexists _, c2. split; [|split_and!].
  - unfold Cache_Get, bind at 1, this. rewrite Hme, Hop, (proj2 (String.eqb_neq key "") Hk). cbn [orb].
    unfold distributedGet, rpc, bind, this, emit, ret. rewrite Hme, Hmode, Hg. fold w1. rewrite Hmiss.
    cbn [fmap option_fmap option_map]. rewrite Haddr, (proj2 (String.eqb_neq o "") Hne). cbn [negb].
    rewrite Hr. fold w2. rewrite Hset, Hd. reflexivity.
  - cbn [net]. by rewrite put_host_lookup, decide_True.
  - destruct Hs1 as (? & ? & ?), (set_same _ _ _ _ _ _ Hat) as (? & ? & ?). split_and!; congruence.
  - by apply Hat.
  - by apply Hat.
Qed.

Lemma near_set order w me key o c co value data ttl clk :
  Near (net w) me key o c co -> store_ok (store c) -> store_ok (store co) ->
  ClockOk clk -> key ≠ "" -> ttl ≠ 0 -> Serialize value = Ok data ->
  admits (store c) key data ttl clk -> admits (store co) key data ttl (advance 1 clk) ->
  exists c' co', Cache_Set order me key value ttl clk w
      = Some (Ok tt, MkWorld (put_host o co' (put_host me c' (net w)))
                (log w ++ [Publish EventSet key data; FireSet key data]))
    /\ SetAt c c' key data ttl clk /\ SetAt co co' key data ttl (advance 1 clk).
Proof.
  intros [Hme Hop Hmode Haddr [Hne Hfar] Hown Hlink] Hok Hoko Hclk Hk Ht Hser Had Hado. pose proof (fun k => advance_ok k clk Hclk) as Hadv.
  destruct (storeSet_spec me c w key data ttl clk Hme Hok Hclk Had) as (c' & Hset & Hat).
  set (w1 := MkWorld _ _) in Hset.
  destruct (remoteSet_spec o co (net w1) key data ttl (advance 1 clk)) as (co' & Hr & Hato); try done.
  { unfold w1. cbn [net]. by rewrite put_host_lookup, decide_False. }
  exists c', co'. split; [|done].
  unfold Cache_Set, bind at 1, this. rewrite Hme, (proj2 (String.eqb_neq key "") Hk), Hop, Hser, (proj2 (Z.eqb_neq ttl 0) Ht).
  unfold distributedSet, rpc, bind, this, emit, ret. rewrite Hme, Hmode, Hset. fold w1.
  rewrite Haddr, (proj2 (String.eqb_neq o "") Hne). cbn [negb]. rewrite Hr. cbn [net log].
  unfold w1. cbn [net log]. by rewrite <- app_assoc.
Qed.

(** C10: the near cache, read after write. In near-cache mode a Set at one node,
    of a key that another node owns, leaves the value at both: afterwards, before
    it expires, a Get returns it at the node that was asked, at the owner, and at
    every third node that has no copy of its own, which fetches it. *)
Theorem near_read_your_writes order w a b key o ca cb co value data ttl dest v clk clk' :
  Near (net w) a key o ca co -> Near (net w) b key o cb co -> a ≠ b ->
  closed co = false -> cMode (config co) = NearCache ->
  store_ok (store ca) -> store_ok (store cb) -> store_ok (store co) ->
  ClockOk clk -> ClockOk clk' ->
  key ≠ "" -> ttl ≠ 0 -> Serialize value = Ok data -> Deserialize data dest = Ok v ->
  Fits key data ttl clk -> Fits key data ttl (advance 1 clk) ->
  Fits key data (DefaultTTL (config cb)) (advance 4 clk') ->
  (0 < ttl -> clk' 0%nat <= clk 0%nat + ttl /\ clk' 2%nat <= clk 1%nat + ttl /\ clk' 0%nat <= clk 1%nat + ttl) ->
  view (store cb) key = None ->
  exists w1, Cache_Set order a key value ttl clk w = Some (Ok tt, w1)
    /\ forall m, m ∈ [a; o; b] -> exists w2, Cache_Get m key dest clk' w1 = Some (Some v, w2).
Proof.
  intros Ha Hb Hab Hopo Hmo Hoka Hokb Hoko Hclk Hclk' Hk Ht Hser Hdes F1 F2 F3 Hlive Hnone.
  destruct (F1 _ Hoka) as [A1 R1], (F2 _ Hoko) as [A2 R2].
  destruct (near_set order w a key o ca co value data ttl clk) as (ca' & co' & Hset & Hata & Hato); try done.
  set (w1 := MkWorld _ _) in Hset. exists w1. split; [exact Hset|].
  pose proof (nr_far _ _ _ _ _ _ Ha) as [Hne Hoa]. pose proof (nr_far _ _ _ _ _ _ Hb) as [_ Hob].
  assert (hosts (net w1) !! a = Some ca' /\ hosts (net w1) !! o = Some co' /\ hosts (net w1) !! b = Some cb) as (Ha1 & Ho1 & Hb1).
  { unfold w1. cbn [net]. rewrite !put_host_lookup.
    rewrite (decide_False (P := a = o)), !decide_True, !decide_False by done. split_and!; try done. apply Hb. }
  destruct (set_same _ _ _ _ _ _ Hata) as (Ec & El & _), (set_same _ _ _ _ _ _ Hato) as (Eco & Elo & _).
  intros m Hm. rewrite !elem_of_cons, elem_of_nil in Hm. destruct Hm as [-> | [-> | [-> | []]]].
  - eapply (near_get_copy w1 a ca'); [done|rewrite El; apply Ha|rewrite Ec; apply Ha|apply Hata|exact Hclk'|done| |done].
    rewrite (set_kept _ _ _ _ _ _ Hata R1). apply live_at_expiryOf. naive_solver.
  - eapply (near_get_copy w1 o co'); [done|by rewrite Elo|by rewrite Eco|apply Hato|exact Hclk'|done| |done].
    rewrite (set_kept _ _ _ _ _ _ Hato R2). apply live_at_expiryOf. change (advance 1 clk 0%nat) with (clk 1%nat). naive_solver.
  - destruct (near_get_through w1 b key o cb co' dest data (expiryOf ttl (clk 1%nat)) v clk') as (w2 & _ & Hg & _); try done.
    + split; [done|apply Hb..|done|apply Hb].
    + apply Hato.
    + by rewrite Hnone.
    + rewrite (set_kept _ _ _ _ _ _ Hato R2). apply live_at_expiryOf. change (advance 1 clk 0%nat) with (clk 1%nat). naive_solver.
    + eauto.
Qed.

(** A near copy outlives its original. In near-cache mode with no default time to
    live, one Get of a key that another node owns keeps a copy that never
    expires: from then on a Get at this node returns the value read then, at any
    time, whatever has become of the key at its owner, be it expired, deleted or
    set again. *)
Theorem near_copy_outlives w me key o c co dest data x v clk :
  Near (net w) me key o c co -> store_ok (store c) -> store_ok (store co) ->
  ClockOk clk -> key ≠ "" -> DefaultTTL (config c) = 0 ->
  live_at (clk 0%nat) (view (store c) key) = None ->
  live_at (clk 2%nat) (view (store co) key) = Some (data, x) -> Deserialize data dest = Ok v ->
  Fits key data 0 (advance 4 clk) ->
  exists w1, Cache_Get me key dest clk w = Some (Some v, w1)
    /\ forall w2 clk', ClockOk clk' -> hosts (net w2) !! me = hosts (net w1) !! me ->
         exists w3, Cache_Get me key dest clk' w2 = Some (Some v, w3).
Proof.
  intros Hn Hok Hoko Hclk Hk Hdef Hmiss Hhit Hd Hfit.
  destruct (near_get_through w me key o c co dest data x v clk) as (w1 & c1 & Hg & Hc1 & Hs & Hok1 & Hv); try done.
  { by rewrite Hdef. }
  exists w1. split; [exact Hg|]. intros w2 clk' Hclk' He. destruct Hs as (Hcfg & Hcl & _).
  eapply (near_get_copy w2 me c1 key dest data 0); [congruence|rewrite Hcl; apply Hn|rewrite Hcfg; apply Hn|done..| |done].
  rewrite Hv, Hdef. done.
Qed.
End Near.

Section Local.
Context {S V T : Type} `{StoreLaws S V T}.
Implicit Types (n : Network (Cache S)) (w : World (S := S)).

(** Counters are not replicated. In replicated mode Incr at a node goes to the
    owner of the key and to nobody else: the node that was asked starts no
    goroutine and keeps its store, so after a successful Incr of a new counter
    its own Get, which reads the local store only, finds nothing. *)
Theorem replicated_incr_invisible w b cb key dest delta clk clk' v w1 :
  Replica (net w) b cb -> store_ok (store cb) -> ownerAddr key cb ≠ "" -> ownerAddr key cb ≠ b ->
  view (store cb) key = None -> ClockOk clk' ->
  Cache_Incr b key delta clk w = Some (Ok v, w1) ->
  started (log w1) = started (log w)
  /\ exists w2, Cache_Get b key dest clk' w1 = Some (None, w2).
Proof.
  intros Hb Hok Hne Hfar Hnone Hclk' Hincr. pose proof Hb as [Hh Hop Hmode].
  unfold Cache_Incr, incrBy, bind, this in Hincr. rewrite Hh in Hincr.
  destruct (String.eqb_spec key "") as [->|Hk]; [done|]. rewrite Hop in Hincr.
  rewrite (proj2 (String.eqb_neq _ "") Hne) in Hincr. cbn [negb] in Hincr. unfold rpc, RemoteIncr, on_response in Hincr.
  pose proof (call_elsewhere (ownerAddr key cb) (MkRequest 6 key [] [] 0 [] delta "") clk (net w) b ltac:(done)) as He.
  destruct (call _ _ clk (net w)) as [[resp|err] n'] eqn:Ec; [|done].
  assert (w1 = MkWorld n' (log w)) as -> by (by injection Hincr). split; [done|].
  destruct (replica_get (MkWorld n' (log w)) b cb key dest clk') as (w2 & Hg); try done.
  { split; [|done..]. cbn [net]. cbn [snd] in He. congruence. }
  exists w2. by rewrite Hg, Hnone.
Qed.

(** SetWithTags of a key the node stores, or another: Set, then the index of the
    node that was asked. *)
Lemma SetWithTags_spec order w me key o c co value data ttl tgs clk :
  Serves (net w) me key o c co -> store_ok (store co) -> ClockOk clk -> key ≠ "" ->
  Serialize value = Ok data -> ttl ≠ 0 -> admits (store co) key data ttl clk -> tgs ≠ [] ->
  exists c' c1 lg, Cache_SetWithTags order me key value ttl tgs clk w
      = Some (Ok tt, MkWorld (put_host me (set_tags (tagIndex_Add key tgs (tags c1)) c1) (put_host o c' (net w))) lg)
    /\ hosts (put_host o c' (net w)) !! me = Some c1 /\ SetAt co c' key data ttl clk.
Proof.
  intros Hsv Hok Hclk Hk Hser Ht Had Htgs.
  destruct (Cache_Set_spec order w me key o c co value data ttl clk) as (c' & Hset & Hat); try done.
  destruct (serves_put (net w) me key o c co o co c' Hsv (sv_owner _ _ _ _ _ _ Hsv)) as (c1 & Hsv1 & _); [apply Hat|].
  exists c', c1. eexists. split; [|split; [apply Hsv1|done]].
  unfold Cache_SetWithTags, bind, tagsAdd, this, put, ret. rewrite Hset.
  destruct tgs as [|t tgs]; [done|]. cbn [length Nat.ltb Nat.leb].
  unfold bind. cbn [net]. rewrite (sv_me _ _ _ _ _ _ Hsv1). reflexivity.
Qed.

(** A tag nobody has at this node invalidates nothing. *)
Lemma InvalidateTag_unknown order setOrder w me c tag clk :
  hosts (net w) !! me = Some c -> tagIndex_GetKeysByTag setOrder tag (tags c) = [] ->
  Cache_InvalidateTag order me setOrder tag clk w = Some (tt, w).
Proof. intros Hme Ht. unfold Cache_InvalidateTag, bind, this. by rewrite Hme, Ht. Qed.

(** Tags stay where they were set. SetWithTags sends the value to the node that
    owns the key, but no tags: they are recorded at the node that was asked. At
    any other node that has not used the tag itself, the owner included,
    InvalidateTag removes nothing, and the key is still there. *)
Theorem tags_stay_local order setOrder w a b key o ca cb co value data ttl tgs tag dest v clk clk1 clk' :
  Serves (net w) a key o ca co -> Serves (net w) b key o cb co -> a ≠ b -> a ≠ o ->
  store_ok (store co) -> ClockOk clk -> ClockOk clk' -> key ≠ "" -> ttl ≠ 0 ->
  Serialize value = Ok data -> Deserialize data dest = Ok v -> Fits key data ttl clk ->
  (0 < ttl -> clk' 0%nat <= clk 0%nat + ttl) -> tag ∈ tgs -> tagToKeys (tags cb) !! tag = None ->
  exists w1 w2, Cache_SetWithTags order a key value ttl tgs clk w = Some (Ok tt, w1)
    /\ Cache_InvalidateTag order b setOrder tag clk1 w1 = Some (tt, w1)
    /\ Cache_Get b key dest clk' w1 = Some (Some v, w2).
Proof.
  intros Hsa Hsb Hab Hao Hok Hclk Hclk' Hk Ht Hser Hdes Hfit Hlive Htag Hno.
  destruct (Hfit _ Hok) as [Had Hret].
  destruct (SetWithTags_spec order w a key o ca co value data ttl tgs clk) as (c' & c1 & lg & Hset & Hc1 & Hat); try done.
  { intros ->. by apply elem_of_nil in Htag. }
  pose proof (sv_owner _ _ _ _ _ _ Hsb) as Ho.
  destruct (serves_put (net w) b key o cb co o co c' Hsb Ho) as (cb1 & Hsb1 & _); [apply Hat|].
  rewrite decide_True in Hsb1 by done.
  destruct (serves_put _ b key o cb1 c' a c1 (set_tags (tagIndex_Add key tgs (tags c1)) c1) Hsb1 Hc1) as (cb2 & Hsb2 & _); [done|].
  rewrite decide_False in Hsb2 by done.
  set (w1 := MkWorld _ lg) in Hset. exists w1.
  destruct (Cache_Get_spec w1 b key o cb2 c' dest clk') as (c'' & lg' & Hget & _); try done; [apply Hat|].
  rewrite (set_kept _ _ _ _ _ _ Hat Hret), live_at_expiryOf, Hdes in Hget by done.
  eexists. split; [exact Hset|]. split; [|exact Hget].
  eapply InvalidateTag_unknown; [apply Hsb2|]. unfold tagIndex_GetKeysByTag.
  enough (tags cb2 = tags cb) as Heq by (by rewrite Heq, Hno).
  pose proof (sv_me _ _ _ _ _ _ Hsb2) as Hm. cbn [net] in Hm. rewrite !put_host_lookup, decide_False in Hm by done.
  case_decide as He; [|rewrite (sv_me _ _ _ _ _ _ Hsb) in Hm; by injection Hm as <-].
  subst b. injection Hm as <-. rewrite (set_tags_kept _ _ _ _ _ _ Hat). rewrite (sv_me _ _ _ _ _ _ Hsb) in Ho. by injection Ho as <-.
Qed.

(** A late eviction callback drops new tags. The callback of an eviction runs in
    a goroutine. When the key is set again, with a tag, before it runs, it
    removes the tag of the new value, which stays in the store: InvalidateTag no
    longer finds it. *)
Theorem late_eviction_untags order setOrder w me c i key old value data ttl tag dest v clk clk1 clk' :
  hosts (net w) !! me = Some c -> cluster c = None -> closed c = false -> cMode (config c) = Partitioned ->
  link (net w) me = None -> pending c !! i = Some (key, old) -> iterates setOrder ->
  TagsOk (tags c) -> (forall k, ~ has_tag (tags c) k tag) -> store_ok (store c) -> ClockOk clk -> ClockOk clk' ->
  key ≠ "" -> ttl ≠ 0 -> Serialize value = Ok data -> Deserialize data dest = Ok v -> Fits key data ttl clk ->
  (0 < ttl -> clk' 0%nat <= clk 0%nat + ttl) ->
  exists w1 w2 w3, Cache_SetWithTags order me key value ttl [tag] clk w = Some (Ok tt, w1)
    /\ runPending me i w1 = Some (tt, w2)
    /\ Cache_InvalidateTag order me setOrder tag clk1 w2 = Some (tt, w2)
    /\ Cache_Get me key dest clk' w2 = Some (Some v, w3).
Proof.
  intros Hme Hcl Hop Hmode Hlink Hi Hit Htok Hno Hok Hclk Hclk' Hk Ht Hser Hdes Hfit Hlive.
  destruct (Hfit _ Hok) as [Had Hret].
  assert (Serves (net w) me key me c c) as Hsv.
  { split; try done. unfold route, ownerAddr. by rewrite Hcl. }
  destruct (SetWithTags_spec order w me key me c c value data ttl [tag] clk) as (c' & c1 & lg & Hset & Hc1 & Hat); try done.
  rewrite put_host_lookup, decide_True in Hc1 by done. injection Hc1 as <-.
  set (w1 := MkWorld _ lg) in Hset. exists w1.
  destruct (set_pending_kept _ _ _ _ _ _ Hat) as (cs & Hp & _).
  set (ti := tagIndex_Add key [tag] (tags c')) in *.
  set (c2 := set_tags (tagIndex_Remove key ti) (set_pending (delete i (pending c')) (set_tags ti c'))).
  assert (runPending me i w1 = Some (tt, MkWorld (put_host me c2 (put_host me
      (set_pending (delete i (pending c')) (set_tags ti c')) (net w1)))
      ((lg ++ [Publish EventEvict key old]) ++ [FireEvict key old]))) as Hrun.
  { unfold runPending, bind at 1, this. unfold w1 at 1. cbn [net]. rewrite put_host_lookup, decide_True by done.
    cbn [pending set_tags]. rewrite Hp, lookup_app_l by (by eapply lookup_lt_Some).
    rewrite Hi, <- Hp.
    unfold bind, put, evictCallback, tagsRemove, emit, bind, this, put. cbn [net log].
    rewrite put_host_lookup, decide_True by done. reflexivity. }
  set (w2 := MkWorld _ _) in Hrun.
  assert (hosts (net w2) !! me = Some c2) as Hme2.
  { unfold w2. cbn [net]. by rewrite put_host_lookup, decide_True. }
  destruct (set_same _ _ _ _ _ _ Hat) as (Ecfg & Ecl & Etop).
  destruct (Cache_Get_spec w2 me key me c2 c2 dest clk') as (c3 & lg3 & Hget & _); try done.
  { split; try done; [cbn; congruence..|]. unfold route, ownerAddr. cbn. by rewrite Etop, Hcl. }
  { apply Hat. }
  change (store c2) with (store c') in Hget.
  rewrite (set_kept _ _ _ _ _ _ Hat Hret), live_at_expiryOf, Hdes in Hget by done.
  exists w2. eexists. split_and!; [exact Hset|exact Hrun| |exact Hget].
  eapply InvalidateTag_unknown; [exact Hme2|]. apply elem_of_nil_inv. intros k.
  assert (TagsOk (tags c2)) as Htok2 by (apply Remove_ok, Add_ok; by rewrite (set_tags_kept _ _ _ _ _ _ Hat)).
  rewrite (GetKeysByTag_elem _ _ _ _ Hit Htok2). change (tags c2) with (tagIndex_Remove key ti).
  rewrite has_tag_Remove. intros [Hne Hk']. unfold ti in Hk'. rewrite has_tag_Add, decide_False in Hk' by done.
  rewrite (set_tags_kept _ _ _ _ _ _ Hat) in Hk'. by apply (Hno k).
Qed.
End Local.

(** ** A node on its own *)

Section Site.
Context {S V T : Type} `{StoreLaws S V T}.
Implicit Types (wd : World (S := S)) (c : Cache S).

(** A node on its own: open, and in no cluster. *)
Record Site (me : string) wd c : Prop := {
  st_host : hosts (net wd) !! me = Some c;
  st_link : link (net wd) me = None;
  st_alone : cluster c = None;
  st_open : closed c = false;
  st_mode : cMode (config c) = Partitioned;
  st_ok : store_ok (store c);
}.

(** The site after its cache has been replaced. *)
Lemma site_put me wd c c' lg : Site me wd c -> same_node c c' -> store_ok (store c') ->
  Site me (MkWorld (put_host me c' (net wd)) lg) c'.
Proof.
  intros [E1 E2 E3 E4 E5 E6] (Hcfg & Hcl & Htop) Hok. split; try done; try congruence.
  cbn [net]. by rewrite put_host_lookup, decide_True.
Qed.

Lemma site_serves me wd c key : Site me wd c -> Serves (net wd) me key me c c.
Proof. intros [E1 E2 E3 E4 E5 E6]. split; try done. unfold route, ownerAddr. by rewrite E3. Qed.
End Site.

(** ** Witnesses *)

#[local] Existing Instance tagged_msgpack.
#[local] Existing Instance w_laws.

(** Three nodes; "c" owns the key "k". *)
Definition w_three (self ip : string) (others : list (string * string)) : Topology :=
  foldl (fun t o => NotifyJoin w_meta 0 (w_join o.1 o.2) t)
    (addSelf (w_member self ip) (NewClusterState self, NewRing 3)) others.
Definition w_3a : Topology := w_three "a" "10.0.0.1" [("b", "10.0.0.2"); ("c", "10.0.0.3")].
Definition w_3b : Topology := w_three "b" "10.0.0.2" [("a", "10.0.0.1"); ("c", "10.0.0.3")].
Definition w_3c : Topology := w_three "c" "10.0.0.3" [("a", "10.0.0.1"); ("b", "10.0.0.2")].

Definition w_near (t : Topology) (s : MemoryStore) : Cache MemoryStore :=
  MkCache s (w_config NearCache) false (Some t) Lock.NewEngine newTagIndex [].
Definition w_trio (s : MemoryStore) : World (S := MemoryStore) :=
  MkWorld (MkNetwork (list_to_map [("10.0.0.1:7947", w_near w_3a w_store); ("10.0.0.2:7947", w_near w_3b w_store);
    ("10.0.0.3:7947", w_near w_3c s)]) (fun _ => None) (fun _ => [])) [].

Lemma w_trio_a s : Near (net (w_trio s)) "10.0.0.1:7947" "k" "10.0.0.3:7947" (w_near w_3a w_store) (w_near w_3c s).
Proof. split; try reflexivity. by split. Qed.
Lemma w_trio_b s : Near (net (w_trio s)) "10.0.0.2:7947" "k" "10.0.0.3:7947" (w_near w_3b w_store) (w_near w_3c s).
Proof. split; try reflexivity. by split. Qed.

Lemma near_read_your_writes_witness :
  exists w1 w2, Cache_Set w_order "10.0.0.1:7947" "k" (GBytes [Byte.x01]) Second w_clock (w_trio w_store) = Some (Ok tt, w1)
    /\ Cache_Get "10.0.0.2:7947" "k" DBytes w_clock w1 = Some (Some (GBytes [Byte.x01]), w2).
Proof.
  destruct (near_read_your_writes w_order (w_trio w_store) "10.0.0.1:7947" "10.0.0.2:7947" "k" "10.0.0.3:7947"
    (w_near w_3a w_store) (w_near w_3b w_store) (w_near w_3c w_store) (GBytes [Byte.x01]) [Byte.x01] Second DBytes
    (GBytes [Byte.x01]) w_clock w_clock (w_trio_a _) (w_trio_b _)) as (w1 & Hs & Hg);
    [discriminate|reflexivity|reflexivity|exact w_store_ok|exact w_store_ok|exact w_store_ok|exact w_clock_ok|exact w_clock_ok
    |discriminate|discriminate|reflexivity|reflexivity|by apply w_fits|by apply w_fits|by apply w_fits| |vm_compute; reflexivity|].
  { unfold advance, w_clock, frozen, Second. lia. }
  destruct (Hg "10.0.0.2:7947") as [w2 Hw2]; [by right; right; left|]. exists w1, w2. split; [exact Hs|exact Hw2].
Defined.

(** The owner has the key, for one second. *)
Definition w_held : MemoryStore :=
  match MemoryStore_Set "k" [Byte.x01] Second w_clock w_store with Some (_, s) => s | None => w_store end.

Lemma w_held_ok : MemoryStoreOk 1000 w_held.
Proof.
  destruct (memory_Set 1000 w_store "k" [Byte.x01] Second w_clock w_store_ok) as (cs & s' & Hs & Hok & _).
  { unfold op_small. by vm_compute. }
  unfold w_held. by rewrite Hs.
Qed.

Lemma near_copy_outlives_witness :
  exists w1, Cache_Get "10.0.0.1:7947" "k" DBytes w_clock (w_trio w_held) = Some (Some (GBytes [Byte.x01]), w1)
    /\ exists w3, Cache_Get "10.0.0.1:7947" "k" DBytes (frozen (w_clock 0%nat + 10 * Second)) w1 = Some (Some (GBytes [Byte.x01]), w3).
Proof.
  destruct (near_copy_outlives (w_trio w_held) "10.0.0.1:7947" "k" "10.0.0.3:7947" (w_near w_3a w_store) (w_near w_3c w_held)
    DBytes [Byte.x01] (w_clock 0%nat + Second) (GBytes [Byte.x01]) w_clock (w_trio_a _)) as (w1 & Hg & Hlater);
    [exact w_store_ok|exact w_held_ok|exact w_clock_ok|discriminate|reflexivity|vm_compute; reflexivity
    |vm_compute; reflexivity|reflexivity|by apply w_fits|].
  exists w1. split; [exact Hg|]. apply Hlater; [|reflexivity]. apply frozen_ok. clear. by vm_compute.
Defined.

Lemma replicated_incr_invisible_witness :
  match Cache_Incr "10.0.0.1:7947" "k" 1 w_clock (w_pair Replicated) with
  | Some (Ok _, w1) => exists w2, Cache_Get "10.0.0.1:7947" "k" DBytes w_clock w1 = Some (None, w2)
  | _ => False
  end.
Proof.
  destruct (Cache_Incr _ _ _ _ _) as [[[v|e] w1]|] eqn:E; [|vm_compute in E; discriminate E..].
  apply (replicated_incr_invisible (w_pair Replicated) "10.0.0.1:7947" (w_mode Replicated (Some w_ta)) "k" DBytes 1
    w_clock w_clock v w1); [by split|exact w_store_ok|by vm_compute|by vm_compute|reflexivity|exact w_clock_ok|exact E].
Defined.

Lemma tags_stay_local_witness :
  exists w1 w2, Cache_SetWithTags w_order "10.0.0.1:7947" "k" (GBytes [Byte.x01]) Second ["t"] w_clock (w_pair Partitioned) = Some (Ok tt, w1)
    /\ Cache_InvalidateTag w_order "10.0.0.2:7947" elements "t" w_clock w1 = Some (tt, w1)
    /\ Cache_Get "10.0.0.2:7947" "k" DBytes w_clock w1 = Some (Some (GBytes [Byte.x01]), w2).
Proof.
  apply (tags_stay_local w_order elements (w_pair Partitioned) "10.0.0.1:7947" "10.0.0.2:7947" "k" "10.0.0.2:7947"
    (w_mode Partitioned (Some w_ta)) (w_mode Partitioned (Some w_tb)) (w_mode Partitioned (Some w_tb))
    (GBytes [Byte.x01]) [Byte.x01] Second ["t"] "t" DBytes (GBytes [Byte.x01]) w_clock w_clock w_clock);
    [by split|by split|discriminate|discriminate|exact w_store_ok|exact w_clock_ok|exact w_clock_ok|discriminate
    |discriminate|reflexivity|reflexivity|by apply w_fits|done|by left|reflexivity].
Defined.

(** A node whose store has just evicted "k". *)
Definition w_evicted : Cache MemoryStore :=
  MkCache w_store (w_config Partitioned) false None Lock.NewEngine newTagIndex [("k", [Byte.x02])].

Lemma late_eviction_untags_witness :
  exists w1 w2 w3,
    Cache_SetWithTags w_order "" "k" (GBytes [Byte.x01]) Second ["t"] w_clock
      (MkWorld (MkNetwork {["" := w_evicted]} (fun _ => None) (fun _ => [])) []) = Some (Ok tt, w1)
    /\ runPending "" 0 w1 = Some (tt, w2)
    /\ Cache_InvalidateTag w_order "" elements "t" w_clock w2 = Some (tt, w2)
    /\ Cache_Get "" "k" DBytes w_clock w2 = Some (Some (GBytes [Byte.x01]), w3).
Proof.
  apply (late_eviction_untags w_order elements (MkWorld (MkNetwork {["" := w_evicted]} (fun _ => None) (fun _ => [])) []) ""
    w_evicted 0 "k" [Byte.x02] (GBytes [Byte.x01]) [Byte.x01] Second "t" DBytes (GBytes [Byte.x01]) w_clock w_clock w_clock);
    [reflexivity|reflexivity|reflexivity|reflexivity|reflexivity|reflexivity|exact elements_iterates|exact newTagIndex_ok
    | |exact w_store_ok|exact w_clock_ok|exact w_clock_ok|discriminate|discriminate|reflexivity|reflexivity|by apply w_fits|done].
  intros k (tgs & Hk & _). by vm_compute in Hk.
Defined.
