(* ===== verification/Concurrent.v ===== *)
(** Goroutines that use one cache (cache.go, distributed.go, tags.go).

    Every method of the cache is a program of atomic actions: the test of
    [closed], one call of the store, which locks by itself, one call of the tag
    index, of the broker, or of a peer. The programs are the methods of [Cache],
    cut between the actions ([program_alone]).

    The store's Get, Set, Delete and Incr are atomic actions here, which those of
    the memory store are: each holds the mutex of one shard throughout. Those of
    the disk store are not; see [DiskRaces]. Exists and TTL of a shard release
    their lock in between and are not among the calls. *)
From S2P Require Import Prelude GoLib Serializer Config Shard Store ShardTheorems MemoryStore Tags LockEngine HashRing Cluster Transport Broker Goroutines Cache CacheProofs CacheTheorems.

#[local] Open Scope cache_scope.

(** ** Calls *)

Inductive Call (V T : Type) :=
  | CSet (key : string) (value : GoValue V) (ttl : Duration) (clk : Clock)
  | CSetWithTags (key : string) (value : GoValue V) (ttl : Duration) (tgs : list string) (clk : Clock)
  | CGet (key : string) (dest : Dest T) (clk : Clock)
  | CDelete (key : string) (clk : Clock)
  | CIncr (key : string) (delta : Z) (clk : Clock).
Arguments CSet {V T} key value ttl clk.
Arguments CSetWithTags {V T} key value ttl tgs clk.
Arguments CGet {V T} key dest clk.
Arguments CDelete {V T} key clk.
Arguments CIncr {V T} key delta clk.

Inductive Answer (V : Type) :=
  | ASet (r : result unit)
  | AGet (v : option (GoValue V))
  | ADelete
  | AIncr (r : result Z).
Arguments ASet {V} r.
Arguments AGet {V} v.
Arguments ADelete {V}.
Arguments AIncr {V} r.

Section Programs.
Context {S V T : Type} `{Store S V T}.
Context (order : ClusterState -> list (string * NodeInfo)) (me : string).
Abbreviation Prog := (Prog (World (S := S)) (Answer V)).
Abbreviation Call := (Call V T).

(** The methods, with what comes after them. *)
Definition distributedSet_prog (key : string) (data : bytes) (ttl : Duration) (clk : Clock) (k : result unit -> Prog) : Prog :=
  Act (this me) (fun c =>
    match cMode (config c) with
    | Replicated =>
        Act (storeSet me key data ttl clk) (fun _ =>
        Act (emitAll ((fun addr => GoRemote addr (setRequest key data ttl [])) <$> peers order c)) (fun _ => k (Ok tt)))
    | NearCache =>
        Act (storeSet me key data ttl clk) (fun _ =>
        let addr := ownerAddr key c in
        if negb (String.eqb addr "") then Act (rpc (RemoteSet addr key data ttl [] (advance 1 clk))) k
        else k (Ok tt))
    | Partitioned =>
        let addr := ownerAddr key c in
        if negb (String.eqb addr "") then Act (rpc (RemoteSet addr key data ttl [] clk)) k
        else Act (storeSet me key data ttl clk) (fun _ => k (Ok tt))
    end).

Definition Set_prog (key : string) (value : GoValue V) (ttl : Duration) (clk : Clock) (k : result unit -> Prog) : Prog :=
  Act (this me) (fun c =>
    if String.eqb key "" then k (Err ErrKeyEmpty)
    else if closed c then k (Err ErrShutdown)
    else
      match Serialize value with
      | Err err => k (Err (ErrWrap ErrSerializationFailed err))
      | Ok data =>
          let ttl := if ttl =? 0 then DefaultTTL (config c) else ttl in
          distributedSet_prog key data ttl clk (fun r =>
            match r with
            | Err err => k (Err err)
            | Ok _ => Act (emit (Publish EventSet key data)) (fun _ => Act (emit (FireSet key data)) (fun _ => k (Ok tt)))
            end)
      end).

Definition SetWithTags_prog (key : string) (value : GoValue V) (ttl : Duration) (tgs : list string) (clk : Clock) : Prog :=
  Set_prog key value ttl clk (fun r =>
    match r with
    | Err err => Done (ASet (Err err))
    | Ok _ => if (0 <? length tgs)%nat then Act (tagsAdd me key tgs) (fun _ => Done (ASet (Ok tt))) else Done (ASet (Ok tt))
    end).

Definition distributedGet_prog (key : string) (clk : Clock) (k : option bytes -> Prog) : Prog :=
  Act (this me) (fun c =>
    match cMode (config c) with
    | Replicated => Act (withStore me (Store_Get key clk)) k
    | NearCache =>
        Act (withStore me (Store_Get key clk)) (fun r =>
          match r with
          | Some data => k (Some data)
          | None =>
              let addr := ownerAddr key c in
              if negb (String.eqb addr "") then
                Act (rpc (RemoteGet addr key (advance 2 clk))) (fun g =>
                  match g with
                  | Ok (data, true) =>
                      Act (storeSet me key data (DefaultTTL (config c)) (advance 4 clk)) (fun _ => k (Some data))
                  | _ => k None
                  end)
              else k None
          end)
    | Partitioned =>
        let addr := ownerAddr key c in
        if negb (String.eqb addr "") then
          Act (rpc (RemoteGet addr key clk)) (fun g =>
            match g with
            | Err _ => k None
            | Ok (data, found) => k (if found : bool then Some data else None)
            end)
        else Act (withStore me (Store_Get key clk)) k
    end).

Definition Get_prog (key : string) (dest : Dest T) (clk : Clock) : Prog :=
  Act (this me) (fun c =>
    if String.eqb key "" || closed c then Done (AGet None)
    else
      distributedGet_prog key clk (fun r =>
        match r with
        | None => Act (emit (FireMiss key)) (fun _ => Done (AGet None))
        | Some data =>
            match Deserialize data dest with
            | Err _ => Done (AGet None)
            | Ok v => Act (emit (FireHit key)) (fun _ => Done (AGet (Some v)))
            end
        end)).

Definition distributedDelete_prog (key : string) (clk : Clock) (k : Prog) : Prog :=
  Act (this me) (fun c =>
    match cMode (config c) with
    | Replicated =>
        Act (withStore me (Store_Delete key)) (fun _ =>
        Act (emitAll ((fun addr => GoRemote addr (deleteRequest key)) <$> peers order c)) (fun _ => k))
    | NearCache =>
        Act (withStore me (Store_Delete key)) (fun _ =>
        let addr := ownerAddr key c in
        if negb (String.eqb addr "") then Act (rpc (RemoteDelete addr key clk)) (fun _ => k) else k)
    | Partitioned =>
        let addr := ownerAddr key c in
        if negb (String.eqb addr "") then Act (rpc (RemoteDelete addr key clk)) (fun _ => k)
        else Act (withStore me (Store_Delete key)) (fun _ => k)
    end).

Definition Delete_prog (key : string) (clk : Clock) : Prog :=
  Act (this me) (fun c =>
    if String.eqb key "" || closed c then Done ADelete
    else
      distributedDelete_prog key clk
        (Act (emit (Publish EventDelete key [])) (fun _ =>
         Act (emit (FireDelete key)) (fun _ =>
         Act (tagsRemove me key) (fun _ => Done ADelete))))).

Definition Incr_prog (key : string) (delta : Z) (clk : Clock) : Prog :=
  Act (this me) (fun c =>
    if String.eqb key "" then Done (AIncr (Err ErrKeyEmpty))
    else if closed c then Done (AIncr (Err ErrShutdown))
    else
      let addr := ownerAddr key c in
      if negb (String.eqb addr "") then Act (rpc (RemoteIncr addr key delta clk)) (fun r => Done (AIncr r))
      else Act (withEvictions me (Store_Incr key delta (DefaultTTL (config c)) clk)) (fun r => Done (AIncr r))).

Definition program (c : Call) : Prog :=
  match c with
  | CSet key value ttl clk => Set_prog key value ttl clk (fun r => Done (ASet r))
  | CSetWithTags key value ttl tgs clk => SetWithTags_prog key value ttl tgs clk
  | CGet key dest clk => Get_prog key dest clk
  | CDelete key clk => Delete_prog key clk
  | CIncr key delta clk => Incr_prog key delta clk
  end.

(** The methods as [Cache] has them. *)
Definition method (c : Call) : M (S := S) (Answer V) :=
  match c with
  | CSet key value ttl clk => r <-- Cache_Set order me key value ttl clk ;; ret (ASet r)
  | CSetWithTags key value ttl tgs clk => r <-- Cache_SetWithTags order me key value ttl tgs clk ;; ret (ASet r)
  | CGet key dest clk => v <-- Cache_Get me key dest clk ;; ret (AGet v)
  | CDelete key clk => Cache_Delete order me key clk ;;; ret ADelete
  | CIncr key delta clk => r <-- Cache_Incr me key delta clk ;; ret (AIncr r)
  end.

(** ** A goroutine on its own *)

Ltac alone :=
  repeat first
    [ reflexivity
    | match goal with
      | |- context [match ?x with _ => _ end] =>
          lazymatch x with
          | context [match _ with _ => _ end] => fail
          | _ => destruct x as [] eqn:?
          end
      end; cbn [run_alone] ].

Lemma distributedSet_alone key data ttl clk k w :
  run_alone (distributedSet_prog key data ttl clk k) w
  = bind (distributedSet order me key data ttl [] clk) (fun r => run_alone (k r)) w.
Proof. unfold distributedSet_prog, distributedSet, bind, ret. cbn [run_alone]. alone. Qed.

Lemma Set_alone key value ttl clk k w :
  run_alone (Set_prog key value ttl clk k) w = bind (Cache_Set order me key value ttl clk) (fun r => run_alone (k r)) w.
Proof.
  unfold Set_prog, Cache_Set. cbn [run_alone]. unfold bind at 1 2. destruct (this me w) as [[c w1]|]; [|done].
  destruct (String.eqb key ""); [done|]. destruct (closed c); [done|]. destruct (Serialize value) as [data|]; [|done].
  rewrite distributedSet_alone. unfold bind. destruct (distributedSet _ _ _ _ _ _ _ w1) as [[[] w2]|]; done.
Qed.

Lemma distributedGet_alone key clk k w :
  run_alone (distributedGet_prog key clk k) w = bind (distributedGet me key clk) (fun r => run_alone (k r)) w.
Proof. unfold distributedGet_prog, distributedGet, bind, ret. cbn [run_alone]. alone. Qed.

Lemma distributedDelete_alone key clk k w :
  run_alone (distributedDelete_prog key clk k) w = bind (distributedDelete order me key clk) (fun _ => run_alone k) w.
Proof. unfold distributedDelete_prog, distributedDelete, bind, ret. cbn [run_alone]. alone. Qed.

(** The programs are the methods: with nobody else around, a program does what
    its method does. *)
Lemma program_alone c w : run_alone (program c) w = method c w.
Proof.
  destruct c as [key value ttl clk|key value ttl tgs clk|key dest clk|key clk|key delta clk]; cbn [program method].
  - apply Set_alone.
  - unfold SetWithTags_prog, Cache_SetWithTags. rewrite Set_alone. unfold bind, ret.
    destruct (Cache_Set _ _ _ _ _ _ w) as [[[u|] w1]|]; [|done|done]. destruct (0 <? length tgs)%nat; [|done]. cbn [run_alone].
    by destruct (tagsAdd me key tgs w1) as [[]|].
  - unfold Get_prog, Cache_Get. cbn [run_alone]. unfold bind at 1 2. destruct (this me w) as [[c w1]|]; [|done].
    destruct (_ || _); [done|]. rewrite distributedGet_alone. unfold bind, ret.
    destruct (distributedGet _ _ _ w1) as [[[data|] w2]|]; [|done|done]. by destruct (Deserialize data dest).
  - unfold Delete_prog, Cache_Delete. cbn [run_alone]. unfold bind at 1 2. destruct (this me w) as [[c w1]|]; [|done].
    destruct (_ || _); [done|]. rewrite distributedDelete_alone. unfold bind, ret.
    destruct (distributedDelete _ _ _ _ w1) as [[u w2]|]; [|done]. cbn [run_alone emit].
    by destruct (tagsRemove me key _) as [[]|].
  - unfold Incr_prog, Cache_Incr, incrBy. cbn [run_alone]. unfold bind, ret. destruct (this me w) as [[c w1]|]; [|done].
    destruct (String.eqb key ""); [done|]. destruct (closed c); [done|]. cbv zeta. by destruct (negb _).
Qed.
End Programs.

(** ** Linearizability *)

Section Linearizable.
Context {S V T : Type} `{Store S V T}.
Context (order : ClusterState -> list (string * NodeInfo)) (me : string) (cfg : Config).
Abbreviation Call := (Call V T).
Implicit Types (w : World (S := S)) (s : S).

(** A cache on its own that does every call at once: a guard, and one call of the
    store. *)
Definition atomicSet (key : string) (value : GoValue V) (ttl : Duration) (clk : Clock) s : option (result unit * S) :=
  if String.eqb key "" then Some (Err ErrKeyEmpty, s)
  else
    match Serialize value with
    | Err err => Some (Err (ErrWrap ErrSerializationFailed err), s)
    | Ok data =>
        match Store_Set key data (if ttl =? 0 then DefaultTTL cfg else ttl) clk s with
        | Some (_, s') => Some (Ok tt, s')
        | None => None
        end
    end.

Definition atomic (c : Call) s : option (Answer V * S) :=
  match c with
  | CSet key value ttl clk | CSetWithTags key value ttl _ clk =>
      match atomicSet key value ttl clk s with Some (r, s') => Some (ASet r, s') | None => None end
  | CGet key dest clk =>
      if String.eqb key "" then Some (AGet None, s)
      else
        match Store_Get key clk s with
        | Some (r, s') => Some (AGet (match r with
                                      | Some data => match Deserialize data dest with Ok v => Some v | Err _ => None end
                                      | None => None
                                      end), s')
        | None => None
        end
  | CDelete key _ =>
      if String.eqb key "" then Some (ADelete, s)
      else match Store_Delete key s with Some (_, s') => Some (ADelete, s') | None => None end
  | CIncr key delta clk =>
      if String.eqb key "" then Some (AIncr (Err ErrKeyEmpty), s)
      else match Store_Incr key delta (DefaultTTL cfg) clk s with Some (r, _, s') => Some (AIncr r, s') | None => None end
  end.

(** The node is open, in no cluster, and has this store. *)
Definition Lone w s : Prop := exists c,
  hosts (net w) !! me = Some c /\ cluster c = None /\ closed c = false /\ config c = cfg /\ store c = s.

(** Beside the calls anything may happen that leaves the store and the role of
    the node alone: eviction callbacks, locks, tags, subscribers, other nodes. *)
Definition background w w' : Prop := exists c c',
  hosts (net w) !! me = Some c /\ hosts (net w') !! me = Some c'
  /\ store c' = store c /\ config c' = config c /\ cluster c' = cluster c /\ closed c' = closed c.

Lemma background_lone w w' s : background w w' -> Lone w s -> Lone w' s.
Proof.
  intros (c & c' & Hc & Hc' & F1 & F2 & F3 & F4) (c0 & E0 & E1 & E2 & E3 & E4). rewrite Hc in E0. injection E0 as <-.
  exists c'. split_and!; congruence.
Qed.

Lemma evict_background w w' i : runPending me i w = Some (tt, w') -> background w w'.
Proof.
  unfold runPending, bind, this. destruct (hosts (net w) !! me) as [c|] eqn:Ec; [|done].
  destruct (pending c !! i) as [[key value]|]; [|intros [= <-]; by exists c, c].
  unfold put, evictCallback, bind, emit, tagsRemove, bind, this, put. cbn [net log].
  rewrite put_host_lookup, decide_True by done. intros [= <-].
  exists c, (set_tags (tagIndex_Remove key (tags c)) (set_pending (delete i (pending c)) c)). split; [exact Ec|].
  cbn [net]. by rewrite put_host_lookup, decide_True.
Qed.

(** ** Actions *)

Lemma this_lone w s c w' : Lone w s -> this me w = Some (c, w') ->
  w' = w /\ cluster c = None /\ closed c = false /\ config c = cfg.
Proof. intros (c0 & E0 & E1 & E2 & E3 & _). unfold this. rewrite E0. by intros [= <- <-]. Qed.

Lemma emitAll_lone w s es u w' : Lone w s -> emitAll es w = Some (u, w') -> Lone w' s.
Proof.
  revert w. induction es as [|e es IH]; intros w Hw; cbn [emitAll]; [by intros [= _ <-]|].
  unfold bind, emit. intros He. eapply IH; [|exact He]. exact Hw.
Qed.

Lemma emit_lone w s e u w' : Lone w s -> emit e w = Some (u, w') -> Lone w' s.
Proof. intros Hw [= _ <-]. exact Hw. Qed.

Lemma tags_lone (f : tagIndex -> tagIndex) w s u w' : Lone w s ->
  (c <-- this me ;; put me (set_tags (f (tags c)) c)) w = Some (u, w') -> Lone w' s.
Proof.
  intros Hw. destruct Hw as (c & E0 & E1 & E2 & E3 & E4). unfold bind, this, put. rewrite E0. intros [= _ <-].
  exists (set_tags (f (tags c)) c). cbn [net]. by rewrite put_host_lookup, decide_True.
Qed.

Lemma withStore_lone {A} (f : S -> option (A * S)) w s a w' : Lone w s -> withStore me f w = Some (a, w') ->
  exists s', f s = Some (a, s') /\ Lone w' s'.
Proof.
  intros (c & E0 & E1 & E2 & E3 & <-). unfold withStore, bind, this. rewrite E0.
  destruct (f (store c)) as [[a' s']|]; [|done]. unfold put, ret. intros [= <- <-]. exists s'. split; [done|].
  exists (set_store s' c). cbn [net]. by rewrite put_host_lookup, decide_True.
Qed.

Lemma withEvictions_lone {A} (f : S -> option (A * calls * S)) w s a w' : Lone w s -> withEvictions me f w = Some (a, w') ->
  exists cs s', f s = Some (a, cs, s') /\ Lone w' s'.
Proof.
  intros (c & E0 & E1 & E2 & E3 & <-). unfold withEvictions, bind, this. rewrite E0.
  destruct (f (store c)) as [[[a' cs] s']|]; [|done]. unfold put, ret. intros [= <- <-]. exists cs, s'. split; [done|].
  exists (evicting cs s' c). cbn [net]. by rewrite put_host_lookup, decide_True.
Qed.

Lemma storeSet_lone key data ttl clk w s u w' : Lone w s -> storeSet me key data ttl clk w = Some (u, w') ->
  exists cs s', Store_Set key data ttl clk s = Some (cs, s') /\ Lone w' s'.
Proof.
  intros Hw Hs. unfold storeSet in Hs. apply (withEvictions_lone _ _ s) in Hs as (cs & s' & Hf & Hw'); [|done].
  destruct (Store_Set key data ttl clk s) as [[cs' s'']|]; [|done]. injection Hf as _ _ ->. eauto.
Qed.

Lemma lone_owner key (c : Cache S) : cluster c = None -> ownerAddr key c = "".
Proof. intros Hc. unfold ownerAddr. by rewrite Hc. Qed.

(** ** Linearization points *)

Abbreviation Quiet := (Goroutines.Quiet Lone).
Abbreviation Poised := (Goroutines.Poised atomic Lone).

Lemma quiet_emit e (k : unit -> Prog (World (S := S)) (Answer V)) a : Quiet (k tt) a -> Quiet (Act (emit e) k) a.
Proof. intros Hk w s [] w' Hw He. split; [by eapply emit_lone|done]. Qed.

Lemma quiet_tags (f : tagIndex -> tagIndex) (k : unit -> Prog (World (S := S)) (Answer V)) a : Quiet (k tt) a ->
  Quiet (Act (c <-- this me ;; put me (set_tags (f (tags c)) c)) k) a.
Proof. intros Hk w s [] w' Hw He. split; [by eapply tags_lone|done]. Qed.

Lemma quiet_emitAll es (k : unit -> Prog (World (S := S)) (Answer V)) a : Quiet (k tt) a -> Quiet (Act (emitAll es) k) a.
Proof. intros Hk w s [] w' Hw He. split; [by eapply emitAll_lone|done]. Qed.

(** Set takes effect in the store; what follows may publish and tag. *)
Lemma Set_poised c key value ttl clk k :
  (forall s, atomic c s = match atomicSet key value ttl clk s with Some (r, s') => Some (ASet r, s') | None => None end) ->
  (forall r, Quiet (k r) (ASet r)) -> Poised c (Set_prog order me key value ttl clk k).
Proof.
  intros Hc Hk w s c0 w' Hw (-> & Hcl & Hop & Hcfg)%(this_lone _ s); [|done].
  assert (forall s' r, atomicSet key value ttl clk s = Some (r, s') -> atomic c s = Some (ASet r, s')) as Hat
    by (intros s' r He; by rewrite Hc, He).
  unfold atomicSet in Hat. destruct (String.eqb key "") eqn:Ek; [right; eauto 6|]. rewrite Hop.
  destruct (Serialize value) as [data|err] eqn:Es; [|right; eauto 6]. left. split; [done|].
  clear w s Hw Hat. intros w s c1 w' Hw (-> & Hcl1 & Hop1 & Hcfg1)%(this_lone _ s); [|done].
  rewrite Hcfg, (lone_owner key c1 Hcl1). cbv zeta. cbn [String.eqb negb].
  left. split; [done|].
  assert (forall w s u w', Lone w s -> storeSet me key data (if ttl =? 0 then DefaultTTL cfg else ttl) clk w = Some (u, w') ->
    exists s', atomic c s = Some (ASet (Ok tt), s') /\ Lone w' s') as Hset.
  { intros w1 s1 u w1' Hw1 (cs & s' & Hss & Hw')%(storeSet_lone _ _ _ _ _ s1); [|done].
    exists s'. split; [|done]. rewrite Hc. unfold atomicSet. by rewrite Ek, Es, Hss. }
  destruct (cMode (config c1)); intros w2 s2 u w2' Hw2 (s' & Ha & Hw')%(Hset _ s2); [|done| |done| |done]; right;
    exists (ASet (Ok tt)), s'; (split; [done|]); (split; [done|]); [|apply quiet_emitAll|]; by apply quiet_emit, quiet_emit.
Qed.

Lemma Get_poised key dest clk : Poised (CGet key dest clk) (Get_prog me key dest clk).
Proof.
  intros w s c0 w' Hw (-> & Hcl & Hop & Hcfg)%(this_lone _ s); [|done]. rewrite Hop, orb_false_r.
  destruct (String.eqb key "") eqn:Ek; [right; exists (AGet None), s; cbn [atomic]; by rewrite Ek|]. left. split; [done|].
  clear w s Hw. intros w s c1 w' Hw (-> & Hcl1 & Hop1 & Hcfg1)%(this_lone _ s); [|done].
  rewrite (lone_owner key c1 Hcl1). cbv zeta. cbn [String.eqb negb]. left. split; [done|].
  clear w s Hw. destruct (cMode (config c1)); intros w s r w' Hw (s' & Hg & Hw')%(withStore_lone _ _ s); [|done| |done| |done]; right;
    (eexists _, s'; split; [cbn [atomic]; rewrite Ek, Hg; reflexivity|]); (split; [done|]);
    (destruct r as [data|]; [destruct (Deserialize data dest); [by apply quiet_emit|done]|by apply quiet_emit]).
Qed.

Lemma Delete_poised key clk : Poised (CDelete key clk) (Delete_prog order me key clk).
Proof.
  intros w s c0 w' Hw (-> & Hcl & Hop & Hcfg)%(this_lone _ s); [|done]. rewrite Hop, orb_false_r.
  destruct (String.eqb key "") eqn:Ek; [right; exists ADelete, s; cbn [atomic]; by rewrite Ek|]. left. split; [done|].
  clear w s Hw. intros w s c1 w' Hw (-> & Hcl1 & Hop1 & Hcfg1)%(this_lone _ s); [|done].
  rewrite (lone_owner key c1 Hcl1). cbv zeta. cbn [String.eqb negb]. left. split; [done|].
  clear w s Hw. assert (Quiet (Act (emit (Publish EventDelete key [])) (fun _ => Act (emit (FireDelete key)) (fun _ =>
    Act (tagsRemove me key) (fun _ => Done (ADelete (V := V)))))) ADelete) as Hq.
  { do 2 apply quiet_emit. by apply (quiet_tags (tagIndex_Remove key)). }
  destruct (cMode (config c1)); intros w s r w' Hw (s' & Hg & Hw')%(withStore_lone _ _ s); [|done| |done| |done]; right;
    (eexists _, s'; split; [cbn [atomic]; rewrite Ek, Hg; reflexivity|]); (split; [done|]); [exact Hq|by apply quiet_emitAll|exact Hq].
Qed.

Lemma Incr_poised key delta clk : Poised (CIncr key delta clk) (Incr_prog me key delta clk).
Proof.
  intros w s c0 w' Hw (-> & Hcl & Hop & Hcfg)%(this_lone _ s); [|done]. rewrite Hop.
  destruct (String.eqb key "") eqn:Ek; [right; exists (AIncr (Err ErrKeyEmpty)), s; cbn [atomic]; by rewrite Ek|].
  rewrite (lone_owner key c0 Hcl). cbv zeta. cbn [String.eqb negb]. left. split; [done|].
  clear w s Hw. intros w s r w' Hw (cs & s' & Hg & Hw')%(withEvictions_lone _ _ s); [|done]. right.
  rewrite Hcfg in Hg. eexists _, s'. split; [cbn [atomic]; rewrite Ek, Hg; reflexivity|]. by split.
Qed.

Lemma program_poised c : Poised c (program order me c).
Proof.
  destruct c as [key value ttl clk|key value ttl tgs clk|key dest clk|key clk|key delta clk]; cbn [program].
  - by apply (Set_poised _ key value ttl clk).
  - apply (Set_poised _ key value ttl clk); [done|]. intros [u|err]; [|done]. destruct (0 <? length tgs)%nat; [|by destruct u].
    destruct u. by apply (quiet_tags (tagIndex_Add key tgs)).
  - apply Get_poised.
  - apply Delete_poised.
  - apply Incr_poised.
Qed.
End Linearizable.

Section Theorems.
Context {S V T : Type} `{Store S V T}.

(** C2: the cache of a node on its own is linearizable. Goroutines call Set,
    SetWithTags, Get, Delete and Incr at any time, and their actions interleave
    in any way, with eviction callbacks and whatever else leaves the store alone
    in between. Then the calls that have taken effect can be put in an order, in
    which none comes before a call that had returned when it was made, such that
    done at once, one after the other, they give the answers that were
    returned, and the store that the node has. *)
Theorem cache_linearizable order me (w0 : World (S := S)) c0 st :
  hosts (net w0) !! me = Some c0 -> cluster c0 = None -> closed c0 = false ->
  rtc (sched_step (program order me) (background me)) (start w0) st ->
  exists l s, Linearization (atomic (config c0)) (history st) (store c0) l s
    /\ exists c, hosts (net (swrld st)) !! me = Some c /\ store c = s.
Proof.
  intros Hc Hcl Hop Hr.
  destruct (linearizable (program order me) (background me) (atomic (config c0)) (Lone me (config c0))
    (fun _ => True) (fun c _ => program_poised order me (config c0) c) (background_lone me (config c0)) w0 (store c0) st)
    as (l & s & Hl & c & Hc' & _ & _ & _ & Hs); [by exists c0|done|done|].
  exists l, s. split; [exact Hl|]. by exists c.
Qed.
End Theorems.

(** ** What a Get can return *)

Section Reads.
Context {S V T : Type} `{StoreLaws S V T}.
Abbreviation Call := (Call V T).
Implicit Types (key : string) (s : S).

(** What a call leaves under a key: the bytes of a value, nothing, or what was
    there. *)
Definition written key (c : Call) : option (option bytes) :=
  match c with
  | CSet k value _ _ | CSetWithTags k value _ _ _ =>
      if String.eqb k "" then None
      else match Serialize value with Ok data => if String.eqb k key then Some (Some data) else None | Err _ => None end
  | CDelete k _ => if String.eqb k "" then None else if String.eqb k key then Some None else None
  | CGet _ _ _ | CIncr _ _ _ => None
  end.

Definition lastWrite key (l : list (nat * (Call * Answer V))) : option (option bytes) :=
  foldl (fun last x => match written key x.2.1 with Some r => Some r | None => last end) None l.

(** The store takes the writes of a call; Incr is left out, of which the
    contract of stores says nothing. *)
Definition Admissible (cfg : Config) (c : Call) : Prop :=
  match c with
  | CSet k value ttl clk | CSetWithTags k value ttl _ clk => ClockOk clk
      /\ forall s data, store_ok s -> Serialize value = Ok data -> admits s k data (if ttl =? 0 then DefaultTTL cfg else ttl) clk
  | CGet _ _ clk => ClockOk clk
  | CDelete _ _ => True
  | CIncr _ _ _ => False
  end.

Lemma lastWrite_snoc key l i c a : lastWrite key (l ++ [(i, (c, a))])
  = match written key c with Some r => Some r | None => lastWrite key l end.
Proof. unfold lastWrite. by rewrite foldl_app. Qed.

Lemma atomicSet_view cfg k value ttl clk s r s' : atomicSet cfg k value ttl clk s = Some (r, s') ->
  store_ok s -> Admissible cfg (CSet k value ttl clk : Call) ->
  store_ok s' /\ forall key b, view s' key = Some b ->
    match written key (CSet k value ttl clk : Call) with Some o => o = Some b.1 | None => view s key = Some b end.
Proof.
  unfold atomicSet. intros He Hok [Hclk Had]. cbn [written]. destruct (String.eqb_spec k "") as [->|Hk]; [injection He as <- <-; by split|].
  destruct (Serialize value) as [data|] eqn:Es; [|injection He as <- <-; by split].
  destruct (law_Set s k data (if ttl =? 0 then DefaultTTL cfg else ttl) clk Hok Hclk) as (cs & s1 & Hs & Hok1 & [Hv Hfr] & _); [by apply Had|].
  rewrite Hs in He. injection He as <- <-. split; [done|]. intros key b Hb. destruct (String.eqb_spec k key) as [->|Hne].
  - destruct Hv as [Hv|Hv]; rewrite Hv in Hb; [|done]. by injection Hb as <-.
  - destruct (Hfr key) as [E|E]; [done|by rewrite E in Hb|by rewrite E in Hb].
Qed.

Lemma atomic_view cfg c s a s' : atomic cfg c s = Some (a, s') -> store_ok s -> Admissible cfg c ->
  store_ok s' /\ forall key b, view s' key = Some b -> match written key c with Some o => o = Some b.1 | None => view s key = Some b end.
Proof.
  destruct c as [k value ttl clk|k value ttl tgs clk|k dest clk|k clk|k delta clk]; cbn [atomic]; intros He Hok Had; [| | | |done].
  1,2: destruct (atomicSet cfg k value ttl clk s) as [[r s1]|] eqn:E; [|done]; injection He as <- <-;
    exact (atomicSet_view cfg k value ttl clk s r s1 E Hok Had).
  - destruct (String.eqb k ""); [injection He as <- <-; by split|].
    destruct (law_Get s k clk Hok Had) as (s1 & Hg & Hok1 & [Hv Hfr]). rewrite Hg in He. injection He as <- <-. split; [done|].
    intros key b Hb. cbn [written]. destruct (decide (key = k)) as [->|Hne]; [|by rewrite <- Hfr].
    rewrite Hv in Hb. destruct (view s k) as [[d x]|]; [|done]. cbn [live_at] in Hb. by destruct (_ || _).
  - cbn [written]. destruct (String.eqb k ""); [injection He as <- <-; by split|].
    destruct (law_Delete s k Hok) as (s1 & Hd & Hok1 & [Hv Hfr]). rewrite Hd in He. injection He as <- <-. split; [done|].
    intros key b Hb. destruct (String.eqb_spec k key) as [->|Hne]; [by rewrite Hv in Hb|by rewrite <- Hfr].
Qed.

(** What is stored is what was written last. *)
Lemma legal_view cfg s l s' : legal (atomic cfg) s l s' -> store_ok s -> Forall (fun x => Admissible cfg x.2.1) l ->
  store_ok s' /\ forall key b, view s' key = Some b ->
    match lastWrite key l with Some o => o = Some b.1 | None => view s key = Some b end.
Proof.
  revert s'. induction l as [|[i [c a]] l IH] using rev_ind; intros s' Hl Hok Had; [inversion Hl; subst; by split|].
  apply legal_split in Hl as (s1 & s2 & Hl1 & He & Hl2). inversion Hl2; subst. apply Forall_app in Had as [Had [Hc _]%Forall_cons].
  destruct (IH s1 Hl1 Hok Had) as [Hok1 Hv1]. destruct (atomic_view cfg c s1 a s' He Hok1 Hc) as [Hok2 Hv2]. split; [done|].
  intros key b Hb. rewrite lastWrite_snoc. specialize (Hv2 key b Hb). destruct (written key c); [done|by apply Hv1].
Qed.

(** C3: no Get returns a value that is out of date. Among goroutines that call Set,
    SetWithTags, Get and Delete on a node of its own, over any store that
    satisfies the contract, there is such an order in which
    every Get that found a value found the one that the last write of the key
    before it has stored; or the one that was there at the start, if no call
    before it wrote the key. *)
Theorem concurrent_get_current order me (w0 : World (S := S)) c0 st :
  hosts (net w0) !! me = Some c0 -> cluster c0 = None -> closed c0 = false -> store_ok (store c0) ->
  rtc (sched_step (program order me) (background me)) (start w0) st ->
  (forall i c, Invoke i c ∈ history st -> Admissible (config c0) c) ->
  exists l s, Linearization (atomic (config c0)) (history st) (store c0) l s
    /\ forall l1 i key dest clk v l2, l = l1 ++ (i, (CGet key dest clk, AGet (Some v))) :: l2 ->
         exists data, Deserialize data dest = Ok v
           /\ (lastWrite key l1 = Some (Some data)
               \/ lastWrite key l1 = None /\ exists x, view (store c0) key = Some (data, x)).
Proof.
  intros Hc Hcl Hop Hok Hr Had.
  destruct (linearizable (program order me) (background me) (atomic (config c0)) (Lone me (config c0))
    (fun _ => True) (fun c _ => program_poised order me (config c0) c) (background_lone me (config c0)) w0 (store c0) st)
    as (l & s & Hl & _); [by exists c0|done|done|].
  exists l, s. split; [exact Hl|]. intros l1 i key dest clk v l2 El.
  assert (Forall (fun x => Admissible (config c0) x.2.1) l) as Hall.
  { apply Forall_forall. intros [j [c a]] Hj. by eapply Had, (ln_called _ _ _ _ _ Hl). }
  pose proof (ln_legal _ _ _ _ _ Hl) as Hleg. rewrite El in Hleg, Hall. apply legal_split in Hleg as (s1 & s2 & Hl1 & He & _).
  apply Forall_app in Hall as [Hall1 [Hget _]%Forall_cons]. destruct (legal_view _ _ _ _ Hl1 Hok Hall1) as [Hok1 Hv].
  cbn [atomic] in He. destruct (String.eqb key ""); [discriminate He|].
  destruct (law_Get s1 key clk Hok1 Hget) as (s3 & Hg & _). rewrite Hg in He.
  destruct (view s1 key) as [[data x]|] eqn:Ev; [|discriminate He]. cbn [live_at] in He.
  destruct (_ || _); [|discriminate He]. cbn in He. destruct (Deserialize data dest) as [v'|] eqn:Ed; [|discriminate He].
  injection He as <- _. exists data. split; [exact Ed|]. specialize (Hv key (data, x) Ev).
  destruct (lastWrite key l1) as [o|]; [left; by rewrite Hv|right; eauto].
Qed.
End Reads.

(** ** Examples and witnesses *)

#[local] Existing Instance tagged_msgpack.
#[local] Existing Instance w_laws.

Definition cc_world : World (S := MemoryStore) :=
  MkWorld (MkNetwork {["" := w_cache None]} (fun _ => None) (fun _ => [])) [].
Abbreviation cc_program := (program (S := MemoryStore) (fun _ => []) "").
Definition cc_set : Call Empty_set Empty_set := CSet "k" (GBytes [Byte.x01]) Second w_clock.
Definition cc_tagged : Call Empty_set Empty_set := CSetWithTags "k" (GBytes [Byte.x01]) Second ["t"] w_clock.
Definition cc_get : Call Empty_set Empty_set := CGet "k" DBytes w_clock.
Definition cc_delete : Call Empty_set Empty_set := CDelete "k" w_clock.

(** A Get that is called during a Set reads the new value and returns first. *)
Definition cc_moves : list (Move (C := Call Empty_set Empty_set)) :=
  [MInvoke 0 cc_set; MInvoke 1 cc_get] ++ replicate 3 (MAct 0) ++ replicate 4 (MAct 1) ++ [MReturn 1]
  ++ replicate 2 (MAct 0) ++ [MReturn 0].
Definition cc_history : list (Event (Call Empty_set Empty_set) (Answer Empty_set)) :=
  [Invoke 0 cc_set; Invoke 1 cc_get; Return 1 (AGet (Some (GBytes [Byte.x01]))); Return 0 (ASet (Ok tt))].

Lemma cc_reached : exists st, schedule cc_program cc_moves (start cc_world) = Some st /\ history st = cc_history.
Proof.
  assert (history <$> schedule cc_program cc_moves (start cc_world) = Some cc_history) as Hh by (vm_compute; reflexivity).
  destruct (schedule cc_program cc_moves (start cc_world)) as [st|]; [|discriminate Hh].
  exists st. split; [done|]. by injection Hh.
Qed.

Lemma cache_linearizable_witness : exists l s,
  Linearization (atomic (config (w_cache None))) cc_history (store (w_cache None)) l s.
Proof.
  destruct cc_reached as (st & Hst & Hh).
  destruct (cache_linearizable (fun _ => []) "" cc_world (w_cache None) st) as (l & s & Hl & _); [done|done|done| |].
  - by apply schedule_steps with (ms := cc_moves).
  - exists l, s. by rewrite <- Hh.
Defined.

Lemma concurrent_get_current_witness : exists l s,
  Linearization (atomic (config (w_cache None))) cc_history (store (w_cache None)) l s
  /\ forall l1 i key dest clk v l2, l = l1 ++ (i, (CGet key dest clk, AGet (Some v))) :: l2 ->
       exists data, Deserialize data dest = Ok v
         /\ (lastWrite key l1 = Some (Some data)
             \/ lastWrite key l1 = None /\ exists x, view (store (w_cache None)) key = Some (data, x)).
Proof.
  destruct cc_reached as (st & Hst & Hh). rewrite <- Hh.
  apply (concurrent_get_current (fun _ => []) "" cc_world (w_cache None) st); [done|done|done|exact w_store_ok| |].
  - by apply schedule_steps with (ms := cc_moves).
  - intros i c. rewrite Hh. unfold cc_history. rewrite !elem_of_cons, elem_of_nil.
    intros [[= -> ->]|[[= -> ->]|[[=]|[[=]|[]]]]]; [|exact w_clock_ok]. split; [exact w_clock_ok|].
    intros s data _ [= <-]. cbn. unfold op_small. intros _. by vm_compute.
Defined.

(** Deleting and tagging are not one step. A Delete that has taken the old value
    out of the store, and is about to drop its tags, drops those of a
    SetWithTags that comes in between: the new value stays, and InvalidateTag no
    longer finds it. One after the other, in either order, the two calls leave
    nothing that InvalidateTag does not remove. *)
Theorem delete_races_with_tags :
  let invalidated (w : World (S := MemoryStore)) :=
    (Cache_InvalidateTag (fun _ => []) "" elements "t" w_clock ;;; Cache_Get (V := Empty_set) (T := Empty_set) "" "k" DBytes w_clock) w in
  let race := [MInvoke 0 cc_delete; MInvoke 1 cc_tagged] ++ replicate 5 (MAct 0) ++ replicate 6 (MAct 1) ++ [MReturn 1; MAct 0; MReturn 0] in
  (fst <$> (schedule cc_program race (start cc_world) ≫= fun st => invalidated (swrld st))) = Some (Some (GBytes [Byte.x01]))
  /\ (fst <$> ((method (fun _ => []) "" cc_delete ;;; method (fun _ => []) "" cc_tagged ;;; invalidated) cc_world)) = Some None
  /\ (fst <$> ((method (fun _ => []) "" cc_tagged ;;; method (fun _ => []) "" cc_delete ;;; invalidated) cc_world)) = Some None.
Proof. vm_compute. split_and!; reflexivity. Qed.
