(* ===== verification/Namespace.v ===== *)
(** namespace.go: a view of the cache under a key prefix. *)
From Stdlib Require Import Ascii.
From S2P Require Import Prelude GoLib Serializer Config Shard Store Tags LockEngine HashRing Cluster Transport Broker Cache.

(** A NamespacedCache is a cache, here the address of its node, and a name. *)
Record NamespacedCache := MkNamespacedCache {
  nsCache : string;
  namespace : string;
}.

Definition WithNamespace (me ns : string) : NamespacedCache := MkNamespacedCache me ns.

Definition prefixKey (nc : NamespacedCache) (key : string) : string :=
  (namespace nc +:+ ":" +:+ key)%string.
Definition prefixTag (nc : NamespacedCache) (tag : string) : string :=
  (namespace nc +:+ ":" +:+ tag)%string.

Section Namespace.
Context {S V T : Type} `{Store S V T} (order : ClusterState -> list (string * NodeInfo)).

Definition NS_Set (nc : NamespacedCache) (key : string) (value : GoValue V) (ttl : Duration)
    (clk : Clock) :=
  Cache_Set order (nsCache nc) (prefixKey nc key) value ttl clk.

Definition NS_Get (nc : NamespacedCache) (key : string) (dest : Dest T) (clk : Clock) :=
  Cache_Get (nsCache nc) (prefixKey nc key) dest clk.

Definition NS_Delete (nc : NamespacedCache) (key : string) (clk : Clock) :=
  Cache_Delete order (nsCache nc) (prefixKey nc key) clk.

Definition NS_Exists (nc : NamespacedCache) (key : string) (clk : Clock) :=
  Cache_Exists (nsCache nc) (prefixKey nc key) clk.

Definition NS_TTL (nc : NamespacedCache) (key : string) (clk : Clock) :=
  Cache_TTL (nsCache nc) (prefixKey nc key) clk.

Definition NS_GetOrSet (nc : NamespacedCache) (key : string) (dest : Dest T) (ttl : Duration)
    (fn : M (result (GoValue V))) (clk : Clock) :=
  Cache_GetOrSet order (nsCache nc) (prefixKey nc key) dest ttl fn clk.

Definition NS_Incr (nc : NamespacedCache) (key : string) (delta : Z) (clk : Clock) :=
  Cache_Incr (nsCache nc) (prefixKey nc key) delta clk.

Definition NS_Decr (nc : NamespacedCache) (key : string) (delta : Z) (clk : Clock) :=
  Cache_Decr (nsCache nc) (prefixKey nc key) delta clk.

Definition NS_SetWithTags (nc : NamespacedCache) (key : string) (value : GoValue V) (ttl : Duration)
    (tgs : list string) (clk : Clock) :=
  Cache_SetWithTags order (nsCache nc) (prefixKey nc key) value ttl (prefixTag nc <$> tgs) clk.

Definition NS_InvalidateTag (nc : NamespacedCache) (setOrder : gset string -> list string)
    (tag : string) (clk : Clock) :=
  Cache_InvalidateTag order (nsCache nc) setOrder (prefixTag nc tag) clk.
End Namespace.

(** ** Prefixes *)

Lemma append_assoc (x y z : string) : ((x +:+ y) +:+ z = x +:+ (y +:+ z))%string.
Proof.
  induction x as [|c x IH]; [done|].
  change (String c ((x +:+ y) +:+ z) = String c (x +:+ (y +:+ z))). by rewrite IH.
Qed.

(** The first colon ends the namespace. *)
Lemma first_colon n1 n2 k1 k2 : has_colon n1 = false -> has_colon n2 = false ->
  (n1 +:+ ":" +:+ k1 = n2 +:+ ":" +:+ k2)%string -> n1 = n2 /\ k1 = k2.
Proof.
  revert n2. induction n1 as [|c n1 IH]; intros [|d n2] H1 H2 He; simpl in *.
  - by injection He.
  - injection He as <- _. done.
  - injection He as -> _. done.
  - injection He as -> He. apply orb_false_iff in H1 as [_ H1], H2 as [_ H2].
    destruct (IH n2 H1 H2 He) as [-> ->]. done.
Qed.

(** ** Properties *)

(** Isolation of namespaces. Two keys, or two tags, of namespaces whose names
    contain no colon meet in the cache only if both namespace and key agree, and
    no namespaced key is the empty key the cache rejects. *)
Theorem namespace_isolation nc1 nc2 k1 k2 :
  has_colon (namespace nc1) = false -> has_colon (namespace nc2) = false ->
  (prefixKey nc1 k1 = prefixKey nc2 k2 -> namespace nc1 = namespace nc2 /\ k1 = k2)
  /\ (prefixTag nc1 k1 = prefixTag nc2 k2 -> namespace nc1 = namespace nc2 /\ k1 = k2)
  /\ prefixKey nc1 k1 ≠ "".
Proof.
  intros H1 H2. split_and!; [by apply first_colon..|].
  unfold prefixKey. by destruct (namespace nc1).
Qed.

(** With a colon in its name a namespace is not isolated: the key b:c of
    namespace a is the key c of namespace a:b, so that each reads, overwrites
    and deletes the other's value. *)
Theorem namespace_colon_collision me a b c :
  prefixKey (WithNamespace me a) (b +:+ ":" +:+ c)
  = prefixKey (WithNamespace me (a +:+ ":" +:+ b)) c
  /\ prefixTag (WithNamespace me a) (b +:+ ":" +:+ c)
     = prefixTag (WithNamespace me (a +:+ ":" +:+ b)) c.
Proof.
  unfold prefixKey, prefixTag. cbn [namespace WithNamespace]. rewrite !append_assoc. done.
Qed.

Lemma namespace_isolation_witness :
  prefixKey (WithNamespace "" "users") "1" ≠ prefixKey (WithNamespace "" "orders") "1".
Proof.
  destruct (namespace_isolation (WithNamespace "" "users") (WithNamespace "" "orders") "1" "1")
    as (Hk & _ & _); [reflexivity..|]. intros [H _]%Hk. discriminate H.
Defined.
