(* ===== verification/Events.v ===== *)
(** pubsub.go, and the cache together with its broker: the calls of the broker
    that the operations of a cache leave in the log, carried out. *)
From S2P Require Import Prelude GoLib Serializer Config Shard Store ShardTheorems MemoryStore Tags LockEngine HashRing RingProofs Cluster Transport Glob GlobProofs Broker BrokerProofs BrokerTheorems Cache CacheProofs CacheTheorems.

(** The closure around a callback that takes the value as an interface. *)
Inductive Closure (U : Type) := WithInterface (fn : U).
Arguments WithInterface {U} fn.

Section Events.
Context {U : Type}.

Abbreviation Broker := (Pubsub.Broker U (Closure U)).
Implicit Types b : Broker.

(** ** pubsub.go

    A subscription is the pointer of the broker's subscription. *)

Definition Cache_Subscribe (pattern : string) b : nat * Broker := Pubsub.Subscribe pattern b.
Definition Subscription_Events (p : nat) b : option (Chan Pubsub.Event) :=
  Pubsub.ch <$> Pubsub.heap b !! p.
Definition Subscription_Close (p : nat) b : option Broker := Pubsub.Close p b.
Definition Cache_OnHit (fn : U) b : Broker := Pubsub.OnHit fn b.
Definition Cache_OnMiss (fn : U) b : Broker := Pubsub.OnMiss fn b.
Definition Cache_OnEvict (fn : U) b : Broker := Pubsub.OnEvict (WithInterface fn) b.
Definition Cache_OnSet (fn : U) b : Broker := Pubsub.OnSet (WithInterface fn) b.
Definition Cache_OnDelete (fn : U) b : Broker := Pubsub.OnDelete fn b.

(** ** The log carried out

    [order] gives the iteration order of the broker's map. Remote calls of
    other goroutines do not concern the broker. *)
Section Dispatch.
Context (order : gmap Z nat -> list (Z * nat)).

Definition perform (now : Time) (e : Effect) b : option (list (Pubsub.HookCall U (Closure U)) * Broker) :=
  match e with
  | Publish type key value =>
      match Pubsub.Publish now (order (Pubsub.subscriptions b))
              (Pubsub.MkEvent type key value zeroTime "") b with
      | Some b' => Some ([], b')
      | None => None
      end
  | FireHit key => Some (Pubsub.FireHit key b, b)
  | FireMiss key => Some (Pubsub.FireMiss key b, b)
  | FireEvict key value => Some (Pubsub.FireEvict key value b, b)
  | FireSet key value => Some (Pubsub.FireSet key value b, b)
  | FireDelete key => Some (Pubsub.FireDelete key b, b)
  | GoRemote _ _ | Print _ => Some ([], b)
  end.

Fixpoint performAll (clk : Clock) (es : list Effect) b
  : option (list (Pubsub.HookCall U (Closure U)) * Broker) :=
  match es with
  | [] => Some ([], b)
  | e :: es' =>
      match perform (clk 0%nat) e b with
      | None => None
      | Some (cs, b') =>
          match performAll (advance 1 clk) es' b' with
          | None => None
          | Some (cs', b'') => Some (cs ++ cs', b'')
          end
      end
  end.
End Dispatch.

Definition iterates (order : gmap Z nat -> list (Z * nat)) : Prop :=
  forall m, order m ≡ₚ map_to_list m.

(** ** Notification of a Set *)

Section Notify.
Context {S V T : Type} `{StoreLaws S V T}.

(** A Set that succeeds tells the node's subscribers: every open
    subscription whose pattern matches the key and whose buffer has room gets the
    event with key and serialized value, stamped with the time of the call; the
    others are unchanged; and every OnSet callback is called once, in the order
    of registration. *)
Theorem cache_set_notifies border tr b norder w me key o c co value data ttl clk :
  PubsubProofs.Run Pubsub.NewBroker tr b -> iterates border ->
  Z.of_nat (length (Pubsub.heap b)) < 2 ^ 64 ->
  Serves (net w) me key o c co -> store_ok (store co) -> ClockOk clk -> key ≠ "" ->
  Serialize value = Ok data -> ttl ≠ 0 -> admits (store co) key data ttl clk ->
  exists w' es b', Cache_Set norder me key value ttl clk w = Some (Ok tt, w')
    /\ log w' = log w ++ es
    /\ performAll border clk es b
       = Some ((fun fn => Pubsub.CallValue fn key data) <$> Pubsub.onSet b, b')
    /\ forall p s, Pubsub.heap b !! p = Some s -> exists s', Pubsub.heap b' !! p = Some s'
        /\ if negb (Pubsub.closed s) && bool_decide (path_Match (Pubsub.pattern s) key = Matched true)
              && (length (ch_buf (Pubsub.ch s)) <? 256)%nat
           then ch_buf (Pubsub.ch s')
                = ch_buf (Pubsub.ch s) ++ [Pubsub.MkEvent EventSet key data (clk 0%nat) ""]
           else s' = s.
Proof.
  intros Hrun Hord Hlen Hsv Hok Hclk Hk Hser Httl Ha.
  destruct (Cache_Set_spec norder w me key o c co value data ttl clk Hsv Hok Hclk Hk Hser Httl Ha)
    as (c' & Hset & _).
  pose proof (PubsubTheorems.run_wf tr b Hrun) as Hwf.
  destruct (PubsubProofs.publish_wf (clk 0%nat) _ (Pubsub.MkEvent EventSet key data zeroTime "")
    b Hwf (Hord (Pubsub.subscriptions b))) as (b' & HP & _ & _ & _ & Hget).
  eexists _, _, b'. split; [exact Hset|]. split; [done|]. split.
  { cbn [performAll perform]. unfold Pubsub.FireSet. rewrite HP, (PubsubTheorems.publish_hooks _ _ _ _ _ HP). cbn [app].
    by rewrite app_nil_r. }
  intros p s Hp. eexists. split; [by apply (Hget p s Hp)|].
  exact (PubsubTheorems.deliver_cases (clk 0%nat) (Pubsub.MkEvent EventSet key data zeroTime "") s).
Qed.
End Notify.
End Events.

(** ** Witness *)

#[local] Existing Instance tagged_msgpack.
#[local] Instance w_ev_laws : StoreLaws MemoryStore := MemoryStore_Laws 1000.

Definition w_broker : Pubsub.Broker nat (Closure nat) := (Cache_Subscribe "k*" Pubsub.NewBroker).2.

Lemma w_serves : exists o co, Serves w_net "10.0.0.1:7947" "k" o (w_cache (Some w_ta)) co.
Proof.
  destruct (cluster_serves w_net w_addr {["a"; "b"]} 3 "10.0.0.1:7947" (w_cache (Some w_ta)) "k"
    w_net_ok w_net_nonempty eq_refl) as (r & _ & _ & _ & co & Hs). eauto.
Qed.

Lemma cache_set_notifies_witness :
  exists w' es b',
    Cache_Set (fun _ => []) "10.0.0.1:7947" "k" (GBytes [Byte.x01]) Second w_clock (MkWorld w_net [])
      = Some (Ok tt, w')
    /\ performAll map_to_list w_clock es w_broker = Some ([], b').
Proof.
  destruct w_serves as (o & co & Hs).
  destruct (w_net_stores o co (sv_owner _ _ _ _ _ _ Hs)) as (Hok & Ha & _).
  destruct (cache_set_notifies map_to_list [(PubsubProofs.OpSubscribe "k*", PubsubProofs.Pointer 0)]
    w_broker (fun _ => []) (MkWorld w_net []) "10.0.0.1:7947" "k" o (w_cache (Some w_ta)) co
    (GBytes [Byte.x01]) [Byte.x01] Second w_clock) as (w' & es & b' & H1 & _ & H2 & _).
  - eapply PubsubProofs.run_cons; [done|reflexivity|constructor].
  - by intros m.
  - vm_compute. reflexivity.
  - exact Hs.
  - exact Hok.
  - exact w_clock_ok.
  - discriminate.
  - reflexivity.
  - discriminate.
  - exact Ha.
  - exists w', es, b'. by split.
Defined.
