(* ===== verification/GoStrings.v ===== *)
(** What the HTTP code and the command use of Go's strings, strconv, time and
    net/http packages on text: splitting and trimming, integers and durations
    as text, canonical header names. A string is taken as the list of its
    bytes. *)
From stdpp Require Import pretty.
From S2P Require Import Prelude GoLib Glob Float64.

(** ** Bytes and strings *)

Fixpoint of_bytes (l : list Z) : string :=
  match l with
  | [] => ""
  | b :: l' => String (Ascii.ascii_of_N (Z.to_N b)) (of_bytes l')
  end.

Lemma of_bytes_string s : of_bytes (string_bytes s) = s.
Proof.
  induction s as [|c s IH]; simpl; [done|].
  by rewrite N2Z.id, Ascii.ascii_N_embedding, IH.
Qed.

Abbreviation c_comma := 44 (only parsing).
Abbreviation c_colon := 58 (only parsing).

Definition is_digit (c : Z) : bool := between 48 c 57.

(** [strings.Cut] at a one-byte separator: what comes before the first one, and
    after it. *)
Fixpoint cut (sep : Z) (s : list Z) : list Z * option (list Z) :=
  match s with
  | [] => ([], None)
  | c :: s' =>
      if c =? sep then ([], Some s')
      else let '(before, after) := cut sep s' in (c :: before, after)
  end.

(** [strings.Split] at a one-byte separator. *)
Fixpoint split (sep : Z) (s : list Z) : list (list Z) :=
  match s with
  | [] => [[]]
  | c :: s' =>
      if c =? sep then [] :: split sep s'
      else
        match split sep s' with
        | part :: parts => (c :: part) :: parts
        | [] => [[c]]
        end
  end.

(** [unicode.IsSpace] *)
Definition IsSpace (r : Z) : bool :=
  between 9 r 13 || (r =? 32) || (r =? 133) || (r =? 160) || (r =? 5760) || between 8192 r 8202
  || (r =? 8232) || (r =? 8233) || (r =? 8239) || (r =? 8287) || (r =? 12288).

(** [utf8.RuneStart] and [utf8.DecodeLastRuneInString], on the reversed bytes:
    at most four bytes are looked at. *)
Definition RuneStart (b : Z) : bool := negb (Z.land b 192 =? 128).

Fixpoint lastStart (fuel : nat) (rev : list Z) (acc : list Z) : list Z :=
  match fuel, rev with
  | S fuel', b :: rev' => if RuneStart b then b :: acc else lastStart fuel' rev' (b :: acc)
  | _, _ => acc
  end.

Definition DecodeLastRune (rev : list Z) : Z * nat :=
  match rev with
  | [] => (RuneError, 0%nat)
  | b :: rev' =>
      if b <? 128 then (b, 1%nat)
      else
        let s := lastStart 3 rev' [b] in
        let '(r, size) := DecodeRune s in
        if (size =? length s)%nat then (r, size) else (RuneError, 1%nat)
  end.

Fixpoint trimLeft (fuel : nat) (s : list Z) : list Z :=
  match fuel with
  | O => s
  | S fuel' =>
      let '(r, size) := DecodeRune s in
      if (0 <? size)%nat && IsSpace r then trimLeft fuel' (drop size s) else s
  end.

Fixpoint trimRight (fuel : nat) (rev : list Z) : list Z :=
  match fuel with
  | O => rev
  | S fuel' =>
      let '(r, size) := DecodeLastRune rev in
      if (0 <? size)%nat && IsSpace r then trimRight fuel' (drop size rev) else rev
  end.

(** [strings.TrimSpace] *)
Definition TrimSpace (s : list Z) : list Z :=
  let s := trimLeft (length s) s in
  rev (trimRight (length s) (rev s)).

(** ** strconv.Atoi *)

Fixpoint digits (acc : Z) (s : list Z) : option Z :=
  match s with
  | [] => Some acc
  | c :: s' => if is_digit c then digits (acc * 10 + (c - 48)) s' else None
  end.

(** Decimal with an optional sign; None on a syntax error or outside int64. *)
Definition Atoi (s : string) : option Z :=
  let unsigned l := match l with [] => None | _ => digits 0 l end in
  let '(neg, l) :=
    match string_bytes s with
    | 45 :: l => (true, l)
    | 43 :: l => (false, l)
    | l => (false, l)
    end in
  match unsigned l with
  | None => None
  | Some n =>
      let v := if neg : bool then - n else n in
      if (- 2 ^ 63 <=? v) && (v <? 2 ^ 63) then Some v else None
  end.

(** ** time.ParseDuration *)

(** [leadingInt]: None when the digits exceed 2^63. *)
Fixpoint leadingInt (x : Z) (s : list Z) : option (Z * list Z) :=
  match s with
  | c :: s' =>
      if is_digit c then
        if x >? 2 ^ 63 / 10 then None
        else
          let x := x * 10 + (c - 48) in
          if x >? 2 ^ 63 then None else leadingInt x s'
      else Some (x, s)
  | [] => Some (x, [])
  end.

(** [leadingFraction]: digits that no longer fit are skipped. *)
Fixpoint leadingFraction (x : Z) (scale : float64) (overflow : bool) (s : list Z)
  : Z * float64 * list Z :=
  match s with
  | c :: s' =>
      if is_digit c then
        if overflow then leadingFraction x scale true s'
        else if x >? (2 ^ 63 - 1) / 10 then leadingFraction x scale true s'
        else
          let y := x * 10 + (c - 48) in
          if y >? 2 ^ 63 then leadingFraction x scale true s'
          else leadingFraction y (fmul scale (of_int64 10)) false s'
      else (x, scale, s)
  | [] => (x, scale, [])
  end.

Definition Microsecond : Duration := 1000.
Definition Millisecond : Duration := 1000000.
Definition Minute : Duration := 60 * Second.
Definition Hour : Duration := 60 * Minute.

(** Both spellings of the micro sign are units too. *)
Definition unitMap (u : list Z) : option Z :=
  if bool_decide (u = string_bytes "ns") then Some Nanosecond
  else if bool_decide (u = string_bytes "us" \/ u = string_bytes "µs" \/ u = string_bytes "μs")
    then Some Microsecond
  else if bool_decide (u = string_bytes "ms") then Some Millisecond
  else if bool_decide (u = string_bytes "s") then Some Second
  else if bool_decide (u = string_bytes "m") then Some Minute
  else if bool_decide (u = string_bytes "h") then Some Hour
  else None.

(** The characters up to the next digit or period. *)
Fixpoint unitSpan (s : list Z) : list Z * list Z :=
  match s with
  | c :: s' =>
      if (c =? 46) || is_digit c then ([], s)
      else let '(u, rest) := unitSpan s' in (c :: u, rest)
  | [] => ([], [])
  end.

(** [uint64(f)] of a float in range. *)
Definition float_to_uint64 (x : float64) : Z := to_int64 (fun _ => 0) x.

Fixpoint parseLoop (fuel : nat) (s : list Z) (d : Z) : option Z :=
  match fuel with
  | O => None
  | S fuel' =>
      match s with
      | [] => Some d
      | c :: _ =>
          if negb ((c =? 46) || is_digit c) then None
          else
            match leadingInt 0 s with
            | None => None
            | Some (v, s1) =>
                let pre := negb (length s1 =? length s)%nat in
                let '(f, scale, s2, post) :=
                  match s1 with
                  | 46 :: s1' =>
                      let '(f, scale, s2) := leadingFraction 0 (of_int64 1) false s1' in
                      (f, scale, s2, negb (length s2 =? length s1')%nat)
                  | _ => (0, of_int64 1, s1, false)
                  end in
                if negb pre && negb post then None
                else
                  let '(u, s3) := unitSpan s2 in
                  match u, unitMap u with
                  | [], _ | _, None => None
                  | _, Some unit =>
                      if v >? 2 ^ 63 / unit then None
                      else
                        let v := v * unit in
                        let v :=
                          if f >? 0
                          then v + float_to_uint64 (fmul (of_int64 f) (fdiv (of_int64 unit) scale))
                          else v in
                        if (f >? 0) && (v >? 2 ^ 63) then None
                        else
                          let d := uint64 (d + v) in
                          if d >? 2 ^ 63 then None else parseLoop fuel' s3 d
                  end
            end
      end
  end.

(** [time.ParseDuration]; None is an error. *)
Definition ParseDuration (str : string) : option Duration :=
  let s := string_bytes str in
  let '(neg, s) :=
    match s with
    | 45 :: s' => (true, s')
    | 43 :: s' => (false, s')
    | _ => (false, s)
    end in
  if bool_decide (s = [48]) then Some 0
  else if bool_decide (s = []) then None
  else
    match parseLoop (S (length s)) s 0 with
    | None => None
    | Some d =>
        if neg : bool then Some (int64 (- d)) else if d >? 2 ^ 63 - 1 then None else Some d
    end.

(** The fuel is enough: every turn of the loop takes a unit off the text. *)
Lemma leadingInt_length x s v rest : leadingInt x s = Some (v, rest) -> (length rest <= length s)%nat.
Proof.
  revert x. induction s as [|c s IH]; intros x; cbn [leadingInt]; [by intros [= <- <-]|].
  destruct (is_digit c); [|by intros [= <- <-]].
  destruct (x >? 2 ^ 63 / 10); [done|]. destruct (_ >? 2 ^ 63); [done|].
  intros Hs. apply IH in Hs. simpl. lia.
Qed.

Lemma leadingFraction_length x scale ov s f sc rest :
  leadingFraction x scale ov s = (f, sc, rest) -> (length rest <= length s)%nat.
Proof.
  revert x scale ov. induction s as [|c s IH]; intros x scale ov; cbn [leadingFraction]; [by intros [= <- <- <-]|].
  destruct (is_digit c); [|by intros [= <- <- <-]].
  destruct ov; [|destruct (x >? _); [|destruct (_ >? 2 ^ 63)]]; intros Hs; apply IH in Hs; simpl; lia.
Qed.

Lemma unitSpan_length s u rest : unitSpan s = (u, rest) -> length s = (length u + length rest)%nat.
Proof.
  revert u. induction s as [|c s IH]; intros u; cbn [unitSpan]; [by intros [= <- <-]|].
  destruct (_ || _); [by intros [= <- <-]|]. destruct (unitSpan s) as [u' rest'].
  intros [= <- <-]. simpl. by rewrite (IH u').
Qed.

Lemma parseLoop_fuel fuel1 fuel2 s d :
  (length s < fuel1)%nat -> (length s < fuel2)%nat -> parseLoop fuel1 s d = parseLoop fuel2 s d.
Proof.
  revert fuel2 s d. induction fuel1 as [|fuel1 IH]; intros [|fuel2] s d H1 H2; [lia..|]. cbn [parseLoop].
  destruct s as [|c s]; [done|]. destruct (negb _); [done|].
  destruct (leadingInt 0 (c :: s)) as [[v s1]|] eqn:E1; [|done]. apply leadingInt_length in E1.
  set (frac := match s1 with 46 :: s1' => _ | _ => _ end).
  destruct frac as [[[f scale] s2] post] eqn:E2.
  assert (length s2 <= length s1)%nat as H3.
  { unfold frac in E2. clear -E2. destruct s1 as [|a s1]; [by injection E2 as <- <- <- <-|].
    assert (forall x, x = (f, scale, s2, post) -> x = (0, of_int64 1, a :: s1, false) ->
      (length s2 <= length (a :: s1))%nat) as Hother by (intros ? -> [= -> -> -> ->]; done).
    destruct (decide (a = 46)) as [->|Ha].
    - destruct (leadingFraction 0 (of_int64 1) false s1) as [[f' sc'] s2'] eqn:E.
      apply leadingFraction_length in E. injection E2 as <- <- <- <-. simpl. lia.
    - eapply Hother; [exact E2|]. clear -Ha. split_matches; done. }
  destruct (_ && _); [done|]. destruct (unitSpan s2) as [u s3] eqn:E3. apply unitSpan_length in E3.
  destruct u as [|a u]; [done|]. destruct (unitMap (a :: u)) as [unit|]; [|done].
  destruct (v >? _); [done|]. cbv zeta. destruct (_ && _); [done|]. destruct (_ >? _); [done|].
  simpl in *. apply IH; lia.
Qed.

Lemma parseLoop_nonneg fuel s d r : 0 <= d -> parseLoop fuel s d = Some r -> 0 <= r.
Proof.
  revert s d. induction fuel as [|fuel IH]; intros s d Hd; [done|]. cbn [parseLoop].
  destruct s as [|c s]; [by intros [= <-]|]. destruct (negb _); [done|].
  destruct (leadingInt 0 (c :: s)) as [[v s1]|]; [|done].
  destruct (match s1 with 46 :: s1' => _ | _ => _ end) as [[[f scale] s2] post].
  destruct (_ && _); [done|]. destruct (unitSpan s2) as [[|a u] s3]; [done|].
  destruct (unitMap (a :: u)); [|done]. destruct (v >? _); [done|]. cbv zeta.
  destruct (_ && _); [done|]. destruct (_ >? _); [done|]. apply IH. unfold uint64.
  apply Z.mod_pos_bound. lia.
Qed.

(** Durations are int64. *)
Lemma ParseDuration_range s d : ParseDuration s = Some d -> - 2 ^ 63 <= d < 2 ^ 63.
Proof.
  unfold ParseDuration. destruct (match string_bytes s with 45 :: _ => _ | _ => _ end) as [neg l].
  destruct (bool_decide (l = [48])); [intros [= <-]; lia|]. destruct (bool_decide (l = [])); [done|].
  destruct (parseLoop _ l 0) as [r|] eqn:E; [|done]. apply parseLoop_nonneg in E; [|lia].
  destruct neg.
  - intros [= <-]. pose proof (int64_range (- r)) as Hr. unfold is_int64 in Hr. lia.
  - destruct (Z.gtb_spec r (2 ^ 63 - 1)); [done|]. intros [= <-]. lia.
Qed.

(** ** net/textproto.CanonicalMIMEHeaderKey

    On names of letters, digits and hyphens: upper case at the beginning and
    after a hyphen, lower case elsewhere. *)
Fixpoint canonicalLoop (upper : bool) (s : list Z) : list Z :=
  match s with
  | [] => []
  | c :: s' =>
      let c :=
        if upper && between 97 c 122 then c - 32
        else if negb upper && between 65 c 90 then c + 32 else c in
      c :: canonicalLoop (c =? 45) s'
  end.

Definition CanonicalHeaderKey (name : string) : string :=
  of_bytes (canonicalLoop true (string_bytes name)).
