(* ===== verification/Http.v ===== *)
(** What the HTTP code uses of net/http: requests, and the ResponseWriter, whose
    header can be changed until it is sent; and of fmt, encoding/base64 and
    time, the text formats it writes. *)
From Stdlib Require Import QArith.
From stdpp Require Import pretty.
From S2P Require Import Prelude GoLib Glob Float64 GoStrings.

Open Scope Z_scope.

(** ** Messages *)

(** Header fields by name, as Set and Add leave them by canonical name; a field can
    have several values. *)
Abbreviation Headers := (gmap string (list string)).

(** The first value, or the empty string. *)
Definition Header_Get (name : string) (h : Headers) : string :=
  match h !! CanonicalHeaderKey name with
  | Some (v :: _) => v
  | _ => ""
  end.

(** [rBody] is what reading the body gives: bytes, or None for an error. *)
Record Request := MkHttpRequest {
  Method : string;
  URL : string;
  Path : list string;
  rHeader : Headers;
  rBody : option bytes;
  RemoteAddr : string;
}.

(** [wSent] is the status and the header as they were sent; [wCodes] the
    arguments of the calls of WriteHeader, which wrappers record; [wFlusher]
    tells whether the dynamic type of the writer implements http.Flusher. *)
Record ResponseWriter := MkResponseWriter {
  wHeader : Headers;
  wSent : option (Z * Headers);
  wOutput : bytes;
  wCodes : list Z;
  wFlusher : bool;
}.

(** The writer the server of net/http passes to its handler. *)
Definition newWriter : ResponseWriter := MkResponseWriter ∅ None [] [] true.

Definition Header_Set (name value : string) (w : ResponseWriter) : ResponseWriter :=
  MkResponseWriter (<[CanonicalHeaderKey name := [value]]> (wHeader w)) (wSent w) (wOutput w)
    (wCodes w) (wFlusher w).

(** Handlers of other programs may also add a value to a field. *)
Definition Header_Add (name value : string) (w : ResponseWriter) : ResponseWriter :=
  let name := CanonicalHeaderKey name in
  MkResponseWriter (<[name := default [] (wHeader w !! name) ++ [value]]> (wHeader w)) (wSent w) (wOutput w)
    (wCodes w) (wFlusher w).

(** Only the first call sends the header. The codes are those of final responses:
    no source sends an informational one. *)
Definition sendHeader (code : Z) (w : ResponseWriter) : ResponseWriter :=
  match wSent w with
  | Some _ => w
  | None => MkResponseWriter (wHeader w) (Some (code, wHeader w)) (wOutput w) (wCodes w) (wFlusher w)
  end.

Definition WriteHeader (code : Z) (w : ResponseWriter) : ResponseWriter :=
  let w := sendHeader code w in
  MkResponseWriter (wHeader w) (wSent w) (wOutput w) (wCodes w ++ [code]) (wFlusher w).

(** The first Write sends the header with status 200. *)
Definition Write (b : bytes) (w : ResponseWriter) : ResponseWriter :=
  let w := sendHeader 200 w in
  MkResponseWriter (wHeader w) (wSent w) (wOutput w ++ b) (wCodes w) (wFlusher w).

(** What the client gets when the handler has returned. *)
Record Response := MkHttpResponse {
  StatusCode : Z;
  Fields : Headers;
  Content : bytes;
}.

Definition finish (w : ResponseWriter) : Response :=
  match wSent (sendHeader 200 w) with
  | Some (code, h) => MkHttpResponse code h (wOutput w)
  | None => MkHttpResponse 200 (wHeader w) (wOutput w)
  end.

(** A wrapper that records the status: the last code, 200 when there was none. *)
Definition recorded (codes : list Z) : Z := default 200 (last codes).

(** ** Text *)

Definition ascii_bytes (s : string) : bytes := byte_of_Z <$> string_bytes s.

(** [Duration.String]: the digits of a fraction without trailing zeros. *)
Fixpoint fmtFrac (prec : nat) (v : Z) (print : bool) (acc : string) : string * Z :=
  match prec with
  | O => (if print then "." +:+ acc else acc, v)
  | S prec' =>
      let digit := v mod 10 in
      let print := print || negb (digit =? 0) in
      fmtFrac prec' (v / 10) print (if print then pretty digit +:+ acc else acc)
  end.

Definition Duration_String (d : Duration) : string :=
  let neg := d <? 0 in
  let u := Z.abs d in
  let text :=
    if u <? Second then
      if u =? 0 then "0s"
      else if u <? Microsecond then pretty u +:+ "ns"
      else
        let '(prec, unit) := if u <? Millisecond then (3%nat, "µs") else (6%nat, "ms") in
        let '(frac, v) := fmtFrac prec u false "" in pretty v +:+ frac +:+ unit
    else
      let '(frac, s) := fmtFrac 9 u false "" in
      let seconds := pretty (s mod 60) +:+ frac +:+ "s" in
      let m := s / 60 in
      if m >? 0 then
        let minutes := pretty (m mod 60) +:+ "m" in
        let h := m / 60 in
        if h >? 0 then pretty h +:+ "h" +:+ minutes +:+ seconds else minutes +:+ seconds
      else seconds in
  if neg then "-" +:+ text else text.

(** [%.0f] of a finite float. *)
Definition format0f (x : float64) : string :=
  match x with
  | Fin q => pretty (rhe q)
  | Inf true => "-Inf"
  | Inf false => "+Inf"
  | NaN => "NaN"
  end.

(** [Time.Unix] *)
Definition Unix (t : Time) : Z := (t - unixEpoch) / Second.

(** encoding/base64, StdEncoding. *)
Definition base64_alphabet : list Z :=
  string_bytes "ABCDEFGHIJKLMNOPQRSTUVWXYZabcdefghijklmnopqrstuvwxyz0123456789+/".

Definition base64_digit (z : Z) : Z := default 61 (base64_alphabet !! Z.to_nat z).

Fixpoint base64_groups (b : list Z) : list Z :=
  match b with
  | x :: y :: z :: rest =>
      base64_digit (Z.shiftr x 2)
      :: base64_digit (Z.lor (Z.shiftl (Z.land x 3) 4) (Z.shiftr y 4))
      :: base64_digit (Z.lor (Z.shiftl (Z.land y 15) 2) (Z.shiftr z 6))
      :: base64_digit (Z.land z 63) :: base64_groups rest
  | [x; y] =>
      [base64_digit (Z.shiftr x 2);
       base64_digit (Z.lor (Z.shiftl (Z.land x 3) 4) (Z.shiftr y 4));
       base64_digit (Z.shiftl (Z.land y 15) 2); 61]
  | [x] => [base64_digit (Z.shiftr x 2); base64_digit (Z.shiftl (Z.land x 3) 4); 61; 61]
  | [] => []
  end.

Definition base64_encode (b : bytes) : string := of_bytes (base64_groups (Z_of_byte <$> b)).

(** ** JSON values

    The encoder writes the fields of a Go map in the order of their names. *)

#[warnings="-register-all"]
Inductive Json :=
  | JString (s : string)
  | JBool (b : bool)
  | JInt (z : Z)
  | JFloat (x : float64)
  | JArray (l : list Json)
  | JObject (fields : list (string * Json)).
