(* ===== verification/Server.v ===== *)
(** internal/server: the HTTP handlers, their routes and the middleware around
    them, on a node: the caches of the network, the rate limiters and the broker
    of this one.

    encoding/json is a parameter: what it makes of a request body, and the text
    of a value. So are the formatting of a date and the figures of the Go
    runtime. *)
From stdpp Require Import pretty.
From S2P Require Import Prelude GoLib Serializer Config Shard Store Tags LockEngine LockProofs HashRing Cluster Transport Glob Broker Cache CacheLock Float64 RateLimit GoStrings Http.

#[local] Open Scope cache_scope.

(** ** State *)

Record Node (S : Type) := MkNode {
  world : World (S := S);
  tokenBucket : gmap string Ratelimit.bucket;
  slidingWindow : gmap string Ratelimit.window;
  broker : Pubsub.Broker unit unit;
  logger : list string;
}.
Arguments MkNode {S} world tokenBucket slidingWindow broker logger.
Arguments world {S} n : rename.
Arguments tokenBucket {S} n : rename.
Arguments slidingWindow {S} n : rename.
Arguments broker {S} n : rename.
Arguments logger {S} n : rename.

(** The bodies of requests. *)
Record LockBody := MkLockBody { lbTTL : string; lbRetryCount : Z; lbRetryDelay : string }.
Record RateLimitBody := MkRateLimitBody { rbLimit : Z; rbWindow : string; rbAlgorithm : string }.

(** The figures of package runtime that handleMetrics prints. *)
Record RuntimeStats := MkRuntimeStats { goroutines : Z; memAlloc : Z; memSys : Z }.

(** [json.NewDecoder(body).Decode], at the types the handlers use, and
    [json.Marshal]. *)
Class JsonCodec := {
  decodeKeys : bytes -> option (list string);
  decodeLock : bytes -> option LockBody;
  decodeTTL : bytes -> option string;
  decodeRateLimit : bytes -> option RateLimitBody;
  marshalJson : Json -> bytes;
}.

(** ** Request parsing *)

Definition parseTTL (s : string) : Duration :=
  if String.eqb s "" then 0
  else
    match ParseDuration s with
    | Some d => d
    | None =>
        match Atoi s with
        | Some sec => int64 (sec * Second)
        | None => 0
        end
    end.

Definition parseTags (s : string) : list string :=
  if String.eqb s "" then []
  else
    of_bytes <$> filter (fun p => p ≠ []) (TrimSpace <$> split 44 (string_bytes s)).

(** [io.LimitReader]: at most [n] bytes. *)
Fixpoint limitReader (n : Z) (b : bytes) : bytes :=
  match b with
  | [] => []
  | x :: b' => if n <=? 0 then [] else x :: limitReader (n - 1) b'
  end.

Definition maxBody : Z := 10 * 2 ^ 20.

(** A duration of a body: zero, when it does not parse, counts as none. *)
Definition durationOr (d : Duration) (s : string) : Duration :=
  let ttl := default 0 (ParseDuration s) in if ttl <=? 0 then d else ttl.

Section Server.
Context {S V T : Type} `{Store S V T} `{JsonCodec}.
Context (machine : float64 -> Z) (order : ClusterState -> list (string * NodeInfo)).
Context (rfc3339 : Time -> string).
Context (me : string) (startTime : Time) (stats : RuntimeStats).

Abbreviation Node := (Node S).
Implicit Types (w : ResponseWriter) (n : Node) (r : Request).

(** What a handler did: it returned, or it panicked. *)
Inductive Outcome := Returned w n | Panicked w n.

Definition Handler := Request -> Clock -> ResponseWriter -> Node -> Outcome.

Definition set_world (wd : World (S := S)) n : Node :=
  MkNode wd (tokenBucket n) (slidingWindow n) (broker n) (logger n).
Definition set_broker (b : Pubsub.Broker unit unit) n : Node :=
  MkNode (world n) (tokenBucket n) (slidingWindow n) b (logger n).
Definition logf (line : string) n : Node :=
  MkNode (world n) (tokenBucket n) (slidingWindow n) (broker n) (logger n ++ [line]).

(** A call of the cache from a handler. *)
Definition cacheCall {A} (m : M (S := S) A) (w : ResponseWriter) n (k : A -> Node -> Outcome) : Outcome :=
  match m (world n) with
  | Some (a, wd') => k a (set_world wd' n)
  | None => Panicked w n
  end.

(** ** server.go *)

(** [json.NewEncoder(w).Encode] ends the text with a newline. *)
Definition encodeJson (v : Json) : bytes := marshalJson v ++ ascii_bytes (of_bytes [10]).

Definition writeJSON (status : Z) (v : Json) w : ResponseWriter :=
  Write (encodeJson v) (WriteHeader status (Header_Set "Content-Type" "application/json" w)).

Definition writeError (status : Z) (msg : string) w : ResponseWriter :=
  writeJSON status (JObject [("error", JString msg)]) w.

Definition readJSON {A} (decode : bytes -> option A) r : option A := rBody r ≫= decode.

(** ** handler_cache.go *)

Definition handleCacheGet (key : string) : Handler := fun r clk w n =>
  if String.eqb key "" then Returned (writeError 400 "key is required" w) n
  else
    cacheCall (Cache_Get me key DBytes clk) w n (fun v n =>
      match v with
      | Some v =>
          let raw := match v with GBytes raw => raw | _ => [] end in
          let w := Header_Set "Content-Type" "application/octet-stream" w in
          cacheCall (Cache_TTL me key (advance 8 clk)) w n (fun ttl n =>
            let w := if ttl >? 0 then Header_Set "X-TTL" (Duration_String ttl) w else w in
            Returned (Write raw (WriteHeader 200 w)) n)
      | None => Returned (writeError 404 "key not found" w) n
      end).

Definition handleCacheSet (key : string) : Handler := fun r clk w n =>
  if String.eqb key "" then Returned (writeError 400 "key is required" w) n
  else
    match rBody r with
    | None => Returned (writeError 400 "failed to read body" w) n
    | Some all =>
        let body := limitReader maxBody all in
        let ttl := parseTTL (Header_Get "X-TTL" (rHeader r)) in
        let tgs := parseTags (Header_Get "X-Tags" (rHeader r)) in
        let set :=
          if (0 <? length tgs)%nat then Cache_SetWithTags order me key (GBytes body) ttl tgs clk
          else Cache_Set order me key (GBytes body) ttl clk in
        cacheCall set w n (fun res n =>
          match res with
          | Err err => Returned (writeError 500 (Error_Error err) w) n
          | Ok _ => Returned (WriteHeader 204 w) n
          end)
    end.

Definition handleCacheDelete (key : string) : Handler := fun r clk w n =>
  if String.eqb key "" then Returned (writeError 400 "key is required" w) n
  else cacheCall (Cache_Delete order me key clk) w n (fun _ n => Returned (WriteHeader 204 w) n).

Definition handleCacheExists (key : string) : Handler := fun r clk w n =>
  if String.eqb key "" then Returned (WriteHeader 400 w) n
  else
    cacheCall (Cache_Exists me key clk) w n (fun found n =>
      Returned (WriteHeader (if found : bool then 200 else 404) w) n).

Definition handleCacheMGet : Handler := fun r clk w n =>
  match readJSON decodeKeys r with
  | None => Returned (writeError 400 "invalid JSON body" w) n
  | Some keys =>
      cacheCall (Cache_MGet me keys clk) w n (fun results n =>
        let resp := (fun '(k, v) => (k, JString (base64_encode v))) <$> map_to_list results in
        Returned (writeJSON 200 (JObject resp) w) n)
  end.

(** ** handler_lock.go *)

Definition handleLockAcquire (key : string) : Handler := fun r clk w n =>
  if String.eqb key "" then Returned (writeError 400 "key is required" w) n
  else
    match readJSON decodeLock r with
    | None => Returned (writeError 400 "invalid JSON body" w) n
    | Some req =>
        let ttl := durationOr (30 * Second) (lbTTL req) in
        let retryDelay := default 0 (ParseDuration (lbRetryDelay req)) in
        cacheCall (Cache_Lock me key (MkLockOptions ttl (lbRetryCount req) retryDelay) clk) w n
          (fun res n =>
            match res with
            | Err ErrLockNotAcquired =>
                Returned (writeJSON 409 (JObject
                  [("acquired", JBool false); ("error", JString (Error_Error ErrLockNotAcquired))]) w) n
            | Err err => Returned (writeError 500 (Error_Error err) w) n
            | Ok handle =>
                Returned (writeJSON 200 (JObject
                  [("acquired", JBool true); ("token", JInt (LockHandle_Token handle));
                   ("fencing_token", JInt (LockHandle_Token handle))]) w) n
            end)
    end.

Definition handleLockRelease (key : string) : Handler := fun r clk w n =>
  if String.eqb key "" then Returned (writeError 400 "key is required" w) n
  else
    let token := Header_Get "X-Lock-Token" (rHeader r) in
    if String.eqb token "" then Returned (writeError 400 "X-Lock-Token header is required" w) n
    else
      cacheCall (withEngine me (Lock.Release (lockKeyOf key) token)) w n (fun released n =>
        if negb released then
          Returned (writeJSON 409 (JObject
            [("released", JBool false); ("error", JString "lock not held or expired")]) w) n
        else Returned (writeJSON 200 (JObject [("released", JBool true)]) w) n).

Definition handleLockExtend (key : string) : Handler := fun r clk w n =>
  if String.eqb key "" then Returned (writeError 400 "key is required" w) n
  else
    let token := Header_Get "X-Lock-Token" (rHeader r) in
    if String.eqb token "" then Returned (writeError 400 "X-Lock-Token header is required" w) n
    else
      match readJSON decodeTTL r with
      | None => Returned (writeError 400 "invalid JSON body" w) n
      | Some text =>
          let ttl := durationOr (30 * Second) text in
          cacheCall (withEngine me (Lock.Extend (lockKeyOf key) token ttl clk)) w n (fun extended n =>
            if negb extended then
              Returned (writeJSON 409 (JObject
                [("extended", JBool false); ("error", JString "lock not held or expired")]) w) n
            else Returned (writeJSON 200 (JObject [("extended", JBool true)]) w) n)
      end.

(** ** handler_ratelimit.go *)

Definition rateHeaders (st : Ratelimit.RateLimitState) w : ResponseWriter :=
  Header_Set "X-RateLimit-Reset" (pretty (Unix (Ratelimit.rl_ResetsAt st)))
    (Header_Set "X-RateLimit-Remaining" (pretty (Ratelimit.rl_Remaining st))
      (Header_Set "X-RateLimit-Limit" (pretty (Ratelimit.rl_Limit st)) w)).

Definition handleRateLimit (key : string) : Handler := fun r clk w n =>
  if String.eqb key "" then Returned (writeError 400 "key is required" w) n
  else
    match readJSON decodeRateLimit r with
    | None => Returned (writeError 400 "invalid JSON body" w) n
    | Some req =>
        if rbLimit req <=? 0 then Returned (writeError 400 "limit must be > 0" w) n
        else
          let window := durationOr Minute (rbWindow req) in
          let '(allowed, st, n) :=
            if String.eqb (rbAlgorithm req) "sliding_window" then
              let '(a, st, sw) := Ratelimit.Cache_RateLimitSliding machine key (rbLimit req) window
                                    (clk 0%nat) (slidingWindow n) in
              (a, st, MkNode (world n) (tokenBucket n) sw (broker n) (logger n))
            else
              let '(a, st, tb) := Ratelimit.Cache_RateLimit machine key (rbLimit req) window
                                    (clk 0%nat) (tokenBucket n) in
              (a, st, MkNode (world n) tb (slidingWindow n) (broker n) (logger n)) in
          let status := if allowed : bool then 200 else 429 in
          Returned (writeJSON status (JObject
            [("allowed", JBool allowed); ("remaining", JInt (Ratelimit.rl_Remaining st));
             ("limit", JInt (Ratelimit.rl_Limit st));
             ("resets_at", JInt (Unix (Ratelimit.rl_ResetsAt st)))]) (rateHeaders st w)) n
    end.

(** ** handler_pubsub.go *)

Definition EventType_text (t : EventType) : string :=
  match t with
  | EventSet => "set"
  | EventDelete => "delete"
  | EventExpire => "expire"
  | EventEvict => "evict"
  end.

(** The handler up to its loop: refused, or subscribed with the header sent. *)
Definition sseStart (pattern : string) w n : (ResponseWriter * Node) + (nat * ResponseWriter * Node) :=
  let pattern := if String.eqb pattern "" then "*" else pattern in
  if negb (wFlusher w) then inl (writeError 500 "streaming not supported" w, n)
  else
    let w := Header_Set "Content-Type" "text/event-stream" w in
    let w := Header_Set "Cache-Control" "no-cache" w in
    let w := Header_Set "Connection" "keep-alive" w in
    let w := WriteHeader 200 w in
    let '(p, b) := Pubsub.Subscribe pattern (broker n) in
    inr (p, w, set_broker b n).

(** One turn of the loop: the client went away, or a receive. The result says
    whether the loop goes on; a receive that has to wait changes nothing. *)
Definition sseTurn (gone : bool) (p : nat) w n : option (bool * ResponseWriter * Node) :=
  let leave :=
    match Pubsub.Close p (broker n) with
    | Some b => Some (false, w, set_broker b n)
    | None => None
    end in
  if gone then leave
  else
    match Pubsub.Receive p (broker n) with
    | None => None
    | Some (AtEnd, _) => leave
    | Some (Waits, _) => Some (true, w, n)
    | Some (Got evt, b) =>
        let data := marshalJson (JObject
          [("type", JString (EventType_text (Pubsub.Type_ evt))); ("key", JString (Pubsub.Key evt))]) in
        Some (true, Write (ascii_bytes "data: " ++ data ++ ascii_bytes (of_bytes [10; 10])) w, set_broker b n)
    end.

(** The handler for a sequence of turns, true where the client has gone. *)
Fixpoint sseLoop (turns : list bool) (p : nat) w n : Outcome :=
  match turns with
  | [] => Returned w n
  | gone :: turns' =>
      match sseTurn gone p w n with
      | None => Panicked w n
      | Some (false, w', n') => Returned w' n'
      | Some (true, w', n') => sseLoop turns' p w' n'
      end
  end.

Definition handleSubscribeSSE (turns : list bool) (pattern : string) : Handler := fun r clk w n =>
  match sseStart pattern w n with
  | inl (w', n') => Returned w' n'
  | inr (p, w', n') => sseLoop turns p w' n'
  end.

(** ** handler_cluster.go *)

Definition ClusterState_of n : option ClusterState :=
  match hosts (net (world n)) !! me with
  | Some c => fst <$> cluster c
  | None => None
  end.

Definition nodeJson (i : NodeInfo) : Json :=
  JObject [("name", JString (Name i)); ("addr", JString (Addr i)); ("rpc_addr", JString (RPCAddr i));
           ("http_addr", JString (HTTPAddr i)); ("status", JString (NodeStatus_String (Status i)));
           ("joined_at", JString (rfc3339 (JoinedAt i)))].

Definition handleClusterNodes : Handler := fun r clk w n =>
  match ClusterState_of n with
  | None => Returned (writeJSON 200 (JObject [("mode", JString "local"); ("nodes", JArray [])]) w) n
  | Some cs =>
      Returned (writeJSON 200 (JObject
        [("self", JString (SelfName cs)); ("node_count", JInt (NodeCount cs));
         ("nodes", JArray (nodeJson <$> AllNodes (order cs)))]) w) n
  end.

Definition handleHealth : Handler := fun r clk w n =>
  cacheCall (Cache_Len me) w n (fun keys n =>
    let resp :=
      [("status", JString "ok"); ("uptime", JString (Duration_String (Sub (clk 0%nat) startTime)));
       ("keys", JInt keys)] in
    let resp :=
      match ClusterState_of n with
      | Some cs => resp ++ [("cluster_nodes", JInt (NodeCount cs))]
      | None => resp
      end in
    Returned (writeJSON 200 (JObject resp) w) n).

(** A gauge of the Prometheus text format. *)
Definition gauge (name help value : string) (blank : bool) : bytes :=
  let nl := of_bytes [10] in
  ascii_bytes ("# HELP " +:+ name +:+ " " +:+ help +:+ nl +:+ "# TYPE " +:+ name +:+ " gauge" +:+ nl
    +:+ name +:+ " " +:+ value +:+ nl +:+ (if blank then nl else "")).

Definition handleMetrics : Handler := fun r clk w n =>
  let w := Header_Set "Content-Type" "text/plain; version=0.0.4; charset=utf-8" w in
  cacheCall (Cache_Len me) w n (fun keys n =>
    let w := Write (gauge "cachegrid_keys_total" "Total number of keys in cache" (pretty keys) true) w in
    let w := Write (gauge "cachegrid_uptime_seconds" "Server uptime in seconds"
                      (format0f (Seconds (Sub (clk 0%nat) startTime))) true) w in
    let w := Write (gauge "cachegrid_go_goroutines" "Number of goroutines" (pretty (goroutines stats)) true) w in
    let w := Write (gauge "cachegrid_go_memstats_alloc_bytes" "Number of bytes allocated and still in use"
                      (pretty (memAlloc stats)) true) w in
    let w := Write (gauge "cachegrid_go_memstats_sys_bytes" "Number of bytes obtained from system"
                      (pretty (memSys stats)) true) w in
    match ClusterState_of n with
    | Some cs =>
        Returned (Write (gauge "cachegrid_cluster_nodes" "Number of cluster nodes"
                           (pretty (NodeCount cs)) false) w) n
    | None => Returned w n
    end).

(** ** routes.go *)

Inductive Route :=
  | RCacheGet (key : string) | RCacheSet (key : string) | RCacheDelete (key : string)
  | RCacheExists (key : string) | RCacheMGet
  | RLockAcquire (key : string) | RLockRelease (key : string) | RLockExtend (key : string)
  | RRateLimit (key : string) | RSubscribe (pattern : string)
  | RClusterNodes | RHealth | RMetrics
  | RMethodNotAllowed (allow : string) | RRedirect (location : string) | RNotFound.

(** [joined] is the rest of the path, for the wildcard of many segments. *)
Definition joined (segments : list string) : string :=
  match segments with
  | [] => ""
  | s :: rest => s +:+ String.concat "" ((fun x => "/" +:+ x) <$> rest)
  end.

(** The table of registerRoutes, as ServeMux applies it to a clean path, given by
    its segments: literals before wildcards; a pattern for GET also matches HEAD
    unless a pattern for HEAD does; a wildcard matches one segment that is not
    empty, the last wildcard of /subscribe/ any number; a path that some pattern
    matches but for the method is answered 405 with the methods it has, and
    /subscribe, without the slash, is redirected. *)
Definition registerRoutes (method : string) (path : list string) : Route :=
  let get := String.eqb method "GET" || String.eqb method "HEAD" in
  match path with
  | ["cache"; key] =>
      let allow := if String.eqb key "_mget" then "DELETE, GET, HEAD, POST, PUT"
                   else "DELETE, GET, HEAD, PUT" in
      if String.eqb key "" then RNotFound
      else if String.eqb method "POST" && String.eqb key "_mget" then RCacheMGet
      else if String.eqb method "GET" then RCacheGet key
      else if String.eqb method "PUT" then RCacheSet key
      else if String.eqb method "DELETE" then RCacheDelete key
      else if String.eqb method "HEAD" then RCacheExists key
      else RMethodNotAllowed allow
  | ["locks"; key] =>
      if String.eqb key "" then RNotFound
      else if String.eqb method "POST" then RLockAcquire key
      else if String.eqb method "DELETE" then RLockRelease key
      else if String.eqb method "PUT" then RLockExtend key
      else RMethodNotAllowed "DELETE, POST, PUT"
  | ["ratelimit"; key] =>
      if String.eqb key "" then RNotFound
      else if String.eqb method "POST" then RRateLimit key
      else RMethodNotAllowed "POST"
  | ["subscribe"] => if get then RRedirect "/subscribe/" else RMethodNotAllowed "GET, HEAD"
  | "subscribe" :: rest => if get then RSubscribe (joined rest) else RMethodNotAllowed "GET, HEAD"
  | ["cluster"; "nodes"] => if get then RClusterNodes else RMethodNotAllowed "GET, HEAD"
  | ["health"] => if get then RHealth else RMethodNotAllowed "GET, HEAD"
  | ["metrics"] => if get then RMetrics else RMethodNotAllowed "GET, HEAD"
  | _ => RNotFound
  end.

(** [http.Error], which ServeMux and the middleware use. *)
Definition http_Error (msg : string) (code : Z) w : ResponseWriter :=
  Write (ascii_bytes (msg +:+ of_bytes [10])) (WriteHeader code
    (Header_Set "X-Content-Type-Options" "nosniff"
      (Header_Set "Content-Type" "text/plain; charset=utf-8" w))).

(** [http.Redirect], for the redirection of ServeMux. *)
Definition http_Redirect (method location : string) w : ResponseWriter :=
  let w := WriteHeader 301 (Header_Set "Content-Type" "text/html; charset=utf-8"
             (Header_Set "Location" location w)) in
  let quote := of_bytes [34] in let nl := of_bytes [10] in
  if String.eqb method "GET" then
    Write (ascii_bytes ("<a href=" +:+ quote +:+ location +:+ quote +:+ ">Moved Permanently</a>."
                        +:+ nl +:+ nl)) w
  else w.

(** [turns] drives the event stream, should the request be one. *)
Definition mux (turns : list bool) : Handler := fun r =>
  match registerRoutes (Method r) (Path r) with
  | RCacheGet key => handleCacheGet key r
  | RCacheSet key => handleCacheSet key r
  | RCacheDelete key => handleCacheDelete key r
  | RCacheExists key => handleCacheExists key r
  | RCacheMGet => handleCacheMGet r
  | RLockAcquire key => handleLockAcquire key r
  | RLockRelease key => handleLockRelease key r
  | RLockExtend key => handleLockExtend key r
  | RRateLimit key => handleRateLimit key r
  | RSubscribe pattern => handleSubscribeSSE turns pattern r
  | RClusterNodes => handleClusterNodes r
  | RHealth => handleHealth r
  | RMetrics => handleMetrics r
  | RMethodNotAllowed allow => fun _ w n =>
      Returned (http_Error "Method Not Allowed" 405 (Header_Set "Allow" allow w)) n
  | RRedirect location => fun _ w n => Returned (http_Redirect (Method r) location w) n
  | RNotFound => fun _ w n => Returned (http_Error "404 page not found" 404 w) n
  end.

(** ** middleware.go of the server *)

(** The wrapper statusWriter has the methods of http.ResponseWriter and no
    others: it is not a Flusher. *)
Definition statusWriter w : ResponseWriter :=
  MkResponseWriter (wHeader w) (wSent w) (wOutput w) [] false.
Definition unwrapped (inner w : ResponseWriter) : ResponseWriter :=
  MkResponseWriter (wHeader inner) (wSent inner) (wOutput inner) (wCodes w ++ wCodes inner) (wFlusher w).

(** The duration in the log line is left out. *)
Definition loggingMiddleware (next : Handler) : Handler := fun r clk w n =>
  match next r clk (statusWriter w) n with
  | Returned sw n' =>
      Returned (unwrapped sw w) (logf (Method r +:+ " /" +:+ joined (Path r) +:+ " "
                                       +:+ pretty (recorded (wCodes sw))) n')
  | Panicked sw n' => Panicked (unwrapped sw w) n'
  end.

Definition corsMiddleware (next : Handler) : Handler := fun r clk w n =>
  let w := Header_Set "Access-Control-Allow-Origin" "*" w in
  let w := Header_Set "Access-Control-Allow-Methods" "GET, POST, PUT, DELETE, HEAD, OPTIONS" w in
  let w := Header_Set "Access-Control-Allow-Headers" "Content-Type, Authorization" w in
  if String.eqb (Method r) "OPTIONS" then Returned (WriteHeader 204 w) n
  else next r clk w n.

(** The value of the panic is left out of the log line. *)
Definition recoveryMiddleware (next : Handler) : Handler := fun r clk w n =>
  match next r clk w n with
  | Returned w' n' => Returned w' n'
  | Panicked w' n' =>
      Returned (writeError 500 "internal server error" w') (logf "panic recovered" n')
  end.

Definition withMiddleware (next : Handler) : Handler :=
  recoveryMiddleware (corsMiddleware (loggingMiddleware next)).

(** What the server does with a request. *)
Definition serve (turns : list bool) : Handler := withMiddleware (mux turns).
End Server.
