(* ===== verification/ServerProofs.v ===== *)
(** The HTTP server: what every answer has, what a node answers after another
    stored a value, event streams behind the middleware and locks over HTTP. *)
From stdpp Require Import pretty.
From S2P Require Import Prelude GoLib Serializer Config Shard Store Tags LockEngine LockProofs HashRing RingProofs Cluster Transport Glob Broker Cache CacheProofs CacheLock CacheTheorems Float64 RateLimit GoStrings Http Server.

#[local] Open Scope cache_scope.

(** ** The writer *)

(** The statuses the server answers with. *)
Definition statuses : list Z := [200; 204; 301; 400; 404; 405; 409; 429; 500].

(** The field that lets any origin read an answer. *)
Definition origin : string := "Access-Control-Allow-Origin".

(** The header has the field, or was sent with it and with one of the statuses. *)
Definition Sound (w : ResponseWriter) : Prop :=
  match wSent w with
  | Some (code, h) => code ∈ statuses /\ h !! origin = Some ["*"]
  | None => wHeader w !! origin = Some ["*"]
  end.

Lemma Sound_Header_Set name value w : CanonicalHeaderKey name ≠ origin ->
  Sound w -> Sound (Header_Set name value w).
Proof.
  intros Hn. unfold Sound, Header_Set. cbn [wSent wHeader]. destruct (wSent w) as [[code h]|]; [done|].
  by rewrite lookup_insert_ne.
Qed.

Lemma Sound_sendHeader code w : code ∈ statuses -> Sound w -> Sound (sendHeader code w).
Proof. intros Hc. unfold Sound, sendHeader. destruct (wSent w) as [[c h]|] eqn:E; simpl; by rewrite ?E. Qed.

Lemma Sound_WriteHeader code w : code ∈ statuses -> Sound w -> Sound (WriteHeader code w).
Proof. intros Hc Hw. apply (Sound_sendHeader code w Hc Hw). Qed.

Lemma Sound_Write b w : Sound w -> Sound (Write b w).
Proof. intros Hw. apply (Sound_sendHeader 200 w); [by_decide|done]. Qed.

Lemma Sound_finish w : Sound w ->
  StatusCode (finish w) ∈ statuses /\ Fields (finish w) !! origin = Some ["*"].
Proof.
  unfold Sound, finish, sendHeader. destruct (wSent w) as [[code h]|] eqn:E; rewrite ?E; simpl; [done|].
  intros Hw. split; [by_decide|done].
Qed.

(** Writers that differ in what wrappers recorded, and in nothing a client sees. *)
Definition alike (w w' : ResponseWriter) : Prop :=
  wHeader w = wHeader w' /\ wSent w = wSent w' /\ wOutput w = wOutput w'.

#[export] Instance alike_equiv : Equivalence alike.
Proof. unfold alike. split; red; naive_solver congruence. Qed.

#[export] Instance Header_Set_alike name value : Proper (alike ==> alike) (Header_Set name value).
Proof. intros w w' (Hh & Hs & Ho). split_and!; [|done|done]. cbn [wHeader Header_Set]. by rewrite Hh. Qed.

#[export] Instance sendHeader_alike code : Proper (alike ==> alike) (sendHeader code).
Proof.
  intros w w' (Hh & Hs & Ho). unfold sendHeader. rewrite <- Hs.
  destruct (wSent w) eqn:E; split_and!; cbn [wHeader wSent wOutput]; congruence.
Qed.

#[export] Instance WriteHeader_alike code : Proper (alike ==> alike) (WriteHeader code).
Proof. intros w w' Hw. exact (sendHeader_alike code w w' Hw). Qed.

#[export] Instance Write_alike b : Proper (alike ==> alike) (Write b).
Proof.
  intros w w' Hw. destruct (sendHeader_alike 200 w w' Hw) as (Hh & Hs & Ho).
  split_and!; [done|done|]. cbn [wOutput Write]. by rewrite Ho.
Qed.

#[export] Instance finish_alike : Proper (alike ==> eq) finish.
Proof.
  intros w w' Hw. destruct (sendHeader_alike 200 w w' Hw) as (_ & Hs & _). destruct Hw as (Hh & _ & Ho).
  unfold finish. by rewrite Hs, Hh, Ho.
Qed.

(** The wrapper of the log passes every call on. *)
Lemma unwrapped_alike sw w : alike (unwrapped sw w) sw.
Proof. done. Qed.

Lemma finish_sent w code h : wSent w = Some (code, h) -> finish w = MkHttpResponse code h (wOutput w).
Proof. intros Hw. unfold finish, sendHeader. rewrite Hw. by rewrite Hw. Qed.

Lemma finish_WriteHeader code w : wSent w = None ->
  finish (WriteHeader code w) = MkHttpResponse code (wHeader w) (wOutput w).
Proof.
  intros Hw. erewrite finish_sent; unfold WriteHeader, sendHeader; rewrite Hw; reflexivity.
Qed.

Lemma finish_Write b w code h : wSent w = Some (code, h) ->
  finish (Write b w) = MkHttpResponse code h (wOutput w ++ b).
Proof.
  intros Hw. erewrite finish_sent; unfold Write, sendHeader; rewrite Hw; [reflexivity|exact Hw].
Qed.

Lemma Sound_statusWriter w : Sound w -> Sound (statusWriter w).
Proof. done. Qed.

Lemma Sound_unwrapped sw w : Sound sw -> Sound (unwrapped sw w).
Proof. done. Qed.

Create HintDb http.
#[export] Hint Resolve Sound_Write Sound_statusWriter Sound_unwrapped : http.
#[export] Hint Extern 1 (Sound (WriteHeader _ _)) => apply Sound_WriteHeader; [by_decide|] : http.
#[export] Hint Extern 1 (Sound (Header_Set _ _ _)) => apply Sound_Header_Set; [by vm_compute|] : http.

Section ServerProofs.
Context {S V T : Type} `{Store S V T} `{JsonCodec}.
Context (machine : float64 -> Z) (order : ClusterState -> list (string * NodeInfo)).
Context (rfc3339 : Time -> string).
Context (me : string) (startTime : Time) (stats : RuntimeStats).
Implicit Types (w : ResponseWriter) (n : Node S) (r : Request).

Definition written (o : Outcome (S := S)) : ResponseWriter :=
  match o with Returned w _ | Panicked w _ => w end.

(** ** Every answer *)

Lemma Sound_writeJSON status v w : status ∈ statuses -> Sound w -> Sound (writeJSON status v w).
Proof. intros Hs Hw. unfold writeJSON. apply Sound_Write, Sound_WriteHeader; [done|]. auto with http. Qed.

Lemma Sound_cacheCall {A} (m : M (S := S) A) w n k : Sound w ->
  (forall a n', Sound (written (k a n'))) -> Sound (written (cacheCall m w n k)).
Proof. intros Hw Hk. unfold cacheCall. by destruct (m (world n)) as [[a wd]|]. Qed.

Hint Extern 1 (Sound (writeJSON _ _ _)) => apply Sound_writeJSON; [by_decide|] : http.
Hint Extern 1 (Sound (writeError _ _ _)) => apply Sound_writeJSON; [by_decide|] : http.

(** One step into a handler: a call of the cache, or a case of its answer. *)
Ltac handler_step :=
  match goal with
  | |- Sound (written (Returned ?w _)) => cbn [written]
  | |- Sound (written (cacheCall _ _ _ _)) => apply Sound_cacheCall; [|intros ? ?]
  | |- context [match ?x with _ => _ end] => destruct x
  end.
Ltac handler := repeat handler_step; eauto 12 with http.

Lemma sseLoop_Sound turns p w n : Sound w -> Sound (written (sseLoop turns p w n)).
Proof.
  revert w n. induction turns as [|gone turns IH]; intros w n Hw; [done|]. cbn [sseLoop].
  destruct (sseTurn gone p w n) as [[[more w'] n']|] eqn:E; [|done].
  assert (Sound w').
  { unfold sseTurn in E. repeat case_match; simplify_eq; auto with http. }
  by destruct more; [apply IH|].
Qed.

Lemma mux_Sound turns r clk w n : Sound w ->
  Sound (written (mux machine order rfc3339 me startTime stats turns r clk w n)).
Proof.
  intros Hw. unfold mux. destruct (registerRoutes (Method r) (Path r)).
  - unfold handleCacheGet. handler.
  - unfold handleCacheSet. handler.
  - unfold handleCacheDelete. handler.
  - unfold handleCacheExists. handler.
  - unfold handleCacheMGet. handler.
  - unfold handleLockAcquire. handler.
  - unfold handleLockRelease. handler.
  - unfold handleLockExtend. handler.
  - unfold handleRateLimit, rateHeaders. handler.
  - unfold handleSubscribeSSE, sseStart. destruct (negb (wFlusher w)); [handler|].
    destruct (Pubsub.Subscribe _ (broker n)) as [p b]. apply sseLoop_Sound. eauto 12 with http.
  - unfold handleClusterNodes. handler.
  - unfold handleHealth. handler.
  - unfold handleMetrics. handler.
  - cbn [written]. unfold http_Error. eauto 12 with http.
  - cbn [written]. unfold http_Redirect. case_match; eauto 12 with http.
  - cbn [written]. unfold http_Error. eauto 12 with http.
Qed.

(** The writer the routes get. *)
Definition routed : ResponseWriter :=
  statusWriter
    (Header_Set "Access-Control-Allow-Headers" "Content-Type, Authorization"
      (Header_Set "Access-Control-Allow-Methods" "GET, POST, PUT, DELETE, HEAD, OPTIONS"
        (Header_Set origin "*" newWriter))).

Lemma routed_Sound : Sound routed.
Proof. by vm_compute. Qed.

Lemma finish_writeJSON status v w : wSent w = None ->
  finish (writeJSON status v w)
  = MkHttpResponse status (<[CanonicalHeaderKey "Content-Type" := ["application/json"]]> (wHeader w))
      (wOutput w ++ encodeJson v).
Proof.
  intros Hw. unfold writeJSON. erewrite finish_Write;
    unfold WriteHeader, sendHeader; cbn [wSent Header_Set]; rewrite Hw; reflexivity.
Qed.

(** A request that is no preflight is routed; a panic becomes an answer. *)
Lemma serve_routes turns r clk n : Method r ≠ "OPTIONS" ->
  exists w n', serve machine order rfc3339 me startTime stats turns r clk newWriter n = Returned w n'
    /\ match mux machine order rfc3339 me startTime stats turns r clk routed n with
       | Returned sw n1 => finish w = finish sw /\ world n' = world n1 /\ broker n' = broker n1 /\ tokenBucket n' = tokenBucket n1
       | Panicked sw n1 => finish w = finish (writeError 500 "internal server error" sw)
           /\ world n' = world n1 /\ broker n' = broker n1 /\ tokenBucket n' = tokenBucket n1
       end.
Proof.
  intros Hm. unfold serve, withMiddleware, recoveryMiddleware, corsMiddleware, loggingMiddleware.
  rewrite (proj2 (String.eqb_neq _ _) Hm). fold origin. fold routed.
  destruct (mux _ _ _ _ _ _ turns r clk routed n) as [sw n1|sw n1]; eexists _, _; (split; [reflexivity|]).
  - by rewrite unwrapped_alike.
  - unfold writeError, writeJSON. by rewrite unwrapped_alike.
Qed.

(** C31: the server answers every request. Whatever the request, the state of the
    caches and the outcome of the handlers, panics included, the chain of
    middleware returns; the answer has one of nine statuses and the field that
    lets any origin read it, and a handler that panicked before it had sent its
    header is answered 500. *)
Theorem server_answers turns r clk n :
  exists w n', serve machine order rfc3339 me startTime stats turns r clk newWriter n = Returned w n'
    /\ StatusCode (finish w) ∈ statuses /\ Fields (finish w) !! origin = Some ["*"]
    /\ (Method r ≠ "OPTIONS" -> forall sw n1,
          mux machine order rfc3339 me startTime stats turns r clk routed n = Panicked sw n1 ->
          wSent sw = None -> StatusCode (finish w) = 500).
Proof.
  destruct (String.eqb_spec (Method r) "OPTIONS") as [Hm|Hm].
  - unfold serve, withMiddleware, recoveryMiddleware, corsMiddleware. rewrite (proj2 (String.eqb_eq _ _) Hm).
    eexists _, _. split; [reflexivity|]. split; [by_decide|]. split; [by vm_compute|done].
  - destruct (serve_routes turns r clk n Hm) as (w & n' & Hs & Ho). exists w, n'. split; [done|].
    pose proof (mux_Sound turns r clk routed n routed_Sound) as Hr.
    destruct (mux _ _ _ _ _ _ turns r clk routed n) as [sw n1|sw n1]; destruct Ho as [-> _]; cbn [written] in Hr.
    + destruct (Sound_finish _ Hr) as [Hst Ho]. split_and!; [done|done|]. done.
    + assert (Sound (writeError 500 "internal server error" sw)) as [Hst Ho]%Sound_finish by auto with http.
      split_and!; [done|done|]. intros _ ? ? [= <- <-] Hsent. unfold writeError. by rewrite finish_writeJSON.
Qed.

(** ** Event streams *)

(** No event stream is served. Every GET of /subscribe/ that reaches the
    server is answered 500, streaming not supported, and subscribes to nothing:
    the wrapper of the log has no method Flush, so the assertion of http.Flusher
    fails. The same route on the writer of net/http, without the middleware,
    sends the header of an event stream and subscribes. *)
Theorem event_streams_refused turns url s rest h b addr clk n :
  let r := MkHttpRequest "GET" url ("subscribe" :: s :: rest) h b addr in
  (exists w n', serve machine order rfc3339 me startTime stats turns r clk newWriter n = Returned w n'
     /\ StatusCode (finish w) = 500
     /\ Content (finish w) = encodeJson (JObject [("error", JString "streaming not supported")])
     /\ broker n' = broker n)
  /\ exists w n', mux machine order rfc3339 me startTime stats [] r clk newWriter n = Returned w n'
     /\ StatusCode (finish w) = 200
     /\ Fields (finish w) !! "Content-Type" = Some ["text/event-stream"]
     /\ broker n' = snd (Pubsub.Subscribe (if String.eqb (joined (s :: rest)) "" then "*"
                                           else joined (s :: rest)) (broker n)).
Proof.
  intros r. split.
  - destruct (serve_routes turns r clk n) as (w & n' & Hs & Ho); [done|]. exists w, n'. split; [done|].
    change (mux _ _ _ _ _ _ turns r) with (handleSubscribeSSE (S := S) turns (joined (s :: rest)) r) in Ho.
    unfold handleSubscribeSSE, sseStart in Ho. cbn [wFlusher routed statusWriter negb] in Ho.
    destruct Ho as (-> & _ & -> & _). unfold writeError. by rewrite finish_writeJSON.
  - change (mux _ _ _ _ _ _ [] r) with (handleSubscribeSSE (S := S) [] (joined (s :: rest)) r).
    unfold handleSubscribeSSE, sseStart. cbn [wFlusher newWriter negb].
    destruct (Pubsub.Subscribe _ (broker n)) as [p b']. cbn [sseLoop].
    eexists _, _. split; [reflexivity|]. rewrite finish_WriteHeader by reflexivity.
    split_and!; [done|by vm_compute|done].
Qed.
End ServerProofs.
