(* ===== verification/ServerTheorems.v ===== *)
(** The HTTP server over a cluster: values stored at one node and read at
    another, and locks. *)
From stdpp Require Import pretty.
From S2P Require Import Prelude GoLib Serializer Config Shard Store ShardTheorems MemoryStore Tags LockEngine LockProofs HashRing RingProofs Cluster Transport Glob Broker Cache CacheProofs CacheLock CacheTheorems Float64 RateLimit RateProofs GoStrings Http Server ServerProofs.

#[local] Open Scope cache_scope.

Lemma limitReader_take n b : limitReader n b = take (Z.to_nat n) b.
Proof.
  revert n. induction b as [|x b IH]; intros n; [by destruct (Z.to_nat n)|]. cbn [limitReader].
  destruct (Z.leb_spec n 0) as [Hn|Hn]; [by replace (Z.to_nat n) with 0%nat by lia|].
  rewrite IH. replace (Z.to_nat n) with (Datatypes.S (Z.to_nat (n - 1))) by lia. done.
Qed.

(** The routes of a key. *)
Lemma route_key key : key ≠ "" ->
  registerRoutes "PUT" ["cache"; key] = RCacheSet key
  /\ registerRoutes "GET" ["cache"; key] = RCacheGet key
  /\ registerRoutes "POST" ["locks"; key] = RLockAcquire key
  /\ registerRoutes "DELETE" ["locks"; key] = RLockRelease key
  /\ registerRoutes "POST" ["ratelimit"; key] = RRateLimit key.
Proof. intros Hk%String.eqb_neq. unfold registerRoutes. by rewrite Hk. Qed.

Section Values.
Context {S V T : Type} `{StoreLaws S V T} `{JsonCodec}.
Context (machine : float64 -> Z) (order : ClusterState -> list (string * NodeInfo)).
Context (rfc3339 : Time -> string) (startTime : Time) (stats : RuntimeStats).
Implicit Types (n : Node S) (wd : World (S := S)).

Definition AllOk wd : Prop := forall a ca, hosts (net wd) !! a = Some ca -> store_ok (store ca).

(** After a write the owner's store is one that took the value. *)
Definition Stored wd key o co data ttl clk wd' : Prop :=
  (AllOk wd -> AllOk wd')
  /\ exists c', SetAt co c' key data ttl clk
     /\ forall b cb, Serves (net wd) b key o cb co ->
        exists cb' co', Serves (net wd') b key o cb' co' /\ store co' = store c'.

Lemma Stored_put wd key o co data ttl clk c' lg :
  hosts (net wd) !! o = Some co -> SetAt co c' key data ttl clk ->
  Stored wd key o co data ttl clk (MkWorld (put_host o c' (net wd)) lg).
Proof.
  intros Hco Hat. split.
  { intros Hall a ca. cbn [net]. rewrite put_host_lookup. case_decide; [|apply Hall].
    intros [= <-]. apply Hat. }
  exists c'. split; [done|]. intros b cb Hsb.
  destruct (serves_put _ b key o cb co o co c' Hsb Hco (set_same _ _ _ _ _ _ Hat)) as (cb2 & Hsb2 & _).
  rewrite decide_True in Hsb2 by done. by exists cb2, c'.
Qed.

(** Recording tags at the node that was asked does not touch the stores. *)
Lemma Stored_tags wd a key o co data ttl clk wd' ca tgs :
  Stored wd key o co data ttl clk wd' -> hosts (net wd') !! a = Some ca ->
  Stored wd key o co data ttl clk
    (MkWorld (put_host a (set_tags (tagIndex_Add key tgs (tags ca)) ca) (net wd')) (log wd')).
Proof.
  intros (Hall & c' & Hat & Hsv) Ha. split.
  { intros Hwd b cb. cbn [net]. rewrite put_host_lookup. case_decide; [|by apply Hall].
    intros [= <-]. exact (Hall Hwd a ca Ha). }
  exists c'. split; [done|]. intros b cb Hsb.
  destruct (Hsv b cb Hsb) as (cb' & co' & Hsb' & Hst).
  destruct (serves_put _ b key o cb' co' a ca (set_tags (tagIndex_Add key tgs (tags ca)) ca) Hsb' Ha)
    as (cb2 & Hsb2 & _); [done|].
  eexists cb2, _. split; [exact Hsb2|]. case_decide as He; [|done]. subst o. cbn [store set_tags].
  pose proof (sv_owner _ _ _ _ _ _ Hsb') as Ho. rewrite Ha in Ho. by injection Ho as ->.
Qed.

Lemma handleCacheSet_spec n a key o ca co r body w clk :
  let data := limitReader maxBody body in
  let ttl := parseTTL (Header_Get "X-TTL" (rHeader r)) in
  let eff := if ttl =? 0 then DefaultTTL (config ca) else ttl in
  Serves (net (world n)) a key o ca co -> store_ok (store co) -> ClockOk clk -> key ≠ "" ->
  rBody r = Some body -> admits (store co) key data eff clk ->
  exists n', handleCacheSet order a key r clk w n = Returned (WriteHeader 204 w) n'
    /\ Stored (world n) key o co data eff clk (world n').
Proof.
  intros data ttl eff Hsv Hok Hclk Hk Hb Ha.
  destruct (Cache_Set_effective order (world n) a key o ca co (GBytes data) data ttl clk)
    as (c' & Hset & Hat); [done|done|done|done|done|done|].
  pose proof (Stored_put (world n) key o co data eff clk c' (log (world n) ++ [Publish EventSet key data; FireSet key data])
    (sv_owner _ _ _ _ _ _ Hsv) Hat) as Hst.
  unfold handleCacheSet. rewrite (proj2 (String.eqb_neq key "") Hk), Hb. fold data. fold ttl.
  destruct (Nat.ltb_spec 0 (length (parseTags (Header_Get "X-Tags" (rHeader r))))) as [Ht|Ht];
    unfold cacheCall; [|rewrite Hset; by eexists].
  unfold Cache_SetWithTags, bind at 1. rewrite Hset, (proj2 (Nat.ltb_lt _ _) Ht).
  unfold tagsAdd, bind, this, put, ret.
  pose proof Hst as (_ & c2 & Hat2 & Hsv2). destruct (Hsv2 a ca Hsv) as (ca' & co' & Hsa & _).
  rewrite (sv_me _ _ _ _ _ _ Hsa). eexists. split; [reflexivity|]. cbn [world set_world].
  apply Stored_tags; [done|]. apply Hsa.
Qed.

Lemma handleCacheGet_spec n b key o cb co r w clk data x :
  Serves (net (world n)) b key o cb co -> AllOk (world n) ->
  ClockOk clk -> key ≠ "" -> live_at (clk 0%nat) (view (store co) key) = Some (data, x) ->
  exists w' n', handleCacheGet b key r clk w n = Returned (Write data (WriteHeader 200 w')) n'
    /\ (w' = Header_Set "Content-Type" "application/octet-stream" w
        \/ exists text, w' = Header_Set "X-TTL" text (Header_Set "Content-Type" "application/octet-stream" w)).
Proof.
  intros Hsv Hall Hclk Hk Hv.
  destruct (Cache_Get_spec (world n) b key o cb co DBytes clk Hsv (Hall _ _ (sv_owner _ _ _ _ _ _ Hsv)) Hclk Hk)
    as (c' & lg & Hget & Hat).
  destruct (serves_put _ b key o cb co o co c' Hsv (sv_owner _ _ _ _ _ _ Hsv) (get_same _ _ _ _ Hat))
    as (cb2 & Hsv2 & Hsame).
  unfold handleCacheGet, cacheCall. rewrite (proj2 (String.eqb_neq key "") Hk), Hget, Hv.
  cbn [Deserialize world set_world]. unfold Cache_TTL, bind at 1, this.
  cbn [net]. rewrite (sv_me _ _ _ _ _ _ Hsv2), (sv_open _ _ _ _ _ _ Hsv2), (proj2 (String.eqb_neq key "") Hk).
  cbn [orb]. unfold withStore, bind, this, put, ret. cbn [net]. rewrite (sv_me _ _ _ _ _ _ Hsv2).
  assert (store_ok (store cb2)) as Hok2.
  { pose proof (sv_me _ _ _ _ _ _ Hsv2) as Hm. rewrite put_host_lookup in Hm.
    case_decide; [injection Hm as <-; apply Hat|by eapply Hall]. }
  destruct (law_TTL (store cb2) key (advance 8 clk) Hok2) as (s' & -> & _); [by apply advance_ok|].
  destruct (_ >? 0); eexists _, _; (split; [reflexivity|]); eauto.
Qed.

(** C6: PUT then GET over HTTP, cluster-wide. In a partitioned cluster whose
    nodes agree on the members, over any store that satisfies the Store contract,
    a PUT of a key at one node, with any headers, is answered 204, and a GET of
    the key at any node, before the entry expires, is answered 200 with the body
    that was stored: the first 10 MiB of what was sent. *)
Theorem http_put_get turns n addr_of M vn a b ca cb key h body url addr url' h' b' addr' clk clk' :
  let data := limitReader maxBody body in
  let ttl := parseTTL (Header_Get "X-TTL" h) in
  let eff := if ttl =? 0 then DefaultTTL (config ca) else ttl in
  ClusterOk (net (world n)) addr_of M vn -> M ≠ ∅ ->
  hosts (net (world n)) !! a = Some ca -> hosts (net (world n)) !! b = Some cb -> key ≠ "" ->
  (forall o co, hosts (net (world n)) !! o = Some co ->
     store_ok (store co) /\ admits (store co) key data eff clk /\ retains (store co) key data) ->
  ClockOk clk -> ClockOk clk' -> (0 < eff -> clk' 0%nat <= clk 0%nat + eff) ->
  exists w1 n1,
    serve machine order rfc3339 a startTime stats turns
      (MkHttpRequest "PUT" url ["cache"; key] h (Some body) addr) clk newWriter n = Returned w1 n1
    /\ StatusCode (finish w1) = 204
    /\ (forall nb, world nb = world n1 -> exists w2 n2,
          serve machine order rfc3339 b startTime stats turns
            (MkHttpRequest "GET" url' ["cache"; key] h' b' addr') clk' newWriter nb = Returned w2 n2
          /\ StatusCode (finish w2) = 200 /\ Content (finish w2) = data).
Proof.
  intros data ttl eff Hok HM Ha Hb Hk Hst Hclk Hclk' Hlive.
  destruct (cluster_same_owner _ addr_of M vn a b ca cb key Hok HM Ha Hb) as (o & co & Hsa & Hsb).
  destruct (Hst o co (sv_owner _ _ _ _ _ _ Hsa)) as (Hso & Had & Hret).
  set (r1 := MkHttpRequest "PUT" url ["cache"; key] h (Some body) addr).
  destruct (serve_routes machine order rfc3339 a startTime stats turns r1 clk n) as (w1 & n1 & Hs1 & Ho1); [done|].
  destruct (handleCacheSet_spec n a key o ca co r1 body routed clk)
    as (n1' & Hh1 & Hall & c' & Hat & Hsv); [done|done|done|done|done|done|].
  destruct (route_key key Hk) as (Hput & Hget & _).
  unfold mux in Ho1. cbn [Method Path r1] in Ho1. rewrite Hput, Hh1 in Ho1. destruct Ho1 as (Hf1 & Hw1 & _).
  exists w1, n1. split; [done|]. rewrite Hf1, finish_WriteHeader by done. split; [done|]. intros nb Hnb.
  set (r2 := MkHttpRequest "GET" url' ["cache"; key] h' b' addr').
  destruct (serve_routes machine order rfc3339 b startTime stats turns r2 clk' nb) as (w2 & n2 & Hs2 & Ho2); [done|].
  destruct (Hsv b cb Hsb) as (cb2 & co2 & Hsb2 & Hco2). rewrite <- Hw1, <- Hnb in Hsb2.
  destruct (handleCacheGet_spec nb b key o cb2 co2 r2 routed clk' data (expiryOf eff (clk 0%nat)))
    as (w' & n2' & Hh2 & Hw'); [done| |done|done| |].
  { rewrite Hnb, Hw1. apply Hall. intros x cx Hx. by apply (Hst x cx). }
  { assert (view (store c') key = Some (data, expiryOf eff (clk 0%nat))) as Hv by exact (set_kept _ _ _ _ _ _ Hat Hret).
    rewrite Hco2, Hv. by apply live_at_expiryOf. }
  unfold mux in Ho2. cbn [Method Path r2] in Ho2. rewrite Hget, Hh2 in Ho2.
  destruct Ho2 as (Hf2 & _). exists w2, n2. split; [done|]. rewrite Hf2.
  assert (wSent w' = None /\ wOutput w' = []) as [Hsent Hout] by by destruct Hw' as [->|[text ->]].
  erewrite finish_Write; [|unfold WriteHeader, sendHeader; rewrite Hsent; reflexivity].
  split; [done|]. cbn [Content]. unfold WriteHeader, sendHeader. rewrite Hsent. cbn [wOutput]. by rewrite Hout.
Qed.
End Values.

(** ** Locks over HTTP *)

(** A decimal number of at most [k] digits. *)
Lemma pretty_N_go_length k x s : (x < 10 ^ N.of_nat k)%N ->
  (String.length (pretty_N_go x s) <= k + String.length s)%nat.
Proof.
  revert x s. induction k as [|k IH]; intros x s Hx.
  - assert (x = 0%N) as -> by (change (10 ^ N.of_nat 0)%N with 1%N in Hx; lia). by rewrite pretty_N_go_0.
  - destruct (N.eq_dec x 0) as [->|Hx0]; [rewrite pretty_N_go_0; lia|].
    rewrite pretty_N_go_step by lia. etrans; [apply IH|simpl; lia].
    apply N.Div0.div_lt_upper_bound. rewrite Nat2N.inj_succ, N.pow_succ_r' in Hx. done.
Qed.

Lemma pretty_uint64_length z : 0 <= z < 2 ^ 64 -> (String.length (pretty z) <= 20)%nat.
Proof.
  intros Hz. destruct z as [|x|x]; [simpl; lia| |lia].
  change (pretty (Z.pos x)) with (pretty (N.pos x)). unfold pretty, pretty_N.
  rewrite decide_False by done. etrans; [apply (pretty_N_go_length 20)|simpl; lia].
  assert (2 ^ 64 < 10 ^ 20) by done. change (10 ^ N.of_nat 20)%N with (Z.to_N (10 ^ 20)). lia.
Qed.

Lemma pretty_N_go_nonempty x s : s ≠ "" -> pretty_N_go x s ≠ "".
Proof.
  revert s. induction (N.lt_wf_0 x) as [x _ IH]; intros s Hs.
  destruct (N.eq_dec x 0) as [->|Hx]; [by rewrite pretty_N_go_0|].
  rewrite pretty_N_go_step by lia. apply IH; [apply N.div_lt; lia|done].
Qed.

Lemma pretty_Z_nonempty (z : Z) : pretty z ≠ "".
Proof.
  destruct z as [|x|x]; [done| |done]. change (pretty (Z.pos x)) with (pretty (N.pos x)).
  unfold pretty, pretty_N. rewrite decide_False by done. rewrite pretty_N_go_step by lia.
  by apply pretty_N_go_nonempty.
Qed.

Lemma EncodeToString_length b : String.length (EncodeToString b) = (2 * length b)%nat.
Proof. induction b as [|x b IH]; [done|]. simpl. rewrite IH. lia. Qed.

Section Locks.
Context {S V T : Type} `{StoreLaws S V T} `{JsonCodec}.
Context (machine : float64 -> Z) (order : ClusterState -> list (string * NodeInfo)).
Context (rfc3339 : Time -> string) (startTime : Time) (stats : RuntimeStats).
Implicit Types (n : Node S) (wd : World (S := S)).

(** A free lock that this node owns is granted at the first attempt. *)
Lemma Cache_Lock_free wd me key c opts clk :
  Serves (net wd) me (lockKeyOf key) me c c -> key ≠ "" -> 0 <= RetryCount opts ->
  Lock.locks (lockEngine c) !! lockKeyOf key = None ->
  exists h e', Cache_Lock me key opts clk wd
      = Some (Ok h, MkWorld (put_host me (set_lockEngine e' c) (net wd)) (log wd))
    /\ LockHandle_Token h = uint64 (Lock.fencingSeq (lockEngine c) + 1)
    /\ exists en, Lock.locks e' !! lockKeyOf key = Some en
       /\ Lock.Token en = Lock.generateToken (entropy (net wd) me).
Proof.
  intros Hsv Hk Hr Hfree. destruct (lockAttempt_spec wd me (lockKeyOf key) me c c (oTTL opts) clk Hsv)
    as (owner & addr & token & fencing & acquired & e' & Ha & Hl & _).
  unfold Lock.Acquire in Ha. rewrite Hfree in Ha. injection Ha as <- <- <- <-.
  unfold Cache_Lock, bind at 1, this.
  rewrite (sv_me _ _ _ _ _ _ Hsv), (sv_open _ _ _ _ _ _ Hsv), (proj2 (String.eqb_neq key "") Hk).
  replace (Z.to_nat (RetryCount opts + 1)) with (Datatypes.S (Z.to_nat (RetryCount opts))) by lia.
  cbn [lock_loop]. unfold bind. rewrite Hl.
  eexists _, _. split; [reflexivity|]. split; [done|]. eexists. cbn [Lock.locks]. by rewrite lookup_insert_eq.
Qed.

Lemma handleLockAcquire_free me n c key r body req w clk :
  Serves (net (world n)) me (lockKeyOf key) me c c -> key ≠ "" -> rBody r = Some body ->
  Lock.locks (lockEngine c) !! lockKeyOf key = None ->
  decodeLock body = Some req -> 0 <= lbRetryCount req ->
  exists token n' c' en, handleLockAcquire me key r clk w n
      = Returned (writeJSON 200 (JObject
          [("acquired", JBool true); ("token", JInt token); ("fencing_token", JInt token)]) w) n'
    /\ 0 <= token < 2 ^ 64 /\ hosts (net (world n')) !! me = Some c'
    /\ Lock.locks (lockEngine c') !! lockKeyOf key = Some en
    /\ Lock.Token en = Lock.generateToken (entropy (net (world n)) me).
Proof.
  intros Hsv Hk Hb Hfree Hreq Hretry.
  unfold handleLockAcquire, readJSON, cacheCall. rewrite (proj2 (String.eqb_neq key "") Hk), Hb.
  cbn [mbind option_bind]. rewrite Hreq. set (opts := MkLockOptions _ _ _).
  destruct (Cache_Lock_free (world n) me key c opts clk Hsv Hk Hretry Hfree)
    as (hd & e' & -> & Htok & en & Hen & Hent).
  eexists _, _, (set_lockEngine e' c), en. split; [reflexivity|]. split_and!; [| | |done|done].
  - rewrite Htok. unfold uint64. apply Z.mod_pos_bound. lia.
  - rewrite Htok. unfold uint64. apply Z.mod_pos_bound. lia.
  - cbn [world set_world net]. by rewrite put_host_lookup, decide_True.
Qed.

(** Release under another token changes nothing. *)
Lemma handleLockRelease_refused me n c key r w clk en :
  let token := Header_Get "X-Lock-Token" (rHeader r) in
  hosts (net (world n)) !! me = Some c -> key ≠ "" -> token ≠ "" ->
  Lock.locks (lockEngine c) !! lockKeyOf key = Some en -> Lock.Token en ≠ token ->
  exists n', handleLockRelease me key r clk w n
      = Returned (writeJSON 409 (JObject
          [("released", JBool false); ("error", JString "lock not held or expired")]) w) n'
    /\ exists c', hosts (net (world n')) !! me = Some c' /\ lockEngine c' = lockEngine c.
Proof.
  intros token Hc Hk Ht Hl Hne. unfold handleLockRelease. fold token.
  rewrite (proj2 (String.eqb_neq key "") Hk), (proj2 (String.eqb_neq token "") Ht).
  unfold cacheCall, withEngine, Lock.Release, bind, this, put, ret. rewrite Hc, Hl.
  rewrite (proj2 (String.eqb_neq _ _) Hne). cbn [negb]. eexists. split; [reflexivity|].
  cbn [world set_world net]. rewrite put_host_lookup, decide_True by done. by eexists.
Qed.

(** A lock taken over HTTP cannot be given back. A POST of a free lock at the
    node that owns it is answered 200 with a token, a number below 2^64; a DELETE
    that presents this token is answered 409 and leaves the lock held: the answer
    has the fencing number in place of the random token that the engine asks
    for. *)
Theorem http_lock_not_released turns n me c key body req h url addr h' body' url' addr' clk clk' :
  Serves (net (world n)) me (lockKeyOf key) me c c -> key ≠ "" ->
  Lock.locks (lockEngine c) !! lockKeyOf key = None ->
  length (entropy (net (world n)) me) = 16%nat ->
  decodeLock body = Some req -> 0 <= lbRetryCount req ->
  exists token w1 n1,
    serve machine order rfc3339 me startTime stats turns
      (MkHttpRequest "POST" url ["locks"; key] h (Some body) addr) clk newWriter n = Returned w1 n1
    /\ StatusCode (finish w1) = 200
    /\ Content (finish w1) = encodeJson (JObject
         [("acquired", JBool true); ("token", JInt token); ("fencing_token", JInt token)])
    /\ (Header_Get "X-Lock-Token" h' = pretty token -> exists w2 n2 c2,
          serve machine order rfc3339 me startTime stats turns
            (MkHttpRequest "DELETE" url' ["locks"; key] h' body' addr') clk' newWriter n1 = Returned w2 n2
          /\ StatusCode (finish w2) = 409
          /\ hosts (net (world n2)) !! me = Some c2
          /\ is_Some (Lock.locks (lockEngine c2) !! lockKeyOf key)).
Proof.
  intros Hsv Hk Hfree Hent Hreq Hretry. destruct (route_key key Hk) as (_ & _ & Hpost & Hdel & _).
  set (r1 := MkHttpRequest "POST" url ["locks"; key] h (Some body) addr).
  set (r2 := MkHttpRequest "DELETE" url' ["locks"; key] h' body' addr').
  destruct (serve_routes machine order rfc3339 me startTime stats turns r1 clk n) as (w1 & n1 & Hs1 & Ho1); [done|].
  destruct (handleLockAcquire_free me n c key r1 body req routed clk) as (token & n1' & c1 & en & Hh1 & Hrange & Hc1 & Hen & Htok);
    [done..|].
  unfold mux in Ho1. cbn [Method Path r1] in Ho1. rewrite Hpost, Hh1 in Ho1. destruct Ho1 as (Hf1 & Hw1 & _).
  exists token, w1, n1. rewrite Hf1, finish_writeJSON by done. split_and!; [done|done|done|]. intros Htoken.
  destruct (serve_routes machine order rfc3339 me startTime stats turns r2 clk' n1) as (w2 & n2 & Hs2 & Ho2); [done|].
  assert (String.length (Lock.Token en) = 32)%nat as Hlen.
  { rewrite Htok. unfold Lock.generateToken. by rewrite EncodeToString_length, Hent. }
  pose proof (pretty_uint64_length token Hrange) as Hshort.
  destruct (handleLockRelease_refused me n1 c1 key r2 routed clk' en) as (n2' & Hh2 & c2 & Hc2 & He2).
  { by rewrite Hw1. }
  { done. }
  { cbn [rHeader r2]. rewrite Htoken. apply pretty_Z_nonempty. }
  { done. }
  { cbn [rHeader r2]. rewrite Htoken. intros He. rewrite He in Hlen. lia. }
  unfold mux in Ho2. cbn [Method Path r2] in Ho2. rewrite Hdel, Hh2 in Ho2. destruct Ho2 as (Hf2 & Hw2 & _).
  exists w2, n2, c2. rewrite Hf2, finish_writeJSON by done. rewrite Hw2, He2. by rewrite Hen.
Qed.
End Locks.

(** ** Rate limits over HTTP *)

Lemma durationOr_range d s : 0 < d < 2 ^ 63 -> 0 < durationOr d s < 2 ^ 63.
Proof.
  intros Hd. unfold durationOr. destruct (ParseDuration s) as [x|] eqn:E; cbn [default from_option]; [|done].
  apply ParseDuration_range in E. unfold id. destruct (Z.leb_spec x 0); lia.
Qed.

Section Rates.
Context {S V T : Type} `{Store S V T} `{JsonCodec}.
Context (machine : float64 -> Z) (order : ClusterState -> list (string * NodeInfo)).
Context (rfc3339 : Time -> string) (me : string) (startTime : Time) (stats : RuntimeStats).
Implicit Types (n : Node S).
Import Ratelimit RateProofs.

(** The rate limit endpoint keeps the limiter in the states its theorems are
    about. Whatever window the client sends, the endpoint calls the token bucket
    with a positive one, so a bucket is never poisoned; the answer is 200 or 429
    as the bucket decides, and its fields give the limit and the requests that
    remain, fewer than the limit. *)
Theorem http_rate_limit turns n key url h body addr req clk now :
  tb_reachable machine now (tokenBucket n) -> now <= clk 0%nat -> key ≠ "" ->
  decodeRateLimit body = Some req -> rbAlgorithm req ≠ "sliding_window" -> 1 <= rbLimit req <= 2 ^ 53 ->
  exists w n' window allowed remaining,
    serve machine order rfc3339 me startTime stats turns
      (MkHttpRequest "POST" url ["ratelimit"; key] h (Some body) addr) clk newWriter n = Returned w n'
    /\ 0 < window /\ Cache_RateLimit machine key (rbLimit req) window (clk 0%nat) (tokenBucket n)
       = (allowed, MkRateLimitState allowed remaining (rbLimit req) (clk 0%nat + window), tokenBucket n')
    /\ tb_reachable machine (clk 0%nat) (tokenBucket n')
    /\ StatusCode (finish w) = (if allowed then 200 else 429) /\ 0 <= remaining < rbLimit req
    /\ Fields (finish w) !! "X-Ratelimit-Limit" = Some [pretty (rbLimit req)]
    /\ Fields (finish w) !! "X-Ratelimit-Remaining" = Some [pretty remaining].
Proof.
  intros Hr Hle Hk Hreq Halg Hlim.
  set (r := MkHttpRequest "POST" url ["ratelimit"; key] h (Some body) addr).
  destruct (serve_routes machine order rfc3339 me startTime stats turns r clk n) as (w & n' & Hs & Ho); [done|].
  destruct (route_key key Hk) as (_ & _ & _ & _ & Hroute).
  set (window := durationOr Minute (rbWindow req)).
  assert (0 < window < 2 ^ 63) as Hwin by (apply durationOr_range; by vm_compute).
  assert (ArgsOk (rbLimit req) window) as Ha by (split; lia).
  assert (TBOk (clk 0%nat) (tokenBucket n)) as Htb by (eapply TBOk_later; [by eapply tb_reachable_ok|done]).
  pose proof (allow_state machine (rbLimit req) window (clk 0%nat) key (tokenBucket n) Ha Htb) as (HL & HR & HM).
  pose proof (tb_allow machine now (clk 0%nat) key (rbLimit req) window (tokenBucket n) Hr Hle Ha) as Hr'.
  unfold mux in Ho. cbn [Method Path r] in Ho. rewrite Hroute in Ho.
  unfold handleRateLimit, readJSON in Ho. cbn [rBody r mbind option_bind] in Ho.
  rewrite (proj2 (String.eqb_neq key "") Hk), Hreq, (proj2 (Z.leb_gt _ 0)) in Ho by lia.
  rewrite (proj2 (String.eqb_neq _ _) Halg) in Ho. fold window in Ho. unfold Cache_RateLimit in Ho |- *.
  destruct (TB_Allow machine key (rbLimit req) window (clk 0%nat) (tokenBucket n)) as [[al rem lim reset] tb'] eqn:E.
  cbn [fst snd Limit ResetsAt Allowed Remaining stateFromInternal rl_Allowed] in *. subst lim reset.
  destruct Ho as (Hf & _ & _ & Htb'). cbn [tokenBucket] in Htb'.
  rewrite finish_writeJSON in Hf by done.
  exists w, n', window, al, rem. rewrite Hf, Htb'. split_and!; try done;
    [lia|by rewrite E|destruct al; lia..].
Qed.
End Rates.

(** ** Times to live *)

(** A time to live in plain seconds can wrap around: the product with the
    length of a second is an int64. 584 years become 0.29 seconds, and 292 years
    a negative time to live, which the stores take as none. *)
Theorem ttl_seconds_wrap :
  parseTTL "18446744074" = 290448384 /\ parseTTL "9223372037" = -9223372036709551616
  /\ parseTTL "5m" = 5 * Minute /\ parseTTL "60" = 60 * Second /\ parseTTL "soon" = 0.
Proof. by vm_compute. Qed.

(** ** Witnesses: two nodes over memory stores *)

#[local] Existing Instance tagged_msgpack.
#[local] Existing Instance w_laws.

#[local] Instance w_json : JsonCodec := {
  decodeKeys _ := None;
  decodeLock _ := Some (MkLockBody "10s" 2 "100ms");
  decodeTTL _ := None;
  decodeRateLimit _ := Some (MkRateLimitBody 10 "-3s" "");
  marshalJson _ := [Byte.x7b; Byte.x7d];
}.

Definition w_node (wd : World (S := MemoryStore)) : Node MemoryStore :=
  MkNode wd ∅ ∅ Pubsub.NewBroker [].
Definition w_stats : RuntimeStats := MkRuntimeStats 1 0 0.

Lemma http_put_get_witness :
  exists w1 n1,
    serve (fun _ => 0) (fun _ => []) (fun _ => "") "10.0.0.1:7947" 0 w_stats []
      (MkHttpRequest "PUT" "/cache/k" ["cache"; "k"] {["X-Ttl" := ["1s"]]} (Some [Byte.x01]) "") w_clock newWriter
      (w_node (MkWorld w_net [])) = Returned w1 n1
    /\ StatusCode (finish w1) = 204
    /\ forall nb, world nb = world n1 -> exists w2 n2,
         serve (fun _ => 0) (fun _ => []) (fun _ => "") "10.0.0.2:7947" 0 w_stats []
           (MkHttpRequest "GET" "/cache/k" ["cache"; "k"] ∅ None "") w_clock newWriter nb = Returned w2 n2
         /\ StatusCode (finish w2) = 200 /\ Content (finish w2) = [Byte.x01].
Proof.
  apply (http_put_get (fun _ => 0) (fun _ => []) (fun _ => "") 0 w_stats [] (w_node (MkWorld w_net []))
    w_addr {["a"; "b"]} 3 "10.0.0.1:7947" "10.0.0.2:7947" (w_cache (Some w_ta)) (w_cache (Some w_tb)) "k"
    {["X-Ttl" := ["1s"]]} [Byte.x01] "/cache/k" "" "/cache/k" ∅ None "" w_clock w_clock w_net_ok w_net_nonempty).
  - reflexivity.
  - reflexivity.
  - discriminate.
  - exact w_net_stores.
  - exact w_clock_ok.
  - exact w_clock_ok.
  - intros Ht. unfold w_clock, frozen. lia.
Defined.

Lemma http_rate_limit_witness :
  exists w n' window allowed remaining,
    serve (fun _ => 0) (fun _ => []) (fun _ => "") "10.0.0.1:7947" 0 w_stats []
      (MkHttpRequest "POST" "/ratelimit/k" ["ratelimit"; "k"] ∅ (Some []) "") w_clock newWriter
      (w_node (MkWorld w_net [])) = Returned w n'
    /\ 0 < window /\ Ratelimit.Cache_RateLimit (fun _ => 0) "k" 10 window (w_clock 0%nat) ∅
       = (allowed, Ratelimit.MkRateLimitState allowed remaining 10 (w_clock 0%nat + window), tokenBucket n')
    /\ RateProofs.tb_reachable (fun _ => 0) (w_clock 0%nat) (tokenBucket n')
    /\ StatusCode (finish w) = (if allowed then 200 else 429) /\ 0 <= remaining < 10
    /\ Fields (finish w) !! "X-Ratelimit-Limit" = Some [pretty 10]
    /\ Fields (finish w) !! "X-Ratelimit-Remaining" = Some [pretty remaining].
Proof.
  apply (http_rate_limit (fun _ => 0) (fun _ => []) (fun _ => "") "10.0.0.1:7947" 0 w_stats []
    (w_node (MkWorld w_net [])) "k" "/ratelimit/k" ∅ [] "" (MkRateLimitBody 10 "-3s" "") w_clock (w_clock 0%nat)).
  - apply RateProofs.tb_new.
  - lia.
  - discriminate.
  - reflexivity.
  - discriminate.
  - cbn [rbLimit]. lia.
Defined.

(** A node on its own. *)
Definition w_single : World (S := MemoryStore) :=
  MkWorld (MkNetwork {["" := w_cache None]} (fun _ => None) (fun _ => replicate 16 Byte.x2a)) [].

Lemma http_lock_not_released_witness :
  exists token w1 n1,
    serve (fun _ => 0) (fun _ => []) (fun _ => "") "" 0 w_stats []
      (MkHttpRequest "POST" "/locks/job" ["locks"; "job"] ∅ (Some []) "") w_clock newWriter
      (w_node w_single) = Returned w1 n1
    /\ StatusCode (finish w1) = 200
    /\ Content (finish w1) = encodeJson (JObject
         [("acquired", JBool true); ("token", JInt token); ("fencing_token", JInt token)])
    /\ (Header_Get "X-Lock-Token" {["X-Lock-Token" := ["1"]]} = pretty token -> exists w2 n2 c2,
          serve (fun _ => 0) (fun _ => []) (fun _ => "") "" 0 w_stats []
            (MkHttpRequest "DELETE" "/locks/job" ["locks"; "job"] {["X-Lock-Token" := ["1"]]} None "")
            w_clock newWriter n1 = Returned w2 n2
          /\ StatusCode (finish w2) = 409
          /\ hosts (net (world n2)) !! "" = Some c2
          /\ is_Some (Lock.locks (lockEngine c2) !! lockKeyOf "job")).
Proof.
  apply (http_lock_not_released (fun _ => 0) (fun _ => []) (fun _ => "") 0 w_stats [] (w_node w_single) ""
    (w_cache None) "job" [] (MkLockBody "10s" 2 "100ms") ∅ "/locks/job" "" {["X-Lock-Token" := ["1"]]} None
    "/locks/job" "" w_clock w_clock).
  - by split.
  - discriminate.
  - reflexivity.
  - reflexivity.
  - reflexivity.
  - discriminate.
Defined.
