(* ===== verification/Middleware.v ===== *)
(** middleware.go: the HTTP middleware of the library, which limits the rate of a
    client and caches responses, around any handler, which may have a state of
    its own.

    crypto/sha256 is a parameter, and msgpack encodes a cachedResponse as it
    encodes every value that is not a byte slice or an int64: the class [Boxed]
    tells how the struct is a value of the caller's types. *)
From stdpp Require Import pretty.
From S2P Require Import Prelude GoLib Serializer Config Shard Store Tags LockEngine HashRing Cluster Transport Glob Broker Cache Float64 RateLimit GoStrings Http Server.

#[local] Open Scope cache_scope.

Record cachedResponse := MkCachedResponse {
  crStatusCode : Z;
  crBody : bytes;
  crHeaders : gmap string string;
}.

(** A cachedResponse in an interface{}, and the type of a pointer to one. *)
Class Boxed (V T : Type) := {
  box : cachedResponse -> V;
  unbox : V -> option cachedResponse;
  boxType : T;
}.

(** ** The client *)

Definition clientIP (r : Request) : string :=
  let forwarded := Header_Get "X-Forwarded-For" (rHeader r) in
  if negb (String.eqb forwarded "") then
    of_bytes (TrimSpace (fst (cut c_comma (string_bytes forwarded))))
  else
    let realIP := Header_Get "X-Real-IP" (rHeader r) in
    if negb (String.eqb realIP "") then realIP
    else of_bytes (fst (cut c_colon (string_bytes (RemoteAddr r)))).

(** The first 16 hexadecimal digits of the digest of the method and the URL. *)
Definition hashRequest (sha256 : bytes -> bytes) (r : Request) : string :=
  String.substring 0 16 (EncodeToString (sha256 (ascii_bytes (Method r +:+ URL r)))).

(** ** responseRecorder

    The embedded writer sends what the handler writes; the recorder keeps a copy
    of the body and the last status. It has no method Flush. *)

Definition responseRecorder (w : ResponseWriter) : ResponseWriter :=
  MkResponseWriter (wHeader w) (wSent w) [] [] false.

(** The embedded writer after the calls that [rec] got. *)
Definition embedded (rec w : ResponseWriter) : ResponseWriter :=
  MkResponseWriter (wHeader rec) (wSent rec) (wOutput w ++ wOutput rec) (wCodes w ++ wCodes rec)
    (wFlusher w).

(** A handler that also works on a state [X] of its own; a plain handler has
    none. *)
Section Stateful.
Context {S X : Type}.

Definition StateHandler := Request -> Clock -> ResponseWriter -> Node S -> X -> Outcome (S := S) * X.

(** A call of the cache from such a handler. *)
Definition stateCall {A} (m : M (S := S) A) (w : ResponseWriter) (n : Node S) (x : X)
    (k : A -> Node S -> Outcome (S := S) * X) : Outcome (S := S) * X :=
  match m (world n) with
  | Some (a, wd') => k a (set_world wd' n)
  | None => (Panicked w n, x)
  end.
End Stateful.
Arguments StateHandler : clear implicits.

Definition plain {S} (h : Handler (S := S)) : StateHandler S unit := fun r clk w n x => (h r clk w n, x).

Section Middleware.
Context {S V T X : Type} `{Store S V T} `{Boxed V T}.
Context (sha256 : bytes -> bytes) (machine : float64 -> Z).
Context (order : ClusterState -> list (string * NodeInfo)) (me : string).
Abbreviation Handler := (StateHandler S X).

Definition set_tokenBucket (tb : gmap string Ratelimit.bucket) (n : Node S) : Node S :=
  MkNode (world n) tb (slidingWindow n) (broker n) (logger n).

Definition HTTPRateLimit (limit : Z) (window : Duration) (next : Handler) : Handler := fun r clk w n st =>
  let key := "ratelimit:" +:+ clientIP r in
  let '(allowed, status, tb) := Ratelimit.Cache_RateLimit machine key limit window (clk 0%nat) (tokenBucket n) in
  let w := rateHeaders status w in
  if negb allowed then (Returned (http_Error "rate limit exceeded" 429 w) (set_tokenBucket tb n), st)
  else next r (advance 1 clk) w (set_tokenBucket tb n) st.

(** [for k, v := range cached.Headers] *)
Definition replayHeaders (h : gmap string string) (w : ResponseWriter) : ResponseWriter :=
  foldl (fun w '(k, v) => Header_Set k v w) w (map_to_list h).

(** [for k := range w.Header()]: of each field, the value that Get returns. *)
Definition copyHeaders (h : Headers) : gmap string string := map_imap (fun k _ => Some (Header_Get k h)) h.

Definition cacheKeyOf (r : Request) : string := "httpcache:" +:+ hashRequest sha256 r.

(** The response a recorder holds after the handler has returned. *)
Definition recordedResponse (rec : ResponseWriter) : cachedResponse :=
  MkCachedResponse (recorded (wCodes rec)) (wOutput rec) (copyHeaders (wHeader rec)).

(** The clock is read by Get, by the handler and by Set, in this order. *)
Definition HTTPCache (ttl : Duration) (next : Handler) : Handler := fun r clk w n st =>
  if negb (String.eqb (Method r) "GET") then next r clk w n st
  else
    let cacheKey := cacheKeyOf r in
    stateCall (Cache_Get me cacheKey (DOther boxType) clk) w n st (fun v n =>
      match v with
      | Some v =>
          let cached :=
            match v with
            | GOther v => default (MkCachedResponse 0 [] ∅) (unbox v)
            | _ => MkCachedResponse 0 [] ∅
            end in
          let w := replayHeaders (crHeaders cached) w in
          let w := Header_Set "X-Cache" "HIT" w in
          (Returned (Write (crBody cached) (WriteHeader (crStatusCode cached) w)) n, st)
      | None =>
          match next r (advance 8 clk) (responseRecorder w) n st with
          | (Panicked rec n, st) => (Panicked (embedded rec w) n, st)
          | (Returned rec n, st) =>
              let w := embedded rec w in
              let statusCode := recorded (wCodes rec) in
              if (200 <=? statusCode) && (statusCode <? 400) then
                stateCall (Cache_Set order me cacheKey (GOther (box (recordedResponse rec))) ttl (advance 64 clk))
                  w n st (fun _ n => (Returned (Header_Set "X-Cache" "MISS" w) n, st))
              else (Returned (Header_Set "X-Cache" "MISS" w) n, st)
          end
      end).
End Middleware.
