(* ===== verification/MiddlewareProofs.v ===== *)
(** The middleware: a cached response is the response that was recorded, and
    which clients share a rate limit. *)
From stdpp Require Import pretty.
From S2P Require Import Prelude GoLib Serializer Config Shard Store ShardTheorems MemoryStore Tags LockEngine HashRing RingProofs Cluster Transport Glob Broker Cache CacheProofs CacheTheorems Float64 RateLimit GoStrings Http Server ServerProofs Middleware.

#[local] Open Scope cache_scope.

(** ** Headers *)

(** The names are canonical, as Set and Add of net/http leave them. *)
Definition Canonical {A} (h : gmap string A) : Prop := map_Forall (fun k _ => CanonicalHeaderKey k = k) h.

(** What copying leaves of a header: of each field, its first value. *)
Definition firstValues (h : Headers) : Headers := (fun vs => [hd "" vs]) <$> h.

Lemma copyHeaders_first h : Canonical h -> (fun v => [v]) <$> copyHeaders h = firstValues h.
Proof.
  intros Hc. apply map_eq. intros k. unfold copyHeaders, firstValues. rewrite !lookup_fmap, map_lookup_imap.
  destruct (h !! k) as [vs|] eqn:E; [|done]. cbn [mbind option_bind fmap option_fmap option_map]. unfold Header_Get.
  rewrite (Hc k vs E), E. by destruct vs.
Qed.

Lemma copyHeaders_canonical h : Canonical h -> Canonical (copyHeaders h).
Proof.
  intros Hc k v. unfold copyHeaders. rewrite map_lookup_imap. destruct (h !! k) as [vs|] eqn:E; [|done]. intros _. by apply (Hc k vs).
Qed.

Lemma firstValues_id h : map_Forall (fun _ vs => length vs = 1%nat) h -> firstValues h = h.
Proof.
  intros Hs. rewrite <- (map_fmap_id h) at 2. apply map_fmap_ext. intros k vs Hk. specialize (Hs k vs Hk). by destruct vs as [|v []].
Qed.

Lemma replayHeaders_writer h w : Canonical h ->
  wHeader (replayHeaders h w) = ((fun v => [v]) <$> h) ∪ wHeader w
  /\ wSent (replayHeaders h w) = wSent w /\ wOutput (replayHeaders h w) = wOutput w.
Proof.
  intros Hc. unfold replayHeaders.
  assert (forall l w, Forall (fun kv : string * string => CanonicalHeaderKey kv.1 = kv.1) l -> NoDup l.*1 ->
    wHeader (foldl (fun w '(k, v) => Header_Set k v w) w l) = ((fun v => [v]) <$> list_to_map l) ∪ wHeader w
    /\ wSent (foldl (fun w '(k, v) => Header_Set k v w) w l) = wSent w
    /\ wOutput (foldl (fun w '(k, v) => Header_Set k v w) w l) = wOutput w) as Hl.
  { induction l as [|[k v] l IH]; intros w' Hf Hnd;
      [split_and!; [rewrite list_to_map_nil, fmap_empty; symmetry; apply (left_id_L ∅ (∪))|done|done]|].
    inversion Hf as [|? ? Hk Hf']; subst. inversion Hnd as [|? ? Hni Hnd']; subst. cbn [fst] in Hk.
    cbn [foldl fmap list_fmap list_to_map fst]. destruct (IH (Header_Set k v w') Hf' Hnd') as (Hh & Hs & Ho).
    split_and!; [|by rewrite Hs|by rewrite Ho]. rewrite Hh. cbn [wHeader Header_Set]. rewrite Hk. cbn.
    rewrite fmap_insert, <- insert_union_l. symmetry. apply insert_union_r. rewrite lookup_fmap.
    by rewrite (proj1 (not_elem_of_list_to_map l k) Hni). }
  destruct (Hl (map_to_list h) w) as (Hh & Hs & Ho); [|apply NoDup_fst_map_to_list|].
  - apply Forall_forall. intros [k v] Hkv%elem_of_map_to_list. by apply (Hc k v).
  - by rewrite Hh, list_to_map_to_list.
Qed.

(** ** Clients *)

Lemma cut_first sep s rest : sep ∉ s -> cut sep (s ++ sep :: rest) = (s, Some rest).
Proof.
  induction s as [|c s IH]; intros Hs; cbn; [by rewrite Z.eqb_refl|].
  apply not_elem_of_cons in Hs as [Hc Hs]. rewrite (proj2 (Z.eqb_neq c sep)) by done. by rewrite IH.
Qed.

Lemma string_bytes_app a b : string_bytes (a +:+ b) = string_bytes a ++ string_bytes b.
Proof. induction a as [|c a IH]; cbn; [done|]. by rewrite <- IH. Qed.

Lemma clientIP_remote r host rest :
  Header_Get "X-Forwarded-For" (rHeader r) = "" -> Header_Get "X-Real-IP" (rHeader r) = "" ->
  c_colon ∉ string_bytes host -> RemoteAddr r = host +:+ ":" +:+ rest -> clientIP r = host.
Proof.
  intros Hf Hr Hc Ha. unfold clientIP. rewrite Hf, Hr, Ha, !string_bytes_app. cbn [String.eqb negb].
  change (string_bytes ":") with [58]. cbn [app]. rewrite cut_first by done. cbn [fst]. apply of_bytes_string.
Qed.

(** Whom the rate limit counts together, without proxy headers. A client with
    an IPv4 address is counted by that address. A client with an IPv6 address,
    which RemoteAddr has in brackets, is counted by the first group of the
    address alone: all addresses that begin alike share one limit. *)
Theorem ipv6_clients_share host group rest port r4 r6 :
  Header_Get "X-Forwarded-For" (rHeader r4) = "" -> Header_Get "X-Real-IP" (rHeader r4) = "" ->
  Header_Get "X-Forwarded-For" (rHeader r6) = "" -> Header_Get "X-Real-IP" (rHeader r6) = "" ->
  c_colon ∉ string_bytes host -> RemoteAddr r4 = host +:+ ":" +:+ port ->
  c_colon ∉ string_bytes group -> RemoteAddr r6 = "[" +:+ group +:+ ":" +:+ rest +:+ "]:" +:+ port ->
  clientIP r4 = host /\ clientIP r6 = "[" +:+ group.
Proof.
  intros Hf4 Hr4 Hf6 Hr6 Hh Ha4 Hg Ha6. split; [by eapply clientIP_remote|].
  eapply clientIP_remote; [done|done| |exact Ha6].
  rewrite string_bytes_app. apply not_elem_of_app. split; [by_decide|done].
Qed.

(** ** Cached responses *)

Section Replay.
Context {S V T X : Type} `{StoreLaws S V T} `{Boxed V T}.
Context (sha256 : bytes -> bytes) (order : ClusterState -> list (string * NodeInfo)).
Implicit Types (n : Node S).

Lemma cacheKeyOf_nonempty r : cacheKeyOf sha256 r ≠ "".
Proof. done. Qed.

Lemma cacheKeyOf_same r r' : Method r' = Method r -> URL r' = URL r ->
  cacheKeyOf sha256 r' = cacheKeyOf sha256 r.
Proof. intros Hm Hu. unfold cacheKeyOf, hashRequest. by rewrite Hm, Hu. Qed.

(** The answer from the cache. *)
Lemma HTTPCache_hit ttl (next : StateHandler S X) r clk n st b o cb co data x resp :
  Method r = "GET" -> Serves (net (world n)) b (cacheKeyOf sha256 r) o cb co ->
  store_ok (store co) -> ClockOk clk ->
  live_at (clk 0%nat) (view (store co) (cacheKeyOf sha256 r)) = Some (data, x) ->
  UnmarshalOther data boxType = Ok (box resp) -> unbox (box resp) = Some resp -> Canonical (crHeaders resp) ->
  exists w n', HTTPCache sha256 order b ttl next r clk newWriter n st = (Returned w n', st)
    /\ finish w = MkHttpResponse (crStatusCode resp) (<["X-Cache" := ["HIT"]]> ((fun v => [v]) <$> crHeaders resp)) (crBody resp).
Proof.
  intros Hm Hsv Hok Hclk Hv Hdec Hbox Hc.
  destruct (Cache_Get_spec (world n) b _ o cb co (DOther boxType) clk Hsv Hok Hclk (cacheKeyOf_nonempty r))
    as (c' & lg & Hget & _).
  unfold HTTPCache, stateCall. rewrite Hm, Hget, Hv. cbn [String.eqb Ascii.eqb Bool.eqb negb].
  unfold Deserialize. rewrite Hdec, Hbox. cbn [default from_option id].
  eexists _, _. split; [reflexivity|].
  destruct (replayHeaders_writer (crHeaders resp) newWriter Hc) as (Hh & Hs & Ho).
  set (w := Header_Set "X-Cache" "HIT" (replayHeaders (crHeaders resp) newWriter)).
  assert (wSent w = None) as Hw by exact Hs.
  erewrite finish_Write; [|unfold WriteHeader, sendHeader; rewrite Hw; reflexivity].
  f_equal.
  - unfold w. cbn [wHeader Header_Set]. rewrite Hh. cbn [wHeader newWriter]. by rewrite (right_id_L ∅ (∪)).
  - unfold WriteHeader, sendHeader. rewrite Hw. cbn [wOutput]. unfold w. cbn [wOutput Header_Set]. by rewrite Ho.
Qed.

(** C25: the response cache replays what it recorded. A GET that misses is answered
    by the handler, and the response is stored when its status is a success or a
    redirection; a GET of the same URL at any node of the cluster, before the
    entry expires, gets the recorded status and body and, of each recorded header
    field, the first value, marked as a hit, without a call of its handler, whose
    state stays. Where each field has one value this is the response of the first
    client, when the handler sent its header once and did not touch it
    afterwards: the mark MISS comes too late to be sent. The cluster is
    partitioned, without collisions on the ring and with its links up; msgpack
    encodes the response and decodes it again, and the owner's store keeps it. *)
Theorem http_cache_replays ttl (next next' : StateHandler S X) n st wd0 rec n1 st1 addr_of M vn a b ca cb r r' data clk clk' :
  let resp := recordedResponse rec in
  let eff := if ttl =? 0 then DefaultTTL (config ca) else ttl in
  let clkS := advance 64 clk in
  Method r = "GET" -> Method r' = "GET" -> URL r' = URL r ->
  Cache_Get a (cacheKeyOf sha256 r) (DOther boxType) clk (world n) = Some (None, wd0) ->
  next r (advance 8 clk) (responseRecorder newWriter) (set_world wd0 n) st = (Returned rec n1, st1) ->
  200 <= crStatusCode resp < 400 -> Canonical (wHeader rec) ->
  ClusterOk (net (world n1)) addr_of M vn -> M ≠ ∅ ->
  hosts (net (world n1)) !! a = Some ca -> hosts (net (world n1)) !! b = Some cb ->
  MarshalOther (box resp) = Ok data -> UnmarshalOther data boxType = Ok (box resp) ->
  unbox (box resp) = Some resp ->
  (forall o co, hosts (net (world n1)) !! o = Some co -> store_ok (store co)
     /\ admits (store co) (cacheKeyOf sha256 r) data eff clkS /\ retains (store co) (cacheKeyOf sha256 r) data) ->
  ClockOk clk -> ClockOk clk' -> (0 < eff -> clk' 0%nat <= clkS 0%nat + eff) ->
  exists w1 n2, HTTPCache sha256 order a ttl next r clk newWriter n st = (Returned w1 n2, st1)
    /\ (wSent rec = Some (crStatusCode resp, wHeader rec) ->
        finish w1 = MkHttpResponse (crStatusCode resp) (wHeader rec) (wOutput rec))
    /\ forall nb st', world nb = world n2 -> exists w2 n3,
         HTTPCache sha256 order b ttl next' r' clk' newWriter nb st' = (Returned w2 n3, st')
         /\ finish w2 = MkHttpResponse (crStatusCode resp) (<["X-Cache" := ["HIT"]]> (firstValues (wHeader rec))) (wOutput rec)
         /\ (map_Forall (fun _ vs => length vs = 1%nat) (wHeader rec) ->
             finish w2 = MkHttpResponse (crStatusCode resp) (<["X-Cache" := ["HIT"]]> (wHeader rec)) (wOutput rec)).
Proof.
  intros resp eff clkS Hm Hm' Hu Hmiss Hnext Hcode Hcan Hok HM Ha Hb Henc Hdec Hbox Hst Hclk Hclk' Hlive.
  set (key := cacheKeyOf sha256 r) in *.
  destruct (cluster_same_owner _ addr_of M vn a b ca cb key Hok HM Ha Hb) as (o & co & Hsa & Hsb).
  pose proof (sv_owner _ _ _ _ _ _ Hsa) as Hco. destruct (Hst o co Hco) as (Hso & Had & Hret).
  destruct (Cache_Set_effective order (world n1) a key o ca co (GOther (box resp)) data ttl clkS)
    as (c' & Hset & Hat); [done|done|by apply advance_ok|done|done|done|].
  eexists _, _. split; [|split].
  - unfold HTTPCache, stateCall. fold key. rewrite Hm, Hmiss. cbn [String.eqb Ascii.eqb Bool.eqb negb].
    rewrite Hnext. fold resp. change (recorded (wCodes rec)) with (crStatusCode resp).
    rewrite (proj2 (Z.leb_le _ _)), (proj2 (Z.ltb_lt _ _)) by lia. cbn [andb]. fold clkS.
    rewrite Hset. reflexivity.
  - intros Hsent. erewrite finish_sent; [|exact Hsent]. done.
  - intros nb st' Hnb. cbn [world set_world] in Hnb.
    destruct (serves_put _ b key o cb co o co c' Hsb Hco (set_same _ _ _ _ _ _ Hat)) as (cb2 & Hsb2 & _).
    rewrite decide_True in Hsb2 by done.
    assert (view (store c') key = Some (data, expiryOf eff (clkS 0%nat))) as Hv by exact (set_kept _ _ _ _ _ _ Hat Hret).
    pose proof (copyHeaders_first (wHeader rec) Hcan) as Hh.
    destruct (HTTPCache_hit ttl next' r' clk' nb st' b o cb2 c' data (expiryOf eff (clkS 0%nat)) resp) as (w2 & n3 & Hx & Hf); try done.
    + rewrite (cacheKeyOf_same r r'), Hnb by congruence. exact Hsb2.
    + apply Hat.
    + rewrite (cacheKeyOf_same r r') by congruence. fold key. rewrite Hv. by apply live_at_expiryOf.
    + by apply copyHeaders_canonical.
    + cbn [crHeaders recordedResponse resp] in Hf. rewrite Hh in Hf. exists w2, n3. split_and!; [exact Hx|exact Hf|].
      intros Hs. by rewrite (firstValues_id _ Hs) in Hf.
Qed.
End Replay.

(** ** Witnesses *)

#[local] Instance cachedResponse_eq_dec : EqDecision cachedResponse.
Proof. solve_decision. Defined.

Definition w_resp : cachedResponse :=
  MkCachedResponse 200 [Byte.x68; Byte.x69] {["Content-Type" := "text/plain"]}.

(** A codec of one response. *)
Definition web_msgpack : Msgpack cachedResponse unit := {|
  MarshalInt64 z := Ok (Byte.xd3 :: PutUint64 (uint64 z));
  UnmarshalInt64 b := Err (ErrExternal "msgpack: EOF");
  MarshalOther r := if bool_decide (r = w_resp) then Ok [Byte.x01] else Err (ErrExternal "msgpack");
  UnmarshalOther b _ := if bool_decide (b = [Byte.x01]) then Ok w_resp else Err (ErrExternal "msgpack: EOF");
|}.
#[local] Existing Instance web_msgpack.

#[local] Instance web_boxed : Boxed cachedResponse unit := {| box r := r; unbox := Some; boxType := tt |}.
#[local] Instance web_laws : StoreLaws MemoryStore := MemoryStore_Laws 1000.

Definition web_sha (_ : bytes) : bytes := replicate 32 Byte.x00.
Definition web_get (url : string) : Request := MkHttpRequest "GET" url ["page"] ∅ None "10.1.1.1:5000".
Definition web_next : Handler (S := MemoryStore) := fun _ _ w n =>
  Returned (Write [Byte.x68; Byte.x69] (WriteHeader 200 (Header_Set "Content-Type" "text/plain" w))) n.
Definition web_node (lg : list Effect) : Node MemoryStore := MkNode (MkWorld w_net lg) ∅ ∅ Pubsub.NewBroker [].

Lemma web_stores o co : hosts w_net !! o = Some co ->
  store_ok (store co) /\ admits (store co) (cacheKeyOf web_sha (web_get "/page")) [Byte.x01] Second (advance 64 w_clock)
  /\ retains (store co) (cacheKeyOf web_sha (web_get "/page")) [Byte.x01].
Proof.
  intros Ho. assert (store co = w_store) as ->.
  { by apply w_net_hosts in Ho as [[_ ->]|[_ ->]]. }
  split_and!; [exact w_store_ok| |].
  - cbn. unfold op_small. intros _. by vm_compute.
  - cbn. intros _. by vm_compute.
Qed.

Lemma http_cache_replays_witness :
  exists w1 n2, HTTPCache web_sha (fun _ => []) "10.0.0.1:7947" Second (plain web_next) (web_get "/page") w_clock newWriter
      (web_node []) tt = (Returned w1 n2, tt)
    /\ finish w1 = MkHttpResponse 200 {["Content-Type" := ["text/plain"]]} [Byte.x68; Byte.x69]
    /\ forall nb, world nb = world n2 -> exists w2 n3,
         HTTPCache web_sha (fun _ => []) "10.0.0.2:7947" Second (plain (fun _ _ w n => Panicked w n)) (web_get "/page") w_clock
           newWriter nb tt = (Returned w2 n3, tt)
         /\ finish w2 = MkHttpResponse 200 (<["X-Cache" := ["HIT"]]> {["Content-Type" := ["text/plain"]]})
              [Byte.x68; Byte.x69].
Proof.
  pose proof (http_cache_replays web_sha (fun _ => []) Second (plain web_next) (plain (fun _ _ w n => Panicked w n)) (web_node []) tt
    (MkWorld w_net [FireMiss (cacheKeyOf web_sha (web_get "/page"))])
    (Write [Byte.x68; Byte.x69] (WriteHeader 200 (Header_Set "Content-Type" "text/plain" (responseRecorder newWriter))))
    (web_node [FireMiss (cacheKeyOf web_sha (web_get "/page"))]) tt
    w_addr {["a"; "b"]} 3 "10.0.0.1:7947" "10.0.0.2:7947" (w_cache (Some w_ta)) (w_cache (Some w_tb))
    (web_get "/page") (web_get "/page") [Byte.x01] w_clock w_clock) as Hr.
  cbv zeta in Hr. destruct Hr as (w1 & n2 & H1 & H2 & H3).
  - reflexivity.
  - reflexivity.
  - reflexivity.
  - vm_compute. reflexivity.
  - vm_compute. reflexivity.
  - by vm_compute.
  - by_decide.
  - exact w_net_ok.
  - exact w_net_nonempty.
  - reflexivity.
  - reflexivity.
  - vm_compute. reflexivity.
  - vm_compute. reflexivity.
  - reflexivity.
  - exact web_stores.
  - exact w_clock_ok.
  - exact w_clock_ok.
  - intros _. vm_compute. intros Hx. discriminate Hx.
  - exists w1, n2. split; [exact H1|]. split; [apply H2; vm_compute; reflexivity|].
    intros nb Hnb. destruct (H3 nb tt Hnb) as (w2 & n3 & Hx & _ & Hf). exists w2, n3. split; [exact Hx|]. apply Hf. by_decide.
Defined.

(** Of two cookies the copy keeps the first. *)
Example second_cookie_lost :
  let w := Header_Add "Set-Cookie" "b=2" (Header_Add "set-cookie" "a=1" newWriter) in
  wHeader w = {["Set-Cookie" := ["a=1"; "b=2"]]} /\ copyHeaders (wHeader w) = {["Set-Cookie" := "a=1"]}.
Proof. by vm_compute. Qed.

Lemma ipv6_clients_share_witness :
  clientIP (web_get "/page") = "10.1.1.1"
  /\ clientIP (MkHttpRequest "GET" "/page" ["page"] ∅ None "[2001:db8::7]:5000") = "[2001".
Proof.
  apply (ipv6_clients_share "10.1.1.1" "2001" "db8::7" "5000" (web_get "/page")
    (MkHttpRequest "GET" "/page" ["page"] ∅ None "[2001:db8::7]:5000")).
  - reflexivity.
  - reflexivity.
  - reflexivity.
  - reflexivity.
  - by_decide.
  - reflexivity.
  - by_decide.
  - reflexivity.
Defined.
