(* ===== verification/Startup.v ===== *)
(** How a node starts: the cluster part of New (cache.go), NewMembership, Join and
    LocalNode (internal/cluster/member.go), and NewMemory and NewDisk (store.go).

    memberlist and the listener are parameters: whether they start, and which
    nodes memberlist reports while it does. What New opens and closes on the way
    is recorded. *)
From stdpp Require Import pretty.
From S2P Require Import Prelude GoLib Serializer Config Shard Store ShardProofs ShardTheorems MemoryStore Tags LockEngine HashRing RingProofs Cluster Transport Pool Glob Broker Cache CacheProofs Float64 GoStrings.

#[local] Open Scope cache_scope.

(** ** net.SplitHostPort *)

Definition index (c : Z) (s : list Z) : option nat := fst <$> list_find (c =.) s.
Definition lastIndex (c : Z) (s : list Z) : option nat :=
  (fun i => length s - 1 - i)%nat <$> index c (rev s).

(** Host and port, or the text of the error. *)
Definition SplitHostPort (hostport : string) : (string * string) + string :=
  let s := string_bytes hostport in
  let missingPort := inr "missing port in address" in
  let tooManyColons := inr "too many colons in address" in
  (** The checks after the host has been found, from positions [j] and [k] on. *)
  let ends host i j k :=
    if bool_decide (is_Some (index 91 (drop j s))) then inr "unexpected '[' in address"
    else if bool_decide (is_Some (index 93 (drop k s))) then inr "unexpected ']' in address"
    else inl (of_bytes host, of_bytes (drop (S i) s)) in
  match lastIndex 58 s with
  | None => missingPort
  | Some i =>
      if bool_decide (s !! 0%nat = Some 91) then
        match index 93 s with
        | None => inr "missing ']' in address"
        | Some e =>
            if (S e =? length s)%nat then missingPort
            else if (S e =? i)%nat then ends (drop 1 (take e s)) i 1%nat (S e)
            else if bool_decide (s !! S e = Some 58) then tooManyColons
            else missingPort
        end
      else
        let host := take i s in
        if bool_decide (is_Some (index 58 host)) then tooManyColons else ends host i 0%nat 0%nat
  end.

(** ** internal/cluster/member.go *)

Record MemberConfig := MkMemberConfig {
  mcNodeName : string;
  BindAddr : string;
  BindPort : Z;
  Seeds : list string;
  mcRPCPort : Z;
  mcHTTPPort : Z;
}.

(** The fields of memberlist.Config that are set. *)
Record MlConfig := MkMlConfig {
  mlName : string;
  mlBindAddr : string;
  mlBindPort : Z;
  mlAdvertisePort : Z;
}.

Definition hostPort (host : string) (port : Z) : string := host +:+ ":" +:+ pretty port.

Definition selfNode (cfg : MemberConfig) (now : Time) : NodeInfo :=
  MkNodeInfo (mcNodeName cfg) (hostPort (BindAddr cfg) (BindPort cfg)) (hostPort (BindAddr cfg) (mcRPCPort cfg))
    (hostPort (BindAddr cfg) (mcHTTPPort cfg)) NodeAlive now (MkNodeMeta (mcRPCPort cfg) (mcHTTPPort cfg) "").

(** [Create] and [Join] of memberlist: an error, or the nodes they report. *)
Record Gossip := MkGossip {
  unmarshalMeta : bytes -> NodeMeta;
  create : MlConfig -> result (list (Time * MlNode));
  joinSeeds : list string -> Z * option Error * list (Time * MlNode);
}.

Definition joined_nodes (g : Gossip) (ns : list (Time * MlNode)) (t : Topology) : Topology :=
  foldl (fun t '(now, node) => NotifyJoin (unmarshalMeta g) now node t) t ns.

Definition NewMembership (g : Gossip) (cfg : MemberConfig) (clk : Clock) (t : Topology) : result Topology :=
  match create g (MkMlConfig (mcNodeName cfg) (BindAddr cfg) (BindPort cfg) (BindPort cfg)) with
  | Err err => Err (ErrWrap (ErrText "cluster: failed to create memberlist") err)
  | Ok ns => Ok (addSelf (selfNode cfg (clk 0%nat)) (joined_nodes g ns t))
  end.

Definition Join (g : Gossip) (cfg : MemberConfig) (t : Topology) : option Error * Topology :=
  if (length (Seeds cfg) =? 0)%nat then (None, t)
  else
    let '(n, err, ns) := joinSeeds g (Seeds cfg) in
    let t' := joined_nodes g ns t in
    match err with
    | Some err =>
        (Some (ErrWrap (ErrText ("cluster: failed to join " +:+ pretty (Z.of_nat (length (Seeds cfg)) - n)
                                 +:+ " seeds")) err), t')
    | None => (None, t')
    end.

Definition LocalNode (cfg : MemberConfig) (t : Topology) : option NodeInfo :=
  State_GetNode (mcNodeName cfg) t.1.

(** ** The cluster part of New *)

(** What New opens, starts and closes. *)
Inductive Action := StartTransport (addr : string) | StopTransport | CloseStore.

Section Startup.
Context (g : Gossip) (listen : string -> result unit) (clk : Clock).

Definition memberConfig (host : string) (port : Z) (cfg : Config) : MemberConfig :=
  MkMemberConfig (NodeName cfg) host port (Peers cfg) (GRPCPort cfg) (HTTPPort cfg).

Definition startCluster (cfg : Config) : result Topology * list Action :=
  match SplitHostPort (ListenAddr cfg) with
  | inr err => (Err (ErrWrap (ErrText "cachegrid: invalid ListenAddr") (ErrText err)), [])
  | inl (host, portStr) =>
      let host := if String.eqb host "" then "0.0.0.0" else host in
      let port := default 0 (Atoi portStr) in
      let rpcAddr := hostPort host (GRPCPort cfg) in
      match Start (H := unit) listen rpcAddr (NewTCPTransport (5 * Second) ∅) with
      | Err err => (Err (ErrWrap (ErrText "cachegrid: failed to start RPC transport") err), [CloseStore])
      | Ok _ =>
          let mc := memberConfig host port cfg in
          match NewMembership g mc clk (NewClusterState (NodeName cfg), NewRing (VirtualNodes cfg)) with
          | Err err =>
              (Err (ErrWrap (ErrText "cachegrid: failed to create cluster") err),
               [StartTransport rpcAddr; StopTransport; CloseStore])
          | Ok t =>
              let t := if (0 <? length (Peers cfg))%nat then (Join g mc t).2 else t in
              (Ok t, [StartTransport rpcAddr])
          end
      end
  end.

Context {S V T : Type} `{Store S V T}.
Context (hostname : string) (openStore : Config -> result S).

Definition NewCache (cfg : Config) : result (Cache S) :=
  New hostname openStore (fun cfg => (startCluster cfg).1) cfg.

Definition NewMemory : result (Cache S) := NewCache DefaultConfig.

Definition NewDisk (path : string) : result (Cache S) :=
  let c := DefaultConfig in
  NewCache (MkConfig (NumShards c) (MaxMemoryMB c) (DefaultTTL c) (SweeperInterval c) Disk path
    (ListenAddr c) (Peers c) (cMode c) (NodeName c) (GRPCPort c) (HTTPPort c) (VirtualNodes c)).
End Startup.

(** Addresses. *)
Example split_plain : SplitHostPort "0.0.0.0:7946" = inl ("0.0.0.0", "7946").
Proof. reflexivity. Qed.
Example split_any : SplitHostPort ":7946" = inl ("", "7946").
Proof. reflexivity. Qed.
Example split_v6 : SplitHostPort "[::1]:7946" = inl ("::1", "7946").
Proof. reflexivity. Qed.
Example split_bare : SplitHostPort "7946" = inr "missing port in address".
Proof. reflexivity. Qed.
Example split_bare_v6 : SplitHostPort "::1:7946" = inr "too many colons in address".
Proof. reflexivity. Qed.

(** ** Properties *)

Section StartupProofs.
Context (g : Gossip) (listen : string -> result unit) (clk : Clock).
Context {S V T : Type} `{Store S V T}.
Context (hostname : string) (openStore : Config -> result S).

(** What a failed start leaves open. When the cluster cannot be started
    because its transport or its membership does not start, the store is closed
    and a started transport stopped; when the address to listen on has no valid
    form, New returns the error and leaves the store open. *)
Theorem startup_releases cfg :
  let '(r, acts) := startCluster g listen clk cfg in
  match r with
  | Ok _ => exists addr, acts = [StartTransport addr]
  | Err _ =>
      (CloseStore ∈ acts /\ forall addr, StartTransport addr ∈ acts -> StopTransport ∈ acts)
      \/ (exists err, SplitHostPort (ListenAddr cfg) = inr err) /\ acts = []
  end.
Proof.
  unfold startCluster. destruct (SplitHostPort (ListenAddr cfg)) as [[host port]|err]; [|right; eauto].
  destruct (Start _ _ _); [|left; set_solver].
  destruct (NewMembership _ _ _ _); [by eexists|left; set_solver].
Qed.

Lemma validate_keeps cfg cfg' : validate cfg = (None, cfg') ->
  ListenAddr cfg' = ListenAddr cfg /\ Peers cfg' = Peers cfg /\ VirtualNodes cfg' = VirtualNodes cfg.
Proof.
  unfold validate. intros Hv.
  destruct (SweeperInterval cfg <=? 0); destruct (cStorageMode _);
    repeat (case_bool_decide || destruct (_ <=? _) || destruct (negb _) || destruct (_ <? _));
    by simplify_eq/=.
Qed.

(** Reports of the node itself do not change what it starts with. *)
Lemma joined_self name ns st r : Forall (fun x => nName x.2 = name) ns ->
  let t := joined_nodes g ns (st, r) in self t.1 = self st /\ AddNode name t.2 = AddNode name r.
Proof.
  revert st r. induction ns as [|[now node] ns IH]; intros st r Hn; [done|].
  apply Forall_cons in Hn as [Hx Hn]. cbn in Hx. subst name. cbn [joined_nodes foldl].
  destruct (IH (State_AddNode (nodeToInfo (unmarshalMeta g) now node) st) (AddNode (nName node) r) Hn) as [Hs Hr].
  split; [exact Hs|]. etrans; [exact Hr|]. apply AddNode_old. rewrite members_AddNode. set_solver.
Qed.

Lemma lone_ring_owner name vn key : collision_free name (NewRing vn) ->
  GetNode key (AddNode name (NewRing vn)) = name.
Proof.
  intros Hc. assert (RingOk (AddNode name (NewRing vn))) as Hok.
  { apply AddNode_ok; [apply NewRing_ok|set_solver|done]. }
  assert (members (AddNode name (NewRing vn)) = {[name]}) as Hm by (rewrite members_AddNode; set_solver).
  destruct (GetNode_owner key _ Hok) as (x & _ & Hx); [eapply (ring_nonempty _ name); [done|set_solver]|].
  apply (ring_own _ Hok) in Hx as [Hin _]. rewrite Hm in Hin. set_solver.
Qed.

(** A node that starts alone serves every key. If New succeeds with an address
    to listen on and no peers, and memberlist reports no node but this one, the
    ring has this node as its only member, LocalNode finds it, and every key is
    routed to the local store. *)
Theorem lone_node_owns_all cfg c key :
  NewCache g listen clk hostname openStore cfg = Ok c -> ListenAddr cfg ≠ "" -> Peers cfg = [] ->
  (forall mc ns, create g mc = Ok ns -> Forall (fun x => nName x.2 = mlName mc) ns) ->
  collision_free (NodeName (config c)) (NewRing (VirtualNodes cfg)) ->
  ownerAddr key c = ""
  /\ exists t mc, cluster c = Some t /\ members t.2 = {[NodeName (config c)]}
     /\ LocalNode mc t = Some (selfNode mc (clk 0%nat)) /\ mcNodeName mc = NodeName (config c).
Proof.
  unfold NewCache, New. intros Hnew Hl Hp Hg. destruct (validate cfg) as [[err|] cfg1] eqn:Hv; [done|].
  apply validate_keeps in Hv as (Hl1 & Hp1 & Hv1). rewrite <- Hv1. set (cfg2 := withNodeName hostname cfg1) in *.
  assert (ListenAddr cfg2 = ListenAddr cfg1 /\ Peers cfg2 = Peers cfg1 /\ VirtualNodes cfg2 = VirtualNodes cfg1) as (Hl2 & Hp2 & Hv2).
  { unfold cfg2, withNodeName. by destruct (String.eqb (NodeName cfg1) ""). }
  destruct (openStore cfg2) as [s|]; [|done]. rewrite <- Hl1, <- Hl2 in Hl. rewrite <- Hp1, <- Hp2 in Hp.
  rewrite (proj2 (String.eqb_neq _ _) Hl) in Hnew. cbn [negb] in Hnew. rewrite <- Hv2.
  unfold startCluster in Hnew. destruct (SplitHostPort (ListenAddr cfg2)) as [[host port]|]; [|done].
  destruct (Start _ _ _) as [|]; [|done]. set (mc := memberConfig _ _ cfg2) in Hnew.
  unfold NewMembership in Hnew. destruct (create g _) as [ns|] eqn:Ec; [|done].
  apply Hg in Ec. cbn [mlName mc memberConfig mcNodeName] in Ec.
  rewrite Hp in Hnew. cbn [length Nat.ltb Nat.leb fst] in Hnew. injection Hnew as <-. cbn [config cluster].
  intros Hc. destruct (joined_self (NodeName cfg2) ns (NewClusterState (NodeName cfg2)) (NewRing (VirtualNodes cfg2)) Ec)
    as [Hself Hring].
  set (t0 := joined_nodes g ns _) in *. split.
  - unfold ownerAddr. cbn [cluster]. cbn [addSelf]. cbn [selfNode mc memberConfig mcNodeName Name].
    rewrite Hring, lone_ring_owner by done. unfold SelfName. cbn [State_AddNode self].
    rewrite Hself. cbn [NewClusterState self]. rewrite String.eqb_refl. by rewrite orb_true_r.
  - eexists _, mc. split; [done|]. split_and!; [|by cbn; rewrite lookup_insert_eq|done].
    cbn [addSelf snd selfNode mc memberConfig mcNodeName Name]. rewrite Hring, members_AddNode. set_solver.
Qed.
End StartupProofs.

(** ** Witness *)

#[local] Existing Instance tagged_msgpack.

Definition w_boot : Config :=
  MkConfig 4 0 0 Second Memory "" ":7946" [] Partitioned "a" 7947 6380 3.
Definition w_gossip : Gossip :=
  MkGossip (fun _ => zeroMeta) (fun mc => Ok [(0, MkMlNode (mlName mc) "10.0.0.1" 7946 [])])
    (fun _ => (0, None, [])).
Definition w_started : result (Cache MemoryStore) :=
  NewCache w_gossip (fun _ => Ok tt) (frozen 1) "host" (fun cfg => Ok (NewMemoryStore (NumShards cfg) 0)) w_boot.

Lemma lone_node_owns_all_witness :
  match w_started with
  | Ok c => ownerAddr "k" c = ""
      /\ exists t mc, cluster c = Some t /\ members t.2 = {["a"]}
         /\ LocalNode mc t = Some (selfNode mc 1) /\ mcNodeName mc = "a"
  | Err _ => False
  end.
Proof.
  destruct w_started as [c|] eqn:E; [|vm_compute in E; discriminate E].
  assert (NodeName (config c) = "a") as Hn by (vm_compute in E; by injection E as <-).
  rewrite <- Hn. apply (lone_node_owns_all w_gossip (fun _ => Ok tt) (frozen 1) "host"
    (fun cfg => Ok (NewMemoryStore (NumShards cfg) 0)) w_boot c "k" E).
  - discriminate.
  - reflexivity.
  - intros mc ns [= <-]. by constructor.
  - rewrite Hn. by_decide.
Defined.
