(* ===== verification/Sessions.v ===== *)
(** examples/sessions/main.go: a session store on top of the cache, with its
    HTTP handlers and the middleware that checks the session.

    The bytes of crypto/rand and what encoding/json makes of the body of a login
    are parameters, as in Server.v; how a Session is a value for msgpack is the
    class [SessionValue]. The program has a second cache, for the rate limit: it
    uses of it the token buckets only, which are those of the node here. *)
From stdpp Require Import pretty.
From S2P Require Import Prelude GoLib Serializer Config Shard Store ShardTheorems PebbleStore PebbleProofs Counters Tags LockEngine HashRing RingProofs Cluster Transport Glob Broker Cache CacheProofs CacheTheorems Replication Modes Float64 RateLimit GoStrings Http Server Middleware.

#[local] Open Scope cache_scope.

Record Session := MkSession {
  UserID : string;
  Username : string;
  CreatedAt : Time;
  LastSeen : Time;
}.

Definition zeroSession : Session := MkSession "" "" zeroTime zeroTime.

Definition sessionTTL : Duration := 24 * Hour.

(** A Session in an interface{}, and the type of a pointer to one. *)
Class SessionValue (V T : Type) := {
  boxSession : Session -> V;
  unboxSession : V -> option Session;
  sessionType : T;
}.

(** ** Contexts *)

(** The context of a request, and [sessionContext] around another one. *)
Inductive ReqContext :=
  | RequestContext (deadline : option Time) (done : bool) (err : option Error)
  | sessionContext (parent : ReqContext) (session : Session).

Definition contextKeySession : string := "session".

Definition contextWithSession (ctx : ReqContext) (s : Session) : ReqContext := sessionContext ctx s.

Fixpoint Context_Deadline (ctx : ReqContext) : option Time :=
  match ctx with
  | RequestContext deadline _ _ => deadline
  | sessionContext parent _ => Context_Deadline parent
  end.
Fixpoint Context_Done (ctx : ReqContext) : bool :=
  match ctx with
  | RequestContext _ done _ => done
  | sessionContext parent _ => Context_Done parent
  end.
Fixpoint Context_Err (ctx : ReqContext) : option Error :=
  match ctx with
  | RequestContext _ _ err => err
  | sessionContext parent _ => Context_Err parent
  end.
Fixpoint Context_Value (key : string) (ctx : ReqContext) : option Session :=
  match ctx with
  | RequestContext _ _ _ => None
  | sessionContext parent session =>
      if String.eqb key contextKeySession then Some session else Context_Value key parent
  end.

(** ** Tokens *)

Definition extractToken (r : Request) : string :=
  let auth := Header_Get "Authorization" (rHeader r) in
  if String.prefix "Bearer " auth
  then String.substring 7 (String.length auth - 7) auth
  else "".

(** [random] are the 32 bytes that were read. *)
Definition generateToken (random : bytes) : string := EncodeToString random.

Definition sessionKey (token : string) : string := "session:" +:+ token.
Definition statsKey : string := "stats:active_sessions".

(** The literal with one field, "error". *)
Definition errorText (msg : string) : string :=
  let q := of_bytes [34] in "{" +:+ q +:+ "error" +:+ q +:+ ":" +:+ q +:+ msg +:+ q +:+ "}".

Section Sessions.
Context {S V T : Type} `{Store S V T} `{JsonCodec} `{SessionValue V T}.
Context (decodeLogin : bytes -> option string) (rfc3339 : Time -> string).
Context (machine : float64 -> Z) (order : ClusterState -> list (string * NodeInfo)) (me : string).
Abbreviation Handler := (Handler (S := S)).

Definition sessionJson (s : Session) : Json :=
  JObject [("user_id", JString (UserID s)); ("username", JString (Username s));
           ("created_at", JString (rfc3339 (CreatedAt s))); ("last_seen", JString (rfc3339 (LastSeen s)))].

(** Content type and JSON, with the status 200 of the first Write. *)
Definition answerJson (v : Json) (w : ResponseWriter) : ResponseWriter :=
  Write (encodeJson v) (Header_Set "Content-Type" "application/json" w).

(** ** Handlers *)

Definition handleLogin (random : bytes) : Handler := fun r clk w n =>
  match readJSON decodeLogin r with
  | None | Some "" => Returned (http_Error (errorText "username required") 400 w) n
  | Some username =>
      let token := generateToken random in
      let session := MkSession ("user-" +:+ username) username (clk 0%nat) (clk 1%nat) in
      cacheCall (Cache_Set order me (sessionKey token) (GOther (boxSession session)) sessionTTL (advance 2 clk)) w n
        (fun err n =>
          match err with
          | Err _ => Returned (http_Error (errorText "failed to create session") 500 w) n
          | Ok _ =>
              cacheCall (Cache_Incr me statsKey 1 (advance 10 clk)) w n (fun _ n =>
                Returned (answerJson (JObject
                  [("expires_in", JString (Duration_String sessionTTL));
                   ("message", JString ("Login successful. Use Authorization: Bearer " +:+ token));
                   ("token", JString token)]) w) n)
          end)
  end.

(** The type assertion panics when the context has no session. *)
Definition handleMe (ctx : ReqContext) : Handler := fun r clk w n =>
  match Context_Value contextKeySession ctx with
  | None => Panicked w n
  | Some session =>
      let session := MkSession (UserID session) (Username session) (CreatedAt session) (clk 0%nat) in
      cacheCall (Cache_Set order me (sessionKey (extractToken r)) (GOther (boxSession session)) sessionTTL (advance 1 clk))
        w n (fun _ n => Returned (answerJson (sessionJson session) w) n)
  end.

Definition handleLogout (ctx : ReqContext) : Handler := fun r clk w n =>
  cacheCall (Cache_Delete order me (sessionKey (extractToken r)) clk) w n (fun _ n =>
    cacheCall (Cache_Decr me statsKey 1 (advance 8 clk)) w n (fun _ n =>
      Returned (answerJson (JObject [("message", JString "Logged out successfully")]) w) n)).

Definition handleSessionCount : Handler := fun r clk w n =>
  cacheCall (Cache_Incr me statsKey 0 clk) w n (fun count n =>
    Returned (answerJson (JObject
      [("active_sessions", JInt (match count with Ok z => z | Err _ => 0 end));
       ("storage", JString "disk (PebbleDB)")]) w) n).

(** ** The middleware *)

Definition requireAuth (next : ReqContext -> Handler) : Handler := fun r clk w n =>
  let token := extractToken r in
  if String.eqb token "" then Returned (http_Error (errorText "missing Authorization header") 401 w) n
  else
    cacheCall (Cache_Get me (sessionKey token) (DOther sessionType) clk) w n (fun v n =>
      match v with
      | None => Returned (http_Error (errorText "invalid or expired session") 401 w) n
      | Some v =>
          let session := match v with GOther v => default zeroSession (unboxSession v) | _ => zeroSession end in
          next (contextWithSession (RequestContext None false None) session) r (advance 8 clk) w n
      end).

(** ** main *)

Definition notAllowed (allow : string) : Handler := fun r clk w n =>
  Returned (http_Error "Method Not Allowed" 405 (Header_Set "Allow" allow w)) n.

Definition sessionsMux (random : bytes) : Handler := fun r =>
  let get := String.eqb (Method r) "GET" || String.eqb (Method r) "HEAD" in
  let post := String.eqb (Method r) "POST" in
  match Path r with
  | ["login"] => if post then handleLogin random r else notAllowed "POST" r
  | ["me"] => if get then requireAuth handleMe r else notAllowed "GET, HEAD" r
  | ["logout"] => if post then requireAuth handleLogout r else notAllowed "POST" r
  | ["sessions"; "count"] => if get then handleSessionCount r else notAllowed "GET, HEAD" r
  | _ => fun clk w n => Returned (http_Error "404 page not found" 404 w) n
  end.

Definition sessionsHandler (random : bytes) : StateHandler S unit :=
  HTTPRateLimit machine 10 Minute (plain (sessionsMux random)).
End Sessions.

(** ** Properties, over any store that keeps counters and forgets nothing *)

Section SessionTheorems.
Context {S V T : Type} `{PersistentLaws S V T} `{JsonCodec} `{SessionValue V T}.
Context (decodeLogin : bytes -> option string) (rfc3339 : Time -> string).
Context (order : ClusterState -> list (string * NodeInfo)) (me : string).
Abbreviation Site := (Site me).

(** msgpack encodes sessions, and decodes what it has encoded. *)
Context (encodeSession : Session -> bytes).
Hypothesis session_codec : forall s,
  MarshalOther (boxSession s) = Ok (encodeSession s)
  /\ UnmarshalOther (encodeSession s) sessionType = Ok (boxSession s) /\ unboxSession (boxSession s) = Some s.

Implicit Types (wd : World (S := S)) (c : Cache S) (n : Node S).

(** The clock is in range, and a session can be stored at any reading of it. *)
Definition Timely (clk : Clock) : Prop :=
  ClockOk clk /\ forall i s k data, store_ok s -> admits s k data sessionTTL (advance i clk).

Definition session_of (token : string) (s : Session) (t : Time) c : Prop :=
  view (store c) (sessionKey token) = Some (encodeSession s, expiryOf sessionTTL t).

Lemma site_set wd c token s clk : Site wd c -> Timely clk ->
  exists wd' c', Cache_Set order me (sessionKey token) (GOther (boxSession s)) sessionTTL clk wd = Some (Ok tt, wd')
    /\ Site wd' c' /\ session_of token s (clk 0%nat) c' /\ config c' = config c
    /\ forall k, k ≠ sessionKey token -> view (store c') k = view (store c) k.
Proof.
  intros Hs [Hclk Had]. pose proof (Had 0%nat _ (sessionKey token) (encodeSession s) (st_ok _ _ _ Hs)) as Ha.
  change (advance 0 clk) with clk in Ha.
  destruct (evicting_SetAt c (sessionKey token) (encodeSession s) sessionTTL clk (st_ok _ _ _ Hs) Hclk Ha) as (cs & s' & Hset & Hat).
  pose proof (law_Set_frame _ _ _ _ _ _ _ (st_ok _ _ _ Hs) Hclk Ha Hset) as Hfr.
  assert (storeSet me (sessionKey token) (encodeSession s) sessionTTL clk wd
    = Some (tt, MkWorld (put_host me (evicting cs s' c) (net wd)) (log wd))) as Hst.
  { unfold storeSet, withEvictions, bind, this, put, ret. by rewrite (st_host _ _ _ Hs), Hset. }
  eexists _, (evicting cs s' c). split_and!.
  - unfold Cache_Set, bind at 1, this. rewrite (st_host _ _ _ Hs), (st_open _ _ _ Hs).
    rewrite (proj2 (String.eqb_neq (sessionKey token) "") ltac:(done)). cbn [Serialize]. rewrite (proj1 (session_codec s)).
    change (sessionTTL =? 0) with false. unfold distributedSet, bind, this, emit, ret.
    rewrite (st_host _ _ _ Hs), (st_mode _ _ _ Hs). unfold ownerAddr. rewrite (st_alone _ _ _ Hs). cbn [String.eqb negb].
    rewrite Hst. reflexivity.
  - apply (site_put me wd c); [done|apply Hat|apply Hat].
  - apply Hat, law_retains.
  - done.
  - exact Hfr.
Qed.

Lemma site_get wd c token clk : Site wd c -> ClockOk clk ->
  exists wd' c', Cache_Get me (sessionKey token) (DOther sessionType) clk wd
      = Some (match live_at (clk 0%nat) (view (store c) (sessionKey token)) with
              | Some (data, _) => match UnmarshalOther data sessionType with Ok v => Some (GOther v) | Err _ => None end
              | None => None
              end, wd')
    /\ Site wd' c' /\ config c' = config c /\ forall k, k ≠ sessionKey token -> view (store c') k = view (store c) k.
Proof.
  intros Hs Hclk. destruct (Cache_Get_spec wd me (sessionKey token) me c c (DOther sessionType) clk) as (c' & lg & Hg & Hat);
    [by apply site_serves|apply Hs|done|done|].
  eexists _, c'. split_and!; [|by apply (site_put me wd c c' lg Hs); apply Hat|by apply Hat|by apply Hat].
  rewrite Hg. cbn [Deserialize]. destruct (live_at _ _) as [[data x]|]; [|done]. by destruct (UnmarshalOther data sessionType).
Qed.

Lemma site_incr wd c d clk : Site wd c -> ClockOk clk ->
  exists r wd' c', Cache_Incr me statsKey d clk wd = Some (r, wd') /\ Site wd' c' /\ config c' = config c
    /\ (forall k, k ≠ statsKey -> view (store c') k = view (store c) k)
    /\ (forall z, counter (store c) statsKey z -> r = Ok (int64 (z + d)) /\ counter (store c') statsKey (int64 (z + d)))
    /\ (view (store c) statsKey = None -> DefaultTTL (config c) = 0 ->
        r = Ok (int64 d) /\ counter (store c') statsKey (int64 d)).
Proof.
  intros Hs Hclk.
  destruct (law_Incr (store c) statsKey d (DefaultTTL (config c)) clk (st_ok _ _ _ Hs) Hclk) as (r & cs & s' & Hi & Hok & Hfr & Hc & Hn).
  eexists r, _, (evicting cs s' c). split_and!; [|by apply (site_put me wd c); try done| |done..].
  - unfold Cache_Incr, incrBy, withEvictions, bind, this, put, ret. rewrite (st_host _ _ _ Hs), (st_open _ _ _ Hs).
    unfold ownerAddr. rewrite (st_alone _ _ _ Hs). cbn. rewrite (st_host _ _ _ Hs). cbn in Hi. rewrite Hi. reflexivity.
  - done.
Qed.

Abbreviation login := (handleLogin decodeLogin order me).
Abbreviation me_handler := (requireAuth me (handleMe rfc3339 order me)).
Abbreviation logout := (requireAuth me (handleLogout order me)).

(** A login by [username]. *)
Lemma login_spec n c r username random clk :
  Site (world n) c -> Timely clk -> readJSON decodeLogin r = Some username -> username ≠ "" ->
  exists n' c', login random r clk newWriter n
      = Returned (answerJson (JObject
          [("expires_in", JString "24h0m0s");
           ("message", JString ("Login successful. Use Authorization: Bearer " +:+ generateToken random));
           ("token", JString (generateToken random))]) newWriter) n'
    /\ Site (world n') c' /\ config c' = config c
    /\ session_of (generateToken random) (MkSession ("user-" +:+ username) username (clk 0%nat) (clk 1%nat)) (clk 2%nat) c'
    /\ (forall z, counter (store c) statsKey z -> counter (store c') statsKey (int64 (z + 1)))
    /\ (view (store c) statsKey = None -> DefaultTTL (config c) = 0 -> counter (store c') statsKey 1).
Proof.
  intros Hs [Hclk Had] Hr Hu. set (token := generateToken random).
  set (s := MkSession ("user-" +:+ username) username (clk 0%nat) (clk 1%nat)).
  destruct (site_set (world n) c token s (advance 2 clk) Hs) as (wd1 & c1 & Hset & Hs1 & Hses & Hcfg & Hfr).
  { split; [by apply advance_ok|]. intros i. apply (Had (2 + i)%nat). }
  destruct (site_incr wd1 c1 1 (advance 10 clk) Hs1) as (x & wd2 & c2 & Hi & Hs2 & Hcfg2 & Hfr2 & Hc & Hn); [by apply advance_ok|].
  eexists _, c2. split_and!.
  - unfold handleLogin. rewrite Hr. fold token s. unfold cacheCall. destruct username as [|ch username]; [done|].
    rewrite Hset. cbn [world set_world]. rewrite Hi. reflexivity.
  - exact Hs2.
  - congruence.
  - unfold session_of. rewrite Hfr2 by done. exact Hses.
  - intros z (b & Hb & Hz). apply Hc. exists b. by rewrite Hfr.
  - intros Hno Hd. apply Hn; [by rewrite Hfr|congruence].
Qed.

(** requireAuth with a session that is live. *)
Lemma auth_passes next n c r s t clk :
  Site (world n) c -> ClockOk clk -> extractToken r ≠ "" -> session_of (extractToken r) s t c ->
  clk 0%nat <= t + sessionTTL ->
  exists n' c', requireAuth me next r clk newWriter n
      = next (contextWithSession (RequestContext None false None) s) r (advance 8 clk) newWriter n'
    /\ Site (world n') c' /\ config c' = config c
    /\ forall k, k ≠ sessionKey (extractToken r) -> view (store c') k = view (store c) k.
Proof.
  intros Hs Hclk Ht Hses Hlive. destruct (site_get (world n) c (extractToken r) clk Hs Hclk) as (wd1 & c1 & Hg & Hs1 & Hcfg & Hfr).
  rewrite Hses, live_at_expiryOf in Hg by done. destruct (session_codec s) as (_ & Hu & Hb). rewrite Hu in Hg.
  exists (set_world wd1 n), c1. split_and!; [|done..].
  unfold requireAuth, cacheCall. rewrite (proj2 (String.eqb_neq _ "") Ht), Hg, Hb. reflexivity.
Qed.

(** requireAuth without one: no such session, or it has expired. *)
Lemma auth_refuses next n c r clk :
  Site (world n) c -> ClockOk clk -> live_at (clk 0%nat) (view (store c) (sessionKey (extractToken r))) = None ->
  exists msg n' c', requireAuth me next r clk newWriter n = Returned (http_Error msg 401 newWriter) n'
    /\ Site (world n') c' /\ config c' = config c
    /\ forall k, k ≠ sessionKey (extractToken r) -> view (store c') k = view (store c) k.
Proof.
  intros Hs Hclk Hdead. unfold requireAuth, cacheCall.
  destruct (String.eqb_spec (extractToken r) "") as [He|Ht]; [by eexists _, n, c|].
  destruct (site_get (world n) c (extractToken r) clk Hs Hclk) as (wd1 & c1 & Hg & Hs1 & Hcfg & Hfr).
  rewrite Hdead in Hg. rewrite Hg. by eexists _, (set_world wd1 n), c1.
Qed.

(** A visit renews the session. *)
Lemma visit_spec n c r s t clk :
  Site (world n) c -> Timely clk -> extractToken r ≠ "" -> session_of (extractToken r) s t c -> clk 0%nat <= t + sessionTTL ->
  let s' := MkSession (UserID s) (Username s) (CreatedAt s) (clk 8%nat) in
  exists n' c', me_handler r clk newWriter n = Returned (answerJson (sessionJson rfc3339 s') newWriter) n'
    /\ Site (world n') c' /\ session_of (extractToken r) s' (clk 9%nat) c'.
Proof.
  intros Hs [Hclk Had] Ht Hses Hlive s'.
  destruct (auth_passes (handleMe rfc3339 order me) n c r s t clk) as (n1 & c1 & Ha & Hs1 & _); try done.
  destruct (site_set (world n1) c1 (extractToken r) s' (advance 9 clk) Hs1) as (wd2 & c2 & Hset & Hs2 & Hses2 & _).
  { split; [by apply advance_ok|]. intros i. apply (Had (9 + i)%nat). }
  exists (set_world wd2 n1), c2. split_and!; [|exact Hs2|exact Hses2].
  rewrite Ha. unfold handleMe. cbn [Context_Value contextWithSession]. rewrite String.eqb_refl.
  change (advance 8 clk 0%nat) with (clk 8%nat). fold s'.
  unfold cacheCall. change (advance 1 (advance 8 clk)) with (advance 9 clk). rewrite Hset. reflexivity.
Qed.

(** Visits of /me with the same request, one after the other. *)
Fixpoint visits (r : Request) (clks : list Clock) n : option (list Response * Node S) :=
  match clks with
  | [] => Some ([], n)
  | clk :: clks' =>
      match me_handler r clk newWriter n with
      | Returned w n' =>
          match visits r clks' n' with
          | Some (resps, n'') => Some (finish w :: resps, n'')
          | None => None
          end
      | Panicked _ _ => None
      end
  end.

(** No visit comes later than a day after the one before, the first after [t]. *)
Fixpoint Regular (t : Time) (clks : list Clock) : Prop :=
  match clks with
  | [] => True
  | clk :: clks' => Timely clk /\ clk 0%nat <= t + sessionTTL /\ Regular (clk 9%nat) clks'
  end.

Lemma visits_spec n c r s t clks :
  Site (world n) c -> extractToken r ≠ "" -> session_of (extractToken r) s t c -> Regular t clks ->
  exists n' c', visits r clks n = Some ((fun clk => finish (answerJson
      (sessionJson rfc3339 (MkSession (UserID s) (Username s) (CreatedAt s) (clk 8%nat))) newWriter)) <$> clks, n')
    /\ Site (world n') c'.
Proof.
  revert n c s t. induction clks as [|clk clks IH]; intros n c s t Hs Ht Hses Hreg; [by exists n, c|].
  destruct Hreg as (Hclk & Hlive & Hreg).
  destruct (visit_spec n c r s t clk Hs Hclk Ht Hses Hlive) as (n1 & c1 & Hv & Hs1 & Hses1).
  destruct (IH n1 c1 _ _ Hs1 Ht Hses1 Hreg) as (n2 & c2 & Hvs & Hs2).
  exists n2, c2. split; [|done]. cbn [visits]. rewrite Hv, Hvs. reflexivity.
Qed.

(** A session lasts while it is used. A login is answered 200 with a token;
    with this token every visit of /me is answered 200 with the user of the
    login and the time of the visit, as long as no visit comes later than a day
    after the one before. *)
Theorem session_lifetime n c r username random clk r' clks :
  Site (world n) c -> Timely clk -> readJSON decodeLogin r = Some username -> username ≠ "" ->
  extractToken r' = generateToken random -> random ≠ [] -> Regular (clk 2%nat) clks ->
  exists w1 n1, login random r clk newWriter n = Returned w1 n1 /\ StatusCode (finish w1) = 200
    /\ exists resps n2, visits r' clks n1 = Some (resps, n2) /\ length resps = length clks
        /\ forall i clk', clks !! i = Some clk' -> exists resp, resps !! i = Some resp /\ StatusCode resp = 200
             /\ Content resp = encodeJson (sessionJson rfc3339
                  (MkSession ("user-" +:+ username) username (clk 0%nat) (clk' 8%nat))).
Proof.
  intros Hs Hclk Hr Hu Htok Hrnd Hreg.
  destruct (login_spec n c r username random clk Hs Hclk Hr Hu) as (n1 & c1 & Hl & Hs1 & _ & Hses & _).
  eexists _, n1. split; [exact Hl|]. split; [reflexivity|]. rewrite <- Htok in Hses.
  assert (extractToken r' ≠ "") as Hne by (rewrite Htok; unfold generateToken; by destruct random).
  destruct (visits_spec n1 c1 r' _ _ clks Hs1 Hne Hses Hreg) as (n2 & c2 & Hv & _).
  eexists _, n2. split; [exact Hv|]. split; [by rewrite length_fmap|].
  intros i clk' Hi. eexists.
  split; [rewrite list_lookup_fmap; etransitivity; [apply (f_equal (fmap _) Hi)|reflexivity]|done].
Qed.

(** Logging out ends a session. The answer to a logout with a session's token
    is 200, and from then on every request with this token is answered 401,
    whatever handler it was for. *)
Theorem logout_ends_session n c r s t clk r' clk' :
  Site (world n) c -> ClockOk clk -> ClockOk clk' -> extractToken r ≠ "" -> session_of (extractToken r) s t c ->
  clk 0%nat <= t + sessionTTL -> extractToken r' = extractToken r ->
  exists w1 n1, logout r clk newWriter n = Returned w1 n1 /\ StatusCode (finish w1) = 200
    /\ forall next, exists w2 n2, requireAuth me next r' clk' newWriter n1 = Returned w2 n2 /\ StatusCode (finish w2) = 401.
Proof.
  intros Hs Hclk Hclk' Ht Hses Hlive Htok.
  destruct (auth_passes (handleLogout order me) n c r s t clk) as (n1 & c1 & Ha & Hs1 & _); try done.
  destruct (Cache_Delete_local order (world n1) me c1 (sessionKey (extractToken r)) (advance 8 clk))
    as (wd2 & s2 & Hd & Hme2 & Hl2 & Hok2 & Hgone & _); [apply Hs1..|done|apply Hs1|].
  set (c2 := set_tags _ _) in Hme2.
  assert (Site wd2 c2) as Hs2.
  { split; [done|rewrite Hl2; apply Hs1|apply Hs1|apply Hs1|apply Hs1|exact Hok2]. }
  destruct (site_incr wd2 c2 (int64 (Z.opp 1)) (advance 16 clk) Hs2) as (x & wd3 & c3 & Hi & Hs3 & _ & Hfr & _); [by apply advance_ok|].
  eexists _, (set_world wd3 n1). split.
  { rewrite Ha. unfold handleLogout, cacheCall. rewrite Hd. cbn [world set_world]. unfold Cache_Decr.
    change (advance 8 (advance 8 clk)) with (advance 16 clk). unfold Cache_Incr in Hi. rewrite Hi. reflexivity. }
  split; [reflexivity|].
  - intros next. destruct (auth_refuses next (set_world wd3 n1) c3 r' clk') as (msg & n4 & c4 & Hr & _); [done|done| |].
    { rewrite Htok, Hfr by done. cbn [store c2 set_tags set_store]. by rewrite Hgone. }
    eexists _, n4. split; [exact Hr|reflexivity].
Qed.

(** The number of active sessions only goes down by logging out. After a login,
    once the session has expired, its token is refused, and /sessions/count
    still counts it: the stored counter has no way to know. *)
Theorem expired_sessions_count n c r username random clk next r' clk' z :
  Site (world n) c -> Timely clk -> ClockOk clk' -> readJSON decodeLogin r = Some username -> username ≠ "" ->
  extractToken r' = generateToken random -> clk 2%nat + sessionTTL < clk' 0%nat ->
  counter (store c) statsKey z \/ z = 0 /\ view (store c) statsKey = None /\ DefaultTTL (config c) = 0 ->
  exists w1 n1 w2 n2 w3 n3, login random r clk newWriter n = Returned w1 n1
    /\ requireAuth me next r' clk' newWriter n1 = Returned w2 n2 /\ StatusCode (finish w2) = 401
    /\ handleSessionCount me r' (advance 8 clk') newWriter n2 = Returned w3 n3
    /\ Content (finish w3) = encodeJson (JObject [("active_sessions", JInt (int64 (z + 1)));
                                                 ("storage", JString "disk (PebbleDB)")]).
Proof.
  intros Hs Hclk Hclk' Hr Hu Htok Hlate Hz.
  destruct (login_spec n c r username random clk Hs Hclk Hr Hu) as (n1 & c1 & Hl & Hs1 & _ & Hses & Hc1 & Hc2).
  assert (counter (store c1) statsKey (int64 (z + 1))) as Hcnt.
  { destruct Hz as [Hz|(-> & Hv & Hd)]; [by apply Hc1|by apply Hc2]. }
  destruct (auth_refuses next n1 c1 r' clk' Hs1 Hclk') as (msg & n2 & c2 & Ha & Hs2 & _ & Hfr).
  { rewrite Htok, Hses. unfold live_at, expiryOf, Add, zeroTime. replace (sessionTTL >? 0) with true by reflexivity. cbv iota.
    rewrite (proj2 (Z.leb_gt _ _) Hlate), orb_false_r. destruct (Z.eqb_spec (clk 2%nat + sessionTTL) 0) as [He|]; [|done].
    pose proof (clock_pos_at clk 2 (proj1 Hclk)). unfold sessionTTL, Hour, Minute, Second in He. lia. }
  destruct (site_incr (world n2) c2 0 (advance 8 clk') Hs2) as (x & wd3 & c3 & Hi & _ & _ & _ & Hc & _); [by apply advance_ok|].
  destruct (Hc (int64 (z + 1))) as [-> _].
  { destruct Hcnt as (b & Hb & Hbz). exists b. by rewrite Hfr. }
  eexists _, n1, _, n2, _, _. split_and!; [exact Hl|exact Ha|reflexivity| |].
  - unfold handleSessionCount, cacheCall. rewrite Hi. reflexivity.
  - cbn. rewrite Z.add_0_r, int64_idemp. reflexivity.
Qed.
End SessionTheorems.

(** ** Witnesses *)

#[local] Instance Session_eq_dec : EqDecision Session.
Proof. solve_decision. Defined.
#[local] Instance Session_countable : Countable Session.
Proof.
  refine (inj_countable' (fun s => (UserID s, Username s, CreatedAt s, LastSeen s))
    (fun '(a, b, x, y) => MkSession a b x y) _). by intros [].
Defined.

#[local] Instance ses_msgpack : Msgpack Session unit := countable_msgpack.
#[local] Instance ses_msgpack_laws : MsgpackLaws Session unit := countable_msgpack_laws.

#[local] Instance ses_value : SessionValue Session unit :=
  {| boxSession s := s; unboxSession := Some; sessionType := tt |}.

Lemma ses_codec s : MarshalOther (boxSession s) = Ok (digits_of s)
  /\ UnmarshalOther (digits_of s) sessionType = Ok (boxSession s) /\ unboxSession (boxSession s) = Some s.
Proof. split_and!; [done|apply digits_of_decode|done]. Qed.

#[local] Existing Instance map_db.
#[local] Existing Instance map_db_laws.
#[local] Existing Instance disk_laws.
#[local] Existing Instance disk_persistent.

#[local] Instance ses_json : JsonCodec := {
  decodeKeys _ := None; decodeLock _ := None; decodeTTL _ := None; decodeRateLimit _ := None;
  marshalJson _ := [Byte.x7b; Byte.x7d];
}.

Definition ses_cache : Cache (PebbleStore (gmap string bytes)) :=
  MkCache (NewPebbleStore ∅) DefaultConfig false None Lock.NewEngine newTagIndex [].
Definition ses_world : World (S := PebbleStore (gmap string bytes)) :=
  MkWorld (MkNetwork {["" := ses_cache]} (fun _ => None) (fun _ => [])) [].
Definition ses_node : Node (PebbleStore (gmap string bytes)) := MkNode ses_world ∅ ∅ Pubsub.NewBroker [].

Definition ses_random : bytes := replicate 32 Byte.xab.
Definition ses_decode (b : bytes) : option string := Some "alice".
Definition ses_post : Request := MkHttpRequest "POST" "/login" ["login"] ∅ (Some []) "10.1.1.1:5000".
Definition ses_visit : Request :=
  MkHttpRequest "GET" "/me" ["me"] {["Authorization" := ["Bearer " +:+ EncodeToString ses_random]]} None "10.1.1.1:5000".

Lemma ses_site : Site "" ses_world ses_cache.
Proof. by split. Qed.

Definition ses_time (hours : Z) : Clock := frozen (w_now + hours * Hour).

Lemma ses_timely hours : 0 <= hours <= 100 -> Timely (S := PebbleStore (gmap string bytes)) (ses_time hours).
Proof.
  intros Hh. unfold ses_time, w_now, Hour, Minute, Second. split.
  - apply frozen_ok. unfold unixEpoch, Second. lia.
  - intros i s k data _ _. unfold sessionTTL, advance, frozen, Hour, Minute, unixEpoch, Second. lia.
Qed.

(** A visit every twenty hours, for two and a half days. *)
Lemma session_lifetime_witness :
  exists w1 n1 resps n2,
    handleLogin ses_decode (fun _ => []) "" ses_random ses_post (ses_time 0) newWriter ses_node = Returned w1 n1
    /\ visits (fun _ => "") (fun _ => []) "" ses_visit [ses_time 20; ses_time 40; ses_time 60] n1 = Some (resps, n2)
    /\ length resps = 3%nat.
Proof.
  destruct (session_lifetime ses_decode (fun _ => "") (fun _ => []) "" digits_of ses_codec ses_node ses_cache ses_post
    "alice" ses_random (ses_time 0) ses_visit [ses_time 20; ses_time 40; ses_time 60])
    as (w1 & n1 & Hl & _ & resps & n2 & Hv & Hlen & _).
  - exact ses_site.
  - by apply ses_timely.
  - reflexivity.
  - discriminate.
  - vm_compute. reflexivity.
  - discriminate.
  - cbn [Regular]. unfold ses_time, frozen, sessionTTL.
    split_and!; try (by apply ses_timely); try exact I; unfold Hour, Minute, Second; lia.
  - exists w1, n1, resps, n2. split; [exact Hl|]. split; [exact Hv|exact Hlen].
Defined.

(** The site after the login. *)
Definition ses_in : Node (PebbleStore (gmap string bytes)) :=
  match handleLogin ses_decode (fun _ => []) "" ses_random ses_post (ses_time 0) newWriter ses_node with
  | Returned _ n | Panicked _ n => n
  end.

Lemma ses_in_site : exists c s, Site "" (world ses_in) c /\ session_of digits_of (extractToken ses_visit) s (w_now + 0 * Hour) c.
Proof.
  destruct (login_spec ses_decode (fun _ => []) "" digits_of ses_codec ses_node ses_cache ses_post "alice" ses_random (ses_time 0))
    as (n & c & Hl & Hs & _ & Hses & _); [exact ses_site|by apply ses_timely|reflexivity|discriminate|].
  exists c. eexists. assert (ses_in = n) as -> by (unfold ses_in; by rewrite Hl). split; [exact Hs|].
  assert (extractToken ses_visit = generateToken ses_random) as -> by (vm_compute; reflexivity). exact Hses.
Qed.

Lemma logout_ends_session_witness :
  exists w1 n1 w2 n2,
    requireAuth "" (handleLogout (fun _ => []) "") ses_visit (ses_time 1) newWriter ses_in = Returned w1 n1
    /\ requireAuth "" (handleMe (fun _ => "") (fun _ => []) "") ses_visit (ses_time 2) newWriter n1 = Returned w2 n2
    /\ StatusCode (finish w2) = 401.
Proof.
  destruct ses_in_site as (c & s & Hs & Hses).
  destruct (logout_ends_session (fun _ => []) "" digits_of ses_codec ses_in c ses_visit s (w_now + 0 * Hour)
    (ses_time 1) ses_visit (ses_time 2)) as (w1 & n1 & Hl & _ & Hr).
  - exact Hs.
  - by apply (ses_timely 1).
  - by apply (ses_timely 2).
  - vm_compute. discriminate.
  - exact Hses.
  - unfold ses_time, frozen, sessionTTL, Hour, Minute, Second. lia.
  - reflexivity.
  - destruct (Hr (handleMe (fun _ => "") (fun _ => []) "")) as (w2 & n2 & Hm & Hst).
    exists w1, n1, w2, n2. split; [exact Hl|]. split; [exact Hm|exact Hst].
Defined.

Lemma expired_sessions_count_witness :
  exists w2 n2 w3 n3,
    requireAuth "" (handleMe (fun _ => "") (fun _ => []) "") ses_visit (ses_time 25) newWriter ses_in = Returned w2 n2
    /\ StatusCode (finish w2) = 401
    /\ handleSessionCount "" ses_visit (advance 8 (ses_time 25)) newWriter n2 = Returned w3 n3
    /\ Content (finish w3) = encodeJson (JObject [("active_sessions", JInt 1); ("storage", JString "disk (PebbleDB)")]).
Proof.
  destruct (expired_sessions_count ses_decode (fun _ => []) "" digits_of ses_codec ses_node ses_cache ses_post "alice"
    ses_random (ses_time 0) (handleMe (fun _ => "") (fun _ => []) "") ses_visit (ses_time 25) 0)
    as (w1 & n1 & w2 & n2 & w3 & n3 & Hl & Ha & Hst & Hc & Hct).
  - exact ses_site.
  - by apply ses_timely.
  - by apply (ses_timely 25).
  - reflexivity.
  - discriminate.
  - vm_compute. reflexivity.
  - unfold ses_time, frozen, sessionTTL, Hour, Minute, Second. lia.
  - right. done.
  - exists w2, n2, w3, n3. assert (ses_in = n1) as -> by (unfold ses_in; by rewrite Hl).
    split; [exact Ha|]. split; [exact Hst|]. split; [exact Hc|exact Hct].
Defined.
