(* ===== verification/WebApi.v ===== *)
(** examples/webapi/main.go: a bookstore in front of the cache, which keeps
    copies of what its handlers read from the database, tagged, and invalidates
    the tags when it writes.

    The database is the map [bookDB] behind its mutex. What encoding/json makes
    of a body, how books are values for msgpack and the iteration orders of maps
    are parameters. [Bookstore] has the middleware that main puts around the
    handlers. *)
From Stdlib Require Import QArith.
From stdpp Require Import pretty.
From S2P Require Import Prelude GoLib Serializer Config Shard Store LRUSpec ShardTheorems MemoryStore Tags LockEngine LockProofs HashRing RingProofs Cluster Transport Glob Broker Cache CacheProofs CacheLock CacheTheorems Replication Modes Float64 RateLimit GoStrings Http Server Middleware.

#[local] Open Scope cache_scope.
#[local] Open Scope Z_scope.

(** ** The database *)

Record Book := MkBook {
  ID : string;
  Title : string;
  Author : string;
  Price : float64;
  Stock : Z;
}.

Record Shop := MkShop {
  bookDB : gmap string Book;
  nextID : Z;
}.

Definition initialShop : Shop :=
  MkShop (list_to_map
    [("1", MkBook "1" "The Go Programming Language" "Donovan & Kernighan" (round (3499 # 100)) 10);
     ("2", MkBook "2" "Designing Data-Intensive Applications" "Martin Kleppmann" (round (4299 # 100)) 5);
     ("3", MkBook "3" "Clean Code" "Robert C. Martin" (round (2999 # 100)) 8)]) 4.

(** The configuration of main; the other fields are zero. *)
Definition shopConfig : Config :=
  MkConfig 64 128 (5 * Minute) Second Memory "" "" [] Partitioned "" 0 0 0.

(** Books in an interface{}, and the types of pointers to them. *)
Class BookValue (V T : Type) := {
  boxBook : Book -> V;
  unboxBook : V -> option Book;
  bookType : T;
  boxBooks : list Book -> V;
  unboxBooks : V -> option (list Book);
  booksType : T;
}.

Definition zeroBook : Book := MkBook "" "" "" (Fin 0) 0.

Definition bookKey (id : string) : string := "book:" +:+ id.
Definition listKey : string := "books:list".
Definition booksTag : string := "books".

(** The literal with one field, "error". *)
Definition errorBody (msg : string) : string :=
  let q := of_bytes [34] in "{" +:+ q +:+ "error" +:+ q +:+ ":" +:+ q +:+ msg +:+ q +:+ "}".

Definition bookJson (b : Book) : Json :=
  JObject [("id", JString (ID b)); ("title", JString (Title b)); ("author", JString (Author b));
           ("price", JFloat (Price b)); ("stock", JInt (Stock b))].

(** The routes of main, as ServeMux applies them to a method and a clean path. *)
Inductive ShopRoute :=
  | RListBooks | RGetBook (id : string) | RCreateBook | RPurchase (id : string) | RStats
  | RShopNotAllowed (allow : string) | RShopNotFound.

Definition shopRoute (method : string) (path : list string) : ShopRoute :=
  let get := String.eqb method "GET" || String.eqb method "HEAD" in
  let post := String.eqb method "POST" in
  match path with
  | ["books"] => if get then RListBooks else if post then RCreateBook else RShopNotAllowed "GET, HEAD, POST"
  | ["books"; id] =>
      if String.eqb id "" then RShopNotFound else if get then RGetBook id else RShopNotAllowed "GET, HEAD"
  | ["books"; id; "purchase"] =>
      if String.eqb id "" then RShopNotFound else if post then RPurchase id else RShopNotAllowed "POST"
  | ["stats"] => if get then RStats else RShopNotAllowed "GET, HEAD"
  | _ => RShopNotFound
  end.

Section WebApi.
Context {S V T : Type} `{Store S V T} `{JsonCodec} `{BookValue V T}.
Context (decodeBook : bytes -> option Book) (dbOrder : gmap string Book -> list (string * Book)).
Context (order : ClusterState -> list (string * NodeInfo)) (setOrder : gset string -> list string) (me : string).
Implicit Types (w : ResponseWriter) (n : Node S) (sh : Shop).

(** A handler works on the node and on the database. *)
Abbreviation ShopHandler := (StateHandler S Shop).

Definition shopJSON (v : Json) w : ResponseWriter :=
  Write (encodeJson v) (Header_Set "Content-Type" "application/json" w).

Definition handleListBooks : ShopHandler := fun r clk w n sh =>
  stateCall (Cache_Get me listKey (DOther booksType) clk) w n sh (fun v n =>
    match v with
    | Some v =>
        let books := match v with GOther v => default [] (unboxBooks v) | _ => [] end in
        (Returned (shopJSON (JArray (bookJson <$> books)) w) n, sh)
    | None =>
        let books := (dbOrder (bookDB sh)).*2 in
        stateCall (Cache_SetWithTags order me listKey (GOther (boxBooks books)) (30 * Second) [booksTag] (advance 8 clk))
          w n sh (fun _ n => (Returned (shopJSON (JArray (bookJson <$> books)) w) n, sh))
    end).

Definition handleGetBook (id : string) : ShopHandler := fun r clk w n sh =>
  let cacheKey := bookKey id in
  stateCall (Cache_Get me cacheKey (DOther bookType) clk) w n sh (fun v n =>
    match v with
    | Some v =>
        let book := match v with GOther v => default zeroBook (unboxBook v) | _ => zeroBook end in
        (Returned (shopJSON (bookJson book) w) n, sh)
    | None =>
        match bookDB sh !! id with
        | None => (Returned (http_Error (errorBody "book not found") 404 w) n, sh)
        | Some book =>
            stateCall (Cache_SetWithTags order me cacheKey (GOther (boxBook book)) Minute [booksTag; bookKey id] (advance 8 clk))
              w n sh (fun _ n => (Returned (shopJSON (bookJson book) w) n, sh))
        end
    end).

Definition handleCreateBook : ShopHandler := fun r clk w n sh =>
  match readJSON decodeBook r with
  | None => (Returned (http_Error (errorBody "invalid JSON") 400 w) n, sh)
  | Some body =>
      let book := MkBook (pretty (nextID sh)) (Title body) (Author body) (Price body) 10 in
      let sh := MkShop (<[ID book := book]> (bookDB sh)) (int64 (nextID sh + 1)) in
      stateCall (Cache_InvalidateTag order me setOrder booksTag clk) w n sh (fun _ n =>
        (Returned (shopJSON (bookJson book) (WriteHeader 201 w)) n, sh))
  end.

(** [defer lock.Release()], whose error is dropped. *)
Definition releasing (lock : LockHandle) (clk : Clock) (o : Outcome (S := S) * Shop) : Outcome (S := S) * Shop :=
  let release w n (k : ResponseWriter -> Node S -> Outcome (S := S)) :=
    match LockHandle_Release me lock clk (world n) with
    | Some (_, wd') => k w (set_world wd' n)
    | None => Panicked w n
    end in
  match o with
  | (Returned w n, sh) => (release w n Returned, sh)
  | (Panicked w n, sh) => (release w n Panicked, sh)
  end.

Definition handlePurchase (id : string) : ShopHandler := fun r clk w n sh =>
  stateCall (Cache_Lock me ("purchase:" +:+ id) (MkLockOptions (5 * Second) 3 (100 * Millisecond)) clk) w n sh (fun l n =>
    match l with
    | Err _ => (Returned (http_Error (errorBody "could not acquire lock, try again") 409 w) n, sh)
    | Ok lock =>
        releasing lock (advance 64 clk)
          match bookDB sh !! id with
          | None => (Returned (http_Error (errorBody "book not found") 404 w) n, sh)
          | Some book =>
              if Stock book <=? 0 then (Returned (http_Error (errorBody "out of stock") 409 w) n, sh)
              else
                let book := MkBook (ID book) (Title book) (Author book) (Price book) (int64 (Stock book - 1)) in
                let sh := MkShop (<[id := book]> (bookDB sh)) (nextID sh) in
                stateCall (Cache_InvalidateTag order me setOrder (bookKey id) (advance 16 clk)) w n sh (fun _ n =>
                  stateCall (Cache_InvalidateTag order me setOrder booksTag (advance 32 clk)) w n sh (fun _ n =>
                    (Returned (shopJSON (JObject
                      [("book", JString (Title book)); ("fencing_token", JInt (LockHandle_Token lock));
                       ("message", JString "Purchase successful!"); ("stock_remaining", JInt (Stock book))]) w) n, sh)))
          end
    end).

Definition handleStats : ShopHandler := fun r clk w n sh =>
  stateCall (Cache_Len me) w n sh (fun len n =>
    (Returned (shopJSON (JObject [("cached_items", JInt len)]) w) n, sh)).

Definition shopMux : ShopHandler := fun r clk w n sh =>
  match shopRoute (Method r) (Path r) with
  | RListBooks => handleListBooks r clk w n sh
  | RGetBook id => handleGetBook id r clk w n sh
  | RCreateBook => handleCreateBook r clk w n sh
  | RPurchase id => handlePurchase id r clk w n sh
  | RStats => handleStats r clk w n sh
  | RShopNotAllowed allow => (Returned (http_Error "Method Not Allowed" 405 (Header_Set "Allow" allow w)) n, sh)
  | RShopNotFound => (Returned (http_Error "404 page not found" 404 w) n, sh)
  end.
End WebApi.

(** ** The database is consistent *)

(** Every book is filed under its id, stocks are not negative, and the ids from
    [nextID] on are free. *)
Record ShopOk (sh : Shop) : Prop := {
  so_book : forall id b, bookDB sh !! id = Some b -> ID b = id /\ 0 <= Stock b < 2 ^ 63;
  so_next : forall z, nextID sh <= z -> bookDB sh !! pretty z = None;
}.

(** What a request can do to the database: nothing, add a book, or sell a copy of
    one that is in stock. *)
Inductive shop_change (sh : Shop) : Shop -> Prop :=
  | sc_same : shop_change sh sh
  | sc_added b : ID b = pretty (nextID sh) -> Stock b = 10 -> bookDB sh !! ID b = None ->
      shop_change sh (MkShop (<[ID b := b]> (bookDB sh)) (nextID sh + 1))
  | sc_sold id b : bookDB sh !! id = Some b -> 0 < Stock b ->
      shop_change sh (MkShop (<[id := MkBook (ID b) (Title b) (Author b) (Price b) (Stock b - 1)]> (bookDB sh)) (nextID sh)).

Lemma shop_change_ok sh sh' : shop_change sh sh' -> ShopOk sh -> ShopOk sh'.
Proof.
  intros Hc [Hb Hn]. destruct Hc as [|b Hid Hst Hfree|id b Hib Hpos]; [done|split..].
  - intros id b0. cbn. intros [[<- <-]|[_ Hl]]%lookup_insert_Some; [by rewrite Hst|by apply Hb].
  - intros z Hz. cbn in Hz |- *. rewrite lookup_insert_ne; [apply Hn; lia|]. rewrite Hid. intros He. apply (inj pretty) in He. lia.
  - destruct (Hb id b Hib) as [Hid Hr]. intros id' b0. cbn. intros [[<- <-]|[_ Hl]]%lookup_insert_Some; [cbn; split; [done|lia]|by apply Hb].
  - intros z Hz. cbn in Hz |- *. rewrite lookup_insert_ne; [by apply Hn|]. intros ->. rewrite (Hn z Hz) in Hib. done.
Qed.

Section Consistency.
Context {S V T : Type} `{Store S V T} `{JsonCodec} `{BookValue V T}.
Context (decodeBook : bytes -> option Book) (dbOrder : gmap string Book -> list (string * Book)).
Context (order : ClusterState -> list (string * NodeInfo)) (setOrder : gset string -> list string) (me : string).

Lemma stateCall_shop {A} (P : Shop -> Prop) (m : M (S := S) A) w n sh k :
  P sh -> (forall a n', P (k a n').2) -> P (stateCall m w n sh k).2.
Proof. intros Hsh Hk. unfold stateCall. destruct (m (world n)) as [[a wd']|]; [apply Hk|exact Hsh]. Qed.

Lemma releasing_shop lock clk (o : Outcome (S := S) * Shop) : (releasing me lock clk o).2 = o.2.
Proof. by destruct o as [[w n|w n] sh]. Qed.

(** C37: the bookstore never oversells. Whatever the request, the node and the cache
    do, errors and panics included, the database afterwards is the one before,
    or has one new book under an id that was free, or has one copy less of a
    book that was in stock: no stock is ever negative and no book is ever
    overwritten by another. *)
Theorem shop_never_oversells r clk w n sh :
  ShopOk sh -> 0 <= nextID sh < 2 ^ 63 - 1 ->
  let sh' := (shopMux decodeBook dbOrder order setOrder me r clk w n sh).2 in
  shop_change sh sh' /\ ShopOk sh'.
Proof.
  intros Hok Hid. cbv zeta. assert (forall sh', shop_change sh sh' -> shop_change sh sh' /\ ShopOk sh') as Hsuff.
  { intros sh' Hc. split; [done|]. by eapply shop_change_ok. }
  apply Hsuff. unfold shopMux. pose proof (sc_same sh) as Hsame.
  destruct (shopRoute (Method r) (Path r)) as [|id| |id| | |]; unfold handleListBooks, handleGetBook, handlePurchase, handleStats.
  - apply (stateCall_shop (shop_change sh)); [done|]. intros [v|] n'; [done|]. by apply (stateCall_shop (shop_change sh)).
  - apply (stateCall_shop (shop_change sh)); [done|]. intros [v|] n'; [done|]. destruct (bookDB sh !! id); [by apply (stateCall_shop (shop_change sh))|done].
  - unfold handleCreateBook. destruct (readJSON decodeBook r) as [body|]; [|done].
    set (b := MkBook (pretty (nextID sh)) _ _ _ _). rewrite int64_id by (unfold is_int64; lia).
    assert (shop_change sh (MkShop (<[ID b := b]> (bookDB sh)) (nextID sh + 1))) as Hc.
    { apply sc_added; [done|done|]. apply Hok. lia. }
    by apply (stateCall_shop (shop_change sh)).
  - apply (stateCall_shop (shop_change sh)); [done|]. intros [lock|] n'; [|done]. rewrite releasing_shop.
    destruct (bookDB sh !! id) as [b|] eqn:Eb; [|done]. destruct (Z.leb_spec (Stock b) 0) as [|Hpos]; [done|].
    destruct (so_book _ Hok id b Eb) as [_ Hr]. cbv zeta. rewrite int64_id by (unfold is_int64; lia).
    pose proof (sc_sold sh id b Eb Hpos) as Hc. apply (stateCall_shop (shop_change sh)); [done|]. intros _ n2. by apply (stateCall_shop (shop_change sh)).
  - by apply (stateCall_shop (shop_change sh)).
  - done.
  - done.
Qed.
End Consistency.

(** ** The cache agrees with the database *)

Section Coherence.
Context {S V T : Type} `{StoreLaws S V T} `{JsonCodec} `{BookValue V T}.
Context (decodeBook : bytes -> option Book) (dbOrder : gmap string Book -> list (string * Book)).
Context (order : ClusterState -> list (string * NodeInfo)) (setOrder : gset string -> list string) (me : string).

(** What msgpack encodes of books it decodes; it may fail to encode. *)
Hypothesis book_codec : forall b, unboxBook (boxBook b) = Some b
  /\ forall data, MarshalOther (boxBook b) = Ok data -> UnmarshalOther data bookType = Ok (boxBook b).
Hypothesis books_codec : forall l, unboxBooks (boxBooks l) = Some l
  /\ forall data, MarshalOther (boxBooks l) = Ok data -> UnmarshalOther data booksType = Ok (boxBooks l).
Hypothesis setOrder_ok : iterates setOrder.
Hypothesis dbOrder_ok : forall db, dbOrder db ≡ₚ map_to_list db.
(** Which of the goroutines with an eviction callback runs next. *)
Context (pick : calls -> nat).
Hypothesis pick_ok : picks pick.

Implicit Types (wd : World (S := S)) (n : Node S) (c : Cache S) (sh : Shop).

(** The keys of the handlers. *)
Definition own_key (k : string) : Prop := k = listKey \/ exists id, k = bookKey id.

(** A key that is not of an absurd length. *)
Definition brief (k : string) : Prop := len k < 2 ^ 32.

(** The clock is in range, and at every reading of it the store takes what msgpack
    has encoded, under a brief key and for a minute at most. A memory store does so
    when its limit, the key and the encoded value are together within int64. *)
Definition Ready (clk : Clock) : Prop :=
  ClockOk clk /\ forall i s k v data ttl, store_ok s -> brief k -> MarshalOther v = Ok data -> 0 < ttl <= Minute ->
    admits s k data ttl (advance i clk).

Abbreviation listBooks := (handleListBooks dbOrder order me).
Abbreviation getBook := (handleGetBook order me).
Abbreviation createBook := (handleCreateBook decodeBook order setOrder me).
Abbreviation purchase := (handlePurchase order setOrder me).

Section Others.
(** What is known of the other entries, which the handlers leave alone. *)
Context (others : string -> Binding -> Prop).

(** What is cached of a book or of the list is what the database has, and it is
    under the tag that every write invalidates. *)
Record Coherent sh wd c : Prop := {
  ch_site : Site me wd c;
  ch_tags : TagsOk (tags c);
  ch_named : forall t, ~ has_tag (tags c) "" t;
  ch_book : forall id data x, view (store c) (bookKey id) = Some (data, x) ->
    has_tag (tags c) (bookKey id) booksTag /\ exists b, bookDB sh !! id = Some b /\ MarshalOther (boxBook b) = Ok data;
  ch_list : forall data x, view (store c) listKey = Some (data, x) ->
    has_tag (tags c) listKey booksTag /\ exists l, l ≡ₚ (map_to_list (bookDB sh)).*2 /\ MarshalOther (boxBooks l) = Ok data;
  ch_others : forall k b, ~ own_key k -> view (store c) k = Some b -> others k b;
  ch_pending : forall k, k ∈ (pending c).*1 -> own_key k -> view (store c) k = None;
}.

(** Entries may go, while the tags stay. *)
Lemma coherent_shrink sh wd wd' c c' : Coherent sh wd c -> Site me wd' c' -> tags c' = tags c -> pending c' = pending c ->
  (forall k, view (store c') k = view (store c) k \/ view (store c') k = None) -> Coherent sh wd' c'.
Proof.
  intros [Hs Ht Hn Hb Hl Hq Hp] Hs' Htag Hpend Hv. split; rewrite ?Htag, ?Hpend; try done.
  - intros id data x Hx. destruct (Hv (bookKey id)) as [He|He]; rewrite He in Hx; [by eapply Hb|done].
  - intros data x Hx. destruct (Hv listKey) as [He|He]; rewrite He in Hx; [by eapply Hl|done].
  - intros k b Hk Hx. destruct (Hv k) as [He|He]; rewrite He in Hx; [by eapply Hq|done].
  - intros k Hk Hown. destruct (Hv k) as [He|He]; rewrite He; [by apply Hp|done].
Qed.

Lemma coherent_get sh wd c key t clk : Coherent sh wd c -> ClockOk clk -> key ≠ "" ->
  exists wd' c', Cache_Get me key (DOther t) clk wd
      = Some (match live_at (clk 0%nat) (view (store c) key) with
              | Some (data, _) => match UnmarshalOther data t with Ok v => Some (GOther v) | Err _ => None end
              | None => None
              end, wd')
    /\ Coherent sh wd' c' /\ pending c' = pending c.
Proof.
  intros Hc Hclk Hk. pose proof (ch_site _ _ _ Hc) as Hs.
  destruct (Cache_Get_spec wd me key me c c (DOther t) clk) as (c' & lg & Hg & [Hsame Hok [Hv Hfr] Htag Hpend]);
    [by apply site_serves|apply Hs|done|done|].
  eexists _, c'. split.
  { rewrite Hg. cbn [Deserialize]. destruct (live_at _ _) as [[data x]|]; [|done]. by destruct (UnmarshalOther data t). }
  split; [|exact Hpend]. eapply coherent_shrink; [exact Hc|by eapply site_put|done|done|]. intros k. destruct (decide (k = key)) as [->|Hne]; [|left; auto].
  rewrite Hv. destruct (view (store c) key) as [[data x]|]; cbn; [|by left]. destruct (_ || _); auto.
Qed.

Lemma unencoded_set wd c key v err ttl tgs clk : Site me wd c -> key ≠ "" -> MarshalOther v = Err err ->
  Cache_SetWithTags order me key (GOther v) ttl tgs clk wd = Some (Err (ErrWrap ErrSerializationFailed err), wd).
Proof.
  intros Hs Hk Hv. unfold Cache_SetWithTags, Cache_Set, bind, this, ret.
  by rewrite (st_host _ _ _ Hs), (st_open _ _ _ Hs), (proj2 (String.eqb_neq key "") Hk); cbn [Serialize]; rewrite Hv.
Qed.

(** A copy of what the database has may be added, under the tag, when no callback
    for its key waits. *)
Lemma coherent_set sh wd c key v ttl tgs clk :
  Coherent sh wd c -> ClockOk clk -> key ≠ "" -> ttl ≠ 0 ->
  (forall data, MarshalOther v = Ok data -> admits (store c) key data ttl clk) -> booksTag ∈ tgs -> own_key key -> key ∉ (pending c).*1 ->
  (forall id, key = bookKey id -> exists b, bookDB sh !! id = Some b /\ v = boxBook b) ->
  (key = listKey -> exists l, l ≡ₚ (map_to_list (bookDB sh)).*2 /\ v = boxBooks l) ->
  exists r wd' c', Cache_SetWithTags order me key (GOther v) ttl tgs clk wd = Some (r, wd') /\ Coherent sh wd' c'.
Proof.
  intros Hc Hclk Hk Ht Had Htag Hown Hfree Hbook Hlist. pose proof (ch_site _ _ _ Hc) as Hs.
  destruct (MarshalOther v) as [data|err] eqn:Hser; [|by eexists _, wd, c; split; [by apply unencoded_set with (c := c)|]].
  destruct (SetWithTags_spec order wd me key me c c (GOther v) data ttl tgs clk) as (c' & c1 & lg & Hset & Hc1 & Hat);
    [by apply site_serves|apply Hs|done|done|done|done|by apply Had|by intros ->; apply elem_of_nil in Htag|].
  rewrite put_host_lookup, decide_True in Hc1 by done. injection Hc1 as <-.
  set (ti := tagIndex_Add key tgs (tags c')) in *. eexists _, _, (set_tags ti c'). split; [exact Hset|].
  destruct Hat as [Hsame Hok [Hv Hfr] _ Htk (cs & Hcs & Hev)].
  assert (forall k t, has_tag ti k t <-> if decide (k = key) then t ∈ tgs else has_tag (tags c) k t) as Hti.
  { intros k t. unfold ti. by rewrite has_tag_Add, Htk. }
  split.
  - eapply (site_put me (MkWorld (put_host me c' (net wd)) lg) c'); [|done|done]. by eapply site_put.
  - apply Add_ok. rewrite Htk. apply Hc.
  - intros t. change (tags (set_tags ti c')) with ti. rewrite Hti, decide_False by done. apply Hc.
  - intros id d x Hx. change (view (store c') (bookKey id) = Some (d, x)) in Hx.
    change (tags (set_tags ti c')) with ti. rewrite Hti. case_decide as He.
    + split; [done|]. rewrite He in Hx. destruct Hv as [Hv|Hv]; rewrite Hv in Hx; [|done]. injection Hx as <- _.
      destruct (Hbook id) as (b & Hb & ->); [done|]. by exists b.
    + destruct (Hfr (bookKey id) He) as [E|E]; rewrite E in Hx; [by apply Hc in Hx|done].
  - intros d x Hx. change (view (store c') listKey = Some (d, x)) in Hx.
    change (tags (set_tags ti c')) with ti. rewrite Hti. case_decide as He.
    + split; [done|]. rewrite He in Hx. destruct Hv as [Hv|Hv]; rewrite Hv in Hx; [|done]. injection Hx as <- _.
      destruct Hlist as (l & Hl & ->); [done|]. by exists l.
    + destruct (Hfr listKey He) as [E|E]; rewrite E in Hx; [by apply Hc in Hx|done].
  - intros k b Hk' Hx. change (view (store c') k = Some b) in Hx.
    assert (k ≠ key) as Hne by by intros ->.
    destruct (Hfr k Hne) as [E|E]; rewrite E in Hx; [by eapply ch_others|done].
  - intros k. change (pending (set_tags ti c')) with (pending c'). change (store (set_tags ti c')) with (store c').
    rewrite Hcs, fmap_app, elem_of_app. intros [Hin|Hin] Hown'; [|by apply Hev].
    destruct (Hfr k) as [E|E]; [by intros ->|rewrite E; by apply Hc|exact E].
Qed.

(** Whatever the database has become, the cache has forgotten it once the tag
    [booksTag] is invalidated; invalidating another tag does no harm. *)
Lemma coherent_invalidate sh sh' wd c tag clk :
  Coherent sh wd c -> tag = booksTag \/ sh' = sh ->
  exists wd' c', Cache_InvalidateTag order me setOrder tag clk wd = Some (tt, wd') /\ Coherent sh' wd' c'.
Proof.
  intros [Hs Ht Hn Hb Hl Hq Hp] Htag.
  destruct (InvalidateTag_local order setOrder wd me c tag clk) as (wd' & c' & Hi & Hh & Hlk & Hsame & Hok & Htk & Hgone & Hkept & Htg & Hpend);
    [apply Hs|apply Hs|apply Hs|apply Hs|done|done|apply Hn|].
  exists wd', c'. split; [exact Hi|].
  assert (forall k data x, view (store c') k = Some (data, x) ->
    view (store c) k = Some (data, x) /\ ~ has_tag (tags c) k tag) as Hleft.
  { intros k data x Hx. assert (~ has_tag (tags c) k tag) as Hno by (intros Hd; rewrite (Hgone _ Hd) in Hx; done).
    by rewrite Hkept in Hx. }
  split.
  - destruct Hs as [E1 E2 E3 E4 E5 E6], Hsame as (F1 & F2 & F3). split; congruence.
  - done.
  - intros t. rewrite Htg. intros [_ Hx]. by apply (Hn t).
  - intros id data x [Hx Hno]%Hleft. destruct (Hb _ _ _ Hx) as [Hbt He]. rewrite Htg. by destruct Htag as [-> | ->].
  - intros data x [Hx Hno]%Hleft. destruct (Hl _ _ Hx) as [Hbt He]. rewrite Htg. by destruct Htag as [-> | ->].
  - intros k [data x] Hk [Hx _]%Hleft. by eapply Hq.
  - intros k. rewrite Hpend. intros Hin Hown. destruct (view (store c') k) as [[data x]|] eqn:E; [|done].
    apply Hleft in E as [E _]. by rewrite (Hp k Hin Hown) in E.
Qed.

(** The callbacks that wait do no harm: what they untag is gone. *)
Lemma coherent_settle sh wd c : Coherent sh wd c ->
  exists wd' c', settle me pick wd = Some (tt, wd') /\ Coherent sh wd' c' /\ pending c' = [].
Proof.
  intros [Hs Ht Hn Hb Hl Hq Hp].
  destruct (settle_spec wd me c pick pick_ok (st_host _ _ _ Hs)) as (wd' & c' & Hr & Hh & Hlk & Hnil & [Hsame Hst Htok Htg]).
  exists wd', c'. split; [exact Hr|]. split; [|exact Hnil]. split; rewrite ?Hst, ?Hnil; [|auto|..].
  - destruct Hs as [E1 E2 E3 E4 E5 E6], Hsame as (F1 & F2 & F3). split; congruence.
  - intros t. rewrite Htg. intros [_ Hx]. by apply (Hn t).
  - intros id data x Hx. destruct (Hb _ _ _ Hx) as [Hbt He]. rewrite Htg. split; [|done]. split; [|done].
    intros Hin. rewrite (Hp _ Hin) in Hx; [done|]. right. by exists id.
  - intros data x Hx. destruct (Hl _ _ Hx) as [Hbt He]. rewrite Htg. split; [|done]. split; [|done].
    intros Hin. rewrite (Hp _ Hin) in Hx; [done|]. by left.
  - done.
  - intros k Hk. by apply elem_of_nil in Hk.
Qed.

(** Locks are no entries. *)
Lemma coherent_engine sh wd c e lg : Coherent sh wd c ->
  Coherent sh (MkWorld (put_host me (set_lockEngine e c) (net wd)) lg) (set_lockEngine e c).
Proof. intros Hc. eapply coherent_shrink; [exact Hc|eapply site_put; [apply Hc|done|apply Hc]|done|done|by left]. Qed.

Lemma coherent_lock_loop sh left wd c key ttl clk : Coherent sh wd c ->
  exists r wd' c', lock_loop left me key ttl clk wd = Some (r, wd') /\ Coherent sh wd' c'
    /\ forall h, r = Ok h -> hOwnerAddr h = "".
Proof.
  revert wd c clk. induction left as [|left IH]; intros wd c clk Hc; [by eexists _, wd, c|].
  pose proof (ch_site _ _ _ Hc) as Hs. cbn [lock_loop]. unfold bind at 1.
  assert (exists a e, lockAttempt me key ttl clk wd = Some (Ok a, MkWorld (put_host me (set_lockEngine e c) (net wd)) (log wd))
    /\ forall h, a = Some h -> hOwnerAddr h = "") as (a & e & Ha & Hown).
  { unfold lockAttempt, bind at 1, this. rewrite (st_host _ _ _ Hs). unfold ownerAddr. rewrite (st_alone _ _ _ Hs). cbn [String.eqb negb].
    unfold bind, localEntropy, withEngine, this, put, ret, bind. rewrite (st_host _ _ _ Hs).
    destruct (Lock.Acquire _ _ _ _ _ _) as [[[token fencing] []] e]; eexists _, e; (split; [reflexivity|]); by intros h [= <-]. }
  rewrite Ha. pose proof (coherent_engine sh wd c e (log wd) Hc) as Hc'. destruct a as [h|]; [|by eapply IH].
  eexists _, _, _. split; [reflexivity|]. split; [exact Hc'|]. intros h' [= <-]. by apply Hown.
Qed.

Lemma coherent_lock sh wd c key opts clk : Coherent sh wd c -> key ≠ "" ->
  exists r wd' c', Cache_Lock me key opts clk wd = Some (r, wd') /\ Coherent sh wd' c'
    /\ forall h, r = Ok h -> hOwnerAddr h = "".
Proof.
  intros Hc Hk. pose proof (ch_site _ _ _ Hc) as Hs. unfold Cache_Lock, bind at 1, this.
  rewrite (st_host _ _ _ Hs), (st_open _ _ _ Hs), (proj2 (String.eqb_neq key "") Hk). by eapply coherent_lock_loop.
Qed.

Lemma coherent_release sh wd c h clk : Coherent sh wd c -> hOwnerAddr h = "" ->
  exists r wd' c', LockHandle_Release me h clk wd = Some (r, wd') /\ Coherent sh wd' c'.
Proof.
  intros Hc Ho. pose proof (ch_site _ _ _ Hc) as Hs. unfold LockHandle_Release. rewrite Ho. cbn [String.eqb negb].
  unfold bind, withEngine, this, put, ret, bind. rewrite (st_host _ _ _ Hs).
  destruct (Lock.Release _ _ _) as [b e]. eexists _, _, _. split; [reflexivity|]. by apply coherent_engine.
Qed.

Lemma list_fresh r clk w n sh c : Coherent sh (world n) c -> pending c = [] -> Ready clk ->
  exists l n' c', listBooks r clk w n sh = (Returned (shopJSON (JArray (bookJson <$> l)) w) n', sh)
    /\ l ≡ₚ (map_to_list (bookDB sh)).*2 /\ Coherent sh (world n') c'.
Proof.
  intros Hc Hnil [Hclk Had]. destruct (coherent_get sh (world n) c listKey booksType clk Hc Hclk) as (wd1 & c1 & Hg & Hc1 & Hp1); [done|].
  unfold handleListBooks, stateCall. destruct (live_at (clk 0%nat) (view (store c) listKey)) as [[data x]|] eqn:El.
  - assert (view (store c) listKey = Some (data, x)) as Hx.
    { destruct (view (store c) listKey) as [[d y]|]; [|done]. cbn in El. by destruct (_ || _). }
    destruct (ch_list _ _ _ Hc data x Hx) as (_ & l & Hl & Hd). destruct (books_codec l) as [Hb Hu].
    rewrite (Hu _ Hd) in Hg. rewrite Hg, Hb. exists l. eexists _, c1. done.
  - rewrite Hg. cbv zeta. set (l := (dbOrder (bookDB sh)).*2). assert (l ≡ₚ (map_to_list (bookDB sh)).*2) as Hl by (unfold l; by rewrite dbOrder_ok).
    destruct (coherent_set sh wd1 c1 listKey (boxBooks l) (30 * Second) [booksTag] (advance 8 clk))
      as (res & wd2 & c2 & Hs & Hc2); try done; [by apply advance_ok| |by left|by left|by rewrite Hp1, Hnil; apply not_elem_of_nil|by eauto|].
    { intros data Hd. eapply Had; [apply Hc1|done|exact Hd|done]. }
    cbn [world set_world]. rewrite Hs. exists l. eexists _, c2. done.
Qed.

Lemma get_fresh id r clk w n sh c : Coherent sh (world n) c -> pending c = [] -> Ready clk -> brief (bookKey id) ->
  exists n' c', getBook id r clk w n sh
      = (Returned (match bookDB sh !! id with
                   | Some b => shopJSON (bookJson b) w
                   | None => http_Error (errorBody "book not found") 404 w
                   end) n', sh)
    /\ Coherent sh (world n') c'.
Proof.
  intros Hc Hnil [Hclk Had] Hid. destruct (coherent_get sh (world n) c (bookKey id) bookType clk Hc Hclk) as (wd1 & c1 & Hg & Hc1 & Hp1); [done|].
  unfold handleGetBook, stateCall. destruct (live_at (clk 0%nat) (view (store c) (bookKey id))) as [[data x]|] eqn:El.
  - assert (view (store c) (bookKey id) = Some (data, x)) as Hx.
    { destruct (view (store c) (bookKey id)) as [[d y]|]; [|done]. cbn in El. by destruct (_ || _). }
    destruct (ch_book _ _ _ Hc id data x Hx) as (_ & b & Hb & Hd). destruct (book_codec b) as [Hub Hu].
    rewrite (Hu _ Hd) in Hg. rewrite Hg, Hub, Hb. eexists _, c1. done.
  - rewrite Hg. destruct (bookDB sh !! id) as [b|] eqn:Eb; [|by eexists _, c1].
    destruct (coherent_set sh wd1 c1 (bookKey id) (boxBook b) Minute [booksTag; bookKey id] (advance 8 clk))
      as (res & wd2 & c2 & Hs & Hc2); try done; [by apply advance_ok| |by left|by right; exists id|by rewrite Hp1, Hnil; apply not_elem_of_nil| |].
    { intros data Hd. eapply Had; [apply Hc1|exact Hid|exact Hd|done]. }
    { intros id' He. apply (inj (String.append _)) in He as <-. eauto. }
    cbn [world set_world]. rewrite Hs. eexists _, c2. done.
Qed.

Lemma create_coherent r clk w n sh c : Coherent sh (world n) c ->
  exists w' n' c' sh', createBook r clk w n sh = (Returned w' n', sh') /\ Coherent sh' (world n') c'.
Proof.
  intros Hc. unfold handleCreateBook, stateCall. destruct (readJSON decodeBook r) as [body|]; [|by eexists _, n, c, sh].
  cbv zeta. set (sh' := MkShop _ _).
  destruct (coherent_invalidate sh sh' (world n) c booksTag clk Hc) as (wd1 & c1 & Hi & Hc1); [by left|].
  rewrite Hi. by eexists _, (set_world wd1 n), c1, sh'.
Qed.

Lemma releasing_coherent lock clk w n sh c : Coherent sh (world n) c -> hOwnerAddr lock = "" ->
  exists n' c', releasing me lock clk (Returned w n, sh) = (Returned w n', sh) /\ Coherent sh (world n') c'.
Proof.
  intros Hc Ho. destruct (coherent_release sh (world n) c lock clk Hc Ho) as (x & wd' & c' & Hr & Hc').
  unfold releasing. rewrite Hr. by exists (set_world wd' n), c'.
Qed.

Lemma purchase_coherent id r clk w n sh c : Coherent sh (world n) c ->
  exists w' n' c' sh', purchase id r clk w n sh = (Returned w' n', sh') /\ Coherent sh' (world n') c'.
Proof.
  intros Hc. unfold handlePurchase, stateCall.
  destruct (coherent_lock sh (world n) c ("purchase:" +:+ id) (MkLockOptions (5 * Second) 3 (100 * Millisecond)) clk Hc)
    as (l & wd1 & c1 & Hl & Hc1 & Hown); [done|]. rewrite Hl. destruct l as [lock|]; [|by eexists _, _, c1, sh].
  specialize (Hown lock eq_refl).
  assert (forall w' n2 sh2 c2, Coherent sh2 (world n2) c2 -> exists w3 n3 c3 sh3,
    releasing me lock (advance 64 clk) (Returned w' n2, sh2) = (Returned w3 n3, sh3) /\ Coherent sh3 (world n3) c3) as Hrel.
  { intros w' n2 sh2 c2 Hc2. destruct (releasing_coherent lock (advance 64 clk) w' n2 sh2 c2 Hc2 Hown) as (n3 & c3 & Hr & Hc3). eauto 6. }
  destruct (bookDB sh !! id) as [b|]; [destruct (Stock b <=? 0)|]; [by eapply Hrel| |by eapply Hrel].
  cbv zeta. set (sh' := MkShop _ _).
  destruct (coherent_invalidate sh sh wd1 c1 (bookKey id) (advance 16 clk) Hc1) as (wd2 & c2 & Hi & Hc2); [by right|].
  destruct (coherent_invalidate sh sh' wd2 c2 booksTag (advance 32 clk) Hc2) as (wd3 & c3 & Hi' & Hc3); [by left|].
  cbn [world set_world]. rewrite Hi. cbn [world set_world]. rewrite Hi'. by eapply Hrel.
Qed.

(** The keys of a request are brief. *)
Definition Brief (r : Request) : Prop := Forall (fun seg => brief (bookKey seg)) (Path r).

Lemma brief_get r id : Brief r -> shopRoute (Method r) (Path r) = RGetBook id -> brief (bookKey id).
Proof.
  unfold Brief, shopRoute. intros Hb Hr. repeat case_match; try discriminate Hr; injection Hr as <-.
  by apply Forall_cons in Hb as [_ [Hb _]%Forall_cons].
Qed.

Lemma mux_coherent r clk w n sh c : Coherent sh (world n) c -> pending c = [] -> Ready clk -> Brief r ->
  exists w' n' c' sh', shopMux decodeBook dbOrder order setOrder me r clk w n sh = (Returned w' n', sh')
    /\ Coherent sh' (world n') c'.
Proof.
  intros Hc Hnil Hr Hbr. unfold shopMux. destruct (shopRoute (Method r) (Path r)) as [|id| |id| | |] eqn:Er.
  - destruct (list_fresh r clk w n sh c Hc Hnil Hr) as (l & n' & c' & Hl & _ & Hc'). by eexists _, n', c', sh.
  - destruct (get_fresh id r clk w n sh c Hc Hnil Hr (brief_get r id Hbr Er)) as (n' & c' & Hl & Hc'). by eexists _, n', c', sh.
  - by eapply create_coherent.
  - by eapply purchase_coherent.
  - unfold handleStats, stateCall, Cache_Len, bind, this, ret. rewrite (st_host _ _ _ (ch_site _ _ _ Hc)).
    by eexists _, _, c, sh.
  - by eexists _, n, c, sh.
  - by eexists _, n, c, sh.
Qed.

End Others.

(** Requests handled one after the other by the handlers, without the middleware
    of main. The goroutines with the eviction callbacks that a request has started
    have run before the next one. *)
Fixpoint shopServe (reqs : list (Request * Clock)) n sh : option (Node S * Shop) :=
  match reqs with
  | [] => Some (n, sh)
  | (r, clk) :: reqs' =>
      match shopMux decodeBook dbOrder order setOrder me r clk newWriter n sh with
      | (Returned _ n', sh') =>
          match settle me pick (world n') with
          | Some (_, wd) => shopServe reqs' (set_world wd n') sh'
          | None => None
          end
      | (Panicked _ _, _) => None
      end
  end.

(** C11: what the handlers of the bookstore show is what the database has. After any
    sequence of requests with brief paths, handled one after the other from an
    empty cache by the handlers without the middleware of main, each followed by
    the eviction callbacks it has started, in any order, all of them answered, a
    GET of a book returns the book as the database has it now, with its current
    stock, or 404, and a GET of the list returns all books, each once, whether the
    answers come from the cache or not. The store may have a memory limit and
    evict, and msgpack may fail. *)
Theorem shop_reads_fresh reqs n sh c :
  Site me (world n) c -> TagsOk (tags c) -> (forall k t, ~ has_tag (tags c) k t) -> (forall k, view (store c) k = None) -> pending c = [] ->
  Forall (fun rc => Brief rc.1 /\ Ready rc.2) reqs ->
  exists n' sh', shopServe reqs n sh = Some (n', sh')
    /\ forall r clk, Ready clk ->
         (forall id, brief (bookKey id) -> exists n2, getBook id r clk newWriter n' sh'
            = (Returned (match bookDB sh' !! id with
                         | Some b => shopJSON (bookJson b) newWriter
                         | None => http_Error (errorBody "book not found") 404 newWriter
                         end) n2, sh'))
         /\ exists l n2, listBooks r clk newWriter n' sh' = (Returned (shopJSON (JArray (bookJson <$> l)) newWriter) n2, sh')
              /\ l ≡ₚ (map_to_list (bookDB sh')).*2.
Proof.
  intros Hs Ht Hno Hempty Hnil Hr. pose (others := fun (_ : string) (_ : Binding) => True). assert (Coherent others sh (world n) c) as Hc.
  { split; [done|done|done| | |done|done]; intros; by rewrite Hempty in *. }
  clear Hs Ht Hno Hempty. revert n sh c Hc Hnil. induction Hr as [|[r clk] reqs [Hbr Hclk] Hr IH]; intros n sh c Hc Hnil.
  - exists n, sh. split; [done|]. intros r clk Hclk. split.
    + intros id Hid. destruct (get_fresh others id r clk newWriter n sh c Hc Hnil Hclk Hid) as (n' & c' & Hg & _). eauto.
    + destruct (list_fresh others r clk newWriter n sh c Hc Hnil Hclk) as (l & n' & c' & Hg & Hl & _). eauto.
  - cbn [shopServe]. destruct (mux_coherent others r clk newWriter n sh c Hc Hnil Hclk Hbr) as (w' & n' & c' & sh' & Hm & Hc').
    destruct (coherent_settle others sh' (world n') c' Hc') as (wd2 & c2 & Hst & Hc2 & Hnil2).
    rewrite Hm, Hst. by eapply IH.
Qed.
End Coherence.

(** ** Witnesses *)

#[local] Instance Q_eq_dec : EqDecision Q.
Proof. solve_decision. Defined.
#[local] Instance Q_countable : Countable Q.
Proof. refine (inj_countable' (fun q => (Qnum q, Qden q)) (fun '(a, b) => Qmake a b) _). by intros []. Defined.
#[local] Instance float64_eq_dec : EqDecision float64.
Proof. solve_decision. Defined.
#[local] Instance float64_countable : Countable float64.
Proof.
  refine (inj_countable' (fun x => match x with NaN => inl (inl tt) | Inf b => inl (inr b) | Fin q => inr q end)
    (fun y => match y with inl (inl _) => NaN | inl (inr b) => Inf b | inr q => Fin q end) _). by intros [].
Defined.
#[local] Instance Book_eq_dec : EqDecision Book.
Proof. solve_decision. Defined.
#[local] Instance Book_countable : Countable Book.
Proof.
  refine (inj_countable' (fun b => (ID b, Title b, Author b, Price b, Stock b))
    (fun '(i, t, a, p, s) => MkBook i t a p s) _). by intros [].
Defined.

#[local] Instance web_msgpack : Msgpack (Book + list Book) unit := bounded_msgpack.
#[local] Instance web_value : BookValue (Book + list Book) unit := {|
  boxBook := inl; unboxBook v := match v with inl b => Some b | inr _ => None end; bookType := tt;
  boxBooks := inr; unboxBooks v := match v with inr l => Some l | inl _ => None end; booksType := tt;
|}.
(** A memory store with the callbacks installed, as New leaves it. *)
Definition opened (numShards max : Z) : MemoryStore :=
  MemoryStore_SetOnExpire true (MemoryStore_SetOnEvict true (NewMemoryStore numShards max)).

Lemma opened_ok max k : 0 <= k < 63 -> MemoryStoreOk max (opened (2 ^ k) max).
Proof. intros Hk. apply callbacks_ok. by apply NewMemoryStore_ok with k. Qed.

Lemma opened_empty max k key : 0 <= k < 63 -> mview (opened (2 ^ k) max) key = None.
Proof.
  intros Hk. destruct (callbacks_ok max (NewMemoryStore (2 ^ k) max)) as [_ Hv]; [by apply NewMemoryStore_ok with k|].
  unfold opened. rewrite Hv. unfold mview, getShard. destruct (shards _ !! _) as [s|] eqn:E; [|done].
  apply lookup_replicate in E as [-> _]. done.
Qed.

(** One shard, in which two books do not fit together. *)
Definition web_max : Z := 8000.
#[local] Instance shop_laws : StoreLaws MemoryStore := MemoryStore_Laws web_max.
#[local] Instance web_json : JsonCodec := {
  decodeKeys _ := None; decodeLock _ := None; decodeTTL _ := None; decodeRateLimit _ := None;
  marshalJson _ := [Byte.x7b; Byte.x7d];
}.

Definition web_store : MemoryStore := opened 1 web_max.
Definition web_cache : Cache MemoryStore := MkCache web_store shopConfig false None Lock.NewEngine newTagIndex [].
Definition web_world : World (S := MemoryStore) :=
  MkWorld (MkNetwork {["" := web_cache]} (fun _ => None) (fun _ => replicate 16 Byte.x07)) [].
Definition web_node : Node MemoryStore := MkNode web_world ∅ ∅ Pubsub.NewBroker [].
Definition web_request (method : string) (path : list string) : Request := MkHttpRequest method "" path ∅ (Some []) "10.1.1.1:5000".


Lemma web_site : Site "" web_world web_cache.
Proof. split; try done. by apply (opened_ok web_max 0). Qed.

(** What is encoded in the memory of a machine is within the limit of int64. *)
Lemma web_admits `{Countable X} max k (v : X) data ttl : max <= 2 ^ 32 -> brief k -> MarshalOther (Msgpack := bounded_msgpack) v = Ok data ->
  op_small max (OpSet k data ttl).
Proof.
  intros Hm Hk Hd%bounded_marshal _. unfold brief in Hk. cbn [op_weight]. lia.
Qed.

Lemma web_ready : Ready (S := MemoryStore) w_clock.
Proof. split; [exact w_clock_ok|]. intros i s k v data ttl _ Hk Hd _. by apply (web_admits web_max k v data ttl). Qed.

Lemma initialShop_ok : ShopOk initialShop.
Proof.
  split.
  - intros id b Hb. apply elem_of_list_to_map_2 in Hb. rewrite !elem_of_cons, elem_of_nil in Hb.
    destruct Hb as [[= -> ->]|[[= -> ->]|[[= -> ->]|[]]]]; by vm_compute.
  - intros z Hz. apply not_elem_of_list_to_map_1. cbn [nextID initialShop] in Hz. cbn [fmap list_fmap fst].
    rewrite !elem_of_cons, elem_of_nil.
    intros [E|[E|[E|[]]]]; [change "1" with (pretty 1) in E|change "2" with (pretty 2) in E|change "3" with (pretty 3) in E];
      apply (inj pretty) in E; lia.
Qed.

Lemma shop_never_oversells_witness :
  ShopOk (shopMux (fun _ => None) map_to_list (fun _ => []) elements "" (web_request "POST" ["books"; "1"; "purchase"])
    w_clock newWriter web_node initialShop).2.
Proof.
  apply (shop_never_oversells (fun _ => None) map_to_list (fun _ => []) elements "" (web_request "POST" ["books"; "1"; "purchase"])
    w_clock newWriter web_node initialShop initialShop_ok). by vm_compute.
Defined.

(** A book is read, another one takes its place in the store, the first is sold
    and read again. *)
Definition web_reqs : list (Request * Clock) :=
  [(web_request "GET" ["books"; "1"], w_clock); (web_request "GET" ["books"; "2"], w_clock);
   (web_request "POST" ["books"; "1"; "purchase"], w_clock)].
Abbreviation web_serve := (shopServe (fun _ => None) map_to_list (fun _ => []) elements "" (fun _ => 0%nat) web_reqs web_node initialShop).

(** The eviction callbacks of a run, by key. *)
Definition evictedKeys (es : list Effect) : list string :=
  omap (fun e => match e with FireEvict k _ => Some k | _ => None end) es.

Lemma shop_reads_fresh_witness :
  (exists n' sh', web_serve = Some (n', sh')
    /\ exists n2, handleGetBook (fun _ => []) "" "1" (web_request "GET" ["books"; "1"]) w_clock newWriter n' sh'
         = (Returned (match bookDB sh' !! "1" with
                      | Some b => shopJSON (bookJson b) newWriter
                      | None => http_Error (errorBody "book not found") 404 newWriter
                      end) n2, sh'))
  /\ (fun '(n', sh') => (evictedKeys (log (world n')), Stock <$> bookDB sh' !! "1")) <$> web_serve
     = Some (["book:1"], Some 9).
Proof.
  split; [|by vm_compute].
  destruct (shop_reads_fresh (fun _ => None) map_to_list (fun _ => []) elements "")
    with (pick := fun _ : calls => 0%nat) (reqs := web_reqs) (n := web_node) (sh := initialShop) (c := web_cache) as (n' & sh' & Hs & Hf).
  - intros b. split; [done|apply bounded_decode].
  - intros l. split; [done|apply bounded_decode].
  - exact elements_iterates.
  - done.
  - intros [|x cs] Hcs; [done|apply Nat.lt_0_succ].
  - exact web_site.
  - exact newTagIndex_ok.
  - intros k t (tgs & Hk & _). by vm_compute in Hk.
  - intros k. by apply (opened_empty web_max 0).
  - done.
  - do 3 (apply Forall_cons; split; [split; [by repeat constructor|exact web_ready]|]). by apply Forall_nil.
  - exists n', sh'. split; [exact Hs|]. destruct (Hf (web_request "GET" ["books"; "1"]) w_clock web_ready) as [Hg _].
    by apply (Hg "1").
Defined.
