(* ===== verification/Bookstore.v ===== *)
(** examples/webapi/main.go: the bookstore behind the middleware of its main, the
    rate limit inside the response cache.

    The handlers of [WebApi] invalidate what they have cached when they write. The
    response cache around them knows nothing of that: its entries end after 30
    seconds and not before. This file shows what that means for clients. *)
From stdpp Require Import pretty.
From S2P Require Import Prelude GoLib Serializer Config Shard Store LRUSpec ShardTheorems MemoryStore Tags LockEngine LockProofs HashRing RingProofs Cluster Transport Glob Broker Cache CacheProofs CacheTheorems Replication Modes Float64 RateLimit GoStrings Http Server ServerProofs Middleware Startup WebApi.

#[local] Open Scope cache_scope.
#[local] Open Scope Z_scope.

Section Bookstore.
Context {S V T : Type} `{Store S V T} `{JsonCodec} `{BookValue V T} `{Boxed V T}.
Context (sha256 : bytes -> bytes) (machine : float64 -> Z).
Context (decodeBook : bytes -> option Book) (dbOrder : gmap string Book -> list (string * Book)).
Context (order : ClusterState -> list (string * NodeInfo)) (setOrder : gset string -> list string) (me : string).

Definition shopHandler : StateHandler S Shop :=
  let mux := shopMux decodeBook dbOrder order setOrder me in
  let handler := HTTPRateLimit machine 100 Minute mux in
  HTTPCache sha256 order me (30 * Second) handler.

(** Requests handled one after the other, the goroutines with the eviction callbacks
    that a request has started having run before the next; [pick] says in which
    order. *)
Fixpoint shopRun (pick : calls -> nat) (reqs : list (Request * Clock)) (n : Node S) (sh : Shop) : option (Node S * Shop) :=
  match reqs with
  | [] => Some (n, sh)
  | (r, clk) :: reqs' =>
      match shopHandler r clk newWriter n sh with
      | (Returned _ n', sh') =>
          match settle me pick (world n') with
          | Some (_, wd) => shopRun pick reqs' (set_world wd n') sh'
          | None => None
          end
      | (Panicked _ _, _) => None
      end
  end.
End Bookstore.

(** ** main *)

(** Up to ListenAndServe. The hooks that log are the broker's; [shopLine] is what
    they print for what the cache has logged. *)
Definition shopMain `{Msgpack V T} (g : Gossip) (listen : string -> result unit) (clk : Clock) (hostname : string)
  : result (Node MemoryStore * Shop) :=
  match NewCache g listen clk hostname (fun cfg => Ok (NewMemoryStore (NumShards cfg) (perShardMax cfg))) shopConfig with
  | Err err => Err err
  | Ok c =>
      let broker := Pubsub.OnMiss tt (Pubsub.OnHit tt Pubsub.NewBroker) in
      Ok (MkNode (MkWorld (MkNetwork {["" := c]} (fun _ => None) (fun _ => [])) []) ∅ ∅ broker [], initialShop)
  end.

Definition shopLine (e : Effect) : option string :=
  match e with
  | FireHit key => Some ("CACHE HIT: " +:+ key)
  | FireMiss key => Some ("CACHE MISS: " +:+ key)
  | _ => None
  end.

(** main starts with an empty cache and a consistent database, from where the
    theorems about the handlers start. *)
Theorem shop_starts `{Msgpack V T} g listen clk hostname :
  exists n c, shopMain g listen clk hostname = Ok (n, initialShop)
    /\ hosts (net (world n)) !! "" = Some c /\ cluster c = None /\ closed c = false /\ cMode (config c) = Partitioned
    /\ MemoryStoreOk (2 * 2 ^ 20) (store c) /\ (forall k, mview (store c) k = None)
    /\ tags c = newTagIndex /\ ShopOk initialShop.
Proof.
  eexists _, (MkCache _ _ false None Lock.NewEngine newTagIndex []). split; [reflexivity|]. split; [reflexivity|].
  cbn [store cluster closed config tags].
  match goal with |- context [MemoryStoreOk _ ?s] =>
    change s with (MemoryStore_SetOnExpire true (MemoryStore_SetOnEvict true (NewMemoryStore 64 (2 * 2 ^ 20)))) end.
  destruct (callbacks_ok (2 * 2 ^ 20) (NewMemoryStore 64 (2 * 2 ^ 20))) as [Hok Hv]; [by apply NewMemoryStore_ok with 6|].
  split_and!; [reflexivity|reflexivity|reflexivity|exact Hok| |reflexivity|exact initialShop_ok].
  intros k. rewrite Hv. unfold mview, getShard. destruct (shards _ !! _) as [s|] eqn:E; [|done].
  apply lookup_replicate in E as [-> _]. done.
Qed.

(** Requests one after the other in time, from [t] to [t']. *)
Inductive Timed : Time -> list (Request * Clock) -> Time -> Prop :=
  | timed_nil t : Timed t [] t
  | timed_cons t r clk t1 reqs t' : (forall i, t <= clk i <= t1) -> Timed t1 reqs t' -> Timed t ((r, clk) :: reqs) t'.

(** What the database has to say to a GET of a path: the status and the body. *)
Definition shopAnswer `{JsonCodec} (sh : Shop) (path : list string) (code : Z) (body : bytes) : Prop :=
  match shopRoute "GET" path with
  | RListBooks => code = 200 /\ exists l, l ≡ₚ (map_to_list (bookDB sh)).*2 /\ body = encodeJson (JArray (bookJson <$> l))
  | RGetBook id =>
      match bookDB sh !! id with
      | Some b => code = 200 /\ body = encodeJson (bookJson b)
      | None => code = 404
      end
  | RStats => code = 200
  | RShopNotAllowed _ => code = 405
  | RShopNotFound => code = 404
  | RCreateBook | RPurchase _ => False
  end.

(** ** Writers *)

(** Nothing has been written. *)
Record Blank (w : ResponseWriter) : Prop := {
  bl_sent : wSent w = None;
  bl_output : wOutput w = [];
  bl_codes : wCodes w = [];
}.

(** One response has been written, and a recorder has seen it. *)
Record Sends (w : ResponseWriter) (code : Z) (body : bytes) : Prop := {
  se_sent : exists h, wSent w = Some (code, h);
  se_output : wOutput w = body;
  se_code : recorded (wCodes w) = code;
}.

Lemma blank_json `{JsonCodec} v w : Blank w -> Sends (shopJSON v w) 200 (encodeJson v).
Proof.
  intros [Hs Ho Hc]. unfold shopJSON, Write, sendHeader. cbn [wSent Header_Set]. rewrite Hs.
  split; cbn [wSent wOutput wCodes Header_Set]; [by eexists|by rewrite Ho|by rewrite Hc].
Qed.

Lemma blank_error msg code w : Blank w -> Sends (http_Error msg code w) code (ascii_bytes (msg +:+ of_bytes [10])).
Proof.
  intros [Hs Ho Hc]. unfold http_Error, Write, WriteHeader, sendHeader. cbn [wSent Header_Set]. rewrite Hs. cbn [wSent].
  split; cbn [wSent wOutput wCodes Header_Set]; [by eexists|by rewrite Ho|by rewrite Hc].
Qed.

Lemma blank_header k v w : Blank w -> Blank (Header_Set k v w).
Proof. by intros [Hs Ho Hc]. Qed.

Lemma sends_finish w code body : Sends w code body -> StatusCode (finish w) = code /\ Content (finish w) = body.
Proof. intros [[h Hs] Ho _]. by rewrite (finish_sent w code h Hs). Qed.

Lemma sends_embedded rec code body : Sends rec code body ->
  StatusCode (finish (Header_Set "X-Cache" "MISS" (embedded rec newWriter))) = code
  /\ Content (finish (Header_Set "X-Cache" "MISS" (embedded rec newWriter))) = body.
Proof. intros [[h Hs] Ho _]. erewrite finish_sent by exact Hs. by split. Qed.

(** A response from the cache. *)
Lemma replayed_finish resp :
  let w := Header_Set "X-Cache" "HIT" (replayHeaders (crHeaders resp) newWriter) in
  let w' := Write (crBody resp) (WriteHeader (crStatusCode resp) w) in
  StatusCode (finish w') = crStatusCode resp /\ Content (finish w') = crBody resp.
Proof.
  assert (wSent (replayHeaders (crHeaders resp) newWriter) = None /\ wOutput (replayHeaders (crHeaders resp) newWriter) = []) as [Hs Ho].
  { unfold replayHeaders. generalize newWriter (eq_refl : wSent newWriter = None) (eq_refl : wOutput newWriter = []).
    induction (map_to_list _) as [|[k v] l IH]; intros w Hs Ho; [done|]. cbn [foldl]. by apply IH. }
  cbv zeta. set (w := Header_Set _ _ _).
  assert (wSent w = None) as Hw by exact Hs. assert (wOutput w = []) as Hw' by exact Ho.
  erewrite finish_Write; [|unfold WriteHeader, sendHeader; rewrite Hw; reflexivity]. split; [done|].
  unfold WriteHeader, sendHeader. rewrite Hw. cbn [wOutput Content]. by rewrite Hw'.
Qed.

Lemma substring_short n m s : (String.length (String.substring n m s) <= m)%nat.
Proof. revert n m. induction s as [|x s IH]; intros [|n] [|m]; cbn; [lia..|exact (le_n_S _ _ (IH 0%nat m))|apply IH|apply IH]. Qed.

(** ** The response cache *)

Section Staleness.
Context {S V T : Type} `{StoreLaws S V T} `{JsonCodec} `{BookValue V T} `{Boxed V T}.
Context (sha256 : bytes -> bytes) (machine : float64 -> Z).
Context (decodeBook : bytes -> option Book) (dbOrder : gmap string Book -> list (string * Book)).
Context (order : ClusterState -> list (string * NodeInfo)) (setOrder : gset string -> list string) (me : string).

(** What msgpack encodes of books and responses it decodes; it may fail to
    encode. *)
Hypothesis book_codec : forall b, unboxBook (boxBook b) = Some b
  /\ forall data, MarshalOther (boxBook b) = Ok data -> UnmarshalOther data bookType = Ok (boxBook b).
Hypothesis books_codec : forall l, unboxBooks (boxBooks l) = Some l
  /\ forall data, MarshalOther (boxBooks l) = Ok data -> UnmarshalOther data booksType = Ok (boxBooks l).
Hypothesis response_codec : forall resp, unbox (box resp) = Some resp
  /\ forall data, MarshalOther (box resp) = Ok data -> UnmarshalOther data boxType = Ok (box resp).
Hypothesis setOrder_ok : iterates setOrder.
Hypothesis dbOrder_ok : forall db, dbOrder db ≡ₚ map_to_list db.
Context (pick : calls -> nat).
Hypothesis pick_ok : picks pick.

Implicit Types (wd : World (S := S)) (n : Node S) (c : Cache S) (sh : Shop) (others : string -> Binding -> Prop).
Abbreviation Coherent := (Coherent me).
Abbreviation routes := (shopMux decodeBook dbOrder order setOrder me).
Abbreviation limited := (HTTPRateLimit machine 100 Minute routes).
Abbreviation handler := (shopHandler sha256 machine decodeBook dbOrder order setOrder me).
Abbreviation key := (cacheKeyOf sha256).

Lemma coherent_weaken others others' sh wd c :
  (forall k b, others k b -> others' k b) -> Coherent others sh wd c -> Coherent others' sh wd c.
Proof. intros Hw [Hs Ht Hn Hb Hl Ho Hp]. split; eauto. Qed.

Lemma key_not_own r : ~ own_key (key r).
Proof. intros [He|[id He]]; discriminate He. Qed.

Lemma key_brief r : brief (key r).
Proof.
  unfold brief, cacheKeyOf, hashRequest, len.
  pose proof (substring_short 0 16 (EncodeToString (sha256 (ascii_bytes (Method r +:+ URL r))))) as Hs.
  revert Hs. generalize (String.substring 0 16 (EncodeToString (sha256 (ascii_bytes (Method r +:+ URL r))))). intros x Hs.
  change (String.length ("httpcache:" +:+ x)) with (10 + String.length x)%nat. lia.
Qed.

(** An entry of the response cache is added, if it can be encoded. *)
Lemma coherent_record others sh wd c r v ttl clk :
  Coherent others sh wd c -> ClockOk clk -> ttl ≠ 0 ->
  (forall data, MarshalOther v = Ok data -> admits (store c) (key r) data ttl clk
     /\ others (key r) (data, expiryOf ttl (clk 0%nat))) ->
  exists res wd' c', Cache_Set order me (key r) (GOther v) ttl clk wd = Some (res, wd') /\ Coherent others sh wd' c'.
Proof.
  intros Hc Hclk Ht Hdata. pose proof (ch_site _ _ _ _ _ Hc) as Hs. destruct (MarshalOther v) as [data|err] eqn:Hser.
  2: { eexists _, wd, c. split; [|exact Hc]. unfold Cache_Set, bind, this.
       rewrite (st_host _ _ _ Hs), (st_open _ _ _ Hs). cbn [Serialize String.eqb]. rewrite Hser. reflexivity. }
  destruct (Hdata data eq_refl) as [Had Hq].
  destruct (Cache_Set_effective order wd me (key r) me c c (GOther v) data ttl clk) as (c' & Hset & [Hsame Hok [Hv Hfr] _ Htk (cs & Hcs & Hev)]);
    [by apply site_serves|apply Hs|done|done|done|by rewrite (proj2 (Z.eqb_neq ttl 0))|].
  rewrite (proj2 (Z.eqb_neq ttl 0) Ht) in Hv. eexists _, _, c'. split; [exact Hset|].
  assert (forall k b, view (store c') k = Some b -> k ≠ key r -> view (store c) k = Some b) as Hold.
  { intros k b Hb Hne. destruct (Hfr k Hne) as [E|E]; rewrite E in Hb; [exact Hb|discriminate Hb]. }
  destruct Hc as [_ Hti Hn Hb Hl Ho Hp]. split; rewrite ?Htk; [by eapply site_put|done|done| | | |].
  - intros id d x Hx%Hold; [by eapply Hb|]. intros He. by apply (key_not_own r); right; exists id.
  - intros d x Hx%Hold; [by eapply Hl|]. intros He. by apply (key_not_own r); left.
  - intros k b Hk Hx. destruct (decide (k = key r)) as [->|Hne]; [|eauto].
    destruct Hv as [Hv|Hv]; rewrite Hv in Hx; [|discriminate Hx]. by injection Hx as <-.
  - intros k. rewrite Hcs, fmap_app, elem_of_app. intros [Hin|Hin] Hown; [|by apply Hev].
    destruct (Hfr k) as [E|E]; [intros ->; by apply (key_not_own r)|rewrite E; by apply Hp|exact E].
Qed.

(** ** A GET *)

(** A GET writes nothing to the database. *)
Lemma get_reads path : match shopRoute "GET" path with RCreateBook | RPurchase _ => False | _ => True end.
Proof. unfold shopRoute. cbn [String.eqb Ascii.eqb Bool.eqb orb]. by repeat case_match. Qed.

Lemma mux_get others r clk w n sh c :
  Coherent others sh (world n) c -> pending c = [] -> Ready clk -> Brief r -> Method r = "GET" -> Blank w ->
  exists rec n' c' code body, routes r clk w n sh = (Returned rec n', sh) /\ Coherent others sh (world n') c'
    /\ Sends rec code body /\ shopAnswer sh (Path r) code body.
Proof.
  intros Hc Hnil Hr Hbr Hm Hw. unfold shopMux, shopAnswer. pose proof (brief_get r) as Hid. rewrite Hm in Hid |- *. pose proof (get_reads (Path r)) as Hg.
  destruct (shopRoute "GET" (Path r)) as [|id| |id| |allow|] eqn:Er; [| |done|done| | |].
  - edestruct list_fresh as (l & n' & c' & Hl & Hp & Hc'); [exact books_codec|exact dbOrder_ok|exact Hc|exact Hnil|exact Hr|].
    eexists _, n', c', 200, _. split; [exact Hl|]. split; [done|]. split; [by apply blank_json|]. eauto.
  - edestruct get_fresh with (id := id) as (n' & c' & Hl & Hc'); [exact book_codec|exact Hc|exact Hnil|exact Hr|exact (Hid id Hbr eq_refl)|].
    destruct (bookDB sh !! id) as [b|] eqn:Eb.
    + eexists _, n', c', 200, _. split; [exact Hl|]. split; [done|]. by split; [apply blank_json|].
    + eexists _, n', c', 404, _. split; [exact Hl|]. split; [done|]. by split; [apply blank_error|].
  - unfold handleStats, stateCall, Cache_Len, bind, this, ret. rewrite (st_host _ _ _ (ch_site _ _ _ _ _ Hc)).
    eexists _, _, c, 200, _. split; [reflexivity|]. split; [done|]. by split; [apply blank_json|].
  - eexists _, n, c, 405, _. split; [reflexivity|]. split; [done|]. by split; [apply blank_error, blank_header|].
  - eexists _, n, c, 404, _. split; [reflexivity|]. split; [done|]. by split; [apply blank_error|].
Qed.

(** The rate limit lets a request through, or answers 429. *)
Lemma limited_get others r clk n sh c :
  Coherent others sh (world n) c -> pending c = [] -> Ready clk -> Brief r -> Method r = "GET" ->
  exists rec n' c' code body, limited r clk (responseRecorder newWriter) n sh = (Returned rec n', sh)
    /\ Coherent others sh (world n') c' /\ Sends rec code body /\ (code = 429 \/ shopAnswer sh (Path r) code body).
Proof.
  intros Hc Hnil [Hclk Had] Hbr Hm. unfold HTTPRateLimit. destruct (Ratelimit.Cache_RateLimit _ _ _ _ _ _) as [[[] st] tb]; cbn [negb].
  - destruct (mux_get others r (advance 1 clk) (rateHeaders st (responseRecorder newWriter)) (set_tokenBucket tb n) sh c)
      as (rec & n' & c' & code & body & Hx & Hc' & Hs & Ha); [done|done| |done|done|by split|eauto 11].
    split; [by apply advance_ok|]. exact (fun i => Had (Datatypes.S i)).
  - eexists _, _, c, 429, _. split; [reflexivity|]. split; [done|]. split; [by apply blank_error|by left].
Qed.

(** A GET through the response cache: the limit refuses it, or it gets what the
    database has, or what an earlier GET has recorded. *)
Lemma get_step others r clk n sh c :
  Coherent others sh (world n) c -> pending c = [] -> Ready clk -> Brief r -> Method r = "GET" ->
  (forall b, others (key r) b -> exists resp, MarshalOther (box resp) = Ok b.1) ->
  (forall resp data, shopAnswer sh (Path r) (crStatusCode resp) (crBody resp) -> MarshalOther (box resp) = Ok data ->
     others (key r) (data, expiryOf (30 * Second) (clk 64%nat))) ->
  exists w n' c', handler r clk newWriter n sh = (Returned w n', sh) /\ Coherent others sh (world n') c'
    /\ let resp := finish w in
       (StatusCode resp = 429 \/ shopAnswer sh (Path r) (StatusCode resp) (Content resp)
        \/ exists cached data x, MarshalOther (box cached) = Ok data /\ others (key r) (data, x) /\ (x = 0 \/ clk 0%nat <= x)
             /\ StatusCode resp = crStatusCode cached /\ Content resp = crBody cached).
Proof.
  intros Hc Hnil Hr Hbr Hm Hdec Hnew. destruct Hr as [Hclk Had].
  edestruct coherent_get with (key := key r) (t := boxType (Boxed := H4)) as (wd1 & c1 & Hg & Hc1 & Hp1); [exact Hc|exact Hclk|done|].
  unfold shopHandler, HTTPCache, stateCall. rewrite Hm. cbn [String.eqb Ascii.eqb Bool.eqb negb]. rewrite Hg.
  destruct (live_at (clk 0%nat) (view (store c) (key r))) as [[data x]|] eqn:El.
  - assert (view (store c) (key r) = Some (data, x) /\ (x = 0 \/ clk 0%nat <= x)) as [Hv Hx].
    { destruct (view (store c) (key r)) as [[d y]|]; [|discriminate El]. cbn [live_at] in El.
      destruct (Z.eqb_spec y 0), (Z.leb_spec (clk 0%nat) y); cbn [orb] in El; try discriminate El; injection El as -> ->; auto. }
    pose proof (ch_others _ _ _ _ _ Hc _ _ (key_not_own r) Hv) as Hq. destruct (Hdec _ Hq) as [cached He]. cbn [fst] in He.
    destruct (response_codec cached) as [Hb Hu]. rewrite (Hu _ He), Hb. cbn [default from_option id].
    eexists _, _, c1. split; [reflexivity|]. split; [exact Hc1|]. destruct (replayed_finish cached) as [H5 H6].
    cbv zeta. right; right. by exists cached, data, x.
  - destruct (limited_get others r (advance 8 clk) (set_world wd1 n) sh c1) as (rec & n' & c' & code & body & Hx & Hc' & Hs & Ha);
      [exact Hc1|by rewrite Hp1|split; [by apply advance_ok|exact (fun i => Had (8 + i)%nat)]|done|done|].
    rewrite Hx. destruct (sends_embedded rec code body Hs) as [Hcode Hbody]. rewrite (se_code _ _ _ Hs).
    assert (code = 429 \/ shopAnswer sh (Path r) code body) as Hans by exact Ha.
    destruct ((200 <=? code) && (code <? 400)) eqn:E.
    + destruct (coherent_record others sh (world n') c' r (box (recordedResponse rec)) (30 * Second) (advance 64 clk))
        as (res & wd2 & c2 & Hset & Hc2); [done|by apply advance_ok|done| |].
      { intros data Hd. split; [eapply Had; [apply (ch_site _ _ _ _ _ Hc')|apply key_brief|exact Hd|done]|].
        eapply Hnew; [|exact Hd]. cbn [crStatusCode crBody recordedResponse]. rewrite (se_code _ _ _ Hs), (se_output _ _ _ Hs).
        destruct Ha as [->|Ha]; [discriminate E|exact Ha]. }
      rewrite Hset. eexists _, _, c2. split; [reflexivity|]. split; [exact Hc2|]. cbv zeta. rewrite Hcode, Hbody. tauto.
    + eexists _, _, c'. split; [reflexivity|]. split; [exact Hc'|]. cbv zeta. rewrite Hcode, Hbody. tauto.
Qed.

(** Any other method goes through. *)
Lemma other_step others r clk n sh c :
  Coherent others sh (world n) c -> pending c = [] -> Ready clk -> Brief r -> Method r ≠ "GET" ->
  exists w n' c' sh', handler r clk newWriter n sh = (Returned w n', sh') /\ Coherent others sh' (world n') c'.
Proof.
  intros Hc Hnil [Hclk Had] Hbr Hm. unfold shopHandler, HTTPCache. rewrite (proj2 (String.eqb_neq _ _) Hm). cbn [negb].
  unfold HTTPRateLimit. destruct (Ratelimit.Cache_RateLimit _ _ _ _ _ _) as [[[] st] tb]; cbn [negb]; [|by eexists _, _, c, sh].
  eapply mux_coherent; [exact book_codec|exact books_codec|exact setOrder_ok|exact dbOrder_ok|exact Hc|exact Hnil| |exact Hbr].
  split; [by apply advance_ok|exact (fun i => Had (Datatypes.S i))].
Qed.

(** ** Runs *)

Abbreviation run := (shopRun sha256 machine decodeBook dbOrder order setOrder me pick).

Lemma expiry_30 now : expiryOf (30 * Second) now = now + 30 * Second.
Proof. reflexivity. Qed.

(** Every entry of the response cache ends at [bound] or earlier. *)
Definition Aged (bound : Time) (k : string) (b : Binding) : Prop :=
  (exists resp, MarshalOther (box resp) = Ok b.1) /\ 0 < b.2 <= bound.

Lemma aged_run t reqs t' n sh c :
  Timed t reqs t' -> Forall (fun rc => Brief rc.1 /\ Ready rc.2) reqs -> Coherent (Aged (t + 30 * Second)) sh (world n) c ->
  pending c = [] ->
  exists n' sh' c', run reqs n sh = Some (n', sh') /\ Coherent (Aged (t' + 30 * Second)) sh' (world n') c' /\ pending c' = [].
Proof.
  intros Ht. revert n sh c. induction Ht as [t|t r clk t1 reqs t' Hclk Ht IH]; intros n sh c Hr Hc Hnil; [by exists n, sh, c|].
  apply Forall_cons in Hr as [[Hbr Hr] Hrs]. cbn [fst snd] in Hbr, Hr.
  assert (Coherent (Aged (t1 + 30 * Second)) sh (world n) c) as Hc1.
  { eapply coherent_weaken; [|exact Hc]. intros k b [Hd Hb]. split; [done|]. specialize (Hclk 0%nat). lia. }
  assert (exists w n' c' sh', handler r clk newWriter n sh = (Returned w n', sh')
    /\ Coherent (Aged (t1 + 30 * Second)) sh' (world n') c') as (w & n' & c' & sh' & Hx & Hc').
  { destruct (decide (Method r = "GET")) as [Hm|Hm]; [|by eapply other_step].
    destruct (get_step (Aged (t1 + 30 * Second)) r clk n sh c) as (w & n' & c' & Hx & Hc' & _); [done|done|done|done|done|by intros b [Hd _]| |by exists w, n', c', sh].
    intros resp data _ Hd. split; [by exists resp|]. pose proof (clock_pos_at clk 64 (proj1 Hr)). specialize (Hclk 64%nat).
    cbn [snd]. rewrite expiry_30. unfold Second. lia. }
  edestruct coherent_settle as (wd2 & c2 & Hst & Hc2 & Hnil2); [exact pick_ok|exact Hc'|].
  cbn [shopRun]. rewrite Hx, Hst. by eapply IH.
Qed.

(** Requests that the hash of the response cache tells apart. *)
Context (known : Request -> Prop).
Hypothesis no_collision : forall r r', known r -> known r' -> Method r = "GET" -> Method r' = "GET" ->
  key r = key r' -> Path r = Path r'.

(** An entry ends at [bound], or is what the database has to say. *)
Definition Current (bound : Time) sh (k : string) (b : Binding) : Prop :=
  exists resp, MarshalOther (box resp) = Ok b.1 /\ 0 < b.2
    /\ (b.2 <= bound \/ forall r, known r -> Method r = "GET" -> key r = k -> shopAnswer sh (Path r) (crStatusCode resp) (crBody resp)).

Lemma current_get bound r clk n sh c :
  Coherent (Current bound sh) sh (world n) c -> pending c = [] -> Ready clk -> Brief r -> Method r = "GET" -> known r ->
  exists w n' c', handler r clk newWriter n sh = (Returned w n', sh) /\ Coherent (Current bound sh) sh (world n') c'
    /\ (bound < clk 0%nat ->
        StatusCode (finish w) = 429 \/ shopAnswer sh (Path r) (StatusCode (finish w)) (Content (finish w))).
Proof.
  intros Hc Hnil Hr Hbr Hm Hk. destruct (get_step (Current bound sh) r clk n sh c) as (w & n' & c' & Hx & Hc' & Hresp); [done|done|done|done|done| | |].
  - intros b (resp & Hb & _). by exists resp.
  - intros resp data Ha Hd. exists resp. split; [done|]. pose proof (clock_pos_at clk 64 (proj1 Hr)). split.
    + cbn [snd]. rewrite expiry_30. unfold Second. lia.
    + right. intros r' Hk' Hm' He. by rewrite (no_collision r' r).
  - exists w, n', c'. split; [exact Hx|]. split; [exact Hc'|]. intros Hlate. cbv zeta in Hresp.
    destruct Hresp as [Hs|[Hs|(cached & data & x & Hd & (resp & Hb & Hpos & Hfresh) & Hlive & Hs & Hcon)]]; [by left|by right|right].
    cbn [fst snd] in *. rewrite Hs, Hcon. assert (cached = resp) as ->.
    { destruct (response_codec cached) as [E1 E2], (response_codec resp) as [E3 E4]. specialize (E2 _ Hd). specialize (E4 _ Hb). congruence. }
    destruct Hfresh as [Hle|Ha]; [lia|by apply Ha].
Qed.

Lemma current_run bound reqs n sh c :
  Forall (fun rc => Brief rc.1 /\ Ready rc.2 /\ Method rc.1 = "GET" /\ known rc.1) reqs -> Coherent (Current bound sh) sh (world n) c ->
  pending c = [] ->
  exists n' c', run reqs n sh = Some (n', sh) /\ Coherent (Current bound sh) sh (world n') c' /\ pending c' = [].
Proof.
  intros Hr. revert n c. induction Hr as [|[r clk] reqs (Hbr & Hclk & Hm & Hk) Hr IH]; intros n c Hc Hnil; [by exists n, c|].
  destruct (current_get bound r clk n sh c Hc Hnil Hclk Hbr Hm Hk) as (w & n' & c' & Hx & Hc' & _).
  edestruct coherent_settle as (wd2 & c2 & Hst & Hc2 & Hnil2); [exact pick_ok|exact Hc'|].
  cbn [shopRun]. rewrite Hx, Hst. by eapply IH.
Qed.

(** C35: handled one request at a time, the bookstore shows nothing that is older than
    thirty seconds. From an empty cache, requests of any kind are handled up to
    the time [t1], and only GETs after it, one after the other, each followed by
    the eviction callbacks it has started, in any order; then a GET more than
    thirty seconds after [t1] is answered by what the database has, or refused by
    the rate limit. This needs that the shortened hash keeps the paths in use
    apart, and that the paths are brief. *)
Theorem shop_stale_bounded t0 before t1 reads n sh c :
  Site me (world n) c -> TagsOk (tags c) -> (forall k t, ~ has_tag (tags c) k t) -> (forall k, view (store c) k = None) -> pending c = [] ->
  Timed t0 before t1 -> Forall (fun rc => Brief rc.1 /\ Ready rc.2) before ->
  Forall (fun rc => Brief rc.1 /\ Ready rc.2 /\ Method rc.1 = "GET" /\ known rc.1) reads ->
  exists n1 sh1 n2, run before n sh = Some (n1, sh1) /\ run reads n1 sh1 = Some (n2, sh1)
    /\ forall r clk, Brief r -> Ready clk -> Method r = "GET" -> known r -> t1 + 30 * Second < clk 0%nat ->
         exists w n3, handler r clk newWriter n2 sh1 = (Returned w n3, sh1)
           /\ (StatusCode (finish w) = 429 \/ shopAnswer sh1 (Path r) (StatusCode (finish w)) (Content (finish w))).
Proof.
  intros Hs Ht Hno Hempty Hnil Htime Hb Hr. assert (Coherent (Aged (t0 + 30 * Second)) sh (world n) c) as Hc.
  { split; [done|done|done|..]; intros; by rewrite Hempty in *. }
  destruct (aged_run t0 before t1 n sh c Htime Hb Hc Hnil) as (n1 & sh1 & c1 & Hrun & Hc1 & Hnil1).
  assert (Coherent (Current (t1 + 30 * Second) sh1) sh1 (world n1) c1) as Hc1'.
  { eapply coherent_weaken; [|exact Hc1]. intros k b [[resp Hd] Hle]. exists resp. split_and!; [done|lia|left; lia]. }
  destruct (current_run _ reads n1 sh1 c1 Hr Hc1' Hnil1) as (n2 & c2 & Hrun2 & Hc2 & Hnil2).
  exists n1, sh1, n2. split; [exact Hrun|]. split; [exact Hrun2|]. intros r clk Hbr Hclk Hm Hk Hlate.
  destruct (current_get _ r clk n2 sh1 c2 Hc2 Hnil2 Hclk Hbr Hm Hk) as (w & n3 & c3 & Hx & _ & Ha). exists w, n3. auto.
Qed.
End Staleness.

(** ** Witnesses *)

#[local] Existing Instance WebApi.Book_eq_dec.
#[local] Existing Instance WebApi.Book_countable.
#[local] Instance byte_countable : Countable Byte.byte.
Proof. refine (inj_countable Byte.to_N Byte.of_N _). intros b. apply Byte.of_to_N. Defined.
#[local] Instance cachedResponse_eq_dec : EqDecision cachedResponse.
Proof. solve_decision. Defined.
#[local] Instance cachedResponse_countable : Countable cachedResponse.
Proof.
  refine (inj_countable' (fun r => (crStatusCode r, crBody r, crHeaders r)) (fun '(s, b, h) => MkCachedResponse s b h) _). by intros [].
Defined.

(** What the program stores. *)
Abbreviation Stored := (Book + list Book + cachedResponse)%type.
#[local] Instance bs_msgpack : Msgpack Stored unit := bounded_msgpack.
#[local] Instance bs_value : BookValue Stored unit := {|
  boxBook b := inl (inl b); unboxBook v := match v with inl (inl b) => Some b | _ => None end; bookType := tt;
  boxBooks l := inl (inr l); unboxBooks v := match v with inl (inr l) => Some l | _ => None end; booksType := tt;
|}.
#[local] Instance bs_boxed : Boxed Stored unit := {| box := inr; unbox v := match v with inr r => Some r | _ => None end; boxType := tt |}.
(** The limit of a shard, with 128 MB in 64 shards. *)
Definition bs_max : Z := 2 * 2 ^ 20.
#[local] Instance bs_laws : StoreLaws MemoryStore := MemoryStore_Laws bs_max.

(** Of a JSON object, the stock. *)
#[local] Instance bs_json : JsonCodec := {
  decodeKeys _ := None; decodeLock _ := None; decodeTTL _ := None; decodeRateLimit _ := None;
  marshalJson v :=
    match v with
    | JObject fields =>
        match List.find (fun f => String.eqb f.1 "stock") fields with Some (_, JInt z) => PutUint64 z | _ => [] end
    | _ => []
    end;
}.

(** A digest that begins with the end of the text. *)
Definition bs_sha (b : bytes) : bytes := reverse b.
Definition bs_get (id : string) : Request := MkHttpRequest "GET" ("/books/" +:+ id) ["books"; id] ∅ None "10.1.1.1:5000".
Definition bs_buy : Request := MkHttpRequest "POST" "/books/1/purchase" ["books"; "1"; "purchase"] ∅ None "10.1.1.1:5000".
Definition bs_cache : Cache MemoryStore := MkCache (opened 64 bs_max) shopConfig false None Lock.NewEngine newTagIndex [].
Definition bs_node : Node MemoryStore :=
  MkNode (MkWorld (MkNetwork {["" := bs_cache]} (fun _ => None) (fun _ => replicate 16 Byte.x07)) []) ∅ ∅ Pubsub.NewBroker [].
Abbreviation bs_run := (shopRun bs_sha (fun _ => 0) (fun _ => None) map_to_list (fun _ => []) elements "" (fun _ => 0%nat)).
Abbreviation bs_handler := (shopHandler bs_sha (fun _ => 0) (fun _ => None) map_to_list (fun _ => []) elements "").
Definition bs_reqs : list (Request * Clock) := [(bs_get "1", w_clock); (bs_buy, w_clock)].
Definition bs_later (d : Duration) : Clock := frozen (w_clock 0%nat + d).

(** Within the thirty seconds a client does see an old stock: a book is read and
    sold, and a GET shows the ten copies there were although nine are left. *)
Theorem purchase_hidden :
  match bs_run bs_reqs bs_node initialShop with
  | Some (n, sh) =>
      Stock <$> (bookDB sh !! "1") = Some 9
      /\ match bs_handler (bs_get "1") (bs_later (30 * Second)) newWriter n sh with
         | (Returned w _, _) => StatusCode (finish w) = 200 /\ Uint64 (take 8 (Content (finish w))) = 10
         | _ => False
         end
      /\ match bs_handler (bs_get "1") (bs_later (31 * Second)) newWriter n sh with
         | (Returned w _, _) => StatusCode (finish w) = 200 /\ Uint64 (take 8 (Content (finish w))) = 9
         | _ => False
         end
  | None => False
  end.
Proof. vm_compute. split_and!; reflexivity. Qed.

Lemma bs_ready d : 0 <= d <= Minute -> Ready (S := MemoryStore) (bs_later d).
Proof.
  intros Hd. split; [|intros i s k v data ttl _ Hk Hdata _; by apply (web_admits bs_max k v data ttl)]. apply frozen_ok.
  unfold w_clock, frozen, t0, unixEpoch, Minute, Second in *. lia.
Qed.

Lemma bs_site : Site "" (world bs_node) bs_cache.
Proof. split; try done. by apply (opened_ok bs_max 6). Qed.

Lemma bs_no_collision r r' : r ∈ [bs_get "1"; bs_get "2"] -> r' ∈ [bs_get "1"; bs_get "2"] ->
  Method r = "GET" -> Method r' = "GET" -> cacheKeyOf bs_sha r = cacheKeyOf bs_sha r' -> Path r = Path r'.
Proof.
  intros Hr%list_elem_of_In Hr'%list_elem_of_In _ _ He.
  destruct Hr as [<- |[<- |[]]], Hr' as [<- |[<- |[]]]; try reflexivity; exfalso; revert He; by_decide.
Qed.

(** A book is read and sold; it is read again, and once more after 31 seconds. *)
Lemma shop_stale_bounded_witness :
  exists n1 sh1 n2, bs_run bs_reqs bs_node initialShop = Some (n1, sh1)
    /\ bs_run [(bs_get "1", bs_later 0)] n1 sh1 = Some (n2, sh1)
    /\ exists w n3, bs_handler (bs_get "1") (bs_later (31 * Second)) newWriter n2 sh1 = (Returned w n3, sh1)
         /\ (StatusCode (finish w) = 429 \/ shopAnswer sh1 ["books"; "1"] (StatusCode (finish w)) (Content (finish w))).
Proof.
  assert (Ready (S := MemoryStore) (bs_later (31 * Second))) as Hready by (apply bs_ready; by vm_compute).
  destruct (shop_stale_bounded bs_sha (fun _ => 0) (fun _ => None) map_to_list (fun _ => []) elements "") with (pick := fun _ : calls => 0%nat) (known := fun r => r ∈ [bs_get "1"; bs_get "2"])
    (t0 := w_clock 0%nat) (before := bs_reqs) (t1 := w_clock 0%nat) (reads := [(bs_get "1", bs_later 0)])
    (n := bs_node) (sh := initialShop) (c := bs_cache) as (n1 & sh1 & n2 & H1 & H2 & H3).
  - intros b. split; [done|apply bounded_decode].
  - intros l. split; [done|apply bounded_decode].
  - intros r. split; [done|apply bounded_decode].
  - exact elements_iterates.
  - done.
  - intros [|x cs] Hcs; [done|apply Nat.lt_0_succ].
  - exact bs_no_collision.
  - exact bs_site.
  - exact newTagIndex_ok.
  - intros k t (tgs & Hk & _). by vm_compute in Hk.
  - intros k. by apply (opened_empty bs_max 6).
  - done.
  - do 2 (apply timed_cons with (t1 := w_clock 0%nat); [intros i; split; apply Z.le_refl|]). apply timed_nil.
  - pose proof (bs_ready 0) as Hr. unfold bs_later in Hr. rewrite Z.add_0_r in Hr.
    do 2 (apply Forall_cons; split; [split; [by repeat constructor|apply Hr; by vm_compute]|]). by apply Forall_nil.
  - apply Forall_cons. split; [split; [by repeat constructor|split; [apply bs_ready; by vm_compute|by split; [|left]]]|by apply Forall_nil].
  - exists n1, sh1, n2. split; [exact H1|]. split; [exact H2|].
    assert (w_clock 0%nat + 30 * Second < bs_later (31 * Second) 0%nat) as Hlate by (clear; by vm_compute).
    exact (H3 (bs_get "1") (bs_later (31 * Second)) ltac:(by repeat constructor) Hready eq_refl (list_elem_of_here _ _) Hlate).
Defined.
