(* ===== verification/Restart.v ===== *)
(** examples/sessions/main.go: main, and what a restart of the program leaves of
    its sessions.

    The database is what pebble.Open finds in the directory. Writes are not
    synced (pebble.NoSync), and the deferred calls of Shutdown do not run, since
    main ends in log.Fatal: a process may end before its last writes have reached
    the disk. So the next process finds some database, and the theorem is about
    those that have the entry of the login. The rate limit that main puts around
    the handlers is [HTTPRateLimit] of Middleware.v; here are the handlers alone. *)
From stdpp Require Import pretty.
From S2P Require Import Prelude GoLib Serializer Config Shard Store PebbleStore PebbleProofs Counters Tags LockEngine HashRing Cluster Transport Pool Glob Broker Cache CacheProofs Modes Float64 RateLimit GoStrings Http Server Middleware Sessions Startup.

#[local] Open Scope cache_scope.

Section Restart.
Context {DB V T : Type} `{PebbleLaws DB} `{MsgpackLaws V T}.
#[local] Existing Instance disk_laws.
#[local] Existing Instance disk_persistent.
Context (g : Gossip) (listen : string -> result unit) (clk : Clock) (hostname : string).

Definition dataDir : string := "./session-data".

(** main up to ListenAndServe, on the database in [dataDir]. The error of MkdirAll
    is dropped. Of the second cache, the one of NewMemory, the handlers use only
    the token buckets, which are those of the node and empty at the start. *)
Definition sessionsMain (d : DB) : result (Node (PebbleStore DB)) :=
  match NewDisk g listen clk hostname (fun _ => Ok (NewPebbleStore d)) dataDir with
  | Err err => Err err
  | Ok c => Ok (MkNode (MkWorld (MkNetwork {["" := c]} (fun _ => None) (fun _ => [])) []) ∅ ∅ Pubsub.NewBroker [])
  end.

Lemma sessionsMain_site d : db_ok d ->
  exists n c, sessionsMain d = Ok n /\ Site "" (world n) c /\ db (store c) = d.
Proof.
  intros Hok. unfold sessionsMain, NewDisk, NewCache, New. cbn -[withNodeName].
  rewrite bool_decide_false by done. cbn.
  eexists _, (MkCache _ _ false None Lock.NewEngine newTagIndex []). split; [reflexivity|]. split; [by split|reflexivity].
Qed.

Context `{JsonCodec} `{SessionValue V T}.
Context (decodeLogin : bytes -> option string) (rfc3339 : Time -> string) (order : ClusterState -> list (string * NodeInfo)).

(** msgpack encodes sessions, and decodes what it has encoded. *)
Context (encodeSession : Session -> bytes).
Hypothesis session_codec : forall s,
  MarshalOther (boxSession s) = Ok (encodeSession s)
  /\ UnmarshalOther (encodeSession s) sessionType = Ok (boxSession s) /\ unboxSession (boxSession s) = Some s.

(** C36: a session whose write has reached the disk survives a restart. After a login
    the process ends, and main is run again on a database that still has the
    entry of the login, whatever else it has lost or kept: it starts, and with the
    token of the login every visit of /me is answered 200 with the user of the
    login, as long as the first comes within a day of the login and none later
    than a day after the one before. Requests go to the handlers without the rate
    limit, and I/O does not fail. *)
Theorem sessions_survive_restart (n : Node (PebbleStore DB)) c r username random clk1 r' clks :
  Site "" (world n) c -> Timely clk1 -> readJSON decodeLogin r = Some username -> username ≠ "" ->
  extractToken r' = generateToken random -> random ≠ [] -> Regular (clk1 2%nat) clks ->
  exists w1 n1 c1, handleLogin decodeLogin order "" random r clk1 newWriter n = Returned w1 n1
    /\ StatusCode (finish w1) = 200 /\ hosts (net (world n1)) !! "" = Some c1
    /\ forall d, db_ok d ->
         pairs d !! sessionKey (generateToken random) = pairs (db (store c1)) !! sessionKey (generateToken random) ->
         exists n2 resps n3, sessionsMain d = Ok n2
           /\ visits rfc3339 order "" r' clks n2 = Some (resps, n3) /\ length resps = length clks
           /\ forall i clk', clks !! i = Some clk' -> exists resp, resps !! i = Some resp /\ StatusCode resp = 200
                /\ Content resp = encodeJson (sessionJson rfc3339
                     (MkSession ("user-" +:+ username) username (clk1 0%nat) (clk' 8%nat))).
Proof.
  intros Hs Hclk Hr Hu Htok Hrnd Hreg.
  destruct (login_spec decodeLogin order "" encodeSession session_codec n c r username random clk1 Hs Hclk Hr Hu)
    as (n1 & c1 & Hl & Hs1 & _ & Hses & _).
  eexists _, n1, c1. split; [exact Hl|]. split; [reflexivity|]. split; [apply Hs1|]. intros d Hd Hkept.
  destruct (sessionsMain_site d Hd) as (n2 & c2 & Hm & Hs2 & Hdb).
  assert (session_of encodeSession (extractToken r') (MkSession ("user-" +:+ username) username (clk1 0%nat) (clk1 1%nat)) (clk1 2%nat) c2) as Hses2.
  { rewrite Htok. unfold session_of in *. rewrite <- Hses. cbn. unfold pview. by rewrite Hdb, Hkept. }
  assert (extractToken r' ≠ "") as Hne by (rewrite Htok; unfold generateToken; by destruct random).
  destruct (visits_spec rfc3339 order "" encodeSession session_codec n2 c2 r' _ _ clks Hs2 Hne Hses2 Hreg) as (n3 & c3 & Hv & _).
  eexists n2, _, n3. split; [exact Hm|]. split; [exact Hv|]. split; [by rewrite length_fmap|].
  intros i clk' Hi. eexists.
  split; [rewrite list_lookup_fmap; etransitivity; [apply (f_equal (fmap _) Hi)|reflexivity]|done].
Qed.
End Restart.

(** ** Witness *)

#[local] Existing Instance Sessions.Session_eq_dec.
#[local] Existing Instance Sessions.Session_countable.
#[local] Existing Instance Sessions.ses_msgpack.
#[local] Existing Instance Sessions.ses_msgpack_laws.
#[local] Existing Instance Sessions.ses_value.
#[local] Existing Instance Sessions.ses_json.
#[local] Existing Instance map_db.
#[local] Existing Instance map_db_laws.
#[local] Existing Instance disk_laws.

(** A login, a restart which has lost the counter that the login wrote last, and a
    visit every twenty hours. *)
Lemma sessions_survive_restart_witness :
  exists w1 n1 c1 n2 resps n3,
    handleLogin ses_decode (fun _ => []) "" ses_random ses_post (ses_time 0) newWriter ses_node = Returned w1 n1
    /\ hosts (net (world n1)) !! "" = Some c1
    /\ sessionsMain w_gossip (fun _ => Ok tt) (ses_time 10) "host" (delete "stats:active_sessions" (db (store c1))) = Ok n2
    /\ visits (fun _ => "") (fun _ => []) "" ses_visit [ses_time 20; ses_time 40] n2 = Some (resps, n3)
    /\ length resps = 2%nat.
Proof.
  destruct (sessions_survive_restart w_gossip (fun _ => Ok tt) (ses_time 10) "host" ses_decode (fun _ => "") (fun _ => [])
    digits_of ses_codec ses_node ses_cache ses_post "alice" ses_random (ses_time 0) ses_visit [ses_time 20; ses_time 40])
    as (w1 & n1 & c1 & Hl & _ & Hc & Hrestart).
  - exact ses_site.
  - by apply ses_timely.
  - reflexivity.
  - discriminate.
  - vm_compute. reflexivity.
  - discriminate.
  - cbn [Regular]. unfold ses_time, frozen, sessionTTL.
    split_and!; try (by apply ses_timely); try exact I; unfold Hour, Minute, Second; lia.
  - destruct (Hrestart (delete "stats:active_sessions" (db (store c1)))) as (n2 & resps & n3 & Hm & Hv & Hlen & _);
      [exact I|apply lookup_delete_ne; discriminate|].
    exists w1, n1, c1, n2, resps, n3. split; [exact Hl|]. split; [exact Hc|]. split; [exact Hm|]. split; [exact Hv|exact Hlen].
Defined.
