(* ===== verification/Lifecycle.v ===== *)
(** The life of a node: Shutdown and the sweeper (cache.go), the rest of
    Membership (internal/cluster/member.go), and the requests of peers that arrive
    while and after the node shuts down.

    Several goroutines may call Shutdown at once; [stage] is Shutdown cut into
    the steps at which they can interleave. *)
From stdpp Require Import relations.
From S2P Require Import Prelude GoLib Serializer Config Shard Store ShardTheorems MemoryStore PebbleStore Tags LockEngine HashRing RingProofs Cluster Transport Pool Glob Broker BrokerProofs Cache CacheProofs CacheTheorems PoolProofs Replication Startup.

(** ** internal/cluster/member.go *)

(** The calls of memberlist that are left: Leave, Shutdown and Members. *)
Class Memberlist (L : Type) := {
  ml_Leave : Duration -> L -> option Error * L;
  ml_Shutdown : L -> option Error * L;
  ml_Members : L -> list MlNode;
}.

(** The cluster state and the ring are the cache's. *)
Record Membership (L : Type) := MkMembership {
  mList : L;
  mConfig : MemberConfig;
  mMeta : bytes;
}.
Arguments MkMembership {L} mList mConfig mMeta.
Arguments mList {L} m : rename.
Arguments mConfig {L} m : rename.
Arguments mMeta {L} m : rename.

Section Membership.
Context {L : Type} `{Memberlist L}.
Implicit Types m : Membership L.

Definition set_list (l : L) m : Membership L := MkMembership l (mConfig m) (mMeta m).

Definition Membership_Leave (timeout : Duration) m : option Error * Membership L :=
  let '(err, l) := ml_Leave timeout (mList m) in (err, set_list l m).
Definition Membership_Shutdown m : option Error * Membership L :=
  let '(err, l) := ml_Shutdown (mList m) in (err, set_list l m).
Definition Membership_Members m : list MlNode := ml_Members (mList m).

(** memberlist.Delegate: the metadata, and nothing else. *)
Definition Membership_NodeMeta (limit : Z) m : bytes := mMeta m.
Definition Membership_NotifyMsg (msg : bytes) m : Membership L := m.
Definition Membership_GetBroadcasts (overhead limit : Z) m : list bytes := [].
Definition Membership_LocalState (join : bool) m : bytes := [].
Definition Membership_MergeRemoteState (buf : bytes) (join : bool) m : Membership L := m.
End Membership.

(** ** A node and its parts *)

(** The fields of Cache that [Cache] of Cache.v leaves out: the channel [done],
    membership, transport and broker; [storeClosed] says that Close of the store
    has been called. *)
Record Instance (S L H F G : Type) := MkInstance {
  cache : Cache S;
  done : bool;
  membership : option (Membership L);
  itransport : option (TCPTransport H);
  broker : Pubsub.Broker F G;
  storeClosed : bool;
}.
Arguments MkInstance {S L H F G} cache done membership itransport broker storeClosed.
Arguments cache {S L H F G} i : rename.
Arguments done {S L H F G} i : rename.
Arguments membership {S L H F G} i : rename.
Arguments itransport {S L H F G} i : rename.
Arguments broker {S L H F G} i : rename.
Arguments storeClosed {S L H F G} i : rename.

Section Lifecycle.
Context {S L H F G V T : Type} `{Store S V T} `{Memberlist L} `{LocalHandler H}.
(** The iteration orders of the maps of connections and subscriptions. *)
Context (connOrder : gmap string nat -> list (string * nat)) (subOrder : gmap Z nat -> list (Z * nat)).
(** Close of the store, whose error is dropped. *)
Context (Store_Close : S -> S).

Abbreviation Instance := (Instance S L H F G).
Implicit Types i : Instance.

Definition with_cache (c : Cache S) i : Instance :=
  MkInstance c (done i) (membership i) (itransport i) (broker i) (storeClosed i).
Definition with_done i : Instance :=
  MkInstance (cache i) true (membership i) (itransport i) (broker i) (storeClosed i).
Definition with_membership (m : Membership L) i : Instance :=
  MkInstance (cache i) (done i) (Some m) (itransport i) (broker i) (storeClosed i).
Definition with_transport (t : TCPTransport H) i : Instance :=
  MkInstance (cache i) (done i) (membership i) (Some t) (broker i) (storeClosed i).
Definition with_broker (b : Pubsub.Broker F G) i : Instance :=
  MkInstance (cache i) (done i) (membership i) (itransport i) b (storeClosed i).
Definition with_closed_store i : Instance :=
  MkInstance (set_store (Store_Close (store (cache i))) (cache i)) (done i) (membership i) (itransport i) (broker i) true.

(** ** Accessors *)

Definition Cache_Store i : S := store (cache i).
Definition Cache_Ring i : option Ring := snd <$> cluster (cache i).
Definition Cache_Broker i : Pubsub.Broker F G := broker i.
Definition Cache_LockEngine i : Lock.Engine := lockEngine (cache i).

(** ** cluster.EventHandler, and the events of membership on a node

    The handler is the cache; it is not told of events of the node itself. *)

Definition OnNodeJoin (node : NodeInfo) i : Instance := i.
Definition OnNodeLeave (node : NodeInfo) i : Instance :=
  match itransport i with
  | Some t => with_transport (CloseConnection (RPCAddr node) t) i
  | None => i
  end.
Definition OnNodeUpdate (node : NodeInfo) i : Instance := i.

Definition set_cluster (t : Topology) (c : Cache S) : Cache S :=
  MkCache (store c) (config c) (closed c) (Some t) (lockEngine c) (tags c) (pending c).

Section MembershipEvents.
Context (unmarshalMeta : bytes -> NodeMeta).

Definition told (node : MlNode) (handler : Instance -> Instance) i : Instance :=
  if negb (String.eqb (nName node) (NodeName (config (cache i)))) then handler i else i.

Definition Membership_NotifyJoin (now : Time) (node : MlNode) i : Instance :=
  match cluster (cache i) with
  | None => i
  | Some t =>
      told node (OnNodeJoin (nodeToInfo unmarshalMeta now node))
        (with_cache (set_cluster (NotifyJoin unmarshalMeta now node t) (cache i)) i)
  end.

Definition Membership_NotifyLeave (now : Time) (node : MlNode) i : option Instance :=
  match cluster (cache i) with
  | None => Some i
  | Some t =>
      match NotifyLeave node t with
      | None => None
      | Some t' =>
          Some (told node (OnNodeLeave (set_Status NodeLeft (nodeToInfo unmarshalMeta now node)))
                  (with_cache (set_cluster t' (cache i)) i))
      end
  end.

Definition Membership_NotifyUpdate (now : Time) (node : MlNode) i : Instance :=
  match cluster (cache i) with
  | None => i
  | Some t =>
      told node (OnNodeUpdate (nodeToInfo unmarshalMeta now node))
        (with_cache (set_cluster (NotifyUpdate unmarshalMeta now node t) (cache i)) i)
  end.
End MembershipEvents.

(** ** Shutdown *)

(** The steps of Shutdown, and [Returned]. *)
Inductive Stage :=
  | Swap | CloseDone | LeaveCluster | ShutdownMembership | StopRPC | ShutdownLocks | ShutdownBroker | CloseStorage
  | Returned.

(** One step: where the goroutine goes on, and the node; [None] is a panic. *)
Definition stage (s : Stage) i : option (Stage * Instance) :=
  match s with
  | Swap =>
      if closed (cache i) then Some (Returned, i)
      else Some (CloseDone, with_cache (set_closed true (cache i)) i)
  | CloseDone => if done i then None else Some (LeaveCluster, with_done i)
  | LeaveCluster =>
      match membership i with
      | Some m => Some (ShutdownMembership, with_membership (Membership_Leave (5 * Second) m).2 i)
      | None => Some (StopRPC, i)
      end
  | ShutdownMembership =>
      match membership i with
      | Some m => Some (StopRPC, with_membership (Membership_Shutdown m).2 i)
      | None => Some (StopRPC, i)
      end
  | StopRPC =>
      match itransport i with
      | Some t =>
          match Stop (connOrder (conns t)) t with
          | Some t' => Some (ShutdownLocks, with_transport t' i)
          | None => None
          end
      | None => Some (ShutdownLocks, i)
      end
  | ShutdownLocks =>
      match Lock.Shutdown (lockEngine (cache i)) with
      | Some e => Some (ShutdownBroker, with_cache (set_lockEngine e (cache i)) i)
      | None => None
      end
  | ShutdownBroker =>
      match Pubsub.Shutdown (subOrder (Pubsub.subscriptions (broker i))) (broker i) with
      | Some b => Some (CloseStorage, with_broker b i)
      | None => None
      end
  | CloseStorage => Some (Returned, with_closed_store i)
  | Returned => Some (Returned, i)
  end.

Fixpoint stages (fuel : nat) (s : Stage) i : option (Stage * Instance) :=
  match fuel with
  | O => Some (s, i)
  | Datatypes.S fuel' =>
      match stage s i with
      | Some (s', i') => stages fuel' s' i'
      | None => None
      end
  end.

(** A call that nobody interrupts. *)
Definition Shutdown i : option Instance :=
  match stages 8 Swap i with
  | Some (_, i') => Some i'
  | None => None
  end.

(** ** The sweeper *)

(** What the select of the loop takes: the closed channel [done], or a tick. *)
Inductive Turn := IsDone | Tick (o : Order) (clk : Clock).

(** The goroutine [startSweeper] for some turns; it has returned, or waits. *)
Fixpoint startSweeper (me : string) (turns : list Turn) : M bool :=
  match turns with
  | [] => ret false
  | IsDone :: _ => ret true
  | Tick o clk :: turns' => bind (sweep me o clk) (fun _ => startSweeper me turns')
  end.
End Lifecycle.
#[global] Arguments Stage : clear implicits.
#[export] Instance Stage_eq_dec : EqDecision Stage.
Proof. solve_decision. Defined.

(** Close of the two stores; [db_Close] is that of pebble. *)
Definition MemoryStore_Close (m : MemoryStore) : MemoryStore := m.
Definition PebbleStore_Close {DB : Type} (db_Close : DB -> DB) (p : PebbleStore DB) : PebbleStore DB :=
  MkPebbleStore (db_Close (db p)) (count p) (onEvict p) (onExpire p).

(** ** A node that leaves *)

Section Departure.
Context {S L H F G V T : Type} `{Store S V T} `{Memberlist L} `{LocalHandler H}.
Context (unmarshalMeta : bytes -> NodeMeta).

(** C24: a node that has left is forgotten. On a node with a transport and a coherent
    topology the event that another node has left does not panic; afterwards the
    topology is coherent and the ring has all members but that node, no key is
    routed to it, and the connection to the address that the event reports is closed
    and out of the pool. *)
Theorem departed_node_forgotten (i : Instance S L H F G) t tr now node :
  cluster (cache i) = Some t -> TopologyOk t -> itransport i = Some tr ->
  nName node ≠ NodeName (config (cache i)) -> nName node ≠ "" ->
  let addr := RPCAddr (nodeToInfo unmarshalMeta now node) in
  exists i' t' tr', Membership_NotifyLeave unmarshalMeta now node i = Some i'
    /\ cluster (cache i') = Some t' /\ TopologyOk t' /\ members t'.2 = members t.2 ∖ {[nName node]}
    /\ (forall key, GetNode key t'.2 ≠ nName node)
    /\ itransport i' = Some tr' /\ conns tr' !! addr = None
    /\ forall c w, conns tr !! addr = Some c -> wires tr' !! c = Some w -> isOpen w = false.
Proof.
  intros Hcl Hok Htr Hne Hname addr.
  assert (exists r, RemoveNode (nName node) t.2 = Some r) as [r Hr].
  { destruct (decide (nName node ∈ members t.2)) as [Hin|Hin].
    - destruct (RemoveNode_ok _ _ (topo_ring _ Hok) Hin) as (r & Hr & _). eauto.
    - exists t.2. by apply RemoveNode_old. }
  pose proof (RemoveNode_members _ _ _ (topo_ring _ Hok) Hr) as (Hrok & Hm & _).
  set (t' := (UpdateStatus (nName node) NodeLeft t.1, r)).
  assert (NotifyLeave node t = Some t') as Hl by (unfold NotifyLeave; by rewrite Hr).
  unfold Membership_NotifyLeave. rewrite Hcl, Hl. unfold told. cbn [cache with_cache config set_cluster].
  rewrite (proj2 (String.eqb_neq _ _) Hne). cbn [negb]. unfold OnNodeLeave. cbn [itransport with_cache]. rewrite Htr.
  eexists _, t', _. split_and!; [reflexivity|reflexivity| |exact Hm| |reflexivity| |].
  - by eapply leave_coherent.
  - intros key He. cbn [t' snd] in He. destruct (decide (sortedHashes r = [])) as [Hs|Hs].
    { apply Hname. rewrite <- He. unfold GetNode. by rewrite Hs. }
    destruct (GetNode_owner key r Hrok Hs) as (x & _ & Hx). apply (ring_own r Hrok) in Hx as [Hin _].
    rewrite He, Hm in Hin. set_solver.
  - unfold CloseConnection, closeConn. cbn [RPCAddr set_Status]. fold addr.
    destruct (conns tr !! addr) eqn:Ec; [cbn; apply lookup_delete_eq|done].
  - intros c w Hc Hw. unfold CloseConnection, closeConn in Hw. cbn [RPCAddr set_Status] in Hw. fold addr in Hw. rewrite Hc in Hw.
    cbn in Hw. rewrite list_lookup_alter_eq in Hw. apply fmap_Some in Hw as (w0 & _ & ->). done.
Qed.
End Departure.

(** ** Shutdown by several goroutines *)

Section Shutdowns.
Context {S L H F G V T : Type} `{Store S V T} `{Memberlist L} `{LocalHandler H}.
Context (connOrder : gmap string nat -> list (string * nat)) (subOrder : gmap Z nat -> list (Z * nat)).
Context (Store_Close : S -> S).
Hypothesis subOrder_ok : forall m, subOrder m ≡ₚ map_to_list m.

Abbreviation Instance := (Instance S L H F G).
Abbreviation stage := (stage connOrder subOrder Store_Close).
Implicit Types i : Instance.

Definition rank (s : Stage) : nat :=
  match s with
  | Swap => 0 | CloseDone => 1 | LeaveCluster => 2 | ShutdownMembership => 3 | StopRPC => 4 | ShutdownLocks => 5
  | ShutdownBroker => 6 | CloseStorage => 7 | Returned => 8
  end.

(** A node as New leaves it: nothing is closed. There may be subscriptions. *)
Record fresh i : Prop := {
  fr_closed : closed (cache i) = false;
  fr_done : done i = false;
  fr_transport : forall t, itransport i = Some t -> stopped t = false;
  fr_locks : Lock.done (lockEngine (cache i)) = false;
  fr_store : storeClosed i = false;
  fr_broker : PubsubProofs.BrokerWf (broker i);
}.

Section Group.
(** Leave and Shutdown of memberlist have been called. *)
Context (hasLeft isDown : L -> Prop).
Hypothesis Leave_left : forall d l, hasLeft (ml_Leave d l).2.
Hypothesis Shutdown_left : forall l, hasLeft l -> hasLeft (ml_Shutdown l).2.
Hypothesis Shutdown_down : forall l, isDown (ml_Shutdown l).2.
(** The number of subscriptions made before the first call of Shutdown. *)
Context (early : nat).

(** The early subscriptions are closed. *)
Definition earlyClosed i : Prop :=
  forall p, (p < early)%nat -> exists s, Pubsub.heap (broker i) !! p = Some s /\ Pubsub.closed s = true.

(** What is closed when a Shutdown has come to the step of rank [r]. *)
Record Progress i (r : nat) : Prop := {
  pr_closed : closed (cache i) = (0 <? r)%nat;
  pr_done : done i = (1 <? r)%nat;
  pr_left : (2 < r)%nat -> forall m, membership i = Some m -> hasLeft (mList m);
  pr_down : (3 < r)%nat -> forall m, membership i = Some m -> isDown (mList m);
  pr_transport : forall t, itransport i = Some t -> stopped t = (4 <? r)%nat;
  pr_locks : Lock.done (lockEngine (cache i)) = (5 <? r)%nat;
  pr_subs : (6 < r)%nat -> Z.of_nat (length (Pubsub.heap (broker i))) < 2 ^ 64 -> earlyClosed i;
  pr_store : storeClosed i = (7 <? r)%nat;
  pr_broker : PubsubProofs.BrokerWf (broker i);
  pr_early : (early <= length (Pubsub.heap (broker i)))%nat;
}.

(** Everything else that goes on at the node: it neither shuts anything down nor
    makes a transport or a membership, calls of memberlist are not undone, and a
    subscription stays where it is and is not opened again; there can be new ones. *)
Record others i i' : Prop := {
  ot_closed : closed (cache i') = closed (cache i);
  ot_done : done i' = done i;
  ot_membership : match membership i, membership i' with
    | Some m, Some m' => (hasLeft (mList m) -> hasLeft (mList m')) /\ (isDown (mList m) -> isDown (mList m'))
    | None, None => True
    | _, _ => False
    end;
  ot_transport : forall t', itransport i' = Some t' -> exists t, itransport i = Some t /\ stopped t' = stopped t;
  ot_locks : Lock.done (lockEngine (cache i')) = Lock.done (lockEngine (cache i));
  ot_store : storeClosed i' = storeClosed i;
  ot_broker : PubsubProofs.BrokerWf (broker i');
  ot_subs : forall p s, Pubsub.heap (broker i) !! p = Some s ->
    exists s', Pubsub.heap (broker i') !! p = Some s' /\ (Pubsub.closed s = true -> Pubsub.closed s' = true);
}.

Lemma others_heap i i' : others i i' -> (length (Pubsub.heap (broker i)) <= length (Pubsub.heap (broker i')))%nat.
Proof.
  intros Ho. destruct (length (Pubsub.heap (broker i))) as [|n] eqn:E; [lia|].
  destruct (lookup_lt_is_Some_2 (Pubsub.heap (broker i)) n) as [s Hs]; [lia|].
  destruct (ot_subs _ _ Ho n s Hs) as (s' & Hs' & _). apply lookup_lt_Some in Hs'. lia.
Qed.

Lemma others_progress i i' r : others i i' -> Progress i r -> Progress i' r.
Proof.
  intros Ho [P1 P2 PL PD P3 P4 PS P5 P6 PE]. pose proof (others_heap i i' Ho) as Hh. destruct Ho as [Hc Hd Hm Ht Hl Hs Hb Hsub].
  split; [congruence|congruence| | | |congruence| |congruence|done|lia].
  - intros Hr m' Hm'. rewrite Hm' in Hm. destruct (membership i) as [m|]; [|done]. apply Hm. by apply PL.
  - intros Hr m' Hm'. rewrite Hm' in Hm. destruct (membership i) as [m|]; [|done]. apply Hm. by apply PD.
  - intros t' Ht'. destruct (Ht t' Ht') as (t & Hi & ->). auto.
  - intros Hr Hlen p Hp. destruct (PS Hr ltac:(lia) p Hp) as (x & Hx & Hcl). destruct (Hsub p x Hx) as (x' & Hx' & Hc'). eauto.
Qed.

(** Shutdown of the broker closes the subscriptions there are. *)
Lemma broker_progress i : Progress i 6 ->
  exists b, Pubsub.Shutdown (subOrder (Pubsub.subscriptions (broker i))) (broker i) = Some b /\ Progress (with_broker b i) 7.
Proof.
  intros [P1 P2 PL PD P3 P4 PS P5 P6 PE].
  destruct (PubsubProofs.shutdownLoop_ok (subOrder (Pubsub.subscriptions (broker i))) (broker i) P6 (subOrder_ok _))
    as (b' & Hb & Hwf & Hempty & Hlen & _). exists b'. split; [exact Hb|].
  split; try done; cbn [broker with_broker] in *; [intros _ m Hm; apply PL; [lia|exact Hm]|intros _ m Hm; apply PD; [lia|exact Hm]| |lia].
  intros _ Hlt p Hp. destruct (lookup_lt_is_Some_2 (Pubsub.heap b') p) as [x Hx]; [lia|]. exists x. split; [exact Hx|].
  destruct (Pubsub.closed x) eqn:Hc; [done|]. pose proof (PubsubProofs.wf_open b' Hwf Hlt p x Hx Hc) as Hin.
  by rewrite Hempty in Hin.
Qed.

(** The goroutine whose turn it is gets on, and nobody panics. *)
Lemma stage_progress s i : Progress i (rank s) -> (rank s < 8)%nat ->
  exists s' i', stage s i = Some (s', i') /\ Progress i' (rank s') /\ (rank s < rank s')%nat.
Proof.
  intros Hp Hlt. destruct (decide (s = ShutdownBroker)) as [->|Hs].
  { destruct (broker_progress i Hp) as (b & Hb & Hp'). cbn [stage]. rewrite Hb. eexists _, _. split; [reflexivity|].
    split; [exact Hp'|cbn; lia]. }
  pose proof Hp as [P1 P2 PL PD P3 P4 PS P5 P6 PE]. destruct s; cbn in *; [| | | | | |done| |lia].
  - rewrite P1. eexists _, _. split; [reflexivity|]. split; [by split; try (cbn; lia)|cbn; lia].
  - rewrite P2. eexists _, _. split; [reflexivity|]. split; [by split; try (cbn; lia)|cbn; lia].
  - destruct (membership i) as [m|] eqn:Em; eexists _, _; (split; [reflexivity|]); (split; [|cbn; lia]); split; try done; try (cbn; lia); cbn.
    + intros _ m' [= <-]. unfold Membership_Leave. pose proof (Leave_left (5 * Second) (mList m)) as Hl.
      by destruct (ml_Leave (5 * Second) (mList m)).
    + by rewrite Em.
    + by rewrite Em.
  - destruct (membership i) as [m|] eqn:Em; eexists _, _; (split; [reflexivity|]); (split; [|cbn; lia]); split; try done; try (cbn; lia); cbn.
    + intros _ m' [= <-]. unfold Membership_Shutdown. pose proof (Shutdown_left (mList m) ltac:(apply PL; [lia|done])) as Hl.
      by destruct (ml_Shutdown (mList m)).
    + intros _ m' [= <-]. unfold Membership_Shutdown. pose proof (Shutdown_down (mList m)) as Hl.
      by destruct (ml_Shutdown (mList m)).
    + by rewrite Em.
    + by rewrite Em.
  - destruct (itransport i) as [t|] eqn:Et.
    + unfold Stop. rewrite (P3 t eq_refl). eexists _, _. split; [reflexivity|]. split; [|cbn; lia].
      split; try done; cbn; try lia; [intros _; apply PL; lia|intros _; apply PD; lia|]. intros ? [= <-]. by destruct (stopLoop_spec (connOrder (conns t))
        (MkTCPTransport (conns t) ((fun _ => false) <$> listener t) (timeout t) true (wires t) (remotes t)))
        as (_ & _ & -> & _).
    + eexists _, _. split; [reflexivity|]. split; [|cbn; lia]. split; try done; cbn; try lia; [intros _; apply PL; lia|intros _; apply PD; lia|by rewrite Et].
  - unfold Lock.Shutdown. rewrite P4. eexists _, _. split; [reflexivity|].
    split; [split; try done; cbn; try lia; [intros _; apply PL; lia|intros _; apply PD; lia]|cbn; lia].
  - eexists _, _. split; [reflexivity|]. split; [|cbn; lia].
    split; try done; cbn; [intros _; apply PL; lia|intros _; apply PD; lia|]. intros _. apply PS. lia.
Qed.

(** The goroutines that have called Shutdown, where each of them is, and which
    steps which of them has taken. *)
Record Group := MkGroup {
  node : Instance;
  callers : gmap nat Stage;
  taken : list (nat * Stage);
}.

Inductive group_step : Group -> Group -> Prop :=
  | gs_call i cs tr k : cs !! k = None -> group_step (MkGroup i cs tr) (MkGroup i (<[k := Swap]> cs) tr)
  | gs_step i cs tr k s s' i' :
      cs !! k = Some s -> s ≠ Returned -> stage s i = Some (s', i') ->
      group_step (MkGroup i cs tr) (MkGroup i' (<[k := s']> cs) (tr ++ [(k, s)]))
  | gs_others i cs tr i' : others i i' -> group_step (MkGroup i cs tr) (MkGroup i' cs tr).

(** The steps after the swap, in their order; [Shutdown] of membership is skipped
    when there is none. *)
Definition chain (member : bool) : list Stage :=
  CloseDone :: LeaveCluster :: (if member then [ShutdownMembership] else [])
  ++ [StopRPC; ShutdownLocks; ShutdownBroker; CloseStorage].

Definition clustered i : bool := match membership i with Some _ => true | None => false end.

(** The work that was done: the steps other than the swap. *)
Definition work (tr : list (nat * Stage)) : list (nat * Stage) := filter (fun x => x.2 ≠ Swap) tr.

(** One goroutine at most is between the swap and its return; what it has closed is
    closed, and it has taken every step before the one where it is, once. *)
Record GroupOk (g : Group) (r : nat) : Prop := {
  go_progress : Progress (node g) r;
  go_le : (r <= 8)%nat;
  go_all : forall k s, callers g !! k = Some s -> s = Swap \/ (s = Returned /\ (0 < r)%nat) \/ ((0 < r < 8)%nat /\ rank s = r);
  go_one : forall k k' s s', callers g !! k = Some s -> callers g !! k' = Some s' ->
    (0 < rank s < 8)%nat -> (0 < rank s' < 8)%nat -> k = k';
  go_work : exists k, work (taken g) = (fun s => (k, s)) <$> filter (fun s => (rank s < r)%nat) (chain (clustered (node g)))
    /\ ((0 < r < 8)%nat -> exists s, callers g !! k = Some s /\ rank s = r);
  go_member : r = 3%nat -> clustered (node g) = true;
}.

Lemma rank_le s : (rank s <= 8)%nat.
Proof. destruct s; cbn; lia. Qed.

Lemma rank_Returned s : rank s = 8%nat -> s = Returned.
Proof. by destruct s. Qed.

Lemma stage_clustered s i s' i' : stage s i = Some (s', i') -> clustered i' = clustered i.
Proof.
  unfold clustered. destruct s; cbn [stage]; intros Hs; repeat case_match; simplify_eq; cbn in *; simplify_eq; congruence || done.
Qed.

(** A step adds itself to the work. *)
Lemma chain_step s i s' i' : s ≠ Swap -> s ≠ Returned -> (s = ShutdownMembership -> clustered i = true) -> stage s i = Some (s', i') ->
  filter (fun x => (rank x < rank s')%nat) (chain (clustered i)) = filter (fun x => (rank x < rank s)%nat) (chain (clustered i)) ++ [s].
Proof.
  unfold clustered. intros Hns Hnr Hm. destruct s; cbn [stage]; intros Hs; repeat case_match; simplify_eq; try done.
  by specialize (Hm eq_refl).
Qed.

Lemma stage_member s i s' i' : stage s i = Some (s', i') -> s ≠ Returned -> rank s' = 3%nat -> clustered i' = true.
Proof.
  intros Hs Hne Hr. rewrite (stage_clustered _ _ _ _ Hs). unfold clustered.
  destruct s; cbn [stage] in Hs; repeat case_match; simplify_eq; done.
Qed.

Lemma work_app tr k s : work (tr ++ [(k, s)]) = work tr ++ if decide (s = Swap) then [] else [(k, s)].
Proof. unfold work. rewrite filter_app, filter_cons. cbn [snd]. repeat case_decide; done. Qed.

(** The goroutine at the front takes its step. *)
Lemma group_front i cs tr k s s' i' : GroupOk (MkGroup i cs tr) (rank s) -> (rank s < 8)%nat ->
  cs !! k = Some s -> (forall k' t, cs !! k' = Some t -> k' ≠ k -> t = Swap \/ t = Returned /\ (0 < rank s)%nat) ->
  stage s i = Some (s', i') -> GroupOk (MkGroup i' (<[k := s']> cs) (tr ++ [(k, s)])) (rank s').
Proof.
  intros [Hp _ Hall Huniq (k0 & Hw & Hex) Hm] Hr Hk Hothers Hst. cbn [node callers taken] in *.
  destruct (stage_progress s i Hp Hr) as (s1 & i1 & Hst1 & Hp1 & Hlt).
  rewrite Hst in Hst1. injection Hst1 as <- <-. pose proof (rank_le s') as Hle.
  assert (s ≠ Returned) as Hnr by (intros ->; cbn in Hr; lia). split; cbn [node callers taken]; [done|done| | | |].
  - intros k' t. intros [[<- <-]|[Hne Ht]]%lookup_insert_Some.
    + destruct (decide (rank s' = 8%nat)) as [He|He]; [|right; right; lia].
      apply rank_Returned in He as ->. right. left. split; [done|cbn; lia].
    + destruct (Hothers k' t Ht ltac:(done)) as [->|[-> ?]]; [by left|right; left; split; [done|lia]].
  - intros k1 k2 t1 t2 E1 E2 R1 R2. apply lookup_insert_Some in E1, E2.
    destruct E1 as [[<- <-]|[Hne1 E1]], E2 as [[<- <-]|[Hne2 E2]]; [done|..].
    + destruct (Hothers k2 t2 E2 ltac:(done)) as [->|[-> _]]; cbn in R2; lia.
    + destruct (Hothers k1 t1 E1 ltac:(done)) as [->|[-> _]]; cbn in R1; lia.
    + destruct (Hothers k2 t2 E2 ltac:(done)) as [->|[-> _]]; cbn in R2; lia.
  - exists k. split; [|intros _; exists s'; by rewrite lookup_insert_eq]. rewrite work_app, (stage_clustered _ _ _ _ Hst), Hw.
    case_decide as Hs.
    + subst s. rewrite app_nil_r. cbn [rank] in *. cbn [stage] in Hst. destruct (closed (cache i)) eqn:Hc.
      * rewrite (pr_closed _ _ Hp) in Hc. discriminate Hc.
      * injection Hst as <- _. unfold clustered. by destruct (membership i).
    + assert (k0 = k) as ->.
      { destruct Hex as (x & Hx & Hrx); [destruct s; cbn in Hr |- *; lia || done|].
        eapply Huniq; [exact Hx|exact Hk| |]; destruct s; cbn in *; lia || done. }
      rewrite (chain_step s i s' i'), fmap_app by (done || (intros ->; by apply Hm)). done.
  - by apply (stage_member s i s' i').
Qed.

(** A goroutine that comes too late returns. *)
Lemma group_late i cs tr k r : GroupOk (MkGroup i cs tr) r -> (0 < r)%nat -> cs !! k = Some Swap ->
  GroupOk (MkGroup i (<[k := Returned]> cs) (tr ++ [(k, Swap)])) r.
Proof.
  intros [Hp Hle Hall Huniq (k0 & Hw & Hex) Hm] Hr Hk. cbn [node callers taken] in *.
  split; cbn [node callers taken]; [done|done| | | |done].
  - intros k' t [[<- <-]|[_ Ht]]%lookup_insert_Some; [by right; left|by apply (Hall k')].
  - intros k1 k2 t1 t2 E1 E2 R1 R2. apply lookup_insert_Some in E1, E2.
    destruct E1 as [[<- <-]|[_ E1]]; [cbn in R1; lia|]. destruct E2 as [[<- <-]|[_ E2]]; [cbn in R2; lia|].
    by eapply Huniq.
  - exists k0. rewrite work_app, decide_True, app_nil_r by done. split; [exact Hw|].
    intros Hrr. destruct (Hex Hrr) as (t & Ht & Hrk). exists t. split; [|done].
    rewrite lookup_insert_ne; [done|]. intros <-. rewrite Hk in Ht. injection Ht as <-. cbn in Hrk. lia.
Qed.

Lemma group_step_ok g g' r : GroupOk g r -> group_step g g' -> exists r', GroupOk g' r'.
Proof.
  intros Hg Hs. pose proof Hg as [Hp Hle Hall Huniq (k0 & Hw & Hex) Hm].
  destruct Hs as [i cs tr k Hk|i cs tr k s s' i' Hk Hne Hst|i cs tr i' Ho]; cbn [node callers taken] in *.
  - exists r. split; cbn [node callers taken]; [done|done| | | |done].
    + intros k' t [[<- <-]|[Hne Ht]]%lookup_insert_Some; [by left|by apply (Hall k')].
    + intros k1 k2 t1 t2 E1 E2 R1 R2. apply lookup_insert_Some in E1, E2.
      destruct E1 as [[<- <-]|[_ E1]]; [cbn in R1; lia|]. destruct E2 as [[<- <-]|[_ E2]]; [cbn in R2; lia|].
      by eapply Huniq.
    + exists k0. split; [exact Hw|]. intros (t & Ht & Hrk)%Hex. exists t. split; [|done]. rewrite lookup_insert_ne by congruence. done.
  - destruct (Hall k s Hk) as [->|[[-> _]|[Hlt He]]]; [|done|].
    + destruct (decide (r = 0%nat)) as [->|Hr0].
      { eexists. eapply (group_front i cs tr k Swap); try done; [cbn; lia|]. intros k' t Ht _.
        destruct (Hall k' t Ht) as [?|[[_ ?]|[? _]]]; [by left|lia|lia]. }
      cbn in Hst. rewrite (pr_closed _ _ Hp), (proj2 (Nat.ltb_lt 0 r)) in Hst by lia. injection Hst as <- <-.
      exists r. by apply group_late; [|lia|].
    + subst r. eexists. eapply (group_front i cs tr k s); try done; [lia|]. intros k' t Ht Hk'.
      destruct (Hall k' t Ht) as [->|[[-> ?]|[_ Hrk]]]; [by left|by right|]. destruct Hk'. eapply Huniq; [done|done|lia|lia].
  - exists r. assert (clustered i' = clustered i) as Hcl.
    { pose proof (ot_membership _ _ Ho) as Hmm. unfold clustered. by destruct (membership i), (membership i'). }
    split; cbn [node callers taken]; rewrite ?Hcl; try done; [by eapply others_progress|by exists k0].
Qed.

Lemma group_reachable_ok g g' r : GroupOk g r -> rtc group_step g g' -> exists r', GroupOk g' r'.
Proof.
  intros Hg Hr. revert r Hg. induction Hr as [g|g g1 g2 Hs _ IH]; intros r Hg; [by exists r|].
  destruct (group_step_ok g g1 r Hg Hs) as [r1 Hg1]. by eapply IH.
Qed.
End Group.

(** C33: any number of goroutines may call Shutdown of a node that is open, at any time
    and while the node works on. Nobody panics. When all of them have returned, one
    of them, and only it, has taken each step of Shutdown after the swap exactly
    once and in order; and [done], the transport, the lock engine and the store are
    closed, memberlist has been told to leave and to shut down, and every
    subscription made before the first call is closed. *)
Theorem shutdown_once (hasLeft isDown : L -> Prop) i0 g :
  (forall d l, hasLeft (ml_Leave d l).2) -> (forall l, hasLeft l -> hasLeft (ml_Shutdown l).2) ->
  (forall l, isDown (ml_Shutdown l).2) ->
  fresh i0 -> rtc (group_step hasLeft isDown) (MkGroup i0 ∅ []) g ->
  (forall k s, callers g !! k = Some s -> stage s (node g) ≠ None)
  /\ (callers g ≠ ∅ -> (forall k s, callers g !! k = Some s -> s = Returned) ->
      (exists k, work (taken g) = (fun s => (k, s)) <$> chain (clustered (node g)))
      /\ closed (cache (node g)) = true /\ done (node g) = true
      /\ (forall m, membership (node g) = Some m -> hasLeft (mList m) /\ isDown (mList m))
      /\ (forall t, itransport (node g) = Some t -> stopped t = true)
      /\ Lock.done (lockEngine (cache (node g))) = true
      /\ (Z.of_nat (length (Pubsub.heap (broker (node g)))) < 2 ^ 64 ->
          forall p s, Pubsub.heap (broker i0) !! p = Some s ->
            exists s', Pubsub.heap (broker (node g)) !! p = Some s' /\ Pubsub.closed s' = true)
      /\ storeClosed (node g) = true).
Proof.
  intros HL HLS HD Hf Hr. set (early := length (Pubsub.heap (broker i0))).
  destruct (group_reachable_ok hasLeft isDown HL HLS HD early (MkGroup i0 ∅ []) g 0) as [r [Hp Hle Hall _ (k0 & Hw & Hex) _]]; [|exact Hr|].
  { destruct Hf. split; cbn; [split; try done; lia|lia|done|done|exists 0%nat; split; [by destruct (clustered i0)|lia]|done]. }
  split.
  - intros k s Hk. destruct (Hall k s Hk) as [->|[[-> _]|[Hlt He]]]; [|done|].
    + cbn. by destruct (closed (cache (node g))).
    + subst r. destruct (stage_progress hasLeft isDown HL HLS HD early s (node g) Hp) as (? & ? & -> & _); [lia|done].
  - intros Hne Hret. apply map_choose in Hne as (k & s & Hk). pose proof (Hret k s Hk) as ->.
    destruct (Hall k _ Hk) as [?|[[_ Hpos]|[Hlt He]]]; [done| |cbn in He; lia].
    assert (r = 8%nat) as ->.
    { destruct (decide (r < 8)%nat) as [Hlt|]; [|lia]. destruct (Hex ltac:(lia)) as (t & Ht & Hrk).
      pose proof (Hret k0 t Ht) as ->. cbn in Hrk. lia. }
    destruct Hp. split_and!; [|done|done|intros m Hm; split; [apply pr_left0|apply pr_down0]; done || lia|done|done| |done].
    + exists k0. rewrite Hw. by destruct (clustered (node g)).
    + intros Hlen p s Hs. apply pr_subs0; [lia|done|]. by eapply lookup_lt_Some.
Qed.

Hypothesis connOrder_ok : forall m, connOrder m ≡ₚ map_to_list m.

Abbreviation Shutdown := (Shutdown connOrder subOrder Store_Close).

(** The node after [i] has shut down: [m], [t] and [b] are what is left of the
    parts. *)
Lemma Shutdown_run i : fresh i ->
  exists m t b, Shutdown i = Some (MkInstance
      (set_store (Store_Close (store (cache i)))
        (set_lockEngine (Lock.MkEngine (Lock.locks (lockEngine (cache i))) (Lock.fencingSeq (lockEngine (cache i))) true)
          (set_closed true (cache i)))) true m t b true)
    /\ match itransport i with
       | Some t0 => exists t1, t = Some t1 /\ Stop (connOrder (conns t0)) t0 = Some t1
       | None => t = None
       end
    /\ Pubsub.Shutdown (subOrder (Pubsub.subscriptions (broker i))) (broker i) = Some b.
Proof.
  intros [P1 P2 P3 P4 P5 P6].
  destruct (PubsubProofs.shutdownLoop_ok (subOrder (Pubsub.subscriptions (broker i))) (broker i) P6 (subOrder_ok _))
    as (b' & Hb & _). change (Pubsub.shutdownLoop ?x ?y) with (Pubsub.Shutdown x y) in Hb.
  destruct i as [[st cfg cl top [lk fs ld] tg pd] dn m t b sc]. cbn in P1, P2, P3, P4, Hb. subst cl dn ld.
  unfold Shutdown. destruct m as [m|], t as [t|]; cbn -[Pubsub.Shutdown Stop].
  1, 3: unfold Stop; rewrite (P3 t eq_refl); cbn -[Pubsub.Shutdown].
  all: rewrite Hb; eexists _, _, _; split; eauto.
Qed.

(** What Shutdown leaves of a node: every operation is refused from then on,
    the pool of connections is empty and the listener closed, no subscription is
    left, the lock engine's goroutine is told to stop and the store is closed; a
    second Shutdown changes nothing. *)
Theorem shutdown_releases i : fresh i ->
  exists i', Shutdown i = Some i'
    /\ closed (cache i') = true /\ done i' = true
    /\ (forall t, itransport i' = Some t -> conns t = ∅ /\ listener t ≠ Some true)
    /\ Lock.done (lockEngine (cache i')) = true /\ Pubsub.subscriptions (broker i') = ∅ /\ storeClosed i' = true
    /\ Shutdown i' = Some i'.
Proof.
  intros Hf. destruct (Shutdown_run i Hf) as (m & t & b & Hs & Ht & Hb). eexists. split; [exact Hs|].
  split_and!; try done.
  - cbn. intros t1 ->. destruct (itransport i) as [t0|]; [|done]. destruct Ht as (? & [= <-] & Hstop).
    destruct (stop_releases (connOrder (conns t0)) t0 t1 (connOrder_ok _) Hstop) as (Hc & Hl & _). done.
  - destruct (PubsubProofs.shutdownLoop_ok (subOrder (Pubsub.subscriptions (broker i))) (broker i)
      (fr_broker _ Hf) (subOrder_ok _)) as (b' & Hb' & _ & He & _).
    unfold Pubsub.Shutdown in Hb. rewrite Hb in Hb'. by injection Hb' as ->.
Qed.
End Shutdowns.

(** ** After Shutdown *)

Section After.
Context {S L H F G V T : Type} `{StoreLaws S V T} `{Memberlist L} `{LocalHandler H}.
Context (connOrder : gmap string nat -> list (string * nat)) (subOrder : gmap Z nat -> list (Z * nat)).
Context (Store_Close : S -> S).
Hypothesis subOrder_ok : forall m, subOrder m ≡ₚ map_to_list m.

(** Peers outlive Shutdown. Stop closes the listener and the connections this
    node has dialed; the goroutines that serve connections it has accepted go on,
    and the handlers they call do not ask whether the cache is closed. So a peer
    with a connection still writes to the store, after it was closed, and is told
    that it succeeded, while the node's own Set is refused. *)
Theorem peers_outlive_shutdown (i i' : Instance S L H F G) key data ttl random clk :
  fresh i -> Shutdown connOrder subOrder Store_Close i = Some i' ->
  store_ok (Store_Close (store (cache i))) -> ClockOk clk ->
  admits (Store_Close (store (cache i))) key data ttl clk ->
  storeClosed i' = true
  /\ (forall order me value w, hosts (net w) !! me = Some (cache i') -> key ≠ "" ->
        Cache_Set order me key value ttl clk w = Some (Err ErrShutdown, w))
  /\ exists c', serveConn [(Some (setRequest key data ttl []), true)] random clk (cache i')
        = Some ([MkResponse [] ∅ false true 0 "" 0 false ""], c')
      /\ SetAt (cache i') c' key data ttl clk.
Proof.
  intros Hf Hs Hok Hclk Had. destruct (Shutdown_run connOrder subOrder Store_Close subOrder_ok i Hf) as (m & t & b & Hs' & _).
  rewrite Hs in Hs'. injection Hs' as ->. split_and!; [done| |].
  - intros order me value w Hw Hk. unfold Cache_Set, bind at 1, this. rewrite Hw.
    by rewrite (proj2 (String.eqb_neq key "") Hk).
  - set (c := cache _). destruct (evicting_SetAt c key data ttl clk) as (cs & s' & Hset & Hat); try done.
    eexists. cbn [serveConn]. unfold processRequest, setRequest. cbn. cbn in Hset. rewrite Hset.
    split; [reflexivity|exact Hat].
Qed.
End After.

(** ** One turn of the sweeper over a memory store *)

Section Sweeping.
Context {V T : Type} `{Msgpack V T}.

Lemma expireAll_spec me expired (w : World (S := MemoryStore)) c : hosts (net w) !! me = Some c ->
  exists c', expireAll me expired w
      = Some (tt, MkWorld (put_host me c' (net w)) (log w ++ ((fun x => Publish EventExpire x.1 x.2) <$> expired)))
    /\ store c' = store c /\ (forall k t, has_tag (tags c') k t <-> has_tag (tags c) k t /\ k ∉ expired.*1).
Proof.
  revert w c. induction expired as [|[key value] expired IH]; intros w c Hc.
  { exists c. split_and!; [|done|set_solver]. cbn. rewrite app_nil_r. unfold ret, put_host. rewrite insert_id by done.
    by destruct w as [[? ? ?] ?]. }
  set (c1 := set_tags (tagIndex_Remove key (tags c)) c).
  destruct (IH (MkWorld (put_host me c1 (net w)) (log w ++ [Publish EventExpire key value])) c1) as (c' & He & Hs & Ht).
  { cbn [net]. by rewrite put_host_lookup, decide_True. }
  exists c'. split_and!; [|done|].
  - cbn [expireAll]. unfold expireCallback, tagsRemove, bind, emit, this, put, bind. cbn [net log]. rewrite Hc. fold c1.
    cbn [net log]. rewrite He. cbn [net log fmap list_fmap]. rewrite <- app_assoc. do 2 f_equal.
    unfold put_host. cbn. by rewrite insert_insert_eq.
  - intros k t. rewrite Ht. cbn [tags c1 set_tags]. rewrite has_tag_Remove. set_solver.
Qed.

(** C34: a tick of the sweeper over a memory store, with the callbacks New installs:
    afterwards the store has exactly the entries that were live at the time their
    shard was swept; an expiry event with its value has been published for each of
    the others, once; and exactly the keys of these are out of the tag index. The
    sweeper ends once [done] is closed. *)
Theorem sweeper_clears max (w : World (S := MemoryStore)) me c orders clk :
  hosts (net w) !! me = Some c -> MemoryStoreOk max (store c) -> reporting (store c) ->
  orders_ok orders (shards (store c)) ->
  let swept k := clk (shardIndex (store c) k) in
  exists w' c' expired, startSweeper me [Tick orders clk; IsDone] w = Some (true, w')
    /\ hosts (net w') !! me = Some c'
    /\ (forall k, mview (store c') k = live_at (swept k) (mview (store c) k))
    /\ log w' = log w ++ ((fun x => Publish EventExpire x.1 x.2) <$> expired)
    /\ NoDup expired.*1
    /\ (forall k v, (k, v) ∈ expired <-> exists x, mview (store c) k = Some (v, x) /\ live_at (swept k) (mview (store c) k) = None)
    /\ forall k t, has_tag (tags c') k t <->
         has_tag (tags c) k t /\ (mview (store c) k = None \/ is_Some (live_at (swept k) (mview (store c) k))).
Proof.
  intros Hc Hok Hon Ho swept. destruct (MemoryStore_DeleteExpired orders clk (store c)) as [[total cs] s'] eqn:E.
  destruct (memory_sweep_exact max (store c) orders clk total cs s' Hok Ho E) as [Hv _].
  destruct (memory_sweep_reports max (store c) orders clk total cs s' Hok Hon Ho E) as [Hnd Hrep].
  destruct (expireAll_spec me cs (MkWorld (put_host me (set_store s' c) (net w)) (log w)) (set_store s' c))
    as (c' & He & Hs & Ht).
  { cbn [net]. by rewrite put_host_lookup, decide_True. }
  eexists _, c', cs. split_and!.
  - cbn [startSweeper]. unfold sweep, withStore, bind, this, put, ret. rewrite Hc. cbn [Store_DeleteExpired MemoryStore_Store].
    rewrite E. rewrite He. reflexivity.
  - cbn [net]. by rewrite put_host_lookup, decide_True.
  - intros k. rewrite Hs. exact (Hv k).
  - done.
  - exact Hnd.
  - exact Hrep.
  - intros k t. rewrite Ht. apply and_iff_compat_l. split.
    + intros Hk. destruct (live_at (swept k) (mview (store c) k)) as [b|] eqn:El; [by right|]. left.
      destruct (mview (store c) k) as [[v x]|] eqn:Em; [|done]. destruct Hk. apply list_elem_of_fmap. exists (k, v).
      split; [done|]. apply Hrep. exists x. by rewrite Em.
    + intros Hk ([k1 v] & -> & (x & Hx & Hl)%Hrep)%list_elem_of_fmap. cbn [fst] in Hk. unfold swept in Hk. rewrite Hl, Hx in Hk. by destruct Hk as [?|[? ?]].
Qed.
End Sweeping.

(** ** Witnesses *)

#[local] Existing Instance tagged_msgpack.
#[local] Existing Instance w_laws.

(** A memberlist that knows whether Leave and Shutdown were called. *)
#[local] Instance w_memberlist : Memberlist (bool * bool) :=
  {| ml_Leave _ l := (None, (true, l.2)); ml_Shutdown l := (None, (l.1, true)); ml_Members _ := [] |}.

(** A node with a peer and a subscription. *)
Definition w_instance : Instance MemoryStore (bool * bool) (Cache MemoryStore) unit unit :=
  MkInstance (w_mode Partitioned (Some w_ta)) false
    (Some (MkMembership (false, false) (MkMemberConfig "a" "10.0.0.1" 7946 [] 7947 6380) []))
    (Some (MkTCPTransport {["10.0.0.2:7947" := 0%nat]} (Some true) (5 * Second) false
             [MkConn "10.0.0.2:7947" [] [] true] ∅)) (Pubsub.Subscribe "user:*" Pubsub.NewBroker).2 false.

Lemma w_instance_fresh : fresh w_instance.
Proof.
  split; try reflexivity; [by intros t [= <-]|]. apply PubsubProofs.subscribe_wf. split; cbn; done.
Qed.

Abbreviation w_stage := (stage map_to_list map_to_list (fun s : MemoryStore => s)).
Abbreviation w_group_step := (group_step map_to_list map_to_list (fun s : MemoryStore => s)
  (fun l : bool * bool => l.1 = true) (fun l : bool * bool => l.2 = true)).

(** The caller [k] takes a step. *)
Definition w_turn (g : Group (S := MemoryStore) (L := bool * bool) (H := Cache MemoryStore) (F := unit) (G := unit)) (k : nat)
  : Group (S := MemoryStore) (L := bool * bool) (H := Cache MemoryStore) (F := unit) (G := unit) :=
  match callers g !! k with
  | Some s =>
      match w_stage s (node g) with
      | Some (s', i') => MkGroup i' (<[k := s']> (callers g)) (taken g ++ [(k, s)])
      | None => g
      end
  | None => MkGroup (node g) (<[k := Swap]> (callers g)) (taken g)
  end.

Lemma w_turn_step g k : (forall s, callers g !! k = Some s -> s ≠ Returned /\ w_stage s (node g) ≠ None) -> w_group_step g (w_turn g k).
Proof.
  intros Hg. destruct g as [i cs tr]. unfold w_turn. cbn [callers node taken] in *. destruct (cs !! k) as [s|] eqn:E; [|by apply gs_call].
  destruct (Hg s eq_refl) as [Hne Hst]. destruct (w_stage s i) as [[s' i']|] eqn:Es; [|done]. by apply gs_step.
Qed.

(** Two goroutines call Shutdown; the first is at work when the second asks whether
    the cache is closed. *)
Definition w_turns : list nat := [0; 1; 0; 0; 1; 0; 0; 0; 0; 0; 0]%nat.

Lemma shutdown_once_witness :
  exists g, rtc w_group_step (MkGroup w_instance ∅ []) g
    /\ callers g = {[0%nat := Returned; 1%nat := Returned]}
    /\ membership (node g) = Some (MkMembership (true, true) (MkMemberConfig "a" "10.0.0.1" 7946 [] 7947 6380) [])
    /\ storeClosed (node g) = true
    /\ exists s, Pubsub.heap (broker (node g)) !! 0%nat = Some s /\ Pubsub.closed s = true.
Proof.
  exists (foldl w_turn (MkGroup w_instance ∅ []) w_turns). assert (rtc w_group_step (MkGroup w_instance ∅ []) (foldl w_turn (MkGroup w_instance ∅ []) w_turns)) as Hr.
  { cbn [foldl w_turns]. repeat (eapply rtc_r; [|apply w_turn_step; vm_compute; intros s Hs; try discriminate Hs; injection Hs as <-; split; discriminate]).
    apply rtc_refl. }
  destruct (shutdown_once map_to_list map_to_list (fun s : MemoryStore => s) ltac:(done) (fun l : bool * bool => l.1 = true) (fun l : bool * bool => l.2 = true)
    w_instance _ ltac:(done) ltac:(done) ltac:(done) w_instance_fresh Hr) as [_ Hend].
  split; [exact Hr|]. assert (callers (foldl w_turn (MkGroup w_instance ∅ []) w_turns) = {[0%nat := Returned; 1%nat := Returned]}) as Hc by by vm_compute.
  rewrite Hc in Hend |- *. destruct Hend as (_ & _ & _ & _ & _ & _ & Hsub & Hst); [by vm_compute| |].
  { intros k s [[_ <-]|[_ [_ <-]%lookup_singleton_Some]]%lookup_insert_Some; done. }
  split; [reflexivity|]. split; [by vm_compute|]. split; [exact Hst|].
  eapply (Hsub ltac:(by vm_compute) 0%nat). reflexivity.
Defined.

Lemma shutdown_releases_witness :
  exists i', Shutdown map_to_list map_to_list (fun s => s) w_instance = Some i' /\ storeClosed i' = true.
Proof.
  destruct (shutdown_releases map_to_list map_to_list (fun s => s) ltac:(done) ltac:(done) w_instance w_instance_fresh)
    as (i' & Hs & _ & _ & _ & _ & _ & Hst & _). by exists i'.
Defined.

Lemma peers_outlive_shutdown_witness :
  match Shutdown map_to_list map_to_list (fun s => s) w_instance with
  | Some i' => exists c', serveConn [(Some (setRequest "k" [Byte.x01] Second []), true)] [] w_clock (cache i')
        = Some ([MkResponse [] ∅ false true 0 "" 0 false ""], c')
  | None => False
  end.
Proof.
  destruct (Shutdown _ _ _ w_instance) as [i'|] eqn:E; [|vm_compute in E; discriminate E].
  destruct (peers_outlive_shutdown map_to_list map_to_list (fun s => s) ltac:(done) w_instance i' "k" [Byte.x01] Second [] w_clock
    w_instance_fresh E w_store_ok w_clock_ok) as (_ & _ & c' & Hs & _); [by apply w_fits; try exact w_store_ok|].
  exists c'. exact Hs.
Defined.

Lemma departed_node_forgotten_witness :
  exists i', Membership_NotifyLeave w_meta 0 (w_join "b" "10.0.0.2") w_instance = Some i'
    /\ forall key t', cluster (cache i') = Some t' -> GetNode key t'.2 ≠ "b".
Proof.
  destruct (departed_node_forgotten w_meta w_instance w_ta
    (MkTCPTransport {["10.0.0.2:7947" := 0%nat]} (Some true) (5 * Second) false [MkConn "10.0.0.2:7947" [] [] true] ∅)
    0 (w_join "b" "10.0.0.2")) as (i' & t' & tr' & Hn & Hc & _ & _ & Hg & _);
    [reflexivity|exact w_ta_ok|reflexivity|discriminate|discriminate|].
  exists i'. split; [exact Hn|]. intros key t'' Ht. rewrite Hc in Ht. injection Ht as <-. apply Hg.
Defined.

(** Of two entries, one of which has a tag and has expired, a sweep keeps the other. *)
Definition w_sweep_new : MemoryStore := MemoryStore_SetOnExpire true (MemoryStore_SetOnEvict true (NewMemoryStore 1 1000)).
Definition w_sweep_old : MemoryStore := default w_sweep_new (snd <$> MemoryStore_Set "old" [Byte.x01] 1 w_clock w_sweep_new).
Definition w_sweep_store : MemoryStore := default w_sweep_new (snd <$> MemoryStore_Set "new" [Byte.x02] (60 * Second) w_clock w_sweep_old).
Definition w_sweep_cache : Cache MemoryStore :=
  MkCache w_sweep_store DefaultConfig false None Lock.NewEngine (tagIndex_Add "old" ["t"] newTagIndex) [].
Definition w_sweep_world : World (S := MemoryStore) := MkWorld (MkNetwork {["" := w_sweep_cache]} (fun _ => None) (fun _ => [])) [].
Definition w_sweep_clock : Clock := frozen (w_clock 0%nat + Second).

Lemma w_sweep_ok : MemoryStoreOk 1000 w_sweep_store.
Proof.
  destruct (callbacks_ok 1000 (NewMemoryStore 1 1000)) as [Hok _]; [by apply NewMemoryStore_ok with 0|].
  destruct (memory_Set 1000 w_sweep_new "old" [Byte.x01] 1 w_clock Hok) as (cs & m & Hset & Hok1 & _); [intros _; by vm_compute|].
  assert (w_sweep_old = m) as <- by (unfold w_sweep_old; by rewrite Hset).
  destruct (memory_Set 1000 w_sweep_old "new" [Byte.x02] (60 * Second) w_clock Hok1) as (cs' & m' & Hset' & Hok2 & _); [intros _; by vm_compute|].
  assert (w_sweep_store = m') as <- by (unfold w_sweep_store; by rewrite Hset'). exact Hok2.
Qed.

Lemma sweeper_clears_witness :
  exists w' c', startSweeper "" [Tick (map_to_list ∘ items <$> shards w_sweep_store) w_sweep_clock; IsDone] w_sweep_world = Some (true, w')
    /\ hosts (net w') !! "" = Some c' /\ mview (store c') "old" = None /\ is_Some (mview (store c') "new")
    /\ Publish EventExpire "old" [Byte.x01] ∈ log w' /\ ~ has_tag (tags c') "old" "t".
Proof.
  destruct (sweeper_clears 1000 w_sweep_world "" w_sweep_cache (map_to_list ∘ items <$> shards w_sweep_store) w_sweep_clock
    eq_refl w_sweep_ok) as (w' & c' & expired & Hs & Hc & Hv & Hl & _ & He & Ht).
  { repeat (constructor; [by vm_compute|]). constructor. }
  { repeat (constructor; [done|]). constructor. }
  exists w', c'. split; [exact Hs|]. split; [exact Hc|]. split; [rewrite Hv; by vm_compute|].
  split; [rewrite Hv; vm_compute; eauto|]. split.
  - rewrite Hl. apply elem_of_app. right. apply list_elem_of_fmap. exists ("old", [Byte.x01]). split; [done|]. apply He.
    eexists. split; by vm_compute.
  - rewrite Ht. intros [_ [Hn|[b Hb]]]; [by vm_compute in Hn|by vm_compute in Hb].
Defined.
