(* ===== verification/Examples.v ===== *)
(** examples/basic/main.go and examples/pubsub/main.go: two programs around the
    cache, and what they print, by evaluation.

    The programs are written over any store and any msgpack; they run here over
    a memory store and a disk store with a concrete codec, on a clock that stands
    still but for the calls of Sleep. *)
From stdpp Require Import pretty.
From S2P Require Import Prelude GoLib Serializer Config Shard Store ShardTheorems MemoryStore PebbleStore PebbleProofs Tags LockEngine HashRing RingProofs Cluster Transport Pool Glob Broker Cache CacheProofs Namespace Float64 RateLimit GoStrings Http Server Events Startup.

#[local] Open Scope cache_scope.

(** The values the programs store, and how they print. *)
Inductive Value :=
  | VString (s : string)
  | VUser (name email : string) (age : Z)
  | VInt (z : Z).

#[export] Instance Value_eq_dec : EqDecision Value.
Proof. solve_decision. Defined.
#[export] Instance Value_countable : Countable Value.
Proof.
  refine (inj_countable' (fun v => match v with VString s => inl (inl s) | VUser n e a => inl (inr (n, e, a)) | VInt z => inr z end)
    (fun x => match x with inl (inl s) => VString s | inl (inr (n, e, a)) => VUser n e a | inr z => VInt z end) _).
  by intros [].
Defined.

Definition text (v : option (GoValue Value)) : string :=
  match v with Some (GOther (VString s)) => s | _ => "" end.

Definition boolText (b : bool) : string := if b then "true" else "false".

(** [Duration.Round] *)
Definition Round (d m : Duration) : Duration :=
  if m <=? 0 then d
  else
    let r := Z.rem d m in
    if d <? 0 then
      if - r + - r <? m then d - r
      else if - 2 ^ 63 <=? d - m - r then d - m - r else - 2 ^ 63
    else if r + r <? m then d - r
    else if d + m - r <? 2 ^ 63 then d + m - r else 2 ^ 63 - 1.

(** ** examples/basic *)

Section Basic.
Context {S : Type} `{Store S Value unit}.
Context (order : ClusterState -> list (string * NodeInfo)) (setOrder : gset string -> list string) (me : string).

Definition println (line : string) : M (S := S) unit := emit (Print line).

Abbreviation Set_ key s ttl clk := (Cache_Set order me key (GOther (VString s)) ttl clk).
Abbreviation Get key clk := (Cache_Get (V := Value) me key (DOther tt) clk).

Definition basicCrud (clk : Clock) : M unit :=
  println "=== In-Memory Cache ===" ;;;
  Set_ "greeting" "Hello, CacheGrid!" (5 * Minute) clk ;;;
  greeting <-- Get "greeting" clk ;;
  (if bool_decide (is_Some greeting) then println ("Get: " +:+ text greeting) else ret tt) ;;;
  Cache_Set order me "user:1" (GOther (VUser "Alice" "alice@example.com" 30)) (10 * Minute) clk ;;;
  user <-- Get "user:1" clk ;;
  (match user with
   | Some (GOther (VUser name email age)) =>
       println ("User: " +:+ name +:+ " (" +:+ email +:+ "), age " +:+ pretty age)
   | _ => ret tt
   end) ;;;
  e <-- Cache_Exists me "user:1" clk ;;
  println ("Exists: " +:+ boolText e) ;;;
  ttl <-- Cache_TTL me "user:1" clk ;;
  println ("TTL: " +:+ Duration_String (Round ttl Second)) ;;;
  Cache_Delete order me "greeting" clk ;;;
  e <-- Cache_Exists me "greeting" clk ;;
  println ("After delete, exists: " +:+ boolText e).

Definition basicCounters (clk : Clock) : M unit :=
  println "" ;;; println "=== Atomic Counters ===" ;;;
  Cache_Incr me "page:views" 1 clk ;;;
  Cache_Incr me "page:views" 1 clk ;;;
  Cache_Incr me "page:views" 1 clk ;;;
  views <-- Cache_Incr me "page:views" 0 clk ;;
  println ("Page views: " +:+ pretty (match views with Ok z => z | Err _ => 0 end)) ;;;
  Cache_Incr me "stock:item-42" 100 clk ;;;
  Cache_Decr me "stock:item-42" 3 clk ;;;
  stock <-- Cache_Incr me "stock:item-42" 0 clk ;;
  println ("Stock remaining: " +:+ pretty (match stock with Ok z => z | Err _ => 0 end)).

(** An error of the first GetOrSet ends the program; that of the second is not
    looked at, and [result] keeps what it had. *)
Definition basicCacheAside (clk : Clock) : M unit :=
  println "" ;;; println "=== Cache-Aside (GetOrSet) ===" ;;;
  r <-- Cache_GetOrSet order me "expensive:query" (DOther tt) Minute
    (println "  Computing... (this only runs on miss)" ;;; ret (Ok (GOther (VString "computed-result")))) clk ;;
  match r with
  | Err _ => fun _ => None
  | Ok v =>
      println ("First call: " +:+ text (Some v)) ;;;
      r <-- Cache_GetOrSet order me "expensive:query" (DOther tt) Minute
        (println "  This should NOT print" ;;; ret (Ok (GOther (VString "new-result")))) clk ;;
      println ("Second call (cached): " +:+ text (Some (match r with Ok v => v | Err _ => v end)))
  end.

Definition basicBulk (clk : Clock) : M unit :=
  println "" ;;; println "=== Bulk Operations ===" ;;;
  Cache_MSet order me [("color:red", (GOther (VString "#FF0000"), Hour)); ("color:green", (GOther (VString "#00FF00"), Hour));
                       ("color:blue", (GOther (VString "#0000FF"), Hour))] clk ;;;
  results <-- Cache_MGet me ["color:red"; "color:green"; "color:blue"; "color:missing"] clk ;;
  println ("MGet returned " +:+ pretty (Z.of_nat (size results)) +:+ " keys (missing keys excluded)").

Definition basicTags (clk : Clock) : M unit :=
  println "" ;;; println "=== Tag-Based Invalidation ===" ;;;
  Cache_SetWithTags order me "user:1:profile" (GOther (VString "profile-data")) Hour ["user:1"] clk ;;;
  Cache_SetWithTags order me "user:1:settings" (GOther (VString "settings-data")) Hour ["user:1"] clk ;;;
  Cache_SetWithTags order me "user:1:avatar" (GOther (VString "avatar-url")) Hour ["user:1"] clk ;;;
  a <-- Cache_Exists me "user:1:profile" clk ;;
  b <-- Cache_Exists me "user:1:settings" clk ;;
  println ("Before invalidation: " +:+ boolText a +:+ " " +:+ boolText b) ;;;
  Cache_InvalidateTag order me setOrder "user:1" clk ;;;
  a <-- Cache_Exists me "user:1:profile" clk ;;
  b <-- Cache_Exists me "user:1:settings" clk ;;
  println ("After invalidation: " +:+ boolText a +:+ " " +:+ boolText b).

Definition basicNamespaces (clk : Clock) : M unit :=
  println "" ;;; println "=== Namespaces ===" ;;;
  let tenantA := WithNamespace me "acme" in
  let tenantB := WithNamespace me "globex" in
  NS_Set order tenantA "config" (GOther (VString "acme-config")) Hour clk ;;;
  NS_Set order tenantB "config" (GOther (VString "globex-config")) Hour clk ;;;
  configA <-- NS_Get (V := Value) tenantA "config" (DOther tt) clk ;;
  configB <-- NS_Get (V := Value) tenantB "config" (DOther tt) clk ;;
  println ("Tenant A: " +:+ text configA) ;;;
  println ("Tenant B: " +:+ text configB).

(** [later] is the clock after the sleep. *)
Definition basicExpiry (clk later : Clock) : M unit :=
  println "" ;;; println "=== TTL Expiry ===" ;;;
  Set_ "temp" "i-will-expire" (200 * Millisecond) clk ;;;
  e <-- Cache_Exists me "temp" clk ;;
  println ("Before expiry: " +:+ boolText e) ;;;
  e <-- Cache_Exists me "temp" later ;;
  println ("After expiry: " +:+ boolText e).

(** The part of main with the cache in memory. *)
Definition basicMemory (clk later : Clock) : M unit :=
  basicCrud clk ;;; basicCounters clk ;;; basicCacheAside clk ;;; basicBulk clk ;;; basicTags clk ;;;
  basicNamespaces clk ;;; basicExpiry clk later.

(** The part with a cache on disk, before and after it is opened again. *)
Definition basicDisk (clk : Clock) : M unit :=
  println "" ;;; println "=== Disk-Based Cache (PebbleDB) ===" ;;;
  Set_ "persistent:key" "this survives restarts" Hour clk ;;;
  diskVal <-- Get "persistent:key" clk ;;
  (if bool_decide (is_Some diskVal) then println ("Disk Get: " +:+ text diskVal) else ret tt) ;;;
  n <-- Cache_Len me ;;
  println ("Disk items: " +:+ pretty n).

Definition basicReopened (clk : Clock) : M unit :=
  restored <-- Get "persistent:key" clk ;;
  (if bool_decide (is_Some restored) then println ("Restored after reopen: " +:+ text restored)
   else println "Key not found after reopen (TTL may have expired)") ;;;
  println "" ;;; println "Done!".

(** The lines a program prints on a cache of its own, and the cache it leaves. *)
Definition prints (c : result (Cache S)) (m : M unit) : option (list string * Cache S) :=
  match c with
  | Err _ => None
  | Ok c =>
      match m (MkWorld (MkNetwork {[me := c]} (fun _ => None) (fun _ => [])) []) with
      | None => None
      | Some (_, w) =>
          match hosts (net w) !! me with
          | None => None
          | Some c' => Some (omap (fun e => match e with Print line => Some line | _ => None end) (log w), c')
          end
      end
  end.
End Basic.

(** ** What examples/basic prints *)

#[local] Instance ex_msgpack : Msgpack Value unit := countable_msgpack.
#[local] Existing Instance map_db.

Definition ex_start : Time := unixEpoch + 1700000000 * Second.
Definition ex_clk : Clock := frozen ex_start.
Definition ex_later : Clock := frozen (ex_start + 250 * Millisecond).

Definition ex_memory : result (Cache MemoryStore) :=
  NewMemory w_gossip (fun _ => Ok tt) ex_clk "host" (fun cfg => Ok (NewMemoryStore (NumShards cfg) (perShardMax cfg))).
(** The cache on a database directory. *)
Definition ex_disk (dir : gmap string bytes) : result (Cache (PebbleStore (gmap string bytes))) :=
  NewDisk w_gossip (fun _ => Ok tt) ex_clk "host" (fun cfg => Ok (NewPebbleStore dir)) "/tmp/cachegrid-example".

(** All that main prints. *)
Definition basicOutput : option (list string) :=
  match prints "" ex_memory (basicMemory (fun _ => []) elements "" ex_clk ex_later) with
  | None => None
  | Some (l1, _) =>
      match prints "" (ex_disk ∅) (basicDisk (fun _ => []) "" ex_later) with
      | None => None
      | Some (l2, c) =>
          match prints "" (ex_disk (db (store c))) (basicReopened "" ex_later) with
          | None => None
          | Some (l3, _) => Some (l1 ++ l2 ++ l3)
          end
      end
  end.

(** The output of examples/basic: every step shows what the text around it says,
    the function of the second GetOrSet does not run, and the value on disk is
    there when the directory is opened again. *)
Theorem basic_prints : basicOutput = Some
  ["=== In-Memory Cache ==="; "Get: Hello, CacheGrid!"; "User: Alice (alice@example.com), age 30"; "Exists: true";
   "TTL: 10m0s"; "After delete, exists: false"; "";
   "=== Atomic Counters ==="; "Page views: 3"; "Stock remaining: 97"; "";
   "=== Cache-Aside (GetOrSet) ==="; "  Computing... (this only runs on miss)"; "First call: computed-result";
   "Second call (cached): computed-result"; "";
   "=== Bulk Operations ==="; "MGet returned 3 keys (missing keys excluded)"; "";
   "=== Tag-Based Invalidation ==="; "Before invalidation: true true"; "After invalidation: false false"; "";
   "=== Namespaces ==="; "Tenant A: acme-config"; "Tenant B: globex-config"; "";
   "=== TTL Expiry ==="; "Before expiry: true"; "After expiry: false"; "";
   "=== Disk-Based Cache (PebbleDB) ==="; "Disk Get: this survives restarts"; "Disk items: 1";
   "Restored after reopen: this survives restarts"; ""; "Done!"].
Proof. vm_compute. reflexivity. Qed.

(** ** examples/pubsub *)

(** The counters of the program, which its hooks increment. *)
Inductive Metric := Hits | Misses | Sets | Deletes | Evictions.

#[export] Instance Metric_eq_dec : EqDecision Metric.
Proof. solve_decision. Defined.

Abbreviation MetricBroker := (Pubsub.Broker Metric (Closure Metric)).

(** The hook a call runs, and how often a counter was incremented. *)
Definition hook_of (h : Pubsub.HookCall Metric (Closure Metric)) : Metric :=
  match h with
  | Pubsub.CallKey fn _ => fn
  | Pubsub.CallValue (WithInterface fn) _ _ => fn
  end.
Definition loaded (m : Metric) (hs : list (Pubsub.HookCall Metric (Closure Metric))) : Z :=
  Z.of_nat (length (filter (fun h => hook_of h = m) hs)).

(** [%-8s] *)
Definition padded (s : string) : string := s +:+ String.concat "" (replicate (8 - String.length s) " ").

Section Pubsub.
Context {S : Type} `{Store S Value unit}.
Context (order : ClusterState -> list (string * NodeInfo)) (subOrder : gmap Z nat -> list (Z * nat)) (me : string).

Definition pubsubConfig : Config :=
  MkConfig 16 1 0 (200 * Millisecond) Memory "" "" [] Partitioned "" 0 0 0.

(** The calls of the first part. *)
Definition pubsubUsers (clk : Clock) : M (S := S) unit :=
  Cache_Set order me "user:1" (GOther (VString "Alice")) Minute clk ;;;
  Cache_Set order me "user:2" (GOther (VString "Bob")) Minute clk ;;;
  Cache_Set order me "user:3" (GOther (VString "Charlie")) Minute clk ;;;
  Cache_Delete order me "user:2" clk ;;;
  Cache_Set order me "order:100" (GOther (VString "some order")) Minute clk ;;;
  ret tt.

(** [for i := 0; i < n; i++] *)
Fixpoint loop {A} (n : nat) (body : Z -> M (S := S) A) (i : Z) : M (S := S) unit :=
  match n with
  | O => ret tt
  | Datatypes.S n' => body i ;;; loop n' body (i + 1)
  end.

Definition pubsubTraffic (clk : Clock) : M (S := S) unit :=
  loop 20 (fun i => Cache_Set order me ("metric:" +:+ pretty i) (GOther (VInt i)) Minute clk) 0 ;;;
  loop 20 (fun i => Cache_Get (V := Value) me ("metric:" +:+ pretty i) (DOther tt) clk) 0 ;;;
  loop 5 (fun i => Cache_Get (V := Value) me ("missing:" +:+ pretty i) (DOther tt) clk) 0.

(** The goroutines with the eviction callbacks run, one after the other. *)
Fixpoint runAllPending (fuel : nat) : M (S := S) unit :=
  match fuel with
  | O => ret tt
  | Datatypes.S fuel' => runPending me 0 ;;; runAllPending fuel'
  end.

Definition pubsubFill (count : nat) (clk : Clock) : M (S := S) Z :=
  loop count (fun i => Cache_Set order me ("fill:" +:+ pretty i) (GBytes (replicate 1024 Byte.x00)) Hour clk) 0 ;;;
  runAllPending count ;;;
  Cache_Len me.

Definition pubsubExpiring (clk : Clock) : M (S := S) unit :=
  loop 5 (fun i => Cache_Set order me ("expiring:" +:+ pretty i) (GOther (VString "temp")) (200 * Millisecond) clk) 0.

(** What a program makes the broker do: the effects it leaves are carried out. *)
Definition publishing {A} (clk : Clock) (m : M (S := S) A) (w : World (S := S)) (b : MetricBroker)
  : option (A * list (Pubsub.HookCall Metric (Closure Metric)) * World (S := S) * MetricBroker) :=
  match m (MkWorld (net w) []) with
  | None => None
  | Some (a, w') =>
      match performAll subOrder clk (log w') b with
      | None => None
      | Some (hs, b') => Some (a, hs, w', b')
      end
  end.
End Pubsub.

#[export] Instance EventType_eq_dec : EqDecision EventType.
Proof. solve_decision. Defined.

(** [for event := range sub.Events()], until the buffer is empty. *)
Fixpoint drain (fuel : nat) (p : nat) (b : MetricBroker) : list Pubsub.Event * MetricBroker :=
  match fuel with
  | O => ([], b)
  | Datatypes.S fuel' =>
      match Pubsub.Receive p b with
      | Some (Got e, b') => let '(es, b'') := drain fuel' p b' in (e :: es, b'')
      | _ => ([], b)
      end
  end.

Definition eventLine (e : Pubsub.Event) : string :=
  "  [EVENT] type=" +:+ padded (EventType_text (Pubsub.Type_ e)) +:+ " key=" +:+ Pubsub.Key e.

(** One tick of the sweeper. *)
Definition pubsubSweep (me : string) (clk : Clock) : M (S := MemoryStore) unit :=
  c <-- this me ;; sweep me (List.map (fun s => map_to_list (items s)) (shards (store c))) clk.

(** What main shows: the lines of the first subscriber, the four counters, the
    items and evictions of the third part, and the keys that expired. [fills] is
    the number of entries written there. *)
Record Shown := MkShown {
  shEvents : list string;
  shMetrics : list Z;
  shItems : Z;
  shEvictions : Z;
  shExpired : list string;
}.

Definition pubsubMain (c : Cache MemoryStore) (fills : nat) (clk later : Clock) : option Shown :=
  let run {A} (m : M (S := MemoryStore) A) := publishing map_to_list clk m in
  let w := MkWorld (MkNetwork {["" := c]} (fun _ => None) (fun _ => [])) [] in
  let '(p, b) := Cache_Subscribe "user:*" (Pubsub.NewBroker : MetricBroker) in
  match run (pubsubUsers (fun _ => []) "" clk) w b with
  | None => None
  | Some (_, _, w, b) =>
      let '(events, b) := drain 256 p b in
      let b := Cache_OnDelete Deletes (Cache_OnSet Sets (Cache_OnMiss Misses (Cache_OnHit Hits b))) in
      match run (pubsubTraffic (fun _ => []) "" clk) w b with
      | None => None
      | Some (_, hs, w, b) =>
          match run (pubsubFill (fun _ => []) "" fills clk) w (Cache_OnEvict Evictions b) with
          | None => None
          | Some (len, hs', w, b) =>
              let '(p', b) := Cache_Subscribe "expiring:*" b in
              match run (pubsubExpiring (fun _ => []) "" clk ;;; pubsubSweep "" later) w b with
              | None => None
              | Some (_, _, w, b) =>
                  let '(expiring, b) := drain 256 p' b in
                  Some (MkShown (eventLine <$> events) ((fun m => loaded m hs) <$> [Hits; Misses; Sets; Deletes]) len
                    (loaded Evictions hs')
                    ((fun e => "  [EXPIRED] key=" +:+ Pubsub.Key e)
                       <$> filter (fun e => Pubsub.Type_ e = EventExpire) expiring))
              end
          end
      end
  end.

Definition ex_pubsub : option (Cache MemoryStore) :=
  match NewCache w_gossip (fun _ => Ok tt) ex_clk "host" (fun cfg => Ok (NewMemoryStore (NumShards cfg) (perShardMax cfg))) pubsubConfig with
  | Ok c => Some c
  | Err _ => None
  end.

(** What examples/pubsub shows, with twenty entries in its third part: the
    subscriber of user:* gets the three writes and the deletion of users, in their
    order, and not that of the order; the hooks count every hit, miss and write
    of the second part; the twenty entries are in the cache beside the 23 of the
    parts before, and all five keys with a short time to live are reported when
    they have expired. *)
Theorem pubsub_shows :
  (c ← ex_pubsub; pubsubMain c 20 ex_clk ex_later)
  = Some (MkShown
      ["  [EVENT] type=set      key=user:1"; "  [EVENT] type=set      key=user:2"; "  [EVENT] type=set      key=user:3";
       "  [EVENT] type=delete   key=user:2"]
      [20; 5; 20; 0] 43 0
      ["  [EXPIRED] key=expiring:1"; "  [EXPIRED] key=expiring:0"; "  [EXPIRED] key=expiring:3";
       "  [EXPIRED] key=expiring:4"; "  [EXPIRED] key=expiring:2"]).
Proof. vm_compute. reflexivity. Qed.
