(* ===== verification/Main.v ===== *)
(** cmd/cachegrid/main.go: the configuration of the standalone server from the
    environment, and the process it runs as; New, Start and Stop of
    internal/server/server.go. *)
From stdpp Require Import pretty relations.
From S2P Require Import Prelude GoLib Serializer Config Shard Store Tags LockEngine HashRing Cluster Transport Glob Broker Cache Float64 GoStrings.

#[local] Open Scope cache_scope.

(** ** Environment

    [getenv] is os.Getenv: the empty string for a variable that is not set. *)

Section Environment.
Context (getenv : string -> string).

Definition envStr (key fallback : string) : string :=
  if negb (String.eqb (getenv key) "") then getenv key else fallback.

Definition envInt (key : string) (fallback : Z) : Z :=
  if negb (String.eqb (getenv key) "") then
    match Atoi (getenv key) with
    | Some n => n
    | None => fallback
    end
  else fallback.

Definition envDuration (key : string) (fallback : Duration) : Duration :=
  if negb (String.eqb (getenv key) "") then
    match ParseDuration (getenv key) with
    | Some d => d
    | None => fallback
    end
  else fallback.

(** The first part of main. *)
Definition configure : Config :=
  let disk := String.eqb (envStr "CACHEGRID_STORAGE_MODE" "memory") "disk" in
  let seeds := envStr "CACHEGRID_SEEDS" "" in
  let mode := envStr "CACHEGRID_MODE" "partitioned" in
  {| NumShards := envInt "CACHEGRID_SHARDS" 256;
     MaxMemoryMB := envInt "CACHEGRID_MAX_MEMORY_MB" 0;
     DefaultTTL := envDuration "CACHEGRID_DEFAULT_TTL" 0;
     SweeperInterval := envDuration "CACHEGRID_SWEEPER_INTERVAL" Second;
     NodeName := envStr "CACHEGRID_NODE_NAME" "";
     ListenAddr := envStr "CACHEGRID_LISTEN_ADDR" "";
     GRPCPort := envInt "CACHEGRID_RPC_PORT" 7947;
     HTTPPort := envInt "CACHEGRID_HTTP_PORT" 6380;
     VirtualNodes := envInt "CACHEGRID_VIRTUAL_NODES" 150;
     cStorageMode := if disk then Disk else Memory;
     DiskPath := if disk then envStr "CACHEGRID_DISK_PATH" "./cachegrid-data" else DiskPath DefaultConfig;
     Peers := if negb (String.eqb seeds "") then of_bytes <$> split c_comma (string_bytes seeds)
              else Peers DefaultConfig;
     cMode := if String.eqb mode "replicated" then Replicated
              else if String.eqb mode "nearcache" then NearCache else Partitioned |}.
End Environment.

Definition modeName (m : Mode) : string :=
  match m with
  | Replicated => "replicated"
  | NearCache => "nearcache"
  | Partitioned => "partitioned"
  end.

Definition storageModeName (m : StorageMode) : string :=
  match m with
  | Disk => "disk"
  | Memory => "memory"
  end.

(** ** main

    [newCache] is cachegrid.New. The run ends in Fatalf, or the server listens
    until a signal, which stops the server and then the cache. *)
Inductive Run (C : Type) :=
  | Fatal (message : string)
  | Listening (cache : C) (httpAddr : string) (banner : string).
Arguments Fatal {C} message.
Arguments Listening {C} cache httpAddr banner.

Definition main {C : Type} (newCache : Config -> result C) (getenv : string -> string) : Run C :=
  let config := configure getenv in
  match newCache config with
  | Err err => Fatal ("failed to create cache: " +:+ Error_Error err)
  | Ok cache =>
      let httpAddr := ":" +:+ pretty (HTTPPort config) in
      Listening cache httpAddr
        ("CacheGrid starting (mode=" +:+ modeName (cMode config) +:+ ", storage="
         +:+ storageModeName (cStorageMode config) +:+ ", http=" +:+ httpAddr +:+ ")")
  end.

(** ** internal/server/server.go

    New, Start and Stop; the handler of the server is [serve] of Server.v. *)

(** What New sets of http.Server. *)
Record HttpServer := MkHttpServer {
  hsAddr : string;
  ReadTimeout : Duration;
  WriteTimeout : Duration;
  IdleTimeout : Duration;
}.

Record Server (C : Type) := MkServer {
  svCache : C;
  httpServer : HttpServer;
  startTime : Time;
}.
Arguments MkServer {C} svCache httpServer startTime.

Definition Server_New {C : Type} (cache : C) (addr : string) (clk : Clock) : Server C :=
  MkServer cache (MkHttpServer addr (10 * Second) (30 * Second) (60 * Second)) (clk 0%nat).

(** What ListenAndServe returns: http.ErrServerClosed, as soon as Shutdown of the
    server has been called, or some other error. *)
Inductive ListenError := ErrServerClosed | ListenFailed (err : Error).

Definition Server_Start (err : ListenError) : option Error :=
  match err with
  | ErrServerClosed => None
  | ListenFailed err => Some err
  end.

(** ** The process

    Two goroutines: main, in Start, and the one that waits for a signal. *)

(** Where the second one is: waiting; before Stop; in Stop, while the server
    waits for its connections; before Shutdown of the cache; before os.Exit. *)
Inductive HandlerAt := AwaitsSignal | StopsServer | Draining | ShutsCache | Exits.

(** [pClosing]: Shutdown of the HTTP server has been called. [pExit] is the exit
    status of a process that has ended. *)
Record Process (C : Type) := MkProcess {
  pCache : C;
  pHandler : HandlerAt;
  pClosing : bool;
  pExit : option Z;
  pLog : list string;
}.
Arguments MkProcess {C} pCache pHandler pClosing pExit pLog.
Arguments pCache {C} p : rename.
Arguments pHandler {C} p : rename.
Arguments pClosing {C} p : rename.
Arguments pExit {C} p : rename.
Arguments pLog {C} p : rename.

Section Process.
(** Shutdown of the cache, which returns an error or nil, or panics; and what the
    handlers of requests and the goroutines of the node do to the cache. *)
Context {C : Type} (shutdown : C -> option (option Error * C)) (served : C -> C -> Prop).

(** [if err != nil { logger.Printf(...) }] *)
Definition logError (what : string) (err : option Error) (lines : list string) : list string :=
  match err with
  | Some err => lines ++ [what +:+ ": " +:+ Error_Error err]
  | None => lines
  end.

(** The second goroutine, at one of its steps; [sig] is the signal and [err] what
    Stop returns. A panic ends the process with status 2. *)
Definition onSignal (sig : string) (err : option Error) (p : Process C) : Process C :=
  match pHandler p with
  | AwaitsSignal =>
      MkProcess (pCache p) StopsServer (pClosing p) None
        (pLog p ++ ["received signal " +:+ sig +:+ ", shutting down..."])
  | StopsServer => MkProcess (pCache p) Draining true None (pLog p)
  | Draining =>
      MkProcess (pCache p) ShutsCache (pClosing p) None (logError "HTTP server shutdown error" err (pLog p))
  | ShutsCache =>
      match shutdown (pCache p) with
      | Some (err, c') => MkProcess c' Exits (pClosing p) None (logError "cache shutdown error" err (pLog p))
      | None => MkProcess (pCache p) ShutsCache (pClosing p) (Some 2) (pLog p)
      end
  | Exits => MkProcess (pCache p) Exits (pClosing p) (Some 0) (pLog p)
  end.

(** The end of main, when ListenAndServe has returned. *)
Definition afterStart (err : ListenError) (p : Process C) : Process C :=
  match Server_Start err with
  | Some err =>
      MkProcess (pCache p) (pHandler p) (pClosing p) (Some 1) (pLog p ++ ["HTTP server error: " +:+ Error_Error err])
  | None => MkProcess (pCache p) (pHandler p) (pClosing p) (Some 0) (pLog p)
  end.

(** While the process runs, the second goroutine takes a step, something is served,
    or ListenAndServe returns. Without a signal it can go on serving for ever. *)
Inductive process_step : Process C -> Process C -> Prop :=
  | ps_handler sig err p : pExit p = None -> process_step p (onSignal sig err p)
  | ps_serves c' p : pExit p = None -> served (pCache p) c' ->
      process_step p (MkProcess c' (pHandler p) (pClosing p) None (pLog p))
  | ps_closed p : pExit p = None -> pClosing p = true -> process_step p (afterStart ErrServerClosed p)
  | ps_failed err p : pExit p = None -> pClosing p = false -> process_step p (afterStart (ListenFailed err) p).

(** The process when main has come to Start. *)
Definition listening (cache : C) (banner : string) : Process C :=
  MkProcess cache AwaitsSignal false None [banner].

(** How far the end of the process and a Shutdown of the cache have come. *)
Record ProcessOk (c0 : C) (p : Process C) : Prop := {
  po_cache : match pHandler p with
    | Exits => exists c err c', rtc served c0 c /\ shutdown c = Some (err, c') /\ rtc served c' (pCache p)
    | _ => rtc served c0 (pCache p)
    end;
  po_closing : pClosing p = match pHandler p with AwaitsSignal | StopsServer => false | _ => true end;
  po_exit : match pExit p with
            | Some 0 => pClosing p = true
            | Some 1 => pClosing p = false
            | Some 2 => pHandler p = ShutsCache /\ shutdown (pCache p) = None
            | Some _ => False
            | None => True
            end;
}.

Lemma process_step_ok c0 p p' : ProcessOk c0 p -> process_step p p' -> ProcessOk c0 p'.
Proof.
  intros [Hc Hcl He] Hs. destruct Hs as [sig err p Hx|c' p Hx Hsv|p Hx Hclo|err p Hx Hclo]; [| |by split..].
  - unfold onSignal. destruct (pHandler p) eqn:Eh; [by split..| |by split].
    destruct (shutdown (pCache p)) as [[e c']|] eqn:Es; [|by split].
    split; [|done|done]. cbn [pHandler pCache]. exists (pCache p), e, c'. split_and!; [done|done|apply rtc_refl].
  - split; cbn [pHandler pCache pClosing pExit]; [|done|done].
    destruct (pHandler p); try (by eapply rtc_r). destruct Hc as (c & e & c1 & H1 & H2 & H3).
    exists c, e, c1. split_and!; [done|done|by eapply rtc_r].
Qed.

(** Whatever the process has done since it came to Start, it exits with status 0 only
    after a signal has closed the HTTP server, with status 1 only when listening
    failed before that, and with status 2 only when Shutdown of the cache panics;
    the cache is shut down once at most, after the HTTP server was closed, and
    otherwise changed by what is served. *)
Theorem process_order cache banner p : rtc process_step (listening cache banner) p ->
  (pExit p = Some 0 -> pClosing p = true) /\ (pExit p = Some 1 -> pClosing p = false)
  /\ (pExit p = Some 2 -> shutdown (pCache p) = None)
  /\ (rtc served cache (pCache p)
      \/ pHandler p = Exits /\ pClosing p = true
         /\ exists c err c', rtc served cache c /\ shutdown c = Some (err, c') /\ rtc served c' (pCache p)).
Proof.
  intros Hr. assert (ProcessOk cache p) as [Hc Hcl He].
  { remember (listening cache banner) as p0 eqn:E. assert (ProcessOk cache p0) as H0 by (subst; split; [apply rtc_refl|done|done]).
    clear E. induction Hr; eauto using process_step_ok. }
  split_and!; [intros Hx; by rewrite Hx in He..|intros Hx; rewrite Hx in He; apply He|].
  destruct (pHandler p); [by left..|right]. by split_and!.
Qed.

(** A signal need not shut the cache down. ListenAndServe returns as soon as
    the server's Shutdown is called, and main returns with it, which ends the
    process: with status 0, while Stop still waits for requests that are being
    served, and before the cache has left the cluster or closed its store. *)
Theorem signal_may_skip_shutdown cache banner sig :
  exists p, rtc process_step (listening cache banner) p
    /\ pExit p = Some 0 /\ pCache p = cache /\ pHandler p = Draining
    /\ pLog p = [banner; "received signal " +:+ sig +:+ ", shutting down..."].
Proof.
  eexists. split.
  - eapply rtc_l; [by apply (ps_handler sig None)|].
    eapply rtc_l; [by apply (ps_handler sig None)|].
    eapply rtc_l; [by apply ps_closed|]. apply rtc_refl.
  - done.
Qed.
End Process.

(** ** Properties *)

Definition variables : list string :=
  ["CACHEGRID_SHARDS"; "CACHEGRID_MAX_MEMORY_MB"; "CACHEGRID_DEFAULT_TTL"; "CACHEGRID_SWEEPER_INTERVAL";
   "CACHEGRID_NODE_NAME"; "CACHEGRID_LISTEN_ADDR"; "CACHEGRID_RPC_PORT"; "CACHEGRID_HTTP_PORT";
   "CACHEGRID_VIRTUAL_NODES"; "CACHEGRID_STORAGE_MODE"; "CACHEGRID_DISK_PATH"; "CACHEGRID_SEEDS"; "CACHEGRID_MODE"].

(** Splitting and joining the seeds. *)
Lemma split_nonempty sep s : split sep s ≠ [].
Proof. induction s as [|c s IH]; cbn [split]; [done|]. destruct (c =? sep); [done|]. by destruct (split sep s). Qed.

Fixpoint join (sep : Z) (parts : list (list Z)) : list Z :=
  match parts with
  | [] => []
  | [p] => p
  | p :: ps => p ++ sep :: join sep ps
  end.

Lemma join_split sep s : join sep (split sep s) = s.
Proof.
  induction s as [|c s IH]; [done|]. cbn [split]. pose proof (split_nonempty sep s) as Hne.
  destruct (Z.eqb_spec c sep) as [->|Hc].
  - cbn [join]. destruct (split sep s) as [|p ps] eqn:E; [done|]. by rewrite <- IH.
  - destruct (split sep s) as [|p ps] eqn:E; [done|]. rewrite <- IH. by destruct ps.
Qed.

Definition is_byte (b : Z) : Prop := 0 <= b < 256.

Lemma string_bytes_range s : Forall is_byte (string_bytes s).
Proof.
  induction s as [|c s IH]; cbn [string_bytes]; constructor; [|done]. unfold is_byte.
  destruct c as [[] [] [] [] [] [] [] []]; vm_compute; by split.
Qed.

Lemma bytes_of_bytes l : Forall is_byte l -> string_bytes (of_bytes l) = l.
Proof.
  induction 1 as [|b l Hb Hl IH]; [done|]. cbn [of_bytes string_bytes]. rewrite IH. f_equal.
  unfold is_byte in Hb. rewrite Ascii.N_ascii_embedding by lia. lia.
Qed.

Lemma split_bytes sep l : Forall is_byte l -> Forall (Forall is_byte) (split sep l).
Proof.
  induction 1 as [|b l Hb Hl IH]; cbn [split]; [by apply Forall_singleton|].
  destruct (b =? sep); [by constructor|].
  destruct (split sep l) as [|p ps]; [by rewrite Forall_singleton, Forall_singleton|].
  apply Forall_cons in IH as [Hp Hps]. constructor; [by constructor|done].
Qed.

Lemma parts_of_bytes ps : Forall (Forall is_byte) ps -> string_bytes <$> (of_bytes <$> ps) = ps.
Proof. induction 1 as [|p ps Hp Hps IH]; [done|]. cbn. by rewrite bytes_of_bytes, IH. Qed.

(** The environment and the configuration. With no variable set the
    configuration is the default one, which validate accepts; the names of the
    modes in the banner are the values that select them; and the peers, joined by
    commas, are the list of seeds that was given. *)
Theorem environment_configures getenv :
  ((forall v, v ∈ variables -> getenv v = "") ->
     configure getenv = DefaultConfig /\ validate (configure getenv) = (None, DefaultConfig))
  /\ (getenv "CACHEGRID_MODE" ∈ ["partitioned"; "replicated"; "nearcache"] ->
        modeName (cMode (configure getenv)) = getenv "CACHEGRID_MODE")
  /\ (getenv "CACHEGRID_STORAGE_MODE" ∈ ["memory"; "disk"] ->
        storageModeName (cStorageMode (configure getenv)) = getenv "CACHEGRID_STORAGE_MODE")
  /\ (getenv "CACHEGRID_SEEDS" ≠ "" ->
        join c_comma (string_bytes <$> Peers (configure getenv)) = string_bytes (getenv "CACHEGRID_SEEDS")).
Proof.
  split_and!.
  - intros He. assert (configure getenv = DefaultConfig) as ->; [|by vm_compute].
    unfold configure, envInt, envDuration, envStr. by rewrite !He by by_decide.
  - unfold configure, envStr. cbn [cMode]. rewrite !elem_of_cons, elem_of_nil. intros [->|[->|[->|[]]]]; done.
  - unfold configure, envStr. cbn [cStorageMode]. rewrite !elem_of_cons, elem_of_nil. intros [->|[->|[]]]; done.
  - intros Hs. unfold configure, envStr. cbn [Peers]. rewrite (proj2 (String.eqb_neq _ _) Hs). cbn [negb].
    rewrite (proj2 (String.eqb_neq _ _) Hs). cbn [negb].
    rewrite parts_of_bytes by apply split_bytes, string_bytes_range. apply join_split.
Qed.
